(* ===== verification/_CoqProject ===== *)
-Q . S2P
Prelude.v
Token.v
Ast.v
FuncValidator.v
Lexical.v
Strconv.v
Utf8.v
Strings.v
Base64.v
Parser.v
ParserFacts.v
Grammar.v
Roundtrip.v
Value.v
Collections.v
AggFuncs.v
Cast.v
TimeFormat.v
Eval.v
Functions.v
Operators.v
Preprocess.v
Tables.v
Join.v
Order.v
Window.v
InputSlice.v
Watermark.v
Checkpoint.v
StateContext.v
SinkNode.v
Pool.v
Planner.v
Analyzer.v
Kv.v
Streams.v
Topo.v
Rules.v
Server.v
Plugins.v
SinkLoop.v
NodeLoop.v
Services.v
Rest.v
Schema.v
