(* ===== verification/Prelude.v ===== *)
(** * eKuiper: a verification of the stream processing core

    eKuiper runs SQL rules over streams of JSON messages.  A rule's text is
    scanned (src/internal/xsql/lexical.go) and parsed into the trees of
    src/pkg/ast; the planner (src/internal/topo/planner) binds and checks it,
    builds a logical plan and optimizes it; each plan becomes a node of a
    graph whose nodes run in goroutines and pass rows through channels
    (src/internal/topo/node, src/internal/topo/operator).  Operators evaluate
    expressions over rows (src/internal/xsql/valuer.go and collections.go).
    Checkpoint barriers flow through the same channels
    (src/internal/topo/checkpoint) and make the operators save their state
    (src/internal/topo/state); a sink node keeps what the sink has not
    confirmed (src/internal/topo/node/sink_cache.go).  Streams and rules are
    stored as text in a key-value store (src/pkg/kv, src/internal/processor);
    the server (src/internal/server) starts and stops the rules.

    ** Files

    - [Prelude]: Go's integers at their width, its truncated division, IEEE
      floats, ASCII case mapping, [strings.Split] and [Trim], association lists
      as maps, stable sort; tactics, the hint database [kuiper], and
      reachability with its invariant rule.
    - [Token], [Ast], [Lexical]: pkg/ast/token.go, the trees of pkg/ast with the
      traversal [walk_expr] of visitor.go and the aggregate checks of
      checkAgg.go, and the scanner of xsql/lexical.go over a list of runes.
    - [FuncValidator], [Parser]: the argument checks of funcsAstValidator.go, and
      parser.go, sqlValidator.go and manager.go as functions from a parser to a
      result and the parser after it.  [ParserFacts] shows that they end,
      [Grammar] how operators are grouped and that expressions written as tokens
      are read back, [Roundtrip] that statements written as text are.
    - [Strconv], [Utf8], [Strings], [Base64]: what the program uses of the
      packages strconv, unicode/utf8, strings and encoding/base64.
    - [Value], [Collections], [AggFuncs], [Eval]: the values an [interface{}]
      holds, [simpleDataEval] with its overflow, subset and index; messages,
      tuples, window, join and group sets of collections.go; the aggregate
      functions of funcsAggregate.go; and [ValuerEval.Eval] over row and
      aggregate valuers.
    - [Cast], [TimeFormat], [Functions]: the conversions of pkg/cast with their
      strictness, times and time formats, and the scalar functions of
      funcsMath.go, funcsStr.go and funcsMisc.go, which implement the interface
      [Eval.Builtins]; [Eval.TotalBuiltins] is what evaluation asks of them.
    - [Preprocess], [Tables]: field_processor.go and preprocessor.go, which decode
      the messages of a source by their schema; table_processor.go and
      join_align_node.go, which collect tables and add them to windows.
    - [Operators], [Join], [Order]: the [Apply] methods of the operators.
    - [Window], [Watermark], [InputSlice]: window_op.go (processing time, count and session
      windows, resuming) and watermark.go (event time); [InputSlice] runs the
      same steps on Go slices that share their arrays with snapshots.
    - [Checkpoint], [StateContext], [SinkNode]: barrier handling, the coordinator
      and the store of checkpoints; the state of an operator and of its
      functions; sink cache, delivery with retries and channel buffer.
    - [Pool]: source_pool.go, the sources that rules share, with their locks, and
      the configuration and start of source nodes.
    - [Planner], [Analyzer]: the logical plan, column pruning and predicate
      push-down; binding and validation of the statement, which come first.
    - [Topo]: topo.go and [buildOps], the graph of nodes that a plan is turned
      into, the barrier handlers of its nodes, and [Plan] from the text of a rule.
    - [Kv], [Streams], [Rules], [Server]: the key-value store as an interface
      with laws and SQLite as its instance; the processors of stream and of rule
      definitions (stream.go, rule.go); the registry of rules and the goroutines
      that run them (ruleManager.go, the rule handlers of rest.go and rpc.go).
      [Rest]: the handlers of streams and tables with their statuses.
    - [Plugins], [Services]: the plugin manager (internal/plugin/manager.go) with
      its registry of functions, and the manager of external services
      (internal/service) with its buffers, databases and executors.
      [Schema]: the parameters of a call as protobuf messages and back (schema.go).
    - [SinkLoop], [NodeLoop]: nodes as they run: the loop of a sink with its cache
      and restarts, and chains of unary operators, each with its goroutine and
      its bounded channel, with their metrics (stats_manager.go).

    ** How state and effects are modelled

    Pointers to mutable state become explicit state: an operator is a record
    and a handler a function from the record and the input to the record and
    what it emits.  A Go panic is [None]; a Go error returned next to a value
    is a sum; an [error] carried as a value is [VError] with its format and
    arguments.  Rows are values, but an evaluation stores the aliases it
    computes in the row, and copies of a Go struct share its alias map once
    there is one; [Eval] says which copies share and returns the changed rows.
    Goroutines become sequences of steps ([Window.run], [Checkpoint.align],
    [Checkpoint.coord_run], [SinkNode.buf_run]) and the theorems hold for every
    sequence.  Go maps are association lists where their order shows (the
    evaluator) and [gmap]s where it does not; [MapOrder] gives the order of a
    range over a map and is only known to be a permutation.

    Code outside the repository, and what would be a library of its own, is a
    parameter: time parsing and formatting ([TimeParse], [TimeFormatter]), [fmt]
    of atoms ([GoFmt]), parsing and printing of floats and conversions of floats
    out of range ([FloatLib]), plugin functions ([Plugins]), JSON ([Marshal],
    [JsonDecode]), transcendental functions, hashes, regular expressions, JSON
    paths and the clock ([Externals]), the JSON of stored definitions
    ([InfoJson], [RuleJson]), and what SQLite does with a pasted condition
    ([Sql]); the disk, archives, downloads, scripts and shared objects
    ([Plugins.Disk]), the files and schemas of services
    ([Services.ServiceFiles]) and messages ([Schema.DynamicMessages]).  Any statement of the database may fail.

    ** What is shown

    - Scanning is total and progresses ([Lexical]); parsing ends on every text
      without a panic ([ParserFacts]); operators are grouped in the only way
      their precedence allows ([Grammar]); a SELECT statement written as text is
      scanned and parsed back to itself ([Roundtrip]); the validation of calls
      never indexes past their arguments ([FuncValidator]); the aggregate check
      is exact ([Ast]).
    - Integer operators are exact up to wrap-around and mixed comparisons are
      exact on all of int64 and uint64; comparisons give booleans; which slices
      panic is decided ([Value]).  Column lookup is specified and independent of
      map order; collecting tuples keeps them ([Collections]).
    - Conversions stay in the range of their type, do not depend on how loose
      they are where they succeed, and integers survive strings ([Cast],
      [Functions]); time formats mean their pieces ([TimeFormat]); decoded
      messages have the types of their schema ([Preprocess]); tables implement
      lists, and windows are joined with the newest of them ([Tables]).
    - Evaluation is total at row level ([Eval]), also with the scalar functions,
      of which those that can panic are listed ([Functions]), and changes nothing
      of a row but its aliases, which are evaluated once ([Eval]); sum, avg, max and min are what
      they should be on integer columns ([AggFuncs]).
    - WHERE, HAVING, SELECT and GROUP BY against list specifications
      ([Operators]), the first join against the relational one ([Join]), ORDER
      BY as an ordered permutation ([Order]).
    - A scan of a window shows and retains exactly the right tuples, tumbling
      windows emit every tuple once over whole runs, count windows refine a list
      specification ([Window]); the watermark is the minimum and closes exactly
      the windows it passes, in order ([Watermark]); the in-place slice of waiting
      tuples implements the list, but not for its snapshots ([InputSlice]).
    - Alignment cuts consistently; checkpoints complete only when acknowledged
      by all, and in order ([Checkpoint]); the snapshot is what a restart
      reads, and functions do not share state ([StateContext]); unconfirmed results survive, delivery ends, the buffer is a
      queue ([SinkNode]); shared sources are open exactly while rules use them,
      and every rule gets what arrives while it is attached ([Pool]).
    - The optimized plan evaluates exactly the conditions of the statement and
      decodes exactly the columns it needs ([Planner]); binding replaces every
      reference by its meaning, and what validation accepts is characterised
      ([Analyzer]).  The graph of a rule realizes its plan, and its checkpoints
      wait for every input of every operator ([Topo]).
    - The SQLite store keeps the promises of the interface for keys without
      quotes ([Kv]); over any store that does, the processors implement a
      catalogue of definitions and one of rules, also when the database fails
      ([Streams], [Rules]).  The server implements a catalogue of rules and a set
      of running rules; it does not panic on any sequence of requests as long as
      the goroutines of a request run before the next one, and a restart runs the
      rules that are stored as triggered ([Server], which also shows what happens
      when a request overtakes a goroutine).  The REST interface of streams keeps
      to the catalogue, with exact statuses ([Rest]).
    - Registering and deleting plugins keeps the functions in step with the
      database, from which a restart restores them ([Plugins]).  The buffers of
      the service manager never show as long as no service takes a function from
      another, and deleting undoes creating ([Services]).  What is encoded for a
      field has its Go type, and a map of the types of a schema survives being
      encoded and decoded, at any depth ([Schema]).
    - A running sink loses no result, however its goroutines are interleaved, as
      long as it is not stopped while its channel is full ([SinkLoop]); a chain
      of running operators computes their composition and ends ([NodeLoop]).

    Theorems that show a defect of the code are stated with the computed
    behaviour, e.g. [Join.later_inner_join_spec], [Order.less_contradicts_itself],
    [Window.session_resume_panics], [Checkpoint.overtaken_alignment_loses_order],
    [Planner.left_join_filters_before_joining].

    ** Bounds and fuel

    [Lexical.scan_all] has fuel one more than the number of runes, which
    [scan_all_total] shows to be enough.  The functions of [Parser] take a fuel;
    four units per rune and four more ([ParserFacts.parse_fuel]) are enough, by
    [parse_total].  [Watermark.on_watermark] has fuel for
    the milliseconds up to the watermark (windows) or for the waiting tuples
    (sessions), [Window.resume_ticks] for the milliseconds to catch up; the
    theorems about them state that the loop ended by itself.  [Order] covers up
    to twelve rows, where [sort.Sort] is one shell pass and an insertion sort.
    The conversions of [Schema] have the depth of the value as their fuel.

    ** Not modelled

    Clients of external systems (sources, sinks, the remote calls of services),
    the mapping of services to HTTP, HTTP and RPC themselves, the metadata files of plugins, the command line and
    configuration files are I/O.  Opening the nodes of a graph starts goroutines;
    their loops are modelled, and of unary operators and sinks how they are
    interleaved, for one instance of each node; several instances of a node, the
    property runAsync and Prometheus are not. *)

From Stdlib Require Import ZArith Lia Bool List String Ascii SpecFloat.
From Stdlib Require Import Permutation Sorted.
Import ListNotations.

Declare Scope go_scope.
Delimit Scope go_scope with go.

#[global] Open Scope Z_scope.
#[global] Open Scope list_scope.

(** ** Tactics *)

Ltac inv H := inversion H; subst; clear H.

(** Case analysis on the scrutinee of the first [match] or [if] found. *)
Ltac break_match_goal :=
  match goal with
  | |- context [match ?x with _ => _ end] => destruct x eqn:?
  end.

Ltac break_match_hyp H :=
  match type of H with
  | context [match ?x with _ => _ end] => destruct x eqn:?
  end.

(** Turns boolean comparisons of hypotheses and goal into propositions. *)
Ltac bool_to_prop :=
  repeat match goal with
  | H : andb _ _ = true |- _ => apply andb_true_iff in H; destruct H
  | H : orb _ _ = false |- _ => apply orb_false_iff in H; destruct H
  | H : negb _ = true |- _ => apply negb_true_iff in H
  | H : negb _ = false |- _ => apply negb_false_iff in H
  | H : (_ =? _)%Z = true |- _ => apply Z.eqb_eq in H
  | H : (_ =? _)%Z = false |- _ => apply Z.eqb_neq in H
  | H : (_ <? _)%Z = true |- _ => apply Z.ltb_lt in H
  | H : (_ <? _)%Z = false |- _ => apply Z.ltb_ge in H
  | H : (_ <=? _)%Z = true |- _ => apply Z.leb_le in H
  | H : (_ <=? _)%Z = false |- _ => apply Z.leb_gt in H
  | H : (_ >? _)%Z = true |- _ => rewrite Z.gtb_ltb in H; apply Z.ltb_lt in H
  | H : (_ >? _)%Z = false |- _ => rewrite Z.gtb_ltb in H; apply Z.ltb_ge in H
  | H : (_ >=? _)%Z = true |- _ => rewrite Z.geb_leb in H; apply Z.leb_le in H
  | H : (_ >=? _)%Z = false |- _ => rewrite Z.geb_leb in H; apply Z.leb_gt in H
  | H : (_ =? _)%nat = true |- _ => apply Nat.eqb_eq in H
  | H : (_ =? _)%nat = false |- _ => apply Nat.eqb_neq in H
  | H : (_ <? _)%nat = true |- _ => apply Nat.ltb_lt in H
  | H : (_ <? _)%nat = false |- _ => apply Nat.ltb_ge in H
  | H : (_ <=? _)%nat = true |- _ => apply Nat.leb_le in H
  | H : (_ <=? _)%nat = false |- _ => apply Nat.leb_gt in H
  | H : String.eqb _ _ = true |- _ => apply String.eqb_eq in H
  | H : String.eqb _ _ = false |- _ => apply String.eqb_neq in H
  end.

(** ** Outcomes

    What a call ends in: a panic ([None]), an error ([inl]) or a result. *)

Definition outcome (E A : Type) : Type := option (E + A).

Definition ok {E A} (a : A) : outcome E A := Some (inr a).
Definition fails {E A} (e : E) : outcome E A := Some (inl e).
Definition panics {E A} : outcome E A := None.

Definition obind {E A B} (m : outcome E A) (k : A -> outcome E B) : outcome E B :=
  match m with Some (inr a) => k a | Some (inl e) => Some (inl e) | None => None end.

(** The error replaced by another one. *)
Definition on_error {E A} (f : E -> E) (m : outcome E A) : outcome E A :=
  match m with Some (inl e) => Some (inl (f e)) | _ => m end.

Declare Scope outcome_scope.
Delimit Scope outcome_scope with outcome.
Notation "'let!' x ':=' m 'in' k" := (obind m (fun x => k)) (at level 10, x pattern, k at level 200) : outcome_scope.

Lemma obind_ok {E A B} (m : outcome E A) (k : A -> outcome E B) b :
  obind m k = ok b -> exists a, m = ok a /\ k a = ok b.
Proof. destruct m as [[e|a]|]; try discriminate. intros H. now exists a. Qed.

Lemma on_error_ok {E A} (f : E -> E) (m : outcome E A) a : on_error f m = ok a -> m = ok a.
Proof. destruct m as [[e|x]|]; try discriminate. auto. Qed.

(** Takes apart a computation that ended well. *)
Ltac run_ok :=
  repeat match goal with
         | H : obind _ _ = ok _ |- _ => apply obind_ok in H as (? & ? & ?)
         | H : on_error _ _ = ok _ |- _ => apply on_error_ok in H
         | H : ok _ = ok _ |- _ => injection H as H
         | H : fails _ = ok _ |- _ => discriminate H
         | H : panics = ok _ |- _ => discriminate H
         end.

(** ** Machine integers

    A w-bit Go integer is a [Z] kept in range by wrapping after every
    operation, as the language specifies for integer overflow. *)

Definition wrapU (w z : Z) : Z := z mod 2 ^ w.

Definition wrapS (w z : Z) : Z := (z + 2 ^ (w - 1)) mod 2 ^ w - 2 ^ (w - 1).

Definition int64 (z : Z) : Z := wrapS 64 z.
Definition uint64 (z : Z) : Z := wrapU 64 z.
Definition MaxInt64 : Z := 9223372036854775807.
Definition MinInt64 : Z := -9223372036854775808.
Definition MinInt32 : Z := -2147483648.
Definition MaxInt16 : Z := 32767.

Definition in_int64 (z : Z) : Prop := MinInt64 <= z <= MaxInt64.
Definition in_uint64 (z : Z) : Prop := 0 <= z < 2 ^ 64.

(** Go's [/] and [%] truncate towards zero. *)
Definition go_div (a b : Z) : Z := Z.quot a b.
Definition go_mod (a b : Z) : Z := Z.rem a b.

Lemma int64_range z : in_int64 (int64 z).
Proof.
  unfold in_int64, int64, wrapS, MinInt64, MaxInt64.
  pose proof (Z.mod_pos_bound (z + 2 ^ (64 - 1)) (2 ^ 64) eq_refl).
  lia.
Qed.

Lemma int64_id z : in_int64 z -> int64 z = z.
Proof.
  unfold in_int64, int64, wrapS, MinInt64, MaxInt64. intros H.
  rewrite Z.mod_small; lia.
Qed.

Lemma int64_idem z : int64 (int64 z) = int64 z.
Proof. apply int64_id, int64_range. Qed.

Lemma uint64_range z : in_uint64 (uint64 z).
Proof. unfold in_uint64, uint64, wrapU. apply Z.mod_pos_bound. lia. Qed.

Lemma uint64_id z : in_uint64 z -> uint64 z = z.
Proof. unfold in_uint64, uint64, wrapU. intros. apply Z.mod_small. lia. Qed.

(** Wrapping only changes a number by a multiple of [2^64]. *)
Lemma int64_mod z : int64 z mod 2 ^ 64 = z mod 2 ^ 64.
Proof.
  unfold int64, wrapS.
  rewrite Zminus_mod_idemp_l. f_equal. lia.
Qed.

Lemma int64_eq_mod a b : a mod 2 ^ 64 = b mod 2 ^ 64 -> int64 a = int64 b.
Proof.
  unfold int64, wrapS. intros H.
  rewrite (Zplus_mod a), H, <- (Zplus_mod b). reflexivity.
Qed.

Lemma uint64_int64 z : uint64 (int64 z) = uint64 z.
Proof. unfold uint64, wrapU. apply int64_mod. Qed.

Lemma int64_uint64 z : int64 (uint64 z) = int64 z.
Proof. apply int64_eq_mod. unfold uint64, wrapU. apply Zmod_mod. Qed.

(** ** IEEE 754 binary64

    [float64] is the standard library's specification floats at precision
    53 and exponent bound 1024. *)

Definition float64 := spec_float.
Definition f64_prec : Z := 53.
Definition f64_emax : Z := 1024.
Definition f64_add : float64 -> float64 -> float64 := SFadd f64_prec f64_emax.
Definition f64_sub : float64 -> float64 -> float64 := SFsub f64_prec f64_emax.
Definition f64_mul : float64 -> float64 -> float64 := SFmul f64_prec f64_emax.
Definition f64_div : float64 -> float64 -> float64 := SFdiv f64_prec f64_emax.
Definition f64_eqb : float64 -> float64 -> bool := SFeqb.
Definition f64_ltb : float64 -> float64 -> bool := SFltb.
Definition f64_leb : float64 -> float64 -> bool := SFleb.
Definition f64_zero : float64 := S754_zero false.
Definition f64_of_Z (z : Z) : float64 := binary_normalize f64_prec f64_emax z 0 false.
Definition f64_is_zero (f : float64) : bool := f64_eqb f f64_zero.

(** Go's [math.Mod]: the result has the sign of [x] and is exact. *)
Definition f64_mod (x y : float64) : float64 :=
  match x, y with
  | S754_nan, _ | _, S754_nan => S754_nan
  | S754_infinity _, _ => S754_nan
  | _, S754_zero _ => S754_nan
  | _, S754_infinity _ => x
  | S754_zero _, _ => x
  | S754_finite sx mx ex, S754_finite _ my ey =>
      let e := Z.min ex ey in
      let a := Z.pos mx * 2 ^ (ex - e) in
      let b := Z.pos my * 2 ^ (ey - e) in
      let r := a mod b in
      binary_normalize f64_prec f64_emax (if sx then - r else r) e sx
  end.

(** Conversion of a float to a signed 64-bit integer: truncation; the
    result of an out-of-range conversion is implementation defined and is
    taken to be [MinInt64], as amd64 does. *)
Definition f64_trunc (f : float64) : Z :=
  match f with
  | S754_finite s m e =>
      let a := if 0 <=? e then Z.pos m * 2 ^ e else Z.pos m / 2 ^ (- e) in
      if s then - a else a
  | _ => 0
  end.

Definition f64_to_int64 (f : float64) : Z :=
  match f with
  | S754_nan | S754_infinity _ => MinInt64
  | _ => let t := f64_trunc f in
         if (MinInt64 <=? t) && (t <=? MaxInt64) then t else MinInt64
  end.

(** ** Strings

    A Go string is a byte sequence, here the standard library's
    [string].  Case mapping is the ASCII part of [strings.ToLower] and
    [strings.ToUpper]; bytes of 128 and more are left alone. *)

Definition ascii_lower (c : ascii) : ascii :=
  let n := N_of_ascii c in
  if ((65 <=? n) && (n <=? 90))%N then ascii_of_N (n + 32) else c.

Definition ascii_upper (c : ascii) : ascii :=
  let n := N_of_ascii c in
  if ((97 <=? n) && (n <=? 122))%N then ascii_of_N (n - 32) else c.

Fixpoint smap (f : ascii -> ascii) (s : string) : string :=
  match s with
  | EmptyString => EmptyString
  | String c s' => String (f c) (smap f s')
  end.

Definition to_lower (s : string) : string := smap ascii_lower s.
Definition to_upper (s : string) : string := smap ascii_upper s.

Arguments to_lower : simpl never.
Arguments to_upper : simpl never.

Lemma ascii_lower_idem c : ascii_lower (ascii_lower c) = ascii_lower c.
Proof. destruct c as [[] [] [] [] [] [] [] []]; reflexivity. Qed.

Lemma to_lower_idem s : to_lower (to_lower s) = to_lower s.
Proof.
  induction s as [|c s IH]; [reflexivity|].
  change (String (ascii_lower (ascii_lower c)) (to_lower (to_lower s))
          = String (ascii_lower c) (to_lower s)).
  now rewrite ascii_lower_idem, IH.
Qed.

Lemma to_lower_app s t : to_lower (s ++ t)%string = (to_lower s ++ to_lower t)%string.
Proof.
  induction s as [|c s IH]; [reflexivity|].
  change (String (ascii_lower c) (to_lower (s ++ t))
          = String (ascii_lower c) (to_lower s ++ to_lower t)%string).
  now rewrite IH.
Qed.

(** [strings.Split] on a one-byte separator; never empty. *)
Lemma sapp_assoc (s t u : string) : ((s ++ t) ++ u = s ++ (t ++ u))%string.
Proof. induction s as [|c s IH]; cbn; [reflexivity|now rewrite IH]. Qed.

Fixpoint split_on (sep : ascii) (s : string) : list string :=
  match s with
  | EmptyString => [EmptyString]
  | String c s' =>
      if Ascii.eqb c sep then EmptyString :: split_on sep s'
      else match split_on sep s' with
           | [] => [String c EmptyString]
           | w :: ws => String c w :: ws
           end
  end.

Fixpoint has_char (sep : ascii) (s : string) : bool :=
  match s with
  | EmptyString => false
  | String c s' => Ascii.eqb c sep || has_char sep s'
  end.

Lemma split_on_free sep s : has_char sep s = false -> split_on sep s = [s].
Proof.
  induction s as [|c s IH]; cbn; intros H; [reflexivity|].
  apply orb_false_iff in H as [-> H]. now rewrite IH.
Qed.

Lemma split_on_app sep s t :
  has_char sep s = false ->
  split_on sep (s ++ String sep t) = s :: split_on sep t.
Proof.
  induction s as [|c s IH]; cbn; intros H.
  - now rewrite Ascii.eqb_refl.
  - apply orb_false_iff in H as [-> H]. now rewrite IH.
Qed.

(** [strings.Trim(s, " ")]. *)
Fixpoint trim_left (s : string) : string :=
  match s with
  | String " "%char s' => trim_left s'
  | _ => s
  end.

Fixpoint trim_right (s : string) : string :=
  match s with
  | EmptyString => EmptyString
  | String c s' =>
      match trim_right s' with
      | EmptyString => if Ascii.eqb c " " then EmptyString else String c EmptyString
      | r => String c r
      end
  end.

Definition trim (s : string) : string := trim_right (trim_left s).

Definition str_ltb (a b : string) : bool :=
  match String.compare a b with Lt => true | _ => false end.

Definition str_leb (a b : string) : bool :=
  match String.compare a b with Gt => false | _ => true end.

(** Decimal rendering of an integer, [strconv.Itoa]. *)
Fixpoint digits_aux (fuel : nat) (z : Z) (acc : string) : string :=
  match fuel with
  | O => acc
  | S f =>
      let acc' := String (ascii_of_N (Z.to_N (48 + z mod 10))) acc in
      if z / 10 =? 0 then acc' else digits_aux f (z / 10) acc'
  end.

Definition itoa (z : Z) : string :=
  if z <? 0 then ("-" ++ digits_aux 40 (- z) "")%string else digits_aux 40 z "".

(** ** Association lists: Go maps whose iteration order is observable *)

Section Assoc.
Context {V : Type}.

Fixpoint assoc (k : string) (m : list (string * V)) : option V :=
  match m with
  | [] => None
  | (k', v) :: m' => if String.eqb k' k then Some v else assoc k m'
  end.

(** [m[k] = v]: replaces in place, appends a new key at the end. *)
Fixpoint assoc_set (k : string) (v : V) (m : list (string * V)) : list (string * V) :=
  match m with
  | [] => [(k, v)]
  | (k', v') :: m' => if String.eqb k' k then (k', v) :: m' else (k', v') :: assoc_set k v m'
  end.

Definition keys (m : list (string * V)) : list string := map fst m.

Lemma assoc_set_same k v m : assoc k (assoc_set k v m) = Some v.
Proof.
  induction m as [|[k' v'] m IH]; cbn.
  - now rewrite String.eqb_refl.
  - destruct (String.eqb k' k) eqn:E; cbn; now rewrite E.
Qed.

Lemma assoc_set_other k k' v m : k <> k' -> assoc k' (assoc_set k v m) = assoc k' m.
Proof.
  intros Hne. induction m as [|[k0 v0] m IH]; cbn.
  - now apply String.eqb_neq in Hne as ->.
  - destruct (String.eqb k0 k) eqn:E; cbn; [|now rewrite IH].
    apply String.eqb_eq in E as ->. now apply String.eqb_neq in Hne as ->.
Qed.

Lemma assoc_None_keys k m : assoc k m = None <-> ~ In k (keys m).
Proof.
  induction m as [|[k' v'] m IH]; cbn; [tauto|].
  destruct (String.eqb k' k) eqn:E; bool_to_prop; subst.
  - split; [discriminate|]. intros H. exfalso. apply H. now left.
  - rewrite IH. intuition congruence.
Qed.

Lemma assoc_In k v m : assoc k m = Some v -> In (k, v) m.
Proof.
  induction m as [|[k' v'] m IH]; cbn; [discriminate|].
  destruct (String.eqb k' k) eqn:E; bool_to_prop; subst; [|auto].
  intros [= ->]. now left.
Qed.

Lemma In_assoc k v m : NoDup (keys m) -> In (k, v) m -> assoc k m = Some v.
Proof.
  induction m as [|[k' v'] m IH]; cbn; [tauto|].
  rewrite NoDup_cons_iff. intros [Hn Hd] [[= -> ->]|Hin].
  - now rewrite String.eqb_refl.
  - destruct (String.eqb k' k) eqn:E; bool_to_prop; subst; [|auto].
    exfalso. apply Hn. apply in_map_iff. now exists (k, v).
Qed.

Lemma keys_assoc_set k v m : NoDup (keys m) -> NoDup (keys (assoc_set k v m)).
Proof.
  induction m as [|[k' v'] m IH]; cbn; intros Hd.
  - constructor; [tauto|constructor].
  - apply NoDup_cons_iff in Hd as [Hn Hd].
    destruct (String.eqb k' k) eqn:E; cbn; constructor; auto.
    intros Hin. apply Hn. clear IH Hn Hd. bool_to_prop.
    induction m as [|[k0 v0] m IH]; cbn in Hin |- *; [intuition congruence|].
    destruct (String.eqb k0 k); cbn in Hin; tauto.
Qed.
End Assoc.

(** ** Lists *)

Lemma filter_all {A} (f : A -> bool) l : (forall x, In x l -> f x = true) -> filter f l = l.
Proof.
  induction l as [|a l IH]; cbn; intros H; [reflexivity|].
  rewrite H by auto. now rewrite IH by auto.
Qed.

Lemma filter_none {A} (f : A -> bool) l : (forall x, In x l -> f x = false) -> filter f l = [].
Proof.
  induction l as [|a l IH]; cbn; intros H; [reflexivity|].
  rewrite H by auto. now rewrite IH by auto.
Qed.

Lemma filter_filter {A} (f g : A -> bool) l :
  filter f (filter g l) = filter (fun x => g x && f x) l.
Proof.
  induction l as [|a l IH]; cbn; [reflexivity|].
  destruct (g a); cbn; [destruct (f a); cbn|]; now rewrite IH.
Qed.

(** Suffix of the last [n] elements. *)
Definition lastn {A} (n : nat) (l : list A) : list A := skipn (List.length l - n) l.

Lemma length_lastn {A} n (l : list A) : (n <= List.length l)%nat -> List.length (lastn n l) = n.
Proof. intros H. unfold lastn. rewrite length_skipn. lia. Qed.

Lemma lastn_app_ge {A} n (l r : list A) :
  (n <= List.length r)%nat -> lastn n (l ++ r) = lastn n r.
Proof.
  intros H. unfold lastn. rewrite skipn_app, length_app.
  rewrite (skipn_all2 l) by lia. cbn. f_equal. lia.
Qed.

Lemma lastn_all {A} n (l : list A) : (List.length l <= n)%nat -> lastn n l = l.
Proof. intros H. unfold lastn. now replace (List.length l - n)%nat with 0%nat by lia. Qed.

(** Dropping from the left before taking a suffix that still fits. *)
Lemma lastn_skipn {A} n k (l : list A) :
  (n + k <= List.length l)%nat -> lastn n (skipn k l) = lastn n l.
Proof.
  intros H. unfold lastn. rewrite skipn_skipn, length_skipn. f_equal. lia.
Qed.

(** ** Stable sorting by an integer key

    [sort.SliceStable] with [key a < key b]: a stable sort has exactly one
    possible result, computed here by insertion. *)

Section StableSort.
Context {A : Type} (key : A -> Z).

Fixpoint sinsert (x : A) (l : list A) : list A :=
  match l with
  | [] => [x]
  | y :: l' => if key x <=? key y then x :: l else y :: sinsert x l'
  end.

Definition stable_sort (l : list A) : list A := fold_right sinsert [] l.

Definition key_le (a b : A) : Prop := key a <= key b.

Lemma sinsert_perm x l : Permutation (x :: l) (sinsert x l).
Proof.
  induction l as [|y l IH]; cbn; [reflexivity|].
  destruct (key x <=? key y); [reflexivity|].
  rewrite perm_swap. now apply perm_skip.
Qed.

Lemma stable_sort_perm l : Permutation l (stable_sort l).
Proof.
  induction l as [|x l IH]; cbn; [reflexivity|].
  rewrite <- sinsert_perm. now apply perm_skip.
Qed.

Lemma sinsert_sorted x l : StronglySorted key_le l -> StronglySorted key_le (sinsert x l).
Proof.
  induction 1 as [|y l Hs IH Hy]; cbn; [constructor; constructor|].
  destruct (key x <=? key y) eqn:E; bool_to_prop.
  - constructor; [constructor; assumption|]. constructor; [exact E|].
    eapply Forall_impl; [|exact Hy]. unfold key_le. intros; lia.
  - constructor; [assumption|].
    eapply Permutation_Forall; [apply sinsert_perm|]. constructor; [unfold key_le; lia|assumption].
Qed.

Lemma stable_sort_sorted l : StronglySorted key_le (stable_sort l).
Proof. induction l; cbn; [constructor|now apply sinsert_sorted]. Qed.

Lemma sinsert_filter k x l :
  filter (fun a => key a =? k) (sinsert x l) = filter (fun a => key a =? k) (x :: l).
Proof.
  induction l as [|y l IH]; cbn; [reflexivity|].
  destruct (key x <=? key y) eqn:E; cbn; [reflexivity|].
  cbn in IH. rewrite IH. bool_to_prop.
  destruct (key x =? k) eqn:E1, (key y =? k) eqn:E2; bool_to_prop; try reflexivity. lia.
Qed.

(** Equal keys keep their order. *)
Lemma stable_sort_stable k l :
  filter (fun a => key a =? k) (stable_sort l) = filter (fun a => key a =? k) l.
Proof.
  induction l as [|x l IH]; cbn; [reflexivity|].
  fold (stable_sort l). rewrite sinsert_filter. cbn [filter]. now rewrite IH.
Qed.

Lemma stable_sort_in x l : In x (stable_sort l) <-> In x l.
Proof. split; apply Permutation_in; [symmetry|]; apply stable_sort_perm. Qed.
End StableSort.

(** ** Transition systems *)

Section Reach.
Context {S L : Type} (init : S -> Prop) (step : S -> L -> S -> Prop).

Inductive reachable : S -> Prop :=
| reach_init s : init s -> reachable s
| reach_step s l s' : reachable s -> step s l s' -> reachable s'.

(** Rule induction packaged for inductive invariants. *)
Lemma reachable_invariant (I : S -> Prop) :
  (forall s, init s -> I s) ->
  (forall s l s', reachable s -> I s -> step s l s' -> I s') ->
  forall s, reachable s -> I s.
Proof. intros Hi Hs s H. induction H; eauto. Qed.
End Reach.

Create HintDb kuiper.
Create Rewrite HintDb kuiper.
#[export] Hint Resolve int64_range uint64_range : kuiper.
#[export] Hint Rewrite @length_app @length_map @length_skipn @length_firstn : kuiper.

(** One cell of a slice overwritten. *)
Fixpoint list_set {A} (i : nat) (x : A) (l : list A) : list A :=
  match l, i with
  | [], _ => []
  | _ :: l', O => x :: l'
  | y :: l', S i' => y :: list_set i' x l'
  end.

Lemma length_list_set {A} i (x : A) l : List.length (list_set i x l) = List.length l.
Proof. revert i. induction l; intros [|i]; cbn; auto. Qed.

Lemma nth_list_set {A} i j (x d : A) l : nth j (list_set i x l) d = if Nat.eqb i j && Nat.ltb j (List.length l) then x else nth j l d.
Proof.
  revert i j. induction l as [|y l IH]; intros [|i] [|j]; cbn; auto; try apply IH; now rewrite andb_false_r.
Qed.
