(* ===== verification/Token.v ===== *)
(** Tokens and data types of the SQL dialect (src/pkg/ast/token.go): the
    [Token] enumeration in declaration order, its printed names, the operator
    classification and the operator precedences used by the expression parser,
    and the [DataType] enumeration of stream fields. *)

From S2P Require Import Prelude.
From Stdlib Require Import ZArith Lia Bool List String Ascii.
Import ListNotations.

(** ** The token enumeration *)

Inductive Token : Type :=
  | ILLEGAL | EOF | WS | COMMENT | AS | IDENT | INTEGER | NUMBER | STRING | BADSTRING
  | operatorBeg | ADD | SUB | MUL | DIV | MOD | BITWISE_AND | BITWISE_OR | BITWISE_XOR
  | AND | OR | EQ | NEQ | LT | LTE | GT | GTE | SUBSET | ARROW | operatorEnd | ASTERISK
  | COMMA | LPAREN | RPAREN | LBRACKET | RBRACKET | HASH | DOT | COLON | SEMICOLON
  | COLSEP | SELECT | FROM | JOIN | INNER | LEFT | RIGHT | FULL | CROSS | ON | WHERE
  | GROUP | ORDER | HAVING | BY | ASC | DESC | FILTER | CASE | WHEN | THEN | ELSE | END
  | TRUE | FALSE | CREATE | DROP | EXPLAIN | DESCRIBE | SHOW | STREAM | TABLE | STREAMS
  | TABLES | WITH | XBIGINT | XFLOAT | XSTRING | XBYTEA | XDATETIME | XBOOLEAN | XARRAY
  | XSTRUCT | DATASOURCE | KEY | FORMAT | CONF_KEY | TYPE | STRICT_VALIDATION
  | TIMESTAMP | TIMESTAMP_FORMAT | RETAIN_SIZE | SHARED | DD | HH | MI | SS | MS.

(** The tokens in the order of the [iota] declaration. *)
Definition all_tokens : list Token :=
  [ILLEGAL; EOF; WS; COMMENT; AS; IDENT; INTEGER; NUMBER; STRING; BADSTRING;
  operatorBeg; ADD; SUB; MUL; DIV; MOD; BITWISE_AND; BITWISE_OR; BITWISE_XOR; AND; OR;
  EQ; NEQ; LT; LTE; GT; GTE; SUBSET; ARROW; operatorEnd; ASTERISK; COMMA; LPAREN;
  RPAREN; LBRACKET; RBRACKET; HASH; DOT; COLON; SEMICOLON; COLSEP; SELECT; FROM; JOIN;
  INNER; LEFT; RIGHT; FULL; CROSS; ON; WHERE; GROUP; ORDER; HAVING; BY; ASC; DESC;
  FILTER; CASE; WHEN; THEN; ELSE; END; TRUE; FALSE; CREATE; DROP; EXPLAIN; DESCRIBE;
  SHOW; STREAM; TABLE; STREAMS; TABLES; WITH; XBIGINT; XFLOAT; XSTRING; XBYTEA;
  XDATETIME; XBOOLEAN; XARRAY; XSTRUCT; DATASOURCE; KEY; FORMAT; CONF_KEY; TYPE;
  STRICT_VALIDATION; TIMESTAMP; TIMESTAMP_FORMAT; RETAIN_SIZE; SHARED; DD; HH; MI; SS;
  MS].

Definition token_dec : forall a b : Token, {a = b} + {a <> b}.
Proof. decide equality. Defined.

Definition tok_eqb (a b : Token) : bool := if token_dec a b then true else false.

(** The numeric value of a token: its position in the declaration. *)
Fixpoint index_of (t : Token) (l : list Token) : Z :=
  match l with
  | [] => 0
  | t' :: l' => if token_dec t t' then 0 else 1 + index_of t l'
  end.

Definition tok_num (t : Token) : Z := index_of t all_tokens.

(** The table [Tokens]; tokens it does not list print as the empty string. *)
Definition Tokens (t : Token) : string :=
  match t with
  | ILLEGAL => "ILLEGAL"
  | EOF => "EOF"
  | AS => "AS"
  | WS => "WS"
  | IDENT => "IDENT"
  | INTEGER => "INTEGER"
  | NUMBER => "NUMBER"
  | STRING => "STRING"
  | ADD => "+"
  | SUB => "-"
  | MUL => "*"
  | DIV => "/"
  | MOD => "%"
  | BITWISE_AND => "&"
  | BITWISE_OR => "|"
  | BITWISE_XOR => "^"
  | EQ => "="
  | NEQ => "!="
  | LT => "<"
  | LTE => "<="
  | GT => ">"
  | GTE => ">="
  | SUBSET => "[]"
  | ARROW => "->"
  | ASTERISK => "*"
  | COMMA => ","
  | LPAREN => "("
  | RPAREN => ")"
  | LBRACKET => "["
  | RBRACKET => "]"
  | HASH => "#"
  | DOT => "."
  | SEMICOLON => ";"
  | COLON => ":"
  | COLSEP => String (ascii_of_nat 7) EmptyString
  | SELECT => "SELECT"
  | FROM => "FROM"
  | JOIN => "JOIN"
  | LEFT => "LEFT"
  | INNER => "INNER"
  | ON => "ON"
  | WHERE => "WHERE"
  | GROUP => "GROUP"
  | ORDER => "ORDER"
  | HAVING => "HAVING"
  | BY => "BY"
  | ASC => "ASC"
  | DESC => "DESC"
  | CREATE => "CREATE"
  | DROP => "RROP"
  | EXPLAIN => "EXPLAIN"
  | DESCRIBE => "DESCRIBE"
  | SHOW => "SHOW"
  | STREAM => "STREAM"
  | TABLE => "TABLE"
  | STREAMS => "STREAMS"
  | TABLES => "TABLES"
  | WITH => "WITH"
  | XBIGINT => "BIGINT"
  | XFLOAT => "FLOAT"
  | XSTRING => "STRING"
  | XBYTEA => "BYTEA"
  | XDATETIME => "DATETIME"
  | XBOOLEAN => "BOOLEAN"
  | XARRAY => "ARRAY"
  | XSTRUCT => "STRUCT"
  | DATASOURCE => "DATASOURCE"
  | KEY => "KEY"
  | FORMAT => "FORMAT"
  | CONF_KEY => "CONF_KEY"
  | TYPE => "TYPE"
  | STRICT_VALIDATION => "STRICT_VALIDATION"
  | TIMESTAMP => "TIMESTAMP"
  | TIMESTAMP_FORMAT => "TIMESTAMP_FORMAT"
  | RETAIN_SIZE => "RETAIN_SIZE"
  | SHARED => "SHARED"
  | AND => "AND"
  | OR => "OR"
  | TRUE => "TRUE"
  | FALSE => "FALSE"
  | DD => "DD"
  | HH => "HH"
  | MI => "MI"
  | SS => "SS"
  | MS => "MS"
  | _ => ""
  end%string.

(** The separator of [stream<BEL>column] keys, as a byte and as a string. *)
Definition colsep_char : ascii := ascii_of_nat 7.

Definition COLUMN_SEPARATOR : string := Tokens COLSEP.

Definition IsOperator (t : Token) : bool :=
  (tok_num operatorBeg <? tok_num t) && (tok_num t <? tok_num operatorEnd)
  || tok_eqb t ASTERISK || tok_eqb t LBRACKET.

Definition IsTimeLiteral (t : Token) : bool :=
  (tok_num DD <=? tok_num t) && (tok_num t <=? tok_num MS).

Definition AllowedSourceToken (t : Token) : bool :=
  tok_eqb t IDENT || tok_eqb t DIV || tok_eqb t HASH || tok_eqb t ADD.

Definition AllowedSFNToken (t : Token) : bool := tok_eqb t DOT.

Definition Precedence (t : Token) : Z :=
  match t with
  | OR => 1
  | AND => 2
  | EQ | NEQ | LT | LTE | GT | GTE => 3
  | ADD | SUB | BITWISE_OR | BITWISE_XOR => 4
  | MUL | DIV | MOD | BITWISE_AND | SUBSET | ARROW => 5
  | _ => 0
  end.

(** ** Data types of stream fields *)

Inductive DataType : Type :=
  | UNKNOWN | BIGINT | FLOAT | STRINGS | BYTEA | DATETIME | BOOLEAN | ARRAY | STRUCT.

Definition datatype_dec : forall a b : DataType, {a = b} + {a <> b}.
Proof. decide equality. Defined.

Definition IsSimpleType (d : DataType) : bool :=
  match d with
  | BIGINT | FLOAT | STRINGS | BYTEA | DATETIME | BOOLEAN => true
  | UNKNOWN | ARRAY | STRUCT => false
  end.

Definition dataTypes (d : DataType) : string :=
  match d with
  | UNKNOWN => ""
  | BIGINT => "bigint"
  | FLOAT => "float"
  | STRINGS => "string"
  | BYTEA => "bytea"
  | DATETIME => "datetime"
  | BOOLEAN => "boolean"
  | ARRAY => "array"
  | STRUCT => "struct"
  end%string.

Definition GetDataType (t : Token) : DataType :=
  match t with
  | XBIGINT => BIGINT
  | XFLOAT => FLOAT
  | XSTRING => STRINGS
  | XBYTEA => BYTEA
  | XDATETIME => DATETIME
  | XBOOLEAN => BOOLEAN
  | XARRAY => ARRAY
  | XSTRUCT => STRUCT
  | _ => UNKNOWN
  end.

(** The two token rewrites [ParseExpr] performs on an operator token. *)
Definition expr_op (t : Token) : Token :=
  match t with
  | ASTERISK => MUL
  | LBRACKET => SUBSET
  | _ => t
  end.

(** ** Facts about the tables *)

Lemma tok_eqb_eq a b : tok_eqb a b = true <-> a = b.
Proof. unfold tok_eqb. destruct (token_dec a b); intuition congruence. Qed.

Lemma tok_eqb_refl a : tok_eqb a a = true.
Proof. now apply tok_eqb_eq. Qed.

Lemma tok_eqb_neq a b : tok_eqb a b = false <-> a <> b.
Proof. unfold tok_eqb. destruct (token_dec a b); intuition congruence. Qed.

Lemma Precedence_range t : 0 <= Precedence t <= 5.
Proof. destruct t; cbn; lia. Qed.

(** operator classification and the precedence table agree: the
    operator tokens are exactly those to which the parser assigns a positive
    binding strength once [*] and [\[] are rewritten, and every binding
    strength of an operator is between 1 and 5. *)
Theorem operator_precedence_complete t :
  IsOperator t = true <-> 1 <= Precedence (expr_op t) <= 5.
Proof. destruct t; vm_compute; intuition congruence. Qed.

Lemma IsTimeLiteral_spec t :
  IsTimeLiteral t = true <-> In t [DD; HH; MI; SS; MS].
Proof. destruct t; vm_compute; intuition congruence. Qed.

Lemma GetDataType_simple t :
  IsSimpleType (GetDataType t) = true <->
  In t [XBIGINT; XFLOAT; XSTRING; XBYTEA; XDATETIME; XBOOLEAN].
Proof. destruct t; vm_compute; intuition congruence. Qed.
