(* ===== verification/Ast.v ===== *)
(** Abstract syntax of statements and expressions (src/pkg/ast: expr.go,
    statement.go, sourceStmt.go), the generic traversal [Walk] (visitor.go),
    the function tables (functions.go), the aggregate checks built on the
    traversal (checkAgg.go), and the argument predicates of the parser
    (funcArgsValidator.go).

    A pointer that the code may leave [nil] is an [option].  A [FieldRef]
    carries its alias binding in place: the binding's expression is a proper
    subterm, so evaluation and traversal are structural. *)

From S2P Require Import Prelude Token.
From Stdlib Require Import ZArith Lia Bool List String Ascii RelationClasses.
Import ListNotations.

#[local] Open Scope string_scope.
#[local] Open Scope list_scope.
#[local] Open Scope Z_scope.

(** ** Expressions *)

Inductive WindowType : Type :=
  | NOT_WINDOW | TUMBLING_WINDOW | HOPPING_WINDOW | SLIDING_WINDOW | SESSION_WINDOW
  | COUNT_WINDOW.

Definition wt_dec : forall a b : WindowType, {a = b} + {a <> b}.
Proof. decide equality. Defined.

Definition wt_eqb (a b : WindowType) : bool := if wt_dec a b then true else false.

Definition StreamName := string.

(** The alias binding of a field reference: the bound expression, the streams
    it refers to and the lazily computed aggregate flag. *)
Record AliasInfo (E : Type) : Type := mkAlias {
  Expression : E;
  refSources : list StreamName;
  isAggregate : option bool
}.
Arguments mkAlias {E} _ _ _.
Arguments Expression {E} _.
Arguments refSources {E} _.
Arguments isAggregate {E} _.

Unset Elimination Schemes.

Inductive expr : Type :=
  | BinaryExpr (OP : Token) (LHS RHS : expr)
  | ParenExpr (e : expr)
  | ArrowExpr (e : expr)
  | BracketExpr (e : expr)
  | ColonExpr (Start End_ : Z)
  | IndexExpr (Index : Z)
  | BooleanLiteral (b : bool)
  | TimeLiteral (t : Token)
  | IntegerLiteral (z : Z)
  | StringLiteral (s : string)
  | NumberLiteral (f : float64)
  | Wildcard (t : Token)
  | Call (name : string) (args : list expr)
  | CaseExpr (Value : option expr) (WhenClauses : list (expr * expr)) (ElseClause : option expr)
  | FieldRef (sn : StreamName) (name : string) (alias : option (AliasInfo expr))
  | MetaRef (sn : StreamName) (name : string)
  | Window (wt : WindowType) (Length : Z) (Interval : option Z) (Filter : option expr).

Set Elimination Schemes.

Definition opt_all {A} (P : A -> Prop) (o : option A) : Prop :=
  match o with Some a => P a | None => True end.

(** Induction over expressions with hypotheses for every nested expression. *)
Section ExprInd.
Variable P : expr -> Prop.
Hypothesis HBin : forall op l r, P l -> P r -> P (BinaryExpr op l r).
Hypothesis HParen : forall e, P e -> P (ParenExpr e).
Hypothesis HArrow : forall e, P e -> P (ArrowExpr e).
Hypothesis HBracket : forall e, P e -> P (BracketExpr e).
Hypothesis HColon : forall a b, P (ColonExpr a b).
Hypothesis HIndex : forall i, P (IndexExpr i).
Hypothesis HBool : forall b, P (BooleanLiteral b).
Hypothesis HTime : forall t, P (TimeLiteral t).
Hypothesis HInt : forall z, P (IntegerLiteral z).
Hypothesis HStr : forall s, P (StringLiteral s).
Hypothesis HNum : forall f, P (NumberLiteral f).
Hypothesis HWild : forall t, P (Wildcard t).
Hypothesis HCall : forall n args, Forall P args -> P (Call n args).
Hypothesis HCase : forall v ws e,
  opt_all P v -> Forall (fun w => P (fst w) /\ P (snd w)) ws -> opt_all P e ->
  P (CaseExpr v ws e).
Hypothesis HField : forall sn n a,
  opt_all (fun i => P (Expression i)) a -> P (FieldRef sn n a).
Hypothesis HMeta : forall sn n, P (MetaRef sn n).
Hypothesis HWindow : forall wt l i f, opt_all P f -> P (Window wt l i f).

Fixpoint expr_ind (e : expr) : P e :=
  let fix go_list (l : list expr) : Forall P l :=
    match l with
    | [] => Forall_nil _
    | x :: l' => Forall_cons _ (expr_ind x) (go_list l')
    end in
  let fix go_when (l : list (expr * expr)) : Forall (fun w => P (fst w) /\ P (snd w)) l :=
    match l with
    | [] => Forall_nil _
    | (c, r) :: l' => Forall_cons (c, r) (conj (expr_ind c) (expr_ind r)) (go_when l')
    end in
  let go_opt (o : option expr) : opt_all P o :=
    match o with Some x => expr_ind x | None => I end in
  match e with
  | BinaryExpr op l r => HBin op l r (expr_ind l) (expr_ind r)
  | ParenExpr x => HParen x (expr_ind x)
  | ArrowExpr x => HArrow x (expr_ind x)
  | BracketExpr x => HBracket x (expr_ind x)
  | ColonExpr a b => HColon a b
  | IndexExpr i => HIndex i
  | BooleanLiteral b => HBool b
  | TimeLiteral t => HTime t
  | IntegerLiteral z => HInt z
  | StringLiteral s => HStr s
  | NumberLiteral f => HNum f
  | Wildcard t => HWild t
  | Call n args => HCall n args (go_list args)
  | CaseExpr v ws el => HCase v ws el (go_opt v) (go_when ws) (go_opt el)
  | FieldRef sn n a =>
      HField sn n a
        (match a with
         | Some i => expr_ind (Expression i)
         | None => I
         end)
  | MetaRef sn n => HMeta sn n
  | Window wt l i f => HWindow wt l i f (go_opt f)
  end.
End ExprInd.

Definition AliasRef := AliasInfo expr.

Definition DefaultStream : StreamName := "$$default".
Definition AliasStream : StreamName := "$$alias".

(** The [IsColumn], [IsAlias] and [IsSQLField] tests depend on the stream name only. *)
Definition fr_IsColumn (sn : StreamName) : bool :=
  negb (String.eqb sn AliasStream) && negb (String.eqb sn "").

Definition fr_IsAlias (sn : StreamName) : bool := String.eqb sn AliasStream.

Definition fr_IsSQLField (sn : StreamName) : bool := negb (String.eqb sn "").

Definition fr_RefSources (sn : StreamName) (a : option AliasRef) : list StreamName :=
  if String.eqb sn AliasStream then
    match a with Some i => refSources i | None => [] end
  else if negb (String.eqb sn "") then [sn] else [].

(** ** Statements *)

Record Field : Type := mkField { f_Name : string; f_AName : string; f_Expr : expr }.
Record Table : Type := mkTable { t_Name : string; t_Alias : string }.

Inductive JoinType : Type := LEFT_JOIN | INNER_JOIN | RIGHT_JOIN | FULL_JOIN | CROSS_JOIN.

Definition jt_dec : forall a b : JoinType, {a = b} + {a <> b}.
Proof. decide equality. Defined.

Definition jt_eqb (a b : JoinType) : bool := if jt_dec a b then true else false.

Record Join : Type := mkJoin {
  j_Name : string; j_Alias : string; j_Type : JoinType; j_Expr : option expr }.

Record SortField : Type := mkSortField { s_Name : string; s_Ascending : bool }.

(** Dimensions are plain expressions; windows are dimensions too. *)
Record SelectStatement : Type := mkSelect {
  Fields : list Field;
  Sources : list Table;
  Joins : list Join;
  Condition : option expr;
  Dimensions : list expr;
  Having : option expr;
  SortFields : list SortField }.

Definition Field_GetName (f : Field) : string :=
  if negb (String.eqb (f_AName f) "") then f_AName f else f_Name f.

Definition is_FieldRef (e : expr) : bool :=
  match e with FieldRef _ _ _ => true | _ => false end.

Definition Field_IsSelectionField (f : Field) : bool :=
  if negb (String.eqb (f_AName f) "") then true else is_FieldRef (f_Expr f).

Definition Field_IsColumn (f : Field) : bool :=
  if negb (String.eqb (f_AName f) "") then false else is_FieldRef (f_Expr f).

(** [Fields.Less] on two fields: by alias, by name when there is no alias. *)
Definition Fields_Less (f g : Field) : bool :=
  str_ltb (Field_GetName f) (Field_GetName g).

Definition is_Window (e : expr) : bool :=
  match e with Window _ _ _ _ => true | _ => false end.

Fixpoint GetWindow (d : list expr) : option expr :=
  match d with
  | [] => None
  | e :: d' => if is_Window e then Some e else GetWindow d'
  end.

Fixpoint GetGroups (d : list expr) : list expr :=
  match d with
  | [] => []
  | e :: d' => if is_Window e then GetGroups d' else e :: GetGroups d'
  end.

(** ** Stream definitions *)

Inductive StreamType : Type := TypeStream | TypeTable.

Unset Elimination Schemes.

Inductive FieldType : Type :=
  | BasicType (t : DataType)
  | ArrayType (t : DataType) (elem : option FieldType)
  | RecType (fields : list (string * FieldType))
  | NilType.   (* a nil interface, which the parser lets through in places *)

Set Elimination Schemes.

Definition StreamFields := list (string * FieldType).

Record Options : Type := mkOptions {
  o_DATASOURCE : string; o_KEY : string; o_FORMAT : string; o_CONF_KEY : string;
  o_TYPE : string; o_STRICT_VALIDATION : bool; o_TIMESTAMP : string;
  o_TIMESTAMP_FORMAT : string; o_RETAIN_SIZE : Z; o_SHARED : bool }.

Record StreamStmt : Type := mkStreamStmt {
  ss_Name : StreamName;
  ss_StreamFields : option StreamFields;
  ss_Options : Options;
  ss_StreamType : StreamType }.

(** ** Traversal *)

(** What [Walk] hands to a visitor. *)
Inductive node : Type :=
  | NFields (l : list Field) | NField (f : Field)
  | NSources (l : list Table) | NTable (t : Table)
  | NJoins (l : list Join) | NJoin (j : Join)
  | NDimensions (l : list expr)
  | NSorts (l : list SortField) | NSort (s : SortField)
  | NStmt (s : SelectStatement)
  | NWhen (c r : expr)
  | NExpr (e : expr).

Section Walk.
Context {St : Type}.
Variable Visit : St -> node -> St * bool.

(** [Walk] on an expression node. *)
Fixpoint walk_expr (e : expr) (st : St) : St :=
  let '(st0, go) := Visit st (NExpr e) in
  if negb go then st0
  else
    let walk_opt (o : option expr) (s : St) : St :=
      match o with Some x => walk_expr x s | None => s end in
    let fix walk_list (l : list expr) (s : St) : St :=
      match l with [] => s | x :: l' => walk_list l' (walk_expr x s) end in
    let fix walk_when (l : list (expr * expr)) (s : St) : St :=
      match l with
      | [] => s
      | (c, r) :: l' =>
          let '(s0, go') := Visit s (NWhen c r) in
          walk_when l' (if go' then walk_expr r (walk_expr c s0) else s0)
      end in
    match e with
    | BinaryExpr _ l r => walk_expr r (walk_expr l st0)
    | Call _ args => walk_list args st0
    | ParenExpr x => walk_expr x st0
    | CaseExpr v ws el => walk_opt el (walk_when ws (walk_opt v st0))
    | Window _ len itv f =>
        let s1 := fst (Visit st0 (NExpr (IntegerLiteral len))) in
        let s2 := match itv with
                  | Some i => fst (Visit s1 (NExpr (IntegerLiteral i)))
                  | None => s1
                  end in
        walk_opt f s2
    | _ => st0
    end.

Definition walk_opt_expr (o : option expr) (st : St) : St :=
  match o with Some e => walk_expr e st | None => st end.

(** A slice node is skipped when it is nil, i.e. empty here. *)
Definition walk_slice {A} (mk : list A -> node) (each : A -> St -> St) (l : list A) (st : St) : St :=
  match l with
  | [] => st
  | _ =>
      let '(st0, go) := Visit st (mk l) in
      if go then fold_left (fun s x => each x s) l st0 else st0
  end.

Definition walk_field (f : Field) (st : St) : St :=
  let '(st0, go) := Visit st (NField f) in
  if negb go then st0
  else
    let st1 := walk_expr (f_Expr f) st0 in
    match f_Expr f with
    | FieldRef sn _ (Some i) => if fr_IsAlias sn then walk_expr (Expression i) st1 else st1
    | _ => st1
    end.

Definition walk_join (j : Join) (st : St) : St :=
  let '(st0, go) := Visit st (NJoin j) in
  if go then walk_opt_expr (j_Expr j) st0 else st0.

Definition walk_fields := walk_slice NFields walk_field.
Definition walk_sources := walk_slice NSources (fun t st => fst (Visit st (NTable t))).
Definition walk_joins := walk_slice NJoins walk_join.
Definition walk_sorts := walk_slice NSorts (fun s st => fst (Visit st (NSort s))).

Definition walk_dimensions (d : list expr) (st : St) : St :=
  match d with
  | [] => st
  | _ =>
      let '(st0, go) := Visit st (NDimensions d) in
      if negb go then st0
      else fold_left (fun s x => walk_expr x s) (GetGroups d) (walk_opt_expr (GetWindow d) st0)
  end.

Definition walk_stmt (s : SelectStatement) (st : St) : St :=
  let '(st0, go) := Visit st (NStmt s) in
  if negb go then st0
  else
    walk_sorts (SortFields s)
      (walk_opt_expr (Having s)
        (walk_dimensions (Dimensions s)
          (walk_opt_expr (Condition s)
            (walk_joins (Joins s)
              (walk_sources (Sources s)
                (walk_fields (Fields s) st0)))))).
End Walk.

(** ** Functions known to the engine *)

Inductive FuncType : Type :=
  | NotFoundFunc | AggFunc | MathFunc | StrFunc | ConvFunc | HashFunc | JsonFunc | OtherFunc.

Definition aggFuncMap : list string :=
  ["avg"; "count"; "max"; "min"; "sum"; "collect"; "deduplicate"; "window_start";
   "window_end"]%string.

Definition funcWithAsteriskSupportMap : list string := ["collect"; "count"]%string.

Definition mathFuncMap : list string :=
  ["abs"; "acos"; "asin"; "atan"; "atan2"; "bitand"; "bitor"; "bitxor"; "bitnot"; "ceil";
   "cos"; "cosh"; "exp"; "ln"; "log"; "mod"; "power"; "rand"; "round"; "sign"; "sin"; "sinh";
   "sqrt"; "tan"; "tanh"]%string.

Definition strFuncMap : list string :=
  ["concat"; "endswith"; "format_time"; "indexof"; "length"; "lower"; "lpad"; "ltrim";
   "numbytes"; "regexp_matches"; "regexp_replace"; "regexp_substr"; "rpad"; "rtrim";
   "substring"; "startswith"; "split_value"; "trim"; "upper"]%string.

Definition convFuncMap : list string := ["concat"; "cast"; "chr"; "encode"; "trunc"]%string.

Definition hashFuncMap : list string := ["md5"; "sha1"; "sha256"; "sha384"; "sha512"]%string.

Definition jsonFuncMap : list string :=
  ["json_path_query"; "json_path_query_first"; "json_path_exists"]%string.

Definition otherFuncMap : list string :=
  ["isnull"; "newuuid"; "tstamp"; "mqtt"; "meta"; "cardinality"]%string.

Definition mem (s : string) (l : list string) : bool := existsb (String.eqb s) l.
Arguments mem : simpl never.

(** The state of [FuncFinder]: the custom aggregate names added to
    [aggFuncMap] as a cache, and the answer of the plugin runtime
    ([runtime.Get] succeeds and the function is an aggregate). *)
Record FuncFinder : Type := mkFinder {
  ff_cache : list string;
  ff_runtime : string -> bool }.

Definition IsAggFunc (ff : FuncFinder) (name : string) : bool * FuncFinder :=
  let fn := to_lower name in
  if mem fn aggFuncMap || mem fn (ff_cache ff) then (true, ff)
  else if mem fn strFuncMap || mem fn convFuncMap || mem fn hashFuncMap
          || mem fn otherFuncMap || mem fn mathFuncMap then (false, ff)
  else if ff_runtime ff name then (true, mkFinder (fn :: ff_cache ff) (ff_runtime ff))
  else (false, ff).

(** [FuncType]: the first table of [maps] that lists the lower-cased name. *)
Definition FuncTypeOf (ff : FuncFinder) (name : string) : FuncType :=
  let fn := to_lower name in
  if mem fn aggFuncMap || mem fn (ff_cache ff) then AggFunc
  else if mem fn mathFuncMap then MathFunc
  else if mem fn strFuncMap then StrFunc
  else if mem fn convFuncMap then ConvFunc
  else if mem fn hashFuncMap then HashFunc
  else if mem fn jsonFuncMap then JsonFunc
  else if mem fn otherFuncMap then OtherFunc
  else NotFoundFunc.

(** ** Aggregate checks *)

(** The visitor shared by the checks: the flag and the finder are its state. *)
Definition visit_agg_call (st : bool * FuncFinder) (n : node) : (bool * FuncFinder) * bool :=
  match n with
  | NExpr (Call name _) =>
      let '(b, ff) := IsAggFunc (snd st) name in
      if b then ((true, ff), false) else ((fst st, ff), true)
  | _ => (st, true)
  end.

Definition HasAggFuncs (ff : FuncFinder) (e : option expr) : bool * FuncFinder :=
  walk_opt_expr visit_agg_call e (false, ff).

Definition IsAggStatement (ff : FuncFinder) (s : SelectStatement) : bool * FuncFinder :=
  match GetGroups (Dimensions s) with
  | _ :: _ => (true, ff)
  | [] => walk_fields visit_agg_call (Fields s) (false, ff)
  end.

(** How deep alias expressions nest inside an expression. *)
Fixpoint alias_depth (e : expr) : nat :=
  let fix go_list (l : list expr) : nat :=
    match l with [] => O | x :: l' => Nat.max (alias_depth x) (go_list l') end in
  let fix go_when (l : list (expr * expr)) : nat :=
    match l with
    | [] => O
    | (c, r) :: l' => Nat.max (Nat.max (alias_depth c) (alias_depth r)) (go_when l')
    end in
  let go_opt (o : option expr) : nat := match o with Some x => alias_depth x | None => O end in
  match e with
  | BinaryExpr _ l r => Nat.max (alias_depth l) (alias_depth r)
  | ParenExpr x | ArrowExpr x | BracketExpr x => alias_depth x
  | Call _ args => go_list args
  | CaseExpr v ws el => Nat.max (go_opt v) (Nat.max (go_when ws) (go_opt el))
  | FieldRef _ _ (Some i) => S (alias_depth (Expression i))
  | Window _ _ _ f => go_opt f
  | _ => O
  end.

(** [IsAggregate] also looks through alias references; the recursion through
    [FieldRef.IsAggregate] is bounded by the nesting of aliases. *)
Fixpoint IsAggregate_at (depth : nat) (e : expr) (st : bool * FuncFinder) : bool * FuncFinder :=
  walk_expr
    (fun st n =>
       match n with
       | NExpr (Call _ _) => visit_agg_call st n
       | NExpr (FieldRef sn _ a) =>
           if negb (fr_IsAlias sn) then (st, true)
           else match a with
                | None => (st, true)
                | Some i =>
                    match isAggregate i, depth with
                    | Some true, _ => ((true, snd st), false)
                    | Some false, _ => (st, true)
                    | None, O => (st, true)
                    | None, S d =>
                        let '(b, ff) := IsAggregate_at d (Expression i) (false, snd st) in
                        if b then ((true, ff), false) else ((fst st, ff), true)
                    end
                end
       | _ => (st, true)
       end) e st.

Definition IsAggregate (ff : FuncFinder) (e : option expr) : bool * FuncFinder :=
  match e with
  | Some x => IsAggregate_at (alias_depth x) x (false, ff)
  | None => (false, ff)
  end.

(** ** Argument predicates *)

Definition IsNumericArg (e : expr) : bool :=
  match e with NumberLiteral _ | IntegerLiteral _ => true | _ => false end.

Definition IsIntegerArg (e : expr) : bool :=
  match e with IntegerLiteral _ => true | _ => false end.

Definition IsFloatArg (e : expr) : bool :=
  match e with NumberLiteral _ => true | _ => false end.

Definition IsBooleanArg (e : expr) : bool :=
  match e with
  | BooleanLiteral _ => true
  | BinaryExpr op _ _ =>
      match op with AND | OR | EQ | NEQ | LT | LTE | GT | GTE => true | _ => false end
  | _ => false
  end.

Definition IsStringArg (e : expr) : bool :=
  match e with StringLiteral _ => true | _ => false end.

Definition IsTimeArg (e : expr) : bool :=
  match e with TimeLiteral _ => true | _ => false end.

(** ** The aggregate traversal computes what it should *)

(** Reference definition: some call the traversal can reach satisfies [p]. *)
Fixpoint has_call (p : string -> bool) (e : expr) : bool :=
  let fix go_list (l : list expr) : bool :=
    match l with [] => false | x :: l' => has_call p x || go_list l' end in
  let fix go_when (l : list (expr * expr)) : bool :=
    match l with
    | [] => false
    | (c, r) :: l' => has_call p c || has_call p r || go_when l'
    end in
  let go_opt (o : option expr) : bool := match o with Some x => has_call p x | None => false end in
  match e with
  | BinaryExpr _ l r => has_call p l || has_call p r
  | ParenExpr x => has_call p x
  | Call n args => p n || go_list args
  | CaseExpr v ws el => go_opt v || go_when ws || go_opt el
  | Window _ _ _ f => go_opt f
  | _ => false
  end.

(** The verdict of a finder on a name, without the caching effect. *)
Definition is_agg (ff : FuncFinder) (name : string) : bool := fst (IsAggFunc ff name).

(** Two finders give the same verdicts. *)
Definition ff_equiv (f g : FuncFinder) : Prop := forall n, is_agg f n = is_agg g n.

(** The plugin runtime treats function names case-insensitively. *)
Definition runtime_caseless (ff : FuncFinder) : Prop :=
  forall a b, to_lower a = to_lower b -> ff_runtime ff a = ff_runtime ff b.

#[export] Instance ff_equiv_Equivalence : Equivalence ff_equiv.
Proof. split; red; unfold ff_equiv; congruence. Qed.

Lemma is_agg_fst ff n b ff' : IsAggFunc ff n = (b, ff') -> is_agg ff n = b.
Proof. unfold is_agg. now intros ->. Qed.

Lemma mem_cons s x l : mem s (x :: l) = String.eqb s x || mem s l.
Proof. reflexivity. Qed.

Lemma IsAggFunc_runtime ff n : ff_runtime (snd (IsAggFunc ff n)) = ff_runtime ff.
Proof. unfold IsAggFunc. repeat break_match_goal; reflexivity. Qed.

(** Adding to the cache does not change any verdict. *)
Lemma IsAggFunc_equiv ff n :
  runtime_caseless ff -> ff_equiv (snd (IsAggFunc ff n)) ff.
Proof.
  intros Hc m. unfold is_agg, IsAggFunc.
  destruct (mem (to_lower n) aggFuncMap || mem (to_lower n) (ff_cache ff)) eqn:E1; [reflexivity|].
  match goal with |- context [if ?b then (false, ff) else _] => destruct b eqn:E2 end;
    [reflexivity|].
  destruct (ff_runtime ff n) eqn:E3; [|reflexivity].
  cbn [snd ff_cache ff_runtime]. rewrite mem_cons.
  destruct (String.eqb (to_lower m) (to_lower n)) eqn:E;
    [|cbn [orb]; now repeat break_match_goal].
  apply String.eqb_eq in E. rewrite E, E1, E2, (Hc m n E), E3.
  cbn [orb]. now rewrite orb_true_r.
Qed.

(** caching of custom aggregates is coherent: after [IsAggFunc]
    answered for a call, [FuncType] classifies that name as an aggregate
    exactly when the answer was positive, which is what the aggregate valuer
    relies on when it dispatches a call. *)
Theorem IsAggFunc_then_FuncType ff name b ff' :
  IsAggFunc ff name = (b, ff') -> (FuncTypeOf ff' name = AggFunc <-> b = true).
Proof.
  unfold IsAggFunc, FuncTypeOf. intros H.
  destruct (mem (to_lower name) aggFuncMap || mem (to_lower name) (ff_cache ff)) eqn:E1.
  - inv H. rewrite E1. tauto.
  - match type of H with context [if ?c then (false, ff) else _] => destruct c eqn:E2 end.
    + inv H. rewrite E1. repeat break_match_goal; intuition discriminate.
    + destruct (ff_runtime ff name); inv H; cbn.
      * rewrite mem_cons, String.eqb_refl. cbn [orb]. rewrite orb_true_r. tauto.
      * rewrite E1. repeat break_match_goal; intuition discriminate.
Qed.

(** What a run of the traversal from [st] must establish about [st']. *)
Definition agg_run (found : bool) (st st' : bool * FuncFinder) : Prop :=
  fst st' = fst st || found /\ ff_equiv (snd st') (snd st) /\ runtime_caseless (snd st').

Lemma agg_run_refl st : runtime_caseless (snd st) -> agg_run false st st.
Proof. intros H. split; [now rewrite orb_false_r|]. split; [reflexivity|assumption]. Qed.

Lemma agg_run_trans a b s1 s2 s3 :
  agg_run a s1 s2 -> agg_run b s2 s3 -> agg_run (a || b) s1 s3.
Proof.
  intros (H1 & E1 & R1) (H2 & E2 & R2).
  split; [now rewrite H2, H1, orb_assoc|].
  split; [now rewrite E2|assumption].
Qed.

(** A visit of a node that is no call does nothing. *)
Lemma visit_agg_other st n :
  (forall f a, n <> NExpr (Call f a)) -> visit_agg_call st n = (st, true).
Proof.
  intros H. destruct n as [| | | | | | | | | | |e]; try reflexivity.
  destruct e; try reflexivity. now edestruct H.
Qed.

Lemma has_call_ext p q e : (forall n, p n = q n) -> has_call p e = has_call q e.
Proof.
  intros Hpq. induction e using expr_ind; cbn; auto; try congruence.
  - rewrite Hpq. f_equal. induction H; [reflexivity|]. now rewrite H, IHForall.
  - f_equal; [f_equal|].
    + destruct v; cbn in *; auto.
    + induction H0 as [|[c r] ws [Hc Hr] _ IH]; [reflexivity|]. cbn in *. now rewrite Hc, Hr, IH.
    + destruct e; cbn in *; auto.
  - destruct f; cbn in *; auto.
Qed.

Definition walk_agg := walk_expr visit_agg_call.

Lemma walk_agg_run e : forall st,
  runtime_caseless (snd st) -> agg_run (has_call (is_agg (snd st)) e) st (walk_agg e st).
Proof.
  unfold walk_agg.
  induction e using expr_ind; intros st Hst; try (cbn; now apply agg_run_refl).
  - cbn. eapply agg_run_trans; [now apply IHe1|].
    destruct (IHe1 st Hst) as (_ & E & R).
    rewrite <- (has_call_ext _ _ e2 E). now apply IHe2.
  - cbn. now apply IHe.
  - destruct (IsAggFunc (snd st) n) as [b ff] eqn:E.
    pose proof (IsAggFunc_equiv (snd st) n Hst) as Eq. rewrite E in Eq. cbn [snd] in Eq.
    pose proof (IsAggFunc_runtime (snd st) n) as Rt. rewrite E in Rt. cbn [snd] in Rt.
    assert (Hff : runtime_caseless ff) by (unfold runtime_caseless in *; now rewrite Rt).
    cbn. rewrite E, (is_agg_fst _ _ _ _ E). destruct b; cbn.
    + split; [now rewrite orb_true_r|]. split; assumption.
    + enough (G : forall st1, ff_equiv (snd st1) (snd st) -> runtime_caseless (snd st1) ->
        agg_run ((fix go_list (l : list expr) : bool :=
                   match l with [] => false | x :: l' => has_call (is_agg (snd st)) x || go_list l' end) args)
          st1 ((fix walk_list (l : list expr) (s : bool * FuncFinder) {struct l} :=
                  match l with
                  | [] => s
                  | x :: l' => walk_list l' (walk_expr visit_agg_call x s)
                  end) args st1)).
      { destruct (G (fst st, ff) Eq Hff) as (A & B & C). cbn [fst snd] in *.
        split; [assumption|]. split; [now rewrite B|assumption]. }
      induction H as [|x args Hx _ IH]; intros st1 He1 Hr1; [now apply agg_run_refl|].
      destruct (Hx st1 Hr1) as (A & B & C).
      rewrite (has_call_ext _ _ x He1) in A.
      eapply agg_run_trans; [split; [exact A|split; assumption]|].
      apply IH; [now rewrite B|assumption].
  - cbn.
    assert (Hopt : forall (o : option expr) s1,
      opt_all (fun x => forall s, runtime_caseless (snd s) ->
        agg_run (has_call (is_agg (snd s)) x) s (walk_expr visit_agg_call x s)) o ->
      ff_equiv (snd s1) (snd st) -> runtime_caseless (snd s1) ->
      agg_run (match o with Some x => has_call (is_agg (snd st)) x | None => false end) s1
        (match o with Some x => walk_expr visit_agg_call x s1 | None => s1 end)).
    { intros o s1 Ho He1 Hr1. destruct o as [x|]; cbn in Ho; [|now apply agg_run_refl].
      rewrite <- (has_call_ext _ _ x He1). now apply Ho. }
    pose proof (Hopt v st H ltac:(reflexivity) Hst) as R1.
    set (s1 := match v with Some x => walk_expr visit_agg_call x st | None => st end) in *.
    assert (R2 : forall s2, ff_equiv (snd s2) (snd st) -> runtime_caseless (snd s2) ->
      agg_run ((fix go_when (l : list (expr * expr)) : bool :=
                  match l with
                  | [] => false
                  | (c, r) :: l' => has_call (is_agg (snd st)) c || has_call (is_agg (snd st)) r || go_when l'
                  end) ws) s2
        ((fix walk_when (l : list (expr * expr)) (s : bool * FuncFinder) {struct l} :=
            match l with
            | [] => s
            | (c, r) :: l' =>
                walk_when l' (walk_expr visit_agg_call r (walk_expr visit_agg_call c s))
            end) ws s2)).
    { induction H0 as [|[c r] ws [Hc Hr] _ IH]; intros s2 He2 Hr2; [now apply agg_run_refl|].
      cbn in Hc, Hr. pose proof (Hc s2 Hr2) as Rc. rewrite (has_call_ext _ _ c He2) in Rc.
      destruct Rc as (A & B & C). pose proof (Hr _ C) as Rr.
      rewrite (has_call_ext _ (is_agg (snd st)) r) in Rr
        by (intros; now rewrite (B n), (He2 n)).
      eapply agg_run_trans; [eapply agg_run_trans; [split; [exact A|split; assumption]|exact Rr]|].
      destruct Rr as (_ & B' & C'). apply IH; [now rewrite B', B|assumption]. }
    destruct R1 as (A1 & B1 & C1). specialize (R2 s1 B1 C1).
    eapply agg_run_trans; [eapply agg_run_trans; [split; [exact A1|split; assumption]|exact R2]|].
    destruct R2 as (_ & B2 & C2). apply Hopt; [assumption| |assumption]. now rewrite B2.
  - cbn. destruct i; destruct f; cbn in *; auto using agg_run_refl.
Qed.

(** the traversal behind the WHERE and GROUP BY checks is exact: it
    reports an aggregate call exactly when one occurs in the expression, for
    built-in functions and for plugin functions whose registry ignores case. *)
Theorem HasAggFuncs_exact ff e :
  runtime_caseless ff -> fst (HasAggFuncs ff (Some e)) = has_call (is_agg ff) e.
Proof. intros H. exact (proj1 (walk_agg_run e (false, ff) H)). Qed.

(** [CASE WHEN sum(a) > 1 THEN b END], without plugins. *)
Definition sample_case : expr :=
  CaseExpr None [(BinaryExpr GT (Call "sum" [FieldRef DefaultStream "a" None]) (IntegerLiteral 1),
                  FieldRef DefaultStream "b" None)] None.

Lemma HasAggFuncs_exact_witness :
  fst (HasAggFuncs (mkFinder [] (fun _ => false)) (Some sample_case)) = true.
Proof. exact (HasAggFuncs_exact (mkFinder [] (fun _ => false)) sample_case (fun _ _ _ => eq_refl)). Defined.
