(* ===== verification/FuncValidator.v ===== *)
(** Validation of function calls by the parser (src/internal/xsql/
    funcsAstValidator.go, the helpers of src/pkg/ast/funcArgsValidator.go, and
    the window functions of src/internal/xsql/parser.go).

    A validator answers with an error or accepts; indexing an argument that is
    not there panics, which is [None].  The functions of plugins and services
    validate themselves: [runtime] is [parserFuncRuntime.Get]. *)

From S2P Require Import Prelude Token Ast.
From Stdlib Require Import ZArith Lia Bool List String.
Import ListNotations.

#[local] Open Scope string_scope.
#[local] Open Scope list_scope.
#[local] Open Scope Z_scope.

(** ** Errors *)

(** An argument of [fmt.Errorf]. *)
Inductive err_arg : Type := ErrS (s : string) | ErrD (z : Z) | ErrE (e : expr) | ErrT (t : Token).

Inductive parse_error : Type := Errorf (format : string) (args : list err_arg).

(** [None] is a panic, [Some None] no error. *)
Definition verdict : Type := option (option parse_error).

Definition accept : verdict := Some None.
Definition fail (format : string) (args : list err_arg) : verdict := Some (Some (Errorf format args)).

Definition ProduceErrInfo (name : string) (index : Z) (expect : string) : parse_error :=
  Errorf "Expect %s type for %d parameter of function %s." [ErrS expect; ErrD (index + 1); ErrS name].

(** [ValidateLen], and what the callers do next. *)
Definition ValidateLen (name : string) (exp : Z) (args : list expr) (k : verdict) : verdict :=
  if negb (Z.of_nat (List.length args) =? exp) then fail "The arguments for %s should be %d." [ErrS name; ErrD exp] else k.

(** [args[i]]. *)
Definition with_arg (args : list expr) (i : nat) (k : expr -> verdict) : verdict :=
  match nth_error args i with Some a => k a | None => None end.

Definition refuse (bad : expr -> bool) (expect : string) (name : string) (args : list expr) (i : nat) (k : verdict) : verdict :=
  with_arg args i (fun a => if bad a then Some (Some (ProduceErrInfo name (Z.of_nat i) expect)) else k).

Definition not_number (a : expr) : bool := IsStringArg a || IsTimeArg a || IsBooleanArg a.
Definition not_int (a : expr) : bool := IsFloatArg a || IsStringArg a || IsTimeArg a || IsBooleanArg a.
Definition not_string (a : expr) : bool := IsNumericArg a || IsTimeArg a || IsBooleanArg a.

(** ** The built-in functions *)

Definition validateMathFunc (name : string) (args : list expr) : verdict :=
  let number := refuse not_number "number - float or int" name args in
  let int := refuse not_int "int" name args in
  if mem name ["abs"; "acos"; "asin"; "atan"; "ceil"; "cos"; "cosh"; "exp"; "ln"; "log"; "round"; "sign"; "sin";
               "sinh"; "sqrt"; "tan"; "tanh"]
  then ValidateLen name 1 args (number 0%nat accept)
  else if mem name ["bitand"; "bitor"; "bitxor"] then ValidateLen name 2 args (int 0%nat (int 1%nat accept))
  else if mem name ["bitnot"] then ValidateLen name 1 args (int 0%nat accept)
  else if mem name ["atan2"; "mod"; "power"] then ValidateLen name 2 args (number 0%nat (number 1%nat accept))
  else if mem name ["rand"] then ValidateLen name 0 args accept
  else accept.

(** The loops over the arguments from [i] to [n]. *)
Fixpoint refuse_from (bad : expr -> bool) (expect name : string) (args : list expr) (i n : nat) (k : verdict) : verdict :=
  match n with
  | O => k
  | S n' => refuse bad expect name args i (refuse_from bad expect name args (S i) n' k)
  end.

Definition int_literal (a : expr) : option Z := match a with IntegerLiteral z => Some z | _ => None end.

(** The checks of literal bounds at the end of [substring] and [split_value]. *)
Definition substring_bounds (args : list expr) : verdict :=
  with_arg args 1 (fun a =>
    match int_literal a with
    | None => accept
    | Some sv =>
        if sv <? 0 then fail "The start index should not be a nagtive integer." []
        else if Nat.eqb (List.length args) 3 then
          with_arg args 2 (fun b =>
            match int_literal b with
            | Some ev => if ev <? sv then fail "The end index should be larger than start index." [] else accept
            | None => accept
            end)
        else accept
    end).

Definition validateStrFunc (name : string) (args : list expr) : verdict :=
  let len := List.length args in
  let str := refuse not_string "string" name args in
  let int := refuse not_int "int" name args in
  if mem name ["concat"] then
    if Nat.eqb len 0 then fail "The arguments for %s should be at least one.\n" [ErrS name]
    else refuse_from not_string "string" name args 0 len accept
  else if mem name ["endswith"; "indexof"; "regexp_matches"; "startswith"]
  then ValidateLen name 2 args (refuse_from not_string "string" name args 0 2 accept)
  else if mem name ["format_time"] then
    ValidateLen name 2 args
      (refuse (fun a => IsNumericArg a || IsStringArg a || IsBooleanArg a) "datetime" name args 0 (str 1%nat accept))
  else if mem name ["regexp_replace"]
  then ValidateLen name 3 args (refuse_from not_string "string" name args 0 3 accept)
  else if mem name ["length"; "lower"; "ltrim"; "numbytes"; "rtrim"; "trim"; "upper"]
  then ValidateLen name 1 args (str 0%nat accept)
  else if mem name ["lpad"; "rpad"] then ValidateLen name 2 args (str 0%nat (int 1%nat accept))
  else if mem name ["substring"] then
    if negb (Nat.eqb len 2) && negb (Nat.eqb len 3) then fail "the arguments for substring should be 2 or 3" []
    else str 0%nat (refuse_from not_int "int" name args 1 (len - 1) (substring_bounds args))
  else if mem name ["split_value"] then
    if negb (Nat.eqb len 3) then fail "the arguments for split_value should be 3" []
    else str 0%nat (str 1%nat (int 2%nat (with_arg args 2 (fun a =>
           match int_literal a with
           | Some z => if z <? 0 then fail "The index should not be a nagtive integer." [] else accept
           | None => accept
           end))))
  else accept.

Definition string_literal (a : expr) : option string := match a with StringLiteral s => Some s | _ => None end.

(** The second argument is a string literal out of [allowed]. *)
Definition one_of (allowed : list string) (msg : string) (a : expr) : verdict :=
  match string_literal a with
  | Some s => if negb (mem s allowed) then fail msg [] else accept
  | None => accept
  end.

Definition validateConvFunc (name : string) (args : list expr) : verdict :=
  let literal k := refuse (fun a => negb (IsStringArg a)) "string" name args 1 (with_arg args 1 k) in
  if mem name ["cast"] then
    ValidateLen name 2 args
      (literal (one_of ["bigint"; "float"; "string"; "boolean"; "datetime"]
        "Expect one of following value for the 2nd parameter: bigint, float, string, boolean, datetime."))
  else if mem name ["chr"] then
    ValidateLen name 1 args (refuse (fun a => IsFloatArg a || IsTimeArg a || IsBooleanArg a) "int" name args 0 accept)
  else if mem name ["encode"] then
    ValidateLen name 2 args
      (refuse not_string "string" name args 0 (literal (one_of ["base64"] "Only base64 is supported for the 2nd parameter.")))
  else if mem name ["trunc"] then
    ValidateLen name 2 args
      (refuse not_number "number - float or int" name args 0 (refuse not_int "int" name args 1 accept))
  else accept.

Definition validateHashFunc (name : string) (args : list expr) : verdict :=
  if mem name ["md5"; "sha1"; "sha224"; "sha256"; "sha384"; "sha512"]
  then ValidateLen name 1 args (refuse not_string "string" name args 0 accept)
  else accept.

(** The loop of [meta]: down the left operands to a meta reference. *)
Fixpoint meta_path (e : expr) : bool :=
  match e with
  | BinaryExpr op (MetaRef _ _) _ => tok_eqb op ARROW
  | BinaryExpr _ l _ => meta_path l
  | _ => false
  end.

Definition validateOtherFunc (name : string) (args : list expr) : verdict :=
  if mem name ["isNull"] then ValidateLen name 1 args accept
  else if mem name ["cardinality"] then ValidateLen name 1 args accept
  else if mem name ["nanvl"] then
    ValidateLen name 2 args (with_arg args 0 (fun a =>
      if IsIntegerArg a || IsTimeArg a || IsBooleanArg a || IsStringArg a
      then Some (Some (ProduceErrInfo name 1 "float")) else accept))
  else if mem name ["newuuid"] then ValidateLen name 0 args accept
  else if mem name ["mqtt"] then
    ValidateLen name 1 args
      (refuse (fun a => IsIntegerArg a || IsTimeArg a || IsBooleanArg a || IsStringArg a || IsFloatArg a)
         "meta reference" name args 0
         (with_arg args 0 (fun a =>
            match a with
            | MetaRef _ n =>
                if negb (mem (to_lower n) ["topic"; "messageid"])
                then fail "Parameter of mqtt function can be only topic or messageid." [] else accept
            | _ => accept
            end)))
  else if mem name ["meta"] then
    ValidateLen name 1 args (with_arg args 0 (fun a =>
      match a with
      | MetaRef _ _ => accept
      | _ => if meta_path a then accept else Some (Some (ProduceErrInfo name 0 "meta reference"))
      end))
  else accept.

Definition validateJsonFunc (name : string) (args : list expr) : verdict :=
  ValidateLen name 2 args (refuse (fun a => negb (IsStringArg a)) "string" name args 1 accept).

Definition validateAggFunc (name : string) (args : list expr) : verdict :=
  if mem name ["avg"; "max"; "min"; "sum"]
  then ValidateLen name 1 args (refuse not_number "number - float or int" name args 0 accept)
  else if mem name ["count"] then ValidateLen name 1 args accept
  else if mem name ["collect"] then ValidateLen name 1 args accept
  else if mem name ["deduplicate"]
  then ValidateLen name 2 args (refuse (fun a => negb (IsBooleanArg a)) "bool" name args 1 accept)
  else accept.

(** A function of a plugin or service, or the error of getting it. *)
Definition Runtime : Type := string -> string + (list expr -> option parse_error).

Definition validateFuncs (ff : FuncFinder) (runtime : Runtime) (funcName : string) (args : list expr) : verdict :=
  let lowerName := to_lower funcName in
  match FuncTypeOf ff lowerName with
  | NotFoundFunc =>
      match runtime funcName with
      | inl err => fail "error getting function %s: %v" [ErrS funcName; ErrS err]
      | inr validate => Some (validate args)
      end
  | AggFunc => validateAggFunc lowerName args
  | MathFunc => validateMathFunc lowerName args
  | ConvFunc => validateConvFunc lowerName args
  | StrFunc => validateStrFunc lowerName args
  | HashFunc => validateHashFunc lowerName args
  | JsonFunc => validateJsonFunc lowerName args
  | OtherFunc => validateOtherFunc lowerName args
  end.

(** ** The validators index only arguments that are there *)

Definition total (v : verdict) : Prop := v <> None.

Lemma total_accept : total accept.
Proof. discriminate. Qed.

Lemma total_fail f a : total (fail f a).
Proof. discriminate. Qed.

Lemma total_some o : total (Some o).
Proof. discriminate. Qed.

Lemma with_arg_total args i k : (i < List.length args)%nat -> (forall a, total (k a)) -> total (with_arg args i k).
Proof.
  intros Hi Hk. unfold with_arg. apply nth_error_Some in Hi. destruct (nth_error args i); [apply Hk|congruence].
Qed.

Lemma refuse_total bad expect name args i k :
  (i < List.length args)%nat -> total k -> total (refuse bad expect name args i k).
Proof. intros Hi Hk. apply with_arg_total; [exact Hi|]. intros a. destruct (bad a); [discriminate|exact Hk]. Qed.

Lemma refuse_from_total bad expect name args k : total k ->
  forall n i, (i + n <= List.length args)%nat -> total (refuse_from bad expect name args i n k).
Proof.
  intros Hk. induction n as [|n IH]; intros i Hi; [exact Hk|]. apply refuse_total; [lia|]. apply IH. lia.
Qed.

Lemma ValidateLen_total name exp args k :
  (Z.of_nat (List.length args) = exp -> total k) -> total (ValidateLen name exp args k).
Proof. intros H. unfold ValidateLen. destruct (Z.eqb_spec (Z.of_nat (List.length args)) exp); cbn; [auto|discriminate]. Qed.

Lemma one_of_total allowed msg a : total (one_of allowed msg a).
Proof. unfold one_of. now repeat break_match_goal. Qed.

Create HintDb verdict.
#[export] Hint Resolve total_accept total_fail total_some one_of_total : verdict.

(** Follows a validator down to its leaves. *)
Ltac verdict :=
  repeat match goal with
    | |- total (ValidateLen _ _ _ _) => apply ValidateLen_total; intros ?
    | |- total (refuse_from _ _ _ _ _ _ _) => apply refuse_from_total; [|lia]
    | |- total (refuse _ _ _ _ _ _) => apply refuse_total; [lia|]
    | |- total (with_arg _ _ _) => apply with_arg_total; [lia|intros ?]
    | |- total (if ?c then _ else _) => destruct c eqn:?; bool_to_prop
    | |- total (match ?x with _ => _ end) => destruct x eqn:?
    | _ => solve [auto with verdict]
    end.

Lemma negb_andb_len n a b : negb (Nat.eqb n a) && negb (Nat.eqb n b) = false -> n = a \/ n = b.
Proof. destruct (Nat.eqb_spec n a), (Nat.eqb_spec n b); cbn; auto; discriminate. Qed.

Lemma substring_bounds_total args : (2 <= List.length args)%nat -> total (substring_bounds args).
Proof.
  intros H. unfold substring_bounds. apply with_arg_total; [lia|]. intros a. destruct (int_literal a); [|easy].
  destruct (z <? 0); [easy|]. destruct (Nat.eqb_spec (List.length args) 3); [|easy].
  apply with_arg_total; [lia|]. intros b. now repeat break_match_goal.
Qed.

Lemma validateStrFunc_total name args : total (validateStrFunc name args).
Proof.
  unfold validateStrFunc. cbv zeta.
  repeat match goal with |- total (if mem name ?l then _ else _) => destruct (mem name l) end; verdict.
  - apply negb_andb_len in Heqb. apply refuse_total; [lia|]. apply refuse_from_total; [|lia].
    apply substring_bounds_total. lia.
Qed.

Lemma validateFuncs_some ff runtime name args : total (validateFuncs ff runtime name args).
Proof.
  unfold validateFuncs. destruct (FuncTypeOf _ _).
  all: unfold validateAggFunc, validateMathFunc, validateConvFunc, validateHashFunc, validateJsonFunc, validateOtherFunc;
    cbv zeta; try apply validateStrFunc_total.
  all: repeat match goal with |- total (if mem _ ?l then _ else _) => destruct (mem _ l) end; verdict.
Qed.

(** the validation of a call never panics: for every function name and
    every list of arguments it accepts or gives an error, since each validator
    checks the number of arguments before it looks at one. *)
Theorem validateFuncs_total ff runtime name args : exists v, validateFuncs ff runtime name args = Some v.
Proof.
  pose proof (validateFuncs_some ff runtime name args) as H. destruct (validateFuncs ff runtime name args); [eauto|].
  now destruct H.
Qed.
