(* ===== verification/Lexical.v ===== *)
(** The SQL scanner (src/internal/xsql/lexical.go).

    The scanner reads runes from a [bufio.Reader].  Its state is the runes not
    yet read and whether the last operation was a successful [ReadRune], which
    is what decides if [UnreadRune] has an effect: after a read at the end of
    the input, or after another unread, [UnreadRune] fails and the code ignores
    the failure.  The end of the input and a NUL rune are both [eof] to the code.

    Every loop of the scanner reads one rune per iteration; [read_loop] is that
    loop, and each of the code's loops is one instance given by its body. *)

From S2P Require Import Prelude Token.
From Stdlib Require Import ZArith Lia Bool List String Ascii.
Import ListNotations.

#[local] Open Scope string_scope.
#[local] Open Scope list_scope.
#[local] Open Scope Z_scope.

Definition rune := Z.

Definition chr (c : ascii) : rune := Z.of_N (N_of_ascii c).

(** ** UTF-8 encoding, [bytes.Buffer.WriteRune] *)

Definition byte_chr (z : Z) : ascii := ascii_of_N (Z.to_N z).

Definition utf8 (r : rune) : string :=
  let cont (z : Z) := byte_chr (128 + z mod 64) in
  let three (r : Z) :=
    String (byte_chr (224 + r / 4096)) (String (cont (r / 64)) (String (cont r) "")) in
  if r <? 0 then three 65533
  else if r <? 128 then String (byte_chr r) ""
  else if r <? 2048 then String (byte_chr (192 + r / 64)) (String (cont r) "")
  else if (55296 <=? r) && (r <=? 57343) || (1114111 <? r) then three 65533
  else if r <? 65536 then three r
  else String (byte_chr (240 + r / 262144))
         (String (cont (r / 4096)) (String (cont (r / 64)) (String (cont r) ""))).

Fixpoint encode (rs : list rune) : string :=
  match rs with
  | [] => ""
  | r :: rs' => (utf8 r ++ encode rs')%string
  end.

(** The runes of an ASCII string, one per byte. *)
Fixpoint runes (s : string) : list rune :=
  match s with
  | EmptyString => []
  | String c s' => chr c :: runes s'
  end.

(** ** Scanner state *)

Record Scanner : Type := mkScanner { rest : list rune; last : option rune }.

Definition NewScanner (rs : list rune) : Scanner := mkScanner rs None.

Definition eof : rune := 0.

Definition read (s : Scanner) : rune * Scanner :=
  match rest s with
  | [] => (eof, mkScanner [] None)
  | r :: rs => (r, mkScanner rs (Some r))
  end.

Definition unread (s : Scanner) : Scanner :=
  match last s with
  | Some r => mkScanner (r :: rest s) None
  | None => s
  end.

(** What a loop body does after looking at one rune. *)
Inductive ctl (A : Type) : Type :=
  | Continue (a : A)
  | Break (a : A)
  | BreakUnread (a : A).
Arguments Continue {A} _.
Arguments Break {A} _.
Arguments BreakUnread {A} _.

(** [for { ch := s.read(); body }].  At the end of the input every read
    yields [eof]; no body of the scanner continues on it. *)
Fixpoint read_loop {A} (body : A -> rune -> ctl A) (rs : list rune) (a : A) : A * Scanner :=
  match rs with
  | [] =>
      match body a eof with
      | Continue a' | Break a' | BreakUnread a' => (a', mkScanner [] None)
      end
  | r :: rs' =>
      match body a r with
      | Continue a' => read_loop body rs' a'
      | Break a' => (a', mkScanner rs' (Some r))
      | BreakUnread a' => (a', mkScanner (r :: rs') None)
      end
  end.

Definition loop {A} (body : A -> rune -> ctl A) (a : A) (s : Scanner) : A * Scanner :=
  read_loop body (rest s) a.

(** ** Character classes *)

Definition isWhiteSpace (r : rune) : bool := (r =? 32) || (r =? 9) || (r =? 13) || (r =? 10).

Definition isLetter (ch : rune) : bool :=
  (chr "a" <=? ch) && (ch <=? chr "z") || (chr "A" <=? ch) && (ch <=? chr "Z").

Definition isDigit (ch : rune) : bool := (chr "0" <=? ch) && (ch <=? chr "9").

Definition isQuotation (ch : rune) : bool := ch =? 34.

Definition isBackquote (ch : rune) : bool := ch =? chr "`".

(** ** [strconv.Unquote] on a double-quoted literal, given what is between
    the quotes *)

Definition hex_val (r : rune) : option Z :=
  if (48 <=? r) && (r <=? 57) then Some (r - 48)
  else if (97 <=? r) && (r <=? 102) then Some (r - 87)
  else if (65 <=? r) && (r <=? 70) then Some (r - 55)
  else None.

Fixpoint hex_digits (n : nat) (acc : Z) (rs : list rune) : option (Z * list rune) :=
  match n, rs with
  | O, _ => Some (acc, rs)
  | S n', r :: rs' =>
      match hex_val r with Some d => hex_digits n' (acc * 16 + d) rs' | None => None end
  | S _, [] => None
  end.

Definition oct_val (r : rune) : option Z :=
  if (48 <=? r) && (r <=? 55) then Some (r - 48) else None.

(** One escape sequence after the backslash: its bytes and the remaining runes. *)
Definition unquote_escape (rs : list rune) : option (string * list rune) :=
  let hex n multi rs' :=
    match hex_digits n 0 rs' with
    | Some (v, rs'') =>
        if multi && (1114111 <? v) then None
        else Some (if multi then utf8 v else String (byte_chr v) "", rs'')
    | None => None
    end in
  let one b rs' := Some (String (byte_chr b) "", rs') in
  match rs with
  | [] => None
  | c :: rs' =>
      if c =? chr "a" then one 7 rs'
      else if c =? chr "b" then one 8 rs'
      else if c =? chr "f" then one 12 rs'
      else if c =? chr "n" then one 10 rs'
      else if c =? chr "r" then one 13 rs'
      else if c =? chr "t" then one 9 rs'
      else if c =? chr "v" then one 11 rs'
      else if c =? chr "x" then hex 2%nat false rs'
      else if c =? chr "u" then hex 4%nat true rs'
      else if c =? chr "U" then hex 8%nat true rs'
      else if c =? 92 then one 92 rs'
      else if c =? 34 then one 34 rs'
      else match oct_val c, rs' with
           | Some d0, c1 :: c2 :: rs'' =>
               match oct_val c1, oct_val c2 with
               | Some d1, Some d2 =>
                   let v := d0 * 64 + d1 * 8 + d2 in
                   if 255 <? v then None else one v rs''
               | _, _ => None
               end
           | _, _ => None
           end
  end.

Fixpoint unquote_loop (fuel : nat) (rs : list rune) : option string :=
  match fuel, rs with
  | _, [] => Some ""
  | O, _ => None
  | S f, c :: rs' =>
      if (c =? 10) || (c =? 34) then None
      else if c =? 92 then
        match unquote_escape rs' with
        | Some (b, rs'') =>
            match unquote_loop f rs'' with Some t => Some (b ++ t)%string | None => None end
        | None => None
        end
      else match unquote_loop f rs' with Some t => Some (utf8 c ++ t)%string | None => None end
  end.

(** The error is dropped by the caller, which then uses the empty string. *)
Definition unquote (rs : list rune) : string :=
  match unquote_loop (List.length rs) rs with Some t => t | None => "" end.

(** ** The scanning functions *)

Definition keywords : list (string * Token) :=
  [
   ("SELECT", SELECT); ("AS", AS); ("FROM", FROM); ("WHERE", WHERE); ("AND", AND);
   ("OR", OR); ("GROUP", GROUP); ("HAVING", HAVING); ("ORDER", ORDER); ("BY", BY);
   ("DESC", DESC); ("ASC", ASC); ("FILTER", FILTER); ("INNER", INNER); ("LEFT", LEFT);
   ("RIGHT", RIGHT); ("FULL", FULL); ("CROSS", CROSS); ("JOIN", JOIN); ("ON", ON);
   ("CASE", CASE); ("WHEN", WHEN); ("THEN", THEN); ("ELSE", ELSE); ("END", END);
   ("CREATE", CREATE); ("DROP", DROP); ("EXPLAIN", EXPLAIN); ("DESCRIBE", DESCRIBE);
   ("SHOW", SHOW); ("STREAM", STREAM); ("STREAMS", STREAMS); ("TABLE", TABLE);
   ("TABLES", TABLES); ("WITH", WITH); ("BIGINT", XBIGINT); ("FLOAT", XFLOAT);
   ("DATETIME", XDATETIME); ("STRING", XSTRING); ("BYTEA", XBYTEA); ("BOOLEAN",
   XBOOLEAN); ("ARRAY", XARRAY); ("STRUCT", XSTRUCT); ("DATASOURCE", DATASOURCE);
   ("KEY", KEY); ("FORMAT", FORMAT); ("CONF_KEY", CONF_KEY); ("TYPE", TYPE); ("TRUE",
   TRUE); ("FALSE", FALSE); ("STRICT_VALIDATION", STRICT_VALIDATION); ("TIMESTAMP",
   TIMESTAMP); ("TIMESTAMP_FORMAT", TIMESTAMP_FORMAT); ("RETAIN_SIZE", RETAIN_SIZE);
   ("SHARED", SHARED); ("DD", DD); ("HH", HH); ("MI", MI); ("SS", SS); ("MS", MS)].

Fixpoint lookup_keyword (lit : string) (l : list (string * Token)) : option Token :=
  match l with
  | [] => None
  | (k, t) :: l' => if String.eqb lit k then Some t else lookup_keyword lit l'
  end.

Definition ident_body (buf : string) (ch : rune) : ctl string :=
  if ch =? eof then Break buf
  else if negb (isLetter ch) && negb (isDigit ch) && negb (ch =? chr "_") then BreakUnread buf
  else Continue (buf ++ utf8 ch)%string.

Definition ScanIdent (s : Scanner) : (Token * string) * Scanner :=
  let '(ch, s1) := read s in
  let '(buf, s2) := loop ident_body (utf8 ch) s1 in
  let lit := to_upper buf in
  match lookup_keyword lit keywords with
  | Some t => ((t, lit), s2)
  | None => ((IDENT, buf), s2)
  end.

(** The loop state of [ScanString]: the runes between the quotes, the escape
    flag, and whether the closing quote was seen. *)
Definition string_body (st : list rune * bool * bool) (ch : rune) : ctl (list rune * bool * bool) :=
  let '(buf, escape, _) := st in
  if (ch =? 34) && negb escape then Break (buf, escape, true)
  else if ch =? eof then Break (buf, escape, false)
  else if (ch =? 92) && negb escape then Continue (buf ++ [ch], true, false)
  else Continue (buf ++ [ch], false, false).

Definition ScanString (s : Scanner) : (Token * string) * Scanner :=
  let '(ch, s1) := read s in
  let '((buf, _, closed), s2) := loop string_body ([], false, false) s1 in
  if closed then ((STRING, unquote buf), s2)
  else ((BADSTRING, (utf8 ch ++ encode buf)%string), s2).

Definition number_body (st : string * bool) (ch : rune) : ctl (string * bool) :=
  let '(buf, isNum) := st in
  if isDigit ch then Continue ((buf ++ utf8 ch)%string, isNum)
  else if ch =? chr "." then Continue ((buf ++ utf8 ch)%string, true)
  else BreakUnread (buf, isNum).

Definition ScanNumber (startWithDot isNeg : bool) (s : Scanner) : (Token * string) * Scanner :=
  let buf0 := ((if isNeg then "-" else "") ++ (if startWithDot then "." else ""))%string in
  let '(ch, s1) := read s in
  let '((buf, isNum), s2) := loop number_body ((buf0 ++ utf8 ch)%string, false) s1 in
  if isNum || startWithDot then ((NUMBER, buf), s2) else ((INTEGER, buf), s2).

Definition digit_body (buf : string) (ch : rune) : ctl string :=
  if isDigit ch then Continue (buf ++ utf8 ch)%string else BreakUnread buf.

Definition ScanDigit (s : Scanner) : (Token * string) * Scanner :=
  let '(ch, s1) := read s in
  let '(buf, s2) := loop digit_body (utf8 ch) s1 in
  ((INTEGER, buf), s2).

Definition backquote_body (buf : string) (ch : rune) : ctl string :=
  if isBackquote ch || (ch =? eof) then Break buf else Continue (buf ++ utf8 ch)%string.

Definition ScanBackquoteIdent (s : Scanner) : (Token * string) * Scanner :=
  let '(buf, s1) := loop backquote_body "" s in
  ((IDENT, buf), s1).

Definition newline_body (u : unit) (ch : rune) : ctl unit :=
  if (ch =? 10) || (ch =? eof) then Break u else Continue u.

Definition skipUntilNewline (s : Scanner) : Scanner := snd (loop newline_body tt s).

(** The comment loop and its inner [star] label are one loop whose state says
    whether the previous rune was a star; the answer tells if the comment closed. *)
Definition endcomment_body (st : bool * bool) (ch : rune) : ctl (bool * bool) :=
  let '(starred, _) := st in
  if starred then
    if ch =? chr "/" then Break (starred, true)
    else if ch =? chr "*" then Continue (true, false)
    else if ch =? eof then Break (starred, false)
    else Continue (false, false)
  else
    if ch =? chr "*" then Continue (true, false)
    else if ch =? eof then Break (starred, false)
    else Continue (false, false).

Definition skipUntilEndComment (s : Scanner) : bool * Scanner :=
  let '((_, closed), s1) := loop endcomment_body (false, false) s in (closed, s1).

Definition whitespace_body (buf : string) (ch : rune) : ctl string :=
  if ch =? eof then Break buf
  else if negb (isWhiteSpace ch) then BreakUnread buf
  else Continue (buf ++ utf8 ch)%string.

Definition ScanWhiteSpace (s : Scanner) : (Token * string) * Scanner :=
  let '(buf, s1) := loop whitespace_body "" s in ((WS, buf), s1).

(** The shape shared by [!], [<] and [>]: optional white space, then [=]. *)
Definition scan_with_eq (with_eq without : Token) (s : Scanner) : (Token * string) * Scanner :=
  let '(_, s1) := ScanWhiteSpace s in
  let '(r, s2) := read s1 in
  if r =? chr "=" then ((with_eq, Tokens with_eq), s2)
  else ((without, Tokens without), unread s2).

Definition scan_minus (s : Scanner) : (Token * string) * Scanner :=
  let '(_, s1) := ScanWhiteSpace s in
  let '(r, s2) := read s1 in
  if r =? chr "-" then ((COMMENT, ""), skipUntilNewline s2)
  else if r =? chr ">" then ((ARROW, Tokens ARROW), s2)
  else if r =? chr "." then
    let '(_, s3) := ScanWhiteSpace s2 in
    let '(r1, s4) := read s3 in
    if isDigit r1 then ScanNumber true true (unread s4)
    else ((SUB, Tokens SUB), unread (unread s4))
  else ((SUB, Tokens SUB), unread s2).

Definition scan_slash (s : Scanner) : (Token * string) * Scanner :=
  let '(_, s1) := ScanWhiteSpace s in
  let '(r, s2) := read s1 in
  if r =? chr "*" then
    let '(closed, s3) := skipUntilEndComment s2 in
    if closed then ((COMMENT, ""), s3) else ((ILLEGAL, ""), s3)
  else ((DIV, Tokens DIV), unread s2).

Definition scan_dot (s : Scanner) : (Token * string) * Scanner :=
  let '(r, s1) := read s in
  if isDigit r then ScanNumber true false (unread s1)
  else ((DOT, Tokens DOT), unread s1).

(** The one-rune tokens of the switch in [Scan]. *)
Definition simple_tokens : list (rune * Token) :=
  [(eof, EOF); (chr "=", EQ); (chr "+", ADD); (chr "%", MOD); (chr "&", BITWISE_AND);
   (chr "|", BITWISE_OR); (chr "^", BITWISE_XOR); (chr "*", ASTERISK); (chr ",", COMMA);
   (chr "(", LPAREN); (chr ")", RPAREN); (chr "[", LBRACKET); (chr "]", RBRACKET);
   (chr ":", COLON); (chr "#", HASH); (chr ";", SEMICOLON)].

Fixpoint lookup_rune (ch : rune) (l : list (rune * Token)) : option Token :=
  match l with
  | [] => None
  | (r, t) :: l' => if ch =? r then Some t else lookup_rune ch l'
  end.

Definition Scan (s : Scanner) : (Token * string) * Scanner :=
  let '(ch, s1) := read s in
  if isWhiteSpace ch then ScanWhiteSpace s1
  else if isLetter ch then ScanIdent (unread s1)
  else if isQuotation ch then ScanString (unread s1)
  else if isDigit ch then ScanNumber false false (unread s1)
  else if isBackquote ch then ScanBackquoteIdent s1
  else if ch =? chr "!" then scan_with_eq NEQ EQ s1
  else if ch =? chr "<" then scan_with_eq LTE LT s1
  else if ch =? chr ">" then scan_with_eq GTE GT s1
  else if ch =? chr "-" then scan_minus s1
  else if ch =? chr "/" then scan_slash s1
  else if ch =? chr "." then scan_dot s1
  else match lookup_rune ch simple_tokens with
       | Some t => ((t, Tokens t), s1)
       | None => ((ILLEGAL, ""), s1)
       end.

(** Scanning to the end of the input; [fuel] bounds the number of tokens. *)
Fixpoint scan_all (fuel : nat) (s : Scanner) : option (list (Token * string)) :=
  match fuel with
  | O => None
  | S f =>
      let '(t, s') := Scan s in
      if tok_eqb (fst t) EOF then Some [t]
      else match scan_all f s' with Some l => Some (t :: l) | None => None end
  end.

(** ** Every scan makes progress *)

Definition remaining (s : Scanner) : nat := List.length (rest s).

(** Runes an unread could give back. *)
Definition pending (s : Scanner) : nat := match last s with Some _ => 1%nat | None => 0%nat end.

Definition weight (s : Scanner) : nat := (remaining s + pending s)%nat.

Lemma read_weight s : (weight (snd (read s)) <= remaining s)%nat.
Proof. destruct s as [[|r rs] l]; cbn; lia. Qed.

Lemma unread_remaining s : remaining (unread s) = weight s.
Proof. destruct s as [rs [r|]]; cbn; lia. Qed.

Lemma unread_weight s : weight (unread s) = weight s.
Proof. destruct s as [rs [r|]]; cbn; lia. Qed.

Lemma loop_weight {A} (body : A -> rune -> ctl A) a s :
  (weight (snd (loop body a s)) <= remaining s)%nat.
Proof.
  unfold loop, remaining. generalize a. clear a.
  induction (rest s) as [|r rs IH]; intros a; cbn.
  - destruct (body a eof); cbn; lia.
  - destruct (body a r); cbn; try lia. specialize (IH a0). lia.
Qed.

(** Rewrites every call of a scanning function into its weight bound. *)
Ltac weigh :=
  repeat match goal with
  | |- context [let '(_, _) := loop ?b ?a ?s in _] =>
      let H := fresh "W" in pose proof (loop_weight b a s) as H;
      destruct (loop b a s) as [? ?]; cbn [fst snd] in *
  | |- context [let '(_, _) := read ?s in _] =>
      let H := fresh "W" in pose proof (read_weight s) as H;
      destruct (read s) as [? ?]; cbn [fst snd] in *
  | |- context [if ?c then _ else _] => destruct c; cbn [fst snd] in *
  | p : (_ * _)%type |- _ => destruct p; cbn [fst snd] in *
  | |- context [match ?x with Some _ => _ | None => _ end] => destruct x; cbn [fst snd] in *
  end.

Lemma remaining_le_weight s : (remaining s <= weight s)%nat.
Proof. unfold weight. lia. Qed.

Lemma ScanIdent_weight s : (weight (snd (ScanIdent s)) <= remaining s)%nat.
Proof. unfold ScanIdent. weigh; pose proof (remaining_le_weight s0); lia. Qed.

Lemma ScanString_weight s : (weight (snd (ScanString s)) <= remaining s)%nat.
Proof. unfold ScanString. weigh; pose proof (remaining_le_weight s0); lia. Qed.

Lemma ScanNumber_weight d n s : (weight (snd (ScanNumber d n s)) <= remaining s)%nat.
Proof. unfold ScanNumber. weigh; pose proof (remaining_le_weight s0); lia. Qed.

Lemma ScanBackquote_weight s : (weight (snd (ScanBackquoteIdent s)) <= remaining s)%nat.
Proof. unfold ScanBackquoteIdent. weigh; lia. Qed.

Lemma ScanWhiteSpace_weight s : (weight (snd (ScanWhiteSpace s)) <= remaining s)%nat.
Proof. unfold ScanWhiteSpace. weigh; lia. Qed.

(** Every loop of the scanner stops at the end of the input: no body goes on
    after reading [eof], so [read_loop] never cuts a loop short. *)
Lemma bodies_stop_at_eof :
  (forall a b, ident_body a eof <> Continue b) /\
  (forall a b, string_body a eof <> Continue b) /\
  (forall a b, number_body a eof <> Continue b) /\
  (forall a b, digit_body a eof <> Continue b) /\
  (forall a b, backquote_body a eof <> Continue b) /\
  (forall a b, newline_body a eof <> Continue b) /\
  (forall a b, endcomment_body a eof <> Continue b) /\
  (forall a b, whitespace_body a eof <> Continue b).
Proof.
  repeat split; intros; try discriminate.
  - destruct a as [[x []] y]; discriminate.
  - destruct a as [x y]; discriminate.
  - destruct a as [[] y]; discriminate.
Qed.

Lemma scan_with_eq_weight a b s : (remaining (snd (scan_with_eq a b s)) <= remaining s)%nat.
Proof.
  unfold scan_with_eq. pose proof (ScanWhiteSpace_weight s).
  destruct (ScanWhiteSpace s) as [t s1]. cbn [snd] in *.
  weigh; rewrite ?unread_remaining; unfold weight in *; lia.
Qed.

Lemma scan_minus_weight s : (remaining (snd (scan_minus s)) <= remaining s)%nat.
Proof.
  unfold scan_minus, skipUntilNewline. pose proof (ScanWhiteSpace_weight s).
  destruct (ScanWhiteSpace s) as [t s1]. cbn [snd] in *.
  pose proof (read_weight s1). destruct (read s1) as [r s2]. cbn [snd] in *.
  pose proof (ScanWhiteSpace_weight s2).
  pose proof (loop_weight newline_body tt s2).
  destruct (ScanWhiteSpace s2) as [t' s3]. cbn [snd] in *.
  pose proof (read_weight s3). destruct (read s3) as [r' s4]. cbn [snd] in *.
  pose proof (ScanNumber_weight true true (unread s4)) as HN.
  repeat match goal with |- context [if ?c then _ else _] => destruct c; cbn [snd] end;
    rewrite ?unread_remaining, ?unread_weight in *; unfold weight in *; lia.
Qed.

Lemma scan_slash_weight s : (remaining (snd (scan_slash s)) <= remaining s)%nat.
Proof.
  unfold scan_slash, skipUntilEndComment. pose proof (ScanWhiteSpace_weight s).
  destruct (ScanWhiteSpace s) as [t s1]. cbn [snd] in *.
  weigh; rewrite ?unread_remaining; unfold weight in *; lia.
Qed.

Lemma scan_dot_weight s : (remaining (snd (scan_dot s)) <= remaining s)%nat.
Proof.
  unfold scan_dot. pose proof (read_weight s). destruct (read s) as [r s1]. cbn [snd] in *.
  pose proof (ScanNumber_weight true false (unread s1)) as HN.
  destruct (isDigit r); cbn [snd]; rewrite ?unread_remaining in *; unfold weight in *; lia.
Qed.

Lemma ScanIdent_progress r rs l :
  (remaining (snd (ScanIdent (mkScanner (r :: rs) l))) <= List.length rs)%nat.
Proof.
  unfold ScanIdent. cbn [read rest].
  pose proof (loop_weight ident_body (utf8 r) (mkScanner rs (Some r))).
  destruct (loop _ _ _) as [b s2]. cbn [snd] in *.
  destruct (lookup_keyword _ _); cbn; unfold weight, remaining in *; cbn in *; lia.
Qed.

Lemma ScanString_progress r rs l :
  (remaining (snd (ScanString (mkScanner (r :: rs) l))) <= List.length rs)%nat.
Proof.
  unfold ScanString. cbn [read rest].
  pose proof (loop_weight string_body ([], false, false) (mkScanner rs (Some r))).
  destruct (loop _ _ _) as [[[b e] c] s2]. cbn [snd] in *.
  destruct c; cbn; unfold weight, remaining in *; cbn in *; lia.
Qed.

Lemma ScanNumber_progress d n r rs l :
  (remaining (snd (ScanNumber d n (mkScanner (r :: rs) l))) <= List.length rs)%nat.
Proof.
  unfold ScanNumber. cbn [read rest].
  match goal with |- context [loop number_body ?a ?s] =>
    pose proof (loop_weight number_body a s); destruct (loop number_body a s) as [[b c] s2] end.
  cbn [snd] in *.
  destruct (c || d); cbn; unfold weight, remaining in *; cbn in *; lia.
Qed.

Lemma Scan_progress r rs l :
  (remaining (snd (Scan (mkScanner (r :: rs) l))) <= List.length rs)%nat.
Proof.
  unfold Scan. cbn [read rest].
  set (s1 := mkScanner rs (Some r)).
  change (unread s1) with (mkScanner (r :: rs) None).
  pose proof (ScanWhiteSpace_weight s1). pose proof (ScanIdent_progress r rs None).
  pose proof (ScanString_progress r rs None). pose proof (ScanNumber_progress false false r rs None).
  pose proof (ScanBackquote_weight s1). pose proof (scan_with_eq_weight NEQ EQ s1).
  pose proof (scan_with_eq_weight LTE LT s1). pose proof (scan_with_eq_weight GTE GT s1).
  pose proof (scan_minus_weight s1). pose proof (scan_slash_weight s1).
  pose proof (scan_dot_weight s1).
  assert (remaining s1 = List.length rs) by reflexivity.
  repeat match goal with |- context [if ?c then _ else _] => destruct c end;
    unfold weight in *; try lia.
  destruct (lookup_rune r simple_tokens); cbn [snd]; lia.
Qed.

Lemma Scan_at_end l : Scan (mkScanner [] l) = ((EOF, Tokens EOF), mkScanner [] None).
Proof. reflexivity. Qed.

Lemma scan_all_enough n : forall s, (remaining s <= n)%nat -> exists l, scan_all (S n) s = Some l.
Proof.
  induction n as [|n IH]; intros [rs l] H.
  - destruct rs; [|cbn in H; lia]. eexists. reflexivity.
  - destruct rs as [|r rs]; [eexists; reflexivity|].
    cbn [scan_all]. pose proof (Scan_progress r rs l) as P.
    destruct (Scan (mkScanner (r :: rs) l)) as [t s']. cbn [snd] in P.
    destruct (tok_eqb (fst t) EOF); [eauto|].
    destruct (IH s') as [l' Hl'].
    + unfold remaining in *. cbn in *. lia.
    + cbn [scan_all] in Hl'. rewrite Hl'. eauto.
Qed.

(** the scanner terminates on every input: it reaches the end-of-input
    token after at most one scan per rune plus one, whatever the runes are
    (unterminated strings, comments and stray characters included). *)
Theorem scan_all_total rs : exists l, scan_all (S (List.length rs)) (NewScanner rs) = Some l.
Proof. apply scan_all_enough. unfold remaining. cbn. lia. Qed.

(** ** Round trips *)

(** A loop that continues on a prefix reaches what follows it. *)
Lemma read_loop_prefix {A} (body : A -> rune -> ctl A) (step : A -> rune -> A) pre tl : forall a,
  (forall r a, In r pre -> body a r = Continue (step a r)) ->
  read_loop body (pre ++ tl) a = read_loop body tl (fold_left step pre a).
Proof.
  induction pre as [|r pre IH]; intros a H; cbn; [reflexivity|].
  rewrite H by (now left). apply IH. intros. apply H. now right.
Qed.

Lemma append_nil_r (a : string) : (a ++ "")%string = a.
Proof. induction a; cbn; [reflexivity|now rewrite IHa]. Qed.

Lemma fold_utf8 rs : forall buf,
  fold_left (fun b r => (b ++ utf8 r)%string) rs buf = (buf ++ encode rs)%string.
Proof.
  induction rs as [|r rs IH]; intros buf; cbn; [now rewrite append_nil_r|].
  now rewrite IH, sapp_assoc.
Qed.

Lemma encode_app a b : encode (a ++ b) = (encode a ++ encode b)%string.
Proof. induction a; cbn; [reflexivity|]. now rewrite IHa, sapp_assoc. Qed.

(** a back-quoted name is scanned to exactly that name: any text without
    a back quote or NUL, keywords and blanks included, can be written as an
    identifier, and the scanner stops right after the closing quote. *)
Theorem backquote_roundtrip rs tl l :
  (forall r, In r rs -> r <> chr "`" /\ r <> eof) ->
  Scan (mkScanner (chr "`" :: rs ++ chr "`" :: tl) l) =
    ((IDENT, encode rs), mkScanner tl (Some (chr "`"))).
Proof.
  intros H. unfold Scan. cbn [read rest].
  change (isWhiteSpace (chr "`")) with false. change (isLetter (chr "`")) with false.
  change (isQuotation (chr "`")) with false. change (isDigit (chr "`")) with false.
  change (isBackquote (chr "`")) with true. cbv iota.
  unfold ScanBackquoteIdent, loop. cbn [rest].
  rewrite (read_loop_prefix _ (fun b r => (b ++ utf8 r)%string)).
  - rewrite fold_utf8. reflexivity.
  - intros r a Hin. destruct (H r Hin) as [H1 H2]. unfold backquote_body, isBackquote.
    apply Z.eqb_neq in H1 as ->. apply Z.eqb_neq in H2 as ->. reflexivity.
Qed.

Lemma backquote_roundtrip_witness :
  (forall r, In r (runes "select x") -> r <> chr "`" /\ r <> eof) /\
  Scan (mkScanner (chr "`" :: runes "select x" ++ chr "`" :: []) None) =
    ((IDENT, "select x"), mkScanner [] (Some (chr "`"))).
Proof.
  assert (H : forall r, In r (runes "select x") -> r <> chr "`" /\ r <> eof).
  { intros r Hr. repeat (destruct Hr as [<-|Hr]; [split; discriminate|]). destruct Hr. }
  split; [exact H|]. exact (backquote_roundtrip (runes "select x") [] None H).
Defined.

(** How a text is written between double quotes. *)
Definition quote_rune (r : rune) : list rune :=
  if r =? 34 then [92; 34]
  else if r =? 92 then [92; 92]
  else if r =? 10 then [92; chr "n"]
  else [r].

Definition quote (rs : list rune) : list rune := 34 :: flat_map quote_rune rs ++ [34].

Lemma string_loop_quoted rs tl : forall buf,
  (forall r, In r rs -> r <> eof) ->
  read_loop string_body (flat_map quote_rune rs ++ 34 :: tl) (buf, false, false) =
    ((buf ++ flat_map quote_rune rs, false, true), mkScanner tl (Some 34)).
Proof.
  induction rs as [|r rs IH]; intros buf H; cbn [flat_map]; [now rewrite app_nil_r|].
  assert (Hr : (r =? eof) = false) by (apply Z.eqb_neq, H; now left).
  assert (Hrs : forall x, In x rs -> x <> eof) by (intros; apply H; now right).
  unfold quote_rune at 1 3.
  destruct (r =? 34) eqn:E1; [|destruct (r =? 92) eqn:E2; [|destruct (r =? 10) eqn:E3]];
    cbn [app read_loop string_body]; rewrite ?E1, ?E2, ?Hr; cbn -[read_loop flat_map];
    rewrite IH by assumption; now rewrite <- ?app_assoc.
Qed.

Lemma unquote_loop_quoted rs : forall fuel,
  (List.length (flat_map quote_rune rs) <= fuel)%nat ->
  unquote_loop fuel (flat_map quote_rune rs) = Some (encode rs).
Proof.
  induction rs as [|r rs IH]; intros fuel H; [destruct fuel; reflexivity|].
  cbn [flat_map encode] in *. rewrite length_app in H.
  revert H. unfold quote_rune at 1 3.
  destruct (r =? 34) eqn:E1; [|destruct (r =? 92) eqn:E2; [|destruct (r =? 10) eqn:E3]];
    cbn [List.length]; intros H; (destruct fuel as [|fuel]; [lia|]);
    cbn [app unquote_loop]; rewrite ?E1, ?E2, ?E3; cbn -[unquote_loop utf8 flat_map];
    rewrite IH by lia; bool_to_prop; subst; reflexivity.
Qed.

(** string literals survive the scanner: every text without NUL can be
    written between double quotes, with backslash escapes for quotes,
    backslashes and line feeds, and is scanned back to exactly that text. *)
Theorem string_roundtrip rs tl l :
  (forall r, In r rs -> r <> eof) ->
  Scan (mkScanner (quote rs ++ tl) l) = ((STRING, encode rs), mkScanner tl (Some 34)).
Proof.
  intros H. unfold quote, Scan. cbn [app read rest].
  change (isWhiteSpace 34) with false. change (isLetter 34) with false.
  change (isQuotation 34) with true. cbv iota.
  unfold ScanString, unread. cbn [last rest read]. unfold loop. cbn [rest].
  rewrite <- app_assoc. cbn [app].
  rewrite string_loop_quoted by assumption. cbn [app].
  unfold unquote. now rewrite unquote_loop_quoted.
Qed.

Lemma string_roundtrip_witness :
  (forall r, In r [97; 34; 92; 10; 233] -> r <> eof) /\
  Scan (mkScanner (quote [97; 34; 92; 10; 233] ++ []) None) =
    ((STRING, encode [97; 34; 92; 10; 233]), mkScanner [] (Some 34)).
Proof.
  assert (H : forall r, In r [97; 34; 92; 10; 233] -> r <> eof).
  { intros r Hr. repeat (destruct Hr as [<-|Hr]; [discriminate|]). destruct Hr. }
  split; [exact H|]. exact (string_roundtrip _ [] None H).
Defined.

(** ** Identifiers and keywords *)

Definition ident_char (r : rune) : bool := isLetter r || isDigit r || (r =? chr "_").

Lemma ident_char_not_eof r : ident_char r = true -> (r =? eof) = false.
Proof.
  unfold ident_char, isLetter, isDigit, chr, eof. cbn. intros H. apply Z.eqb_neq. intros ->. discriminate.
Qed.

Lemma ident_body_char r buf :
  ident_char r = true -> ident_body buf r = Continue (buf ++ utf8 r)%string.
Proof.
  intros H. unfold ident_body. rewrite ident_char_not_eof by assumption.
  unfold ident_char in H.
  destruct (isLetter r), (isDigit r), (r =? chr "_"); cbn in *; try discriminate; reflexivity.
Qed.

(** What may follow an identifier: nothing, or a rune that cannot continue it. *)
Definition ident_boundary (tl : list rune) : Prop :=
  match tl with [] => True | r :: _ => ident_char r = false /\ r <> eof end.

Lemma ident_loop_spec rs tl buf :
  (forall r, In r rs -> ident_char r = true) -> ident_boundary tl ->
  read_loop ident_body (rs ++ tl) buf = ((buf ++ encode rs)%string, mkScanner tl None).
Proof.
  intros H Hb. rewrite (read_loop_prefix _ (fun b r => (b ++ utf8 r)%string)).
  - rewrite fold_utf8. destruct tl as [|r tl]; cbn; [reflexivity|].
    destruct Hb as [Hc Hn]. unfold ident_body. apply Z.eqb_neq in Hn as ->.
    unfold ident_char in Hc.
    destruct (isLetter r), (isDigit r), (r =? chr "_"); cbn in *; try discriminate; reflexivity.
  - intros. now apply ident_body_char, H.
Qed.

Lemma letter_not_space r : isLetter r = true -> isWhiteSpace r = false.
Proof.
  unfold isLetter, isWhiteSpace, chr. cbn. intros H.
  repeat match goal with |- context [r =? ?k] => destruct (Z.eqb_spec r k); [subst; discriminate|] end.
  reflexivity.
Qed.

(** the scanner's treatment of words: a letter followed by letters,
    digits and underscores is one token; it is the keyword whose upper-case
    spelling it matches, in any letter case, and an identifier with its
    spelling kept otherwise. *)
Theorem scan_word r rs tl l :
  isLetter r = true -> (forall x, In x rs -> ident_char x = true) -> ident_boundary tl ->
  Scan (mkScanner ((r :: rs) ++ tl) l) =
    (match lookup_keyword (to_upper (encode (r :: rs))) keywords with
     | Some t => (t, to_upper (encode (r :: rs)))
     | None => (IDENT, encode (r :: rs))
     end, mkScanner tl None).
Proof.
  intros Hr Hrs Hb. unfold Scan. cbn [app read rest].
  rewrite letter_not_space, Hr by assumption.
  unfold ScanIdent, unread. cbn [last rest read]. unfold loop. cbn [rest].
  rewrite ident_loop_spec by assumption. cbn [encode].
  now destruct (lookup_keyword _ _).
Qed.

Lemma scan_word_witness :
  isLetter (chr "S") = true /\ ident_boundary (runes " a") /\
  Scan (mkScanner ((chr "S" :: runes "elEct") ++ runes " a") None) =
    ((SELECT, "SELECT"), mkScanner (runes " a") None).
Proof.
  assert (H : forall x, In x (runes "elEct") -> ident_char x = true).
  { intros x Hx. repeat (destruct Hx as [<-|Hx]; [reflexivity|]). destruct Hx. }
  assert (B : ident_boundary (runes " a")) by (split; [reflexivity|discriminate]).
  split; [reflexivity|]. split; [exact B|].
  exact (scan_word (chr "S") (runes "elEct") (runes " a") None eq_refl H B).
Defined.

(** A subtraction whose operand is written with a leading minus turns the
    rest of the line into a comment, because white space between the two
    minus signs is skipped before the comment test. *)
Theorem minus_minus_is_comment :
  scan_all 20 (NewScanner (runes "a - -1 > 0")) =
    Some [(IDENT, "a"); (WS, ""); (COMMENT, ""); (EOF, "EOF")].
Proof. vm_compute. reflexivity. Qed.

(** After [-.] the second [UnreadRune] has no effect, so the dot is lost. *)
Theorem minus_dot_loses_dot :
  scan_all 20 (NewScanner (runes "a-.b")) = scan_all 20 (NewScanner (runes "a-b")).
Proof. vm_compute. reflexivity. Qed.
