(* ===== verification/Strconv.v ===== *)
(** The conversions of package [strconv] that the program uses: [Atoi],
    [ParseInt] and [ParseUint] in base 0, [ParseBool]. *)

From S2P Require Import Prelude Ast Lexical.
From Stdlib Require Import ZArith Lia Bool List String Ascii.
Import ListNotations.

#[local] Open Scope string_scope.
#[local] Open Scope list_scope.
#[local] Open Scope Z_scope.

(** ** Decimal numbers *)

Fixpoint all_digits (s : string) : bool :=
  match s with EmptyString => true | String c s' => isDigit (chr c) && all_digits s' end.

Fixpoint dec_val (acc : Z) (s : string) : Z :=
  match s with EmptyString => acc | String c s' => dec_val (10 * acc + (chr c - 48)) s' end.

(** [strconv.Atoi]: the value that comes with an error is 0, or the nearest
    bound if the number does not fit. *)
Definition Atoi (s : string) : Z * bool :=
  let '(neg, ds) :=
    match s with
    | String c s' => if chr c =? 45 then (true, s') else if chr c =? 43 then (false, s') else (false, s)
    | EmptyString => (false, s)
    end in
  if String.eqb ds "" || negb (all_digits ds) then (0, false)
  else
    let v := if neg then - dec_val 0 ds else dec_val 0 ds in
    if v <? MinInt64 then (MinInt64, false) else if MaxInt64 <? v then (MaxInt64, false) else (v, true).

Definition ParseBool (s : string) : option bool :=
  if mem s ["1"; "t"; "T"; "true"; "TRUE"; "True"] then Some true
  else if mem s ["0"; "f"; "F"; "false"; "FALSE"; "False"] then Some false
  else None.

(** ** Integers in base 0

    The base is that of the prefix; underscores may separate digits. *)

Definition lower (c : rune) : rune := Z.lor c 32.

Definition digit_of (c : rune) : option Z :=
  if isDigit c then Some (c - 48)
  else if (97 <=? lower c) && (lower c <=? 122) then Some (lower c - 87)
  else None.

(** The base of the prefix and what follows it. *)
Definition base_prefix (s : string) : Z * string :=
  match s with
  | String c0 s1 =>
      if chr c0 =? 48 then
        match s1 with
        | String c1 (String _ _ as s2) =>
            if lower (chr c1) =? 98 then (2, s2)
            else if lower (chr c1) =? 111 then (8, s2)
            else if lower (chr c1) =? 120 then (16, s2)
            else (8, s1)
        | _ => (8, s1)
        end
      else (10, s)
  | EmptyString => (10, s)
  end.

(** The value of the digits and whether there was an underscore. *)
Fixpoint based (base : Z) (acc : Z) (us : bool) (s : string) : option (Z * bool) :=
  match s with
  | EmptyString => Some (acc, us)
  | String c s' =>
      if chr c =? 95 then based base acc true s'
      else
        match digit_of (chr c) with
        | Some d => if d <? base then based base (acc * base + d) us s' else None
        | None => None
        end
  end.

(** [underscoreOK]: an underscore follows a digit or the prefix, and a digit
    follows it.  [prev] is the last rune seen: a digit, an underscore, none. *)
Inductive seen : Type := SDigit | SUnder | SStart | SOther.

Fixpoint under_loop (hex : bool) (prev : seen) (s : string) : bool :=
  match s with
  | EmptyString => match prev with SUnder => false | _ => true end
  | String c s' =>
      if isDigit (chr c) || hex && (97 <=? lower (chr c)) && (lower (chr c) <=? 102) then under_loop hex SDigit s'
      else if chr c =? 95 then match prev with SDigit => under_loop hex SUnder s' | _ => false end
      else match prev with SUnder => false | _ => under_loop hex SOther s' end
  end.

Definition underscoreOK (s : string) : bool :=
  let s := match s with String c s' => if (chr c =? 45) || (chr c =? 43) then s' else s | _ => s end in
  match s with
  | String c0 (String c1 s') =>
      let l := lower (chr c1) in
      if (chr c0 =? 48) && ((l =? 98) || (l =? 111) || (l =? 120)) then under_loop (l =? 120) SDigit s'
      else under_loop false SStart s
  | _ => under_loop false SStart s
  end.

(** [ParseUint(s, 0, 64)], without the kind of error. *)
Definition ParseUint (s : string) : option Z :=
  if String.eqb s "" then None
  else
    let (base, ds) := base_prefix s in
    match based base 0 false ds with
    | Some (n, us) => if (2 ^ 64 <=? n) || (us && negb (underscoreOK s)) then None else Some n
    | None => None
    end.

(** [ParseInt(s, 0, 0)] on a 64-bit platform. *)
Definition ParseInt (s : string) : option Z :=
  match s with
  | EmptyString => None
  | String c s' =>
      let '(neg, ds) := if chr c =? 43 then (false, s') else if chr c =? 45 then (true, s') else (false, s) in
      match ParseUint ds with
      | Some n =>
          if neg then if 2 ^ 63 <? n then None else Some (- n)
          else if 2 ^ 63 <=? n then None else Some n
      | None => None
      end
  end.

Example ParseInt_prefixes :
  map ParseInt ["42"; "-0x2a"; "0b101"; "0o17"; "017"; "1_000"; "0x_ff"; "1__0"; "08"; "9223372036854775808"; "-9223372036854775808"; ""; "+"]
  = [Some 42; Some (-42); Some 5; Some 15; Some 15; Some 1000; Some 255; None; None; None; Some MinInt64; None; None].
Proof. vm_compute. reflexivity. Qed.

(** ** Decimal renderings are read back *)

(** The numbers written without a sign. *)
Definition natural (z : Z) : Prop := 0 <= z <= MaxInt64.

Lemma dec_val_app s t : forall acc, dec_val acc (s ++ t) = dec_val (dec_val acc s) t.
Proof. induction s as [|c s IH]; intros acc; cbn; auto. Qed.

Lemma all_digits_app s t : all_digits (s ++ t) = all_digits s && all_digits t.
Proof. induction s as [|c s IH]; cbn; [reflexivity|]. now rewrite IH, andb_assoc. Qed.

Lemma chr_digit d : 0 <= d < 10 -> chr (ascii_of_N (Z.to_N (48 + d))) = 48 + d.
Proof. intros H. unfold chr. rewrite N_ascii_embedding by lia. lia. Qed.

Lemma isDigit_chr d : 0 <= d < 10 -> isDigit (48 + d) = true.
Proof.
  intros H. unfold isDigit. apply andb_true_intro. change (chr "0") with 48. change (chr "9") with 57.
  split; apply Z.leb_le; lia.
Qed.

(** The digits of [z] in front of an accumulator. *)
Lemma digits_spec f : forall z acc, 0 <= z < 10 ^ Z.of_nat (S f) -> exists ds,
  digits_aux (S f) z acc = (ds ++ acc)%string /\ all_digits ds = true /\ dec_val 0 ds = z /\ ds <> "".
Proof.
  induction f as [|f IH]; intros z acc Hz.
  - change (10 ^ Z.of_nat 1) with 10 in Hz. cbn [digits_aux]. rewrite Z.mod_small, Z.div_small by lia.
    exists (String (ascii_of_N (Z.to_N (48 + z))) ""). cbn [all_digits dec_val String.append Z.eqb].
    rewrite chr_digit, isDigit_chr by lia. repeat split; [lia|discriminate].
  - pose proof (Z.mod_pos_bound z 10 ltac:(lia)) as Hm. pose proof (Z.div_mod z 10 ltac:(lia)) as Hd.
    remember (S f) as f' eqn:Ef. cbn [digits_aux].
    set (c := ascii_of_N (Z.to_N (48 + z mod 10))). assert (Hc : chr c = 48 + z mod 10) by (apply chr_digit; lia).
    destruct (Z.eqb_spec (z / 10) 0) as [E|E].
    + exists (String c ""). cbn [all_digits dec_val String.append]. rewrite Hc, isDigit_chr by lia.
      repeat split; [lia|discriminate].
    + destruct (IH (z / 10) (String c acc)) as (ds & E1 & E2 & E3 & E4).
      { split; [apply Z.div_pos; lia|]. apply Z.div_lt_upper_bound; [lia|].
        replace (Z.of_nat (S f')) with (Z.of_nat f' + 1) in Hz by lia. rewrite Z.pow_add_r in Hz by lia. lia. }
      exists (ds ++ String c "")%string. rewrite E1, sapp_assoc. split; [reflexivity|].
      rewrite all_digits_app, dec_val_app, E2, E3. cbn [all_digits dec_val]. rewrite Hc, isDigit_chr by lia.
      repeat split; [lia|]. destruct ds; discriminate.
Qed.

Lemma itoa_spec z : natural z ->
  all_digits (itoa z) = true /\ dec_val 0 (itoa z) = z /\ itoa z <> "".
Proof.
  intros [H1 H2]. unfold itoa. destruct (Z.ltb_spec z 0); [lia|].
  destruct (digits_spec 39 z "") as (ds & E & A & D & N).
  { split; [exact H1|]. eapply Z.le_lt_trans; [exact H2|]. reflexivity. }
  rewrite E, append_nil_r. auto.
Qed.

Lemma Atoi_itoa z : natural z -> Atoi (itoa z) = (z, true).
Proof.
  intros H. destruct (itoa_spec z H) as (A & D & N). unfold Atoi. destruct (itoa z) as [|c s]; [easy|].
  cbn [all_digits] in A. apply andb_prop in A as [Hc Hs].
  assert (C : (chr c =? 45) = false /\ (chr c =? 43) = false).
  { unfold isDigit in Hc. apply andb_prop in Hc as [Hc _]. apply Z.leb_le in Hc. change (chr "0") with 48 in Hc.
    split; apply Z.eqb_neq; lia. }
  destruct C as [-> ->]. cbn [String.eqb all_digits]. rewrite Hc, Hs. cbn [andb negb orb]. rewrite D.
  destruct H as [H1 H2]. destruct (Z.ltb_spec z MinInt64); [unfold MinInt64 in *; lia|].
  destruct (Z.ltb_spec MaxInt64 z); [lia|reflexivity].
Qed.

(** No leading zero. *)
Lemma digits_lead f : forall z acc, 0 < z < 10 ^ Z.of_nat (S f) ->
  exists c s, digits_aux (S f) z acc = String c s /\ 49 <= chr c <= 57.
Proof.
  induction f as [|f IH]; intros z acc Hz.
  - change (10 ^ Z.of_nat 1) with 10 in Hz. cbn [digits_aux]. rewrite Z.mod_small, Z.div_small by lia. cbn [Z.eqb].
    eexists _, _. split; [reflexivity|]. rewrite chr_digit; lia.
  - pose proof (Z.mod_pos_bound z 10 ltac:(lia)). pose proof (Z.div_mod z 10 ltac:(lia)).
    remember (S f) as f' eqn:Ef. cbn [digits_aux]. destruct (Z.eqb_spec (z / 10) 0) as [E|E].
    + eexists _, _. split; [reflexivity|]. rewrite chr_digit; lia.
    + apply IH. pose proof (Z.div_pos z 10 ltac:(lia) ltac:(lia)). split; [lia|]. apply Z.div_lt_upper_bound; [lia|].
      replace (Z.of_nat (S f')) with (Z.of_nat f' + 1) in Hz by lia. rewrite Z.pow_add_r in Hz by lia. lia.
Qed.

Lemma based_digits s : forall acc us, all_digits s = true -> based 10 acc us s = Some (dec_val acc s, us).
Proof.
  induction s as [|c s IH]; intros acc us H; cbn [based dec_val]; [reflexivity|].
  cbn [all_digits] in H. apply andb_prop in H as [Hc Hs].
  assert (B : 48 <= chr c <= 57).
  { unfold isDigit in Hc. change (chr "0") with 48 in Hc. change (chr "9") with 57 in Hc. lia. }
  destruct (Z.eqb_spec (chr c) 95); [lia|]. unfold digit_of. rewrite Hc. destruct (Z.ltb_spec (chr c - 48) 10); [|lia].
  rewrite IH by assumption. do 2 f_equal. f_equal. lia.
Qed.

Lemma ParseUint_digits z : 0 <= z <= 2 ^ 63 -> ParseUint (digits_aux 40 z "") = Some z.
Proof.
  intros Hz. destruct (Z.eq_dec z 0) as [->|N]; [reflexivity|].
  destruct (digits_spec 39 z "") as (ds & E & A & D & _); [split; [lia|]; apply Z.le_lt_trans with (2 ^ 63); [lia|reflexivity]|].
  destruct (digits_lead 39 z "") as (c & s & E1 & Hc); [split; [lia|]; apply Z.le_lt_trans with (2 ^ 63); [lia|reflexivity]|].
  rewrite append_nil_r in E. rewrite <- E, E1 in A, D. rewrite E1. unfold ParseUint. cbn [String.eqb].
  assert (B : base_prefix (String c s) = (10, String c s)).
  { unfold base_prefix. destruct (Z.eqb_spec (chr c) 48); [lia|reflexivity]. }
  rewrite B, based_digits, D by exact A. cbn [andb]. destruct (Z.leb_spec (2 ^ 64) z); [lia|reflexivity].
Qed.

Lemma sign_free z : 0 <= z <= 2 ^ 63 -> exists c s, digits_aux 40 z "" = String c s /\ 48 <= chr c <= 57.
Proof.
  intros Hz. destruct (Z.eq_dec z 0) as [->|N].
  - eexists _, _. split; [reflexivity|]. now cbn.
  - destruct (digits_lead 39 z "") as (c & s & E1 & Hc); [split; [lia|]; apply Z.le_lt_trans with (2 ^ 63); [lia|reflexivity]|].
    exists c, s. split; [exact E1|lia].
Qed.

(** Every 64-bit integer is read back from its decimal rendering. *)
Lemma ParseInt_itoa z : in_int64 z -> ParseInt (itoa z) = Some z.
Proof.
  unfold in_int64, MinInt64, MaxInt64, itoa. intros H. destruct (Z.ltb_spec z 0).
  - change ("-" ++ digits_aux 40 (- z) "")%string with (String "-" (digits_aux 40 (- z) "")).
    unfold ParseInt. change (chr "-" =? 43) with false. change (chr "-" =? 45) with true.
    cbv beta iota zeta. rewrite ParseUint_digits by lia. destruct (Z.ltb_spec (2 ^ 63) (- z)); [lia|]. f_equal. lia.
  - destruct (sign_free z) as (c & s & E & Hc); [lia|]. rewrite E. unfold ParseInt.
    destruct (Z.eqb_spec (chr c) 43); [lia|]. destruct (Z.eqb_spec (chr c) 45); [lia|].
    cbv beta iota zeta. rewrite <- E, ParseUint_digits by lia. destruct (Z.leb_spec (2 ^ 63) z); [lia|reflexivity].
Qed.

Lemma digits_itoa z : 0 <= z <= 2 ^ 63 -> z <> 0 ->
  exists ds, digits_aux 40 z "" = ds /\ all_digits ds = true /\ dec_val 0 ds = z /\ ds <> "".
Proof.
  intros Hz _. destruct (digits_spec 39 z "") as (ds & E & A & D & N).
  { split; [lia|]. apply Z.le_lt_trans with (2 ^ 63); [lia|reflexivity]. }
  rewrite append_nil_r in E. exists ds. auto.
Qed.

(** [Atoi] reads back every [int]. *)
Lemma Atoi_itoa_int z : in_int64 z -> Atoi (itoa z) = (z, true).
Proof.
  unfold in_int64, MinInt64, MaxInt64. intros H. destruct (Z.ltb_spec z 0); [|apply Atoi_itoa; unfold natural, MaxInt64; lia].
  unfold itoa. rewrite (proj2 (Z.ltb_lt z 0)) by lia.
  destruct (digits_itoa (- z)) as (ds & -> & A & D & N); [lia|lia|].
  change ("-" ++ ds)%string with (String "-" ds). unfold Atoi. change (chr "-" =? 45) with true. cbv beta iota zeta.
  rewrite A, D. destruct ds as [|c ds]; [easy|]. cbn [String.eqb negb orb].
  unfold MinInt64, MaxInt64. destruct (Z.ltb_spec (- - z) (-9223372036854775808)); [lia|].
  destruct (Z.ltb_spec 9223372036854775807 (- - z)); [lia|]. f_equal. lia.
Qed.
