(* ===== verification/Utf8.v ===== *)
(** Strings as sequences of runes: Go's conversion [\[\]rune(s)] and the
    encoding that [string(runes)] and [WriteRune] use (package [unicode/utf8]). *)

From S2P Require Import Prelude Lexical.
From Stdlib Require Import ZArith Lia Bool List String Ascii.
Import ListNotations.

#[local] Open Scope string_scope.
#[local] Open Scope list_scope.
#[local] Open Scope Z_scope.

(** ** Decoding *)

Definition RuneError : rune := 65533.

Definition is_cont (b : Z) : bool := (128 <=? b) && (b <? 192).

(** The encodings of two, three and four bytes; overlong forms, surrogates and
    what is above U+10FFFF are refused by the bounds on the second byte. *)
Definition two_bytes (b0 b1 : Z) : bool := (194 <=? b0) && (b0 <? 224) && is_cont b1.

Definition three_bytes (b0 b1 b2 : Z) : bool :=
  (224 <=? b0) && (b0 <? 240) && is_cont b1 && is_cont b2
  && negb ((b0 =? 224) && (b1 <? 160)) && negb ((b0 =? 237) && (160 <=? b1)).

Definition four_bytes (b0 b1 b2 b3 : Z) : bool :=
  (240 <=? b0) && (b0 <? 245) && is_cont b1 && is_cont b2 && is_cont b3
  && negb ((b0 =? 240) && (b1 <? 144)) && negb ((b0 =? 244) && (144 <=? b1)).

(** A byte that starts no encoding is one [RuneError]. *)
Fixpoint decode (s : string) : list rune :=
  match s with
  | EmptyString => []
  | String c0 s1 =>
      let b0 := chr c0 in
      if b0 <? 128 then b0 :: decode s1
      else
        match s1 with
        | String c1 s2 =>
            let b1 := chr c1 in
            if two_bytes b0 b1 then (b0 - 192) * 64 + (b1 - 128) :: decode s2
            else
              match s2 with
              | String c2 s3 =>
                  let b2 := chr c2 in
                  if three_bytes b0 b1 b2 then
                    (b0 - 224) * 4096 + (b1 - 128) * 64 + (b2 - 128) :: decode s3
                  else
                    match s3 with
                    | String c3 s4 =>
                        let b3 := chr c3 in
                        if four_bytes b0 b1 b2 b3 then
                          (b0 - 240) * 262144 + (b1 - 128) * 4096 + (b2 - 128) * 64 + (b3 - 128) :: decode s4
                        else RuneError :: decode s1
                    | EmptyString => RuneError :: decode s1
                    end
              | EmptyString => RuneError :: decode s1
              end
        | EmptyString => [RuneError]
        end
  end.

(** ** Runes are read back from their encoding *)

Definition valid_rune (r : rune) : Prop := 0 <= r < 55296 \/ 57343 < r <= 1114111.

Lemma chr_byte z : 0 <= z < 256 -> chr (byte_chr z) = z.
Proof. intros H. unfold chr, byte_chr. rewrite N_ascii_embedding by lia. lia. Qed.

Lemma digits64 r : 0 <= r -> r = r / 64 * 64 + r mod 64 /\ 0 <= r mod 64 < 64.
Proof. intros H. pose proof (Z.div_mod r 64 ltac:(lia)). pose proof (Z.mod_pos_bound r 64 ltac:(lia)). lia. Qed.

Ltac decide_bytes :=
  repeat match goal with
         | |- context [?a <? ?b] => destruct (Z.ltb_spec a b); try lia
         | |- context [?a <=? ?b] => destruct (Z.leb_spec a b); try lia
         | |- context [?a =? ?b] => destruct (Z.eqb_spec a b); try lia
         end; cbn [andb negb orb]; try reflexivity.

Lemma two_bytes_ok a b : 2 <= a < 32 -> 0 <= b < 64 -> two_bytes (192 + a) (128 + b) = true.
Proof. intros. unfold two_bytes, is_cont. decide_bytes. Qed.

Lemma two_bytes_no a b : 32 <= a -> two_bytes (192 + a) b = false.
Proof. intros. unfold two_bytes, is_cont. decide_bytes. Qed.

Lemma three_bytes_ok a b c : 0 <= a < 16 -> 0 <= b < 64 -> 0 <= c < 64 -> (a = 0 -> 32 <= b) -> (a = 13 -> b < 32) ->
  three_bytes (224 + a) (128 + b) (128 + c) = true.
Proof. intros. unfold three_bytes, is_cont. decide_bytes. Qed.

Lemma three_bytes_no a b c : 16 <= a -> three_bytes (224 + a) b c = false.
Proof. intros. unfold three_bytes, is_cont. decide_bytes. Qed.

Lemma four_bytes_ok a b c d : 0 <= a < 5 -> 0 <= b < 64 -> 0 <= c < 64 -> 0 <= d < 64 -> (a = 0 -> 16 <= b) ->
  (a = 4 -> b < 16) -> four_bytes (240 + a) (128 + b) (128 + c) (128 + d) = true.
Proof. intros. unfold four_bytes, is_cont. decide_bytes. Qed.

Lemma decode_two r s : 128 <= r < 2048 -> decode (utf8 r ++ s) = r :: decode s.
Proof.
  intros H. destruct (digits64 r) as [E1 B1]; [lia|]. unfold utf8. decide_bytes.
  cbn [String.append decode]. rewrite !chr_byte by lia. destruct (Z.ltb_spec (192 + r / 64) 128); [lia|].
  rewrite two_bytes_ok by lia. f_equal. lia.
Qed.

Lemma decode_three r s : 2048 <= r < 65536 -> valid_rune r -> decode (utf8 r ++ s) = r :: decode s.
Proof.
  unfold valid_rune. intros H V. destruct (digits64 r) as [E1 B1]; [lia|].
  destruct (digits64 (r / 64)) as [E2 B2]; [lia|].
  assert (D : r / 4096 = r / 64 / 64) by (rewrite Z.div_div by lia; reflexivity).
  unfold utf8. decide_bytes;
  cbn [String.append decode]; rewrite D; rewrite !chr_byte by lia;
    destruct (Z.ltb_spec (224 + r / 64 / 64) 128); try lia;
    replace (224 + r / 64 / 64) with (192 + (32 + r / 64 / 64)) at 1 by lia;
    rewrite two_bytes_no, three_bytes_ok by lia; f_equal; lia.
Qed.

Lemma decode_four r s : 65536 <= r <= 1114111 -> decode (utf8 r ++ s) = r :: decode s.
Proof.
  intros H. destruct (digits64 r) as [E1 B1]; [lia|].
  destruct (digits64 (r / 64)) as [E2 B2]; [lia|]. destruct (digits64 (r / 64 / 64)) as [E3 B3]; [lia|].
  assert (D2 : r / 4096 = r / 64 / 64) by (rewrite Z.div_div by lia; reflexivity).
  assert (D3 : r / 262144 = r / 64 / 64 / 64) by (rewrite !Z.div_div by lia; reflexivity).
  unfold utf8. decide_bytes;
  cbn [String.append decode]; rewrite D2, D3; rewrite !chr_byte by lia;
    destruct (Z.ltb_spec (240 + r / 64 / 64 / 64) 128); try lia;
    replace (240 + r / 64 / 64 / 64) with (192 + (48 + r / 64 / 64 / 64)) at 1 by lia;
    rewrite two_bytes_no by lia;
    replace (240 + r / 64 / 64 / 64) with (224 + (16 + r / 64 / 64 / 64)) at 1 by lia;
    rewrite three_bytes_no, four_bytes_ok by lia; f_equal; lia.
Qed.

Lemma decode_utf8 r s : valid_rune r -> decode (utf8 r ++ s) = r :: decode s.
Proof.
  intros V. pose proof V as V'. unfold valid_rune in V'. destruct (Z.ltb_spec r 128).
  - unfold utf8. decide_bytes. cbn [String.append decode]. rewrite chr_byte by lia. decide_bytes.
  - destruct (Z.ltb_spec r 2048); [apply decode_two; lia|].
    destruct (Z.ltb_spec r 65536); [apply decode_three; [lia|exact V]|apply decode_four; lia].
Qed.

Lemma decode_encode rs : Forall valid_rune rs -> decode (encode rs) = rs.
Proof.
  induction 1 as [|r rs V _ IH]; [reflexivity|]. cbn [encode]. now rewrite decode_utf8, IH.
Qed.

(** An ASCII string has one rune per byte. *)
Lemma decode_ascii s : Forall (fun c => chr c < 128) (list_ascii_of_string s) -> decode s = runes s.
Proof.
  induction s as [|c s IH]; [reflexivity|]. intros H. inversion H as [|? ? Hc Hs]; subst. cbn [decode runes].
  rewrite (proj2 (Z.ltb_lt _ _) Hc). f_equal. now apply IH.
Qed.

Example decode_invalid :
  decode (String (byte_chr 195) (String (byte_chr 169) (String (byte_chr 255) "a"))) = [233; RuneError; 97].
Proof. reflexivity. Qed.
