(* ===== verification/Strings.v ===== *)
(** The operations of package [strings] that the scalar functions use: trimming
    white space, searching, splitting, repeating and slicing. *)

From S2P Require Import Prelude Lexical Utf8.
From Stdlib Require Import ZArith Lia Bool List String Ascii.
Import ListNotations.

#[local] Open Scope string_scope.
#[local] Open Scope list_scope.
#[local] Open Scope Z_scope.

(** ** Operations *)

Definition isSpace (r : rune) : bool :=
  (9 <=? r) && (r <=? 13) || (r =? 32) || (r =? 133) || (r =? 160) || (r =? 5760) || (8192 <=? r) && (r <=? 8202)
  || (r =? 8232) || (r =? 8233) || (r =? 8239) || (r =? 8287) || (r =? 12288).

(** The first rune and its number of bytes ([DecodeRuneInString]). *)
Definition first_rune (s : string) : rune * nat :=
  match decode s with
  | [] => (RuneError, 0%nat)
  | r :: _ => (r, if String.prefix (utf8 r) s then String.length (utf8 r) else 1%nat)
  end.

Fixpoint drop (n : nat) (s : string) : string :=
  match n, s with S k, String _ s' => drop k s' | _, _ => s end.

Fixpoint take (n : nat) (s : string) : string :=
  match n, s with S k, String c s' => String c (take k s') | _, _ => "" end.

Fixpoint trim_left_aux (fuel : nat) (s : string) : string :=
  match fuel, s with
  | S f, String _ _ => let '(r, n) := first_rune s in if isSpace r then trim_left_aux f (drop n s) else s
  | _, _ => s
  end.

(** [TrimLeftFunc(s, IsSpace)]. *)
Definition TrimLeft (s : string) : string := trim_left_aux (String.length s) s.

Fixpoint trim_right_aux (fuel : nat) (s : string) : string :=
  match fuel, s with
  | S f, String _ _ =>
      let '(r, n) := first_rune s in
      let t := trim_right_aux f (drop n s) in
      if String.eqb t "" && isSpace r then "" else (take n s ++ t)%string
  | _, _ => s
  end.

(** [TrimRightFunc(s, IsSpace)]. *)
Definition TrimRight (s : string) : string := trim_right_aux (String.length s) s.
Definition TrimSpace (s : string) : string := TrimRight (TrimLeft s).

Definition HasPrefix (s t : string) : bool := String.prefix t s.
Definition HasSuffix (s t : string) : bool :=
  (String.length t <=? String.length s)%nat && String.eqb (drop (String.length s - String.length t) s) t.

Definition Index (s t : string) : Z := match String.index 0 t s with Some i => Z.of_nat i | None => -1 end.

(** [strings.Split] for a separator that is not empty: [cur] is the part so far,
    [skip] the bytes of a separator still to pass. *)
Fixpoint split_aux (sep : string) (skip : nat) (cur : string) (s : string) : list string :=
  match s with
  | EmptyString => [cur]
  | String c s' =>
      match skip with
      | S k => split_aux sep k cur s'
      | O =>
          if String.prefix sep s then cur :: split_aux sep (String.length sep - 1) "" s'
          else split_aux sep 0 (cur ++ String c "") s'
      end
  end.

Definition Split (s sep : string) : list string :=
  if String.eqb sep "" then map utf8 (decode s) else split_aux sep 0 "" s.

(** [strings.Repeat(" ", n)] panics for a negative count. *)
Fixpoint spaces (n : nat) : string := match n with O => "" | S k => String " " (spaces k) end.
Definition Repeat (n : Z) : option string := if n <? 0 then None else Some (spaces (Z.to_nat n)).

(** [s\[a:b\]] on the bytes of a string. *)
Definition slice_string (s : string) (a b : Z) : option string :=
  if (0 <=? a) && (a <=? b) && (b <=? Z.of_nat (String.length s))
  then Some (take (Z.to_nat (b - a)) (drop (Z.to_nat a) s)) else None.

(** ** Strings as lists of runes *)

Fixpoint drop_spaces (rs : list rune) : list rune :=
  match rs with r :: rs' => if isSpace r then drop_spaces rs' else rs | [] => [] end.

Lemma prefix_app a b : String.prefix a (a ++ b) = true.
Proof. induction a as [|c a IH]; cbn; [now destruct b|]. destruct (ascii_dec c c); [exact IH|congruence]. Qed.

Lemma drop_app a b : drop (String.length a) (a ++ b) = b.
Proof. induction a as [|c a IH]; cbn; [reflexivity|exact IH]. Qed.

Lemma take_app a b : take (String.length a) (a ++ b) = a.
Proof. induction a as [|c a IH]; cbn; [reflexivity|now rewrite IH]. Qed.

Lemma first_rune_encode r rs : Forall valid_rune (r :: rs) -> first_rune (encode (r :: rs)) = (r, String.length (utf8 r)).
Proof. intros V. unfold first_rune. rewrite decode_encode by exact V. cbn [encode]. now rewrite prefix_app. Qed.

Lemma utf8_cons r : exists c s, utf8 r = String c s.
Proof. unfold utf8. repeat match goal with |- context [if ?b then _ else _] => destruct b end; eauto. Qed.

Lemma encode_cons r rs : exists c s, encode (r :: rs) = String c s.
Proof. destruct (utf8_cons r) as (c & s & E). cbn [encode]. rewrite E. cbn. eauto. Qed.

Lemma encode_length rs : (List.length rs <= String.length (encode rs))%nat.
Proof.
  induction rs as [|r rs IH]; cbn [encode List.length]; [cbn; lia|]. destruct (utf8_cons r) as (c & s & ->).
  cbn [String.append String.length].
  assert (A : (String.length (encode rs) <= String.length (s ++ encode rs))%nat) by (clear; induction s; cbn; lia). lia.
Qed.

Lemma trim_left_encode rs : forall fuel, Forall valid_rune rs -> (List.length rs <= fuel)%nat ->
  trim_left_aux fuel (encode rs) = encode (drop_spaces rs).
Proof.
  induction rs as [|r rs IH]; intros [|f] V H; cbn in H; try lia; try reflexivity.
  destruct (encode_cons r rs) as (c & s & E). cbn [trim_left_aux]. rewrite E, <- E, first_rune_encode by exact V.
  cbn [drop_spaces]. destruct (isSpace r); [|reflexivity]. cbn [encode]. rewrite drop_app.
  inversion V; subst. apply IH; [assumption|cbn in H; lia].
Qed.

(** Without the spaces at the end. *)
Definition drop_last_spaces (rs : list rune) : list rune := rev (drop_spaces (rev rs)).

Lemma drop_spaces_app a b :
  drop_spaces (a ++ b) = match drop_spaces a with [] => drop_spaces b | l => l ++ b end.
Proof. induction a as [|r a IH]; cbn; [reflexivity|]. destruct (isSpace r); [exact IH|reflexivity]. Qed.

Lemma drop_last_cons r rs : drop_last_spaces (r :: rs) =
  match drop_last_spaces rs with [] => if isSpace r then [] else [r] | l => r :: l end.
Proof.
  unfold drop_last_spaces. cbn [rev]. rewrite drop_spaces_app. destruct (drop_spaces (rev rs)) as [|x l]; cbn [rev app].
  - cbn [drop_spaces]. now destruct (isSpace r).
  - rewrite !rev_app_distr. cbn [rev app]. destruct (rev l ++ [x]) eqn:E; [now destruct (rev l)|reflexivity].
Qed.

Lemma encode_nil rs : encode rs = "" -> rs = [].
Proof. destruct rs as [|r rs]; [reflexivity|]. destruct (encode_cons r rs) as (c & s & ->). discriminate. Qed.

Lemma trim_right_encode rs : forall fuel, Forall valid_rune rs -> (List.length rs <= fuel)%nat ->
  trim_right_aux fuel (encode rs) = encode (drop_last_spaces rs).
Proof.
  induction rs as [|r rs IH]; intros [|f] V H; try reflexivity; [cbn in H; lia|].
  destruct (encode_cons r rs) as (c & s & E). cbn [trim_right_aux]. rewrite E, <- E, first_rune_encode by exact V.
  cbn [encode]. rewrite drop_app, take_app. inversion V; subst. rewrite IH by (assumption || cbn in H; lia).
  rewrite drop_last_cons. destruct (drop_last_spaces rs) as [|x l]; [cbn; now destruct (isSpace r); cbn|].
  destruct (encode_cons x l) as (c' & s' & E'). rewrite E' at 1. reflexivity.
Qed.

Lemma drop_spaces_valid rs : Forall valid_rune rs -> Forall valid_rune (drop_spaces rs).
Proof. induction 1 as [|r rs Hr H IH]; cbn; [constructor|]. destruct (isSpace r); [exact IH|now constructor]. Qed.

Lemma TrimLeft_encode rs : Forall valid_rune rs -> TrimLeft (encode rs) = encode (drop_spaces rs).
Proof. intros V. apply trim_left_encode; [exact V|apply encode_length]. Qed.

Lemma TrimRight_encode rs : Forall valid_rune rs -> TrimRight (encode rs) = encode (drop_last_spaces rs).
Proof. intros V. apply trim_right_encode; [exact V|apply encode_length]. Qed.

(** Joining the parts of a split with the separator gives the string back. *)
Lemma split_aux_head sep cur s : exists x l, split_aux sep 0 cur s = x :: l.
Proof.
  revert cur. induction s as [|c s IH]; intros cur; cbn [split_aux]; [eauto|]. destruct (String.prefix sep (String c s)); eauto.
Qed.

Lemma prefix_drop a : forall s, String.prefix a s = true -> (a ++ drop (String.length a) s)%string = s.
Proof.
  induction a as [|c a IH]; intros [|d s] H; cbn in *; try reflexivity; try discriminate.
  destruct (ascii_dec c d) as [->|]; [|discriminate]. now rewrite (IH s H).
Qed.

Lemma split_skip sep n : forall s cur, (n <= String.length s)%nat -> split_aux sep n cur s = split_aux sep 0 cur (drop n s).
Proof.
  induction n as [|n IH]; intros [|c s] cur H; cbn in H; try reflexivity. cbn [split_aux drop]. apply IH. lia.
Qed.

Lemma concat_cons sep x y l : String.concat sep (x :: y :: l) = (x ++ sep ++ String.concat sep (y :: l))%string.
Proof. reflexivity. Qed.

Lemma prefix_length a : forall s, String.prefix a s = true -> (String.length a <= String.length s)%nat.
Proof.
  induction a as [|c a IH]; intros [|d s] H; cbn in *; try lia; try discriminate.
  destruct (ascii_dec c d); [|discriminate]. specialize (IH s H). lia.
Qed.

Lemma drop_length n : forall s, String.length (drop n s) = (String.length s - n)%nat.
Proof. induction n as [|n IH]; intros [|c s]; cbn; auto. Qed.

Lemma split_concat sep n : sep <> "" -> forall s cur, (String.length s <= n)%nat ->
  String.concat sep (split_aux sep 0 cur s) = (cur ++ s)%string.
Proof.
  intros Hsep. induction n as [|n IH]; intros [|c s] cur H; try (cbn; now rewrite append_nil_r); cbn in H; [lia|].
  cbn [split_aux]. destruct (String.prefix sep (String c s)) eqn:P.
  - pose proof (prefix_length _ _ P) as Hl. pose proof (prefix_drop _ _ P) as Hd. destruct sep as [|c' sep]; [congruence|].
    cbn [String.length] in *. rewrite Nat.sub_succ, Nat.sub_0_r.
    rewrite split_skip by (cbn in Hl; lia). cbn [drop] in Hd.
    destruct (split_aux_head (String c' sep) "" (drop (String.length sep) s)) as (x & l & E).
    rewrite E, concat_cons, <- E, IH by (rewrite drop_length; lia). cbn [String.append] in *. now rewrite Hd.
  - rewrite IH by lia. rewrite sapp_assoc. reflexivity.
Qed.

Lemma Split_concat s sep : sep <> "" -> String.concat sep (Split s sep) = s.
Proof.
  intros H. unfold Split. destruct (String.eqb_spec sep ""); [congruence|]. exact (split_concat sep (String.length s) H s "" (le_n _)).
Qed.
