(* ===== verification/Base64.v ===== *)
(** The standard base64 encoding (package [encoding/base64], [StdEncoding]),
    which the SQL function [encode] writes and [bytea] fields are read from. *)

From S2P Require Import Prelude Lexical Utf8.
From Stdlib Require Import ZArith Lia Bool List String Ascii.
Import ListNotations.

#[local] Open Scope string_scope.
#[local] Open Scope list_scope.
#[local] Open Scope Z_scope.

(** ** The alphabet *)

Definition b64_char (d : Z) : ascii :=
  byte_chr (if d <? 26 then 65 + d else if d <? 52 then 71 + d else if d <? 62 then d - 4 else if d =? 62 then 43 else 47).

Definition b64_digit (c : ascii) : option Z :=
  let z := chr c in
  if (65 <=? z) && (z <=? 90) then Some (z - 65)
  else if (97 <=? z) && (z <=? 122) then Some (z - 71)
  else if (48 <=? z) && (z <=? 57) then Some (z + 4)
  else if z =? 43 then Some 62
  else if z =? 47 then Some 63
  else None.

Definition pad : ascii := "="%char.

(** ** Encoding *)

Fixpoint EncodeToString (s : string) : string :=
  match s with
  | EmptyString => ""
  | String a EmptyString =>
      let x := chr a in String (b64_char (x / 4)) (String (b64_char (x mod 4 * 16)) (String pad (String pad "")))
  | String a (String b EmptyString) =>
      let x := chr a in
      let y := chr b in
      String (b64_char (x / 4)) (String (b64_char (x mod 4 * 16 + y / 16)) (String (b64_char (y mod 16 * 4)) (String pad "")))
  | String a (String b (String c s')) =>
      let x := chr a in
      let y := chr b in
      let z := chr c in
      String (b64_char (x / 4)) (String (b64_char (x mod 4 * 16 + y / 16))
        (String (b64_char (y mod 16 * 4 + z / 64)) (String (b64_char (z mod 64)) (EncodeToString s'))))
  end.

(** ** Decoding *)

(** New lines are skipped. *)
Fixpoint strip_newlines (s : string) : string :=
  match s with
  | EmptyString => ""
  | String c s' => if (chr c =? 10) || (chr c =? 13) then strip_newlines s' else String c (strip_newlines s')
  end.

Definition b64_first (d0 d1 : Z) : ascii := byte_chr (d0 * 4 + d1 / 16).
Definition b64_second (d1 d2 : Z) : ascii := byte_chr (d1 mod 16 * 16 + d2 / 4).
Definition b64_third (d2 d3 : Z) : ascii := byte_chr (d2 mod 4 * 64 + d3).

(** Groups of four digits; the last one may be padded. *)
Fixpoint decode_groups (s : string) : option string :=
  match s with
  | EmptyString => Some ""
  | String c0 (String c1 (String c2 (String c3 s'))) =>
      match b64_digit c0, b64_digit c1 with
      | Some d0, Some d1 =>
          match b64_digit c2, b64_digit c3 with
          | Some d2, Some d3 =>
              match decode_groups s' with
              | Some r => Some (String (b64_first d0 d1) (String (b64_second d1 d2) (String (b64_third d2 d3) r)))
              | None => None
              end
          | Some d2, None =>
              if Ascii.eqb c3 pad && String.eqb s' "" then Some (String (b64_first d0 d1) (String (b64_second d1 d2) "")) else None
          | None, _ =>
              if Ascii.eqb c2 pad && Ascii.eqb c3 pad && String.eqb s' "" then Some (String (b64_first d0 d1) "") else None
          end
      | _, _ => None
      end
  | _ => None
  end.

Definition DecodeString (s : string) : option string := decode_groups (strip_newlines s).

Example b64_examples :
  EncodeToString "Hello, World" = "SGVsbG8sIFdvcmxk" /\ EncodeToString "a" = "YQ==" /\
  map DecodeString ["SGVsbG8sIFdvcmxk"; "YQ=="; "YWI="; "YQ"; "Y==="; "YQ==YQ=="; "?a=="] =
  [Some "Hello, World"; Some "a"; Some "ab"; None; None; None; None].
Proof. repeat split; vm_compute; reflexivity. Qed.

(** ** What is encoded is decoded again *)

Definition b64_ok (d : Z) : bool :=
  match b64_digit (b64_char d) with Some e => e =? d | None => false end
  && negb ((chr (b64_char d) =? 10) || (chr (b64_char d) =? 13)).

Lemma b64_all_ok : forallb (fun n => b64_ok (Z.of_nat n)) (seq 0 64) = true.
Proof. vm_compute. reflexivity. Qed.

Lemma b64_char_ok d : 0 <= d < 64 ->
  b64_digit (b64_char d) = Some d /\ (chr (b64_char d) =? 10) || (chr (b64_char d) =? 13) = false.
Proof.
  intros H. pose proof (proj1 (forallb_forall _ _) b64_all_ok (Z.to_nat d)) as A. cbv beta in A.
  rewrite Z2Nat.id in A by lia. specialize (A ltac:(apply in_seq; lia)). unfold b64_ok in A. bool_to_prop.
  destruct (b64_digit (b64_char d)) as [e|]; [|discriminate]. bool_to_prop. subst. split; [reflexivity|].
  apply orb_false_iff. split; now apply Z.eqb_neq.
Qed.

Lemma byte_range c : 0 <= chr c < 256.
Proof. unfold chr. pose proof (N_ascii_bounded c). lia. Qed.

Lemma byte_of_chr c z : z = chr c -> byte_chr z = c.
Proof. intros ->. unfold byte_chr, chr. rewrite N2Z.id. apply ascii_N_embedding. Qed.

Lemma b64_chars_of x y z : 0 <= x < 256 -> 0 <= y < 256 -> 0 <= z < 256 ->
  0 <= x / 4 < 64 /\ 0 <= x mod 4 * 16 + y / 16 < 64 /\ 0 <= y mod 16 * 4 + z / 64 < 64 /\ 0 <= z mod 64 < 64 /\
  x / 4 * 4 + (x mod 4 * 16 + y / 16) / 16 = x /\
  (x mod 4 * 16 + y / 16) mod 16 * 16 + (y mod 16 * 4 + z / 64) / 4 = y /\
  (y mod 16 * 4 + z / 64) mod 4 * 64 + z mod 64 = z.
Proof. intros. Z.div_mod_to_equations. lia. Qed.

Lemma strip_char c s : (chr c =? 10) || (chr c =? 13) = false -> strip_newlines (String c s) = String c (strip_newlines s).
Proof. intros H. cbn [strip_newlines]. now rewrite H. Qed.

Lemma DecodeString_spec n : forall s, (String.length s <= n)%nat -> DecodeString (EncodeToString s) = Some s.
Proof.
  unfold DecodeString. induction n as [n IH] using lt_wf_ind. intros s Hn.
  destruct s as [|a [|b [|c s]]]; [reflexivity| | |]; cbn [EncodeToString].
  - destruct (b64_chars_of (chr a) 0 0 (byte_range a)) as (R1 & R2 & _ & _ & E1 & _); [lia..|].
    change (0 / 16) with 0 in *. rewrite Z.add_0_r in *.
    destruct (b64_char_ok _ R1) as [D1 N1], (b64_char_ok _ R2) as [D2 N2].
    rewrite (strip_char _ _ N1), (strip_char _ _ N2). cbn [strip_newlines decode_groups]. rewrite D1, D2. cbn.
    unfold b64_first. now rewrite (byte_of_chr a) by lia.
  - destruct (b64_chars_of (chr a) (chr b) 0 (byte_range a) (byte_range b)) as (R1 & R2 & R3 & _ & E1 & E2 & _); [lia..|].
    change (0 / 64) with 0 in *. rewrite Z.add_0_r in *.
    destruct (b64_char_ok _ R1) as [D1 N1], (b64_char_ok _ R2) as [D2 N2], (b64_char_ok _ R3) as [D3 N3].
    rewrite (strip_char _ _ N1), (strip_char _ _ N2), (strip_char _ _ N3). cbn [strip_newlines decode_groups].
    rewrite D1, D2, D3. cbn. unfold b64_first, b64_second. now rewrite (byte_of_chr a), (byte_of_chr b) by lia.
  - destruct (b64_chars_of (chr a) (chr b) (chr c) (byte_range a) (byte_range b) (byte_range c))
      as (R1 & R2 & R3 & R4 & E1 & E2 & E3).
    destruct (b64_char_ok _ R1) as [D1 N1], (b64_char_ok _ R2) as [D2 N2], (b64_char_ok _ R3) as [D3 N3],
      (b64_char_ok _ R4) as [D4 N4].
    rewrite (strip_char _ _ N1), (strip_char _ _ N2), (strip_char _ _ N3), (strip_char _ _ N4). cbn [decode_groups].
    rewrite D1, D2, D3, D4. cbn in Hn. rewrite (IH (String.length s)) by lia.
    unfold b64_first, b64_second, b64_third. now rewrite (byte_of_chr a), (byte_of_chr b), (byte_of_chr c) by lia.
Qed.

Lemma base64_roundtrip s : DecodeString (EncodeToString s) = Some s.
Proof. now apply (DecodeString_spec (String.length s)). Qed.
