(* ===== verification/Parser.v ===== *)
(** The SQL parser (src/internal/xsql/parser.go, sqlValidator.go and the
    statement table of manager.go).

    The parser reads tokens from the scanner through a ring of three tokens, so
    that the last ones can be read again ([unscan]).  A parsing function takes
    the parser to a result and the parser after it; an error ends the parse, so
    the parser after an error does not matter.  The recursion is bounded by a
    fuel; [ParserFacts] shows how much is enough.  The plugin functions are a
    parameter, as in [FuncValidator]. *)

From S2P Require Import Prelude Token Ast FuncValidator Lexical Strconv.
From Stdlib Require Import ZArith Lia Bool List String Ascii Floats.SpecFloat.
Import ListNotations.

#[local] Open Scope string_scope.
#[local] Open Scope list_scope.
#[local] Open Scope Z_scope.

(** ** Parsing functions *)

Record Parser : Type := mkParser {
  p_s : Scanner;
  p_i : Z;                        (* buffer index *)
  p_n : Z;                        (* tokens to read again *)
  p_buf : list (Token * string);  (* three of them *)
  p_inmeta : bool }.

Definition NewParser (rs : list rune) : Parser :=
  mkParser (NewScanner rs) 0 0 [(ILLEGAL, ""); (ILLEGAL, ""); (ILLEGAL, "")] false.

Inductive res (A : Type) : Type :=
  | Ok (a : A) (p : Parser)
  | Fail (e : parse_error)
  | Panic
  | NoFuel.
Arguments Ok {A} _ _.
Arguments Fail {A} _.
Arguments Panic {A}.
Arguments NoFuel {A}.

Definition M (A : Type) : Type := Parser -> res A.

Definition ret {A} (a : A) : M A := fun p => Ok a p.
Definition bind {A B} (m : M A) (k : A -> M B) : M B :=
  fun p => match m p with Ok a p' => k a p' | Fail e => Fail e | Panic => Panic | NoFuel => NoFuel end.
Definition errorf {A} (format : string) (args : list err_arg) : M A := fun _ => Fail (Errorf format args).
Definition no_fuel {A} : M A := fun _ => NoFuel.

Declare Scope parser_scope.
Delimit Scope parser_scope with parser.
Notation "'let*' x ':=' m 'in' k" := (bind m (fun x => k)) (at level 10, x pattern, k at level 200) : parser_scope.
Notation "m ';;' k" := (bind m (fun _ => k)) (at level 100, k at level 200, right associativity) : parser_scope.
#[local] Open Scope parser_scope.

(** ** The ring of tokens *)

Definition set_scanner (s : Scanner) (p : Parser) : Parser := mkParser s (p_i p) (p_n p) (p_buf p) (p_inmeta p).
Definition set_n (n : Z) (p : Parser) : Parser := mkParser (p_s p) (p_i p) n (p_buf p) (p_inmeta p).
Definition set_inmeta (b : bool) (p : Parser) : Parser := mkParser (p_s p) (p_i p) (p_n p) (p_buf p) b.

Definition curr (p : Parser) : Token * string :=
  nth (Z.to_nat (go_mod (p_i p - p_n p + 3) 3)) (p_buf p) (ILLEGAL, "").

Definition blank (t : Token) : bool := tok_eqb t WS || tok_eqb t COMMENT.

Definition scan : M (Token * string) := fun p =>
  if p_n p >? 0 then
    let p' := set_n (p_n p - 1) p in Ok (curr p') p'
  else
    let '(t, s) := Scan (p_s p) in
    if negb (blank (fst t)) then
      let i := go_mod (p_i p + 1) 3 in
      Ok t (mkParser s i (p_n p) (list_set (Z.to_nat i) t (p_buf p)) (p_inmeta p))
    else Ok t (set_scanner s p).

Fixpoint scan_tokens (fuel : nat) : M (Token * string) :=
  match fuel with
  | O => no_fuel
  | S f => let* t := scan in if blank (fst t) then scan_tokens f else ret t
  end.

(** Every round but one reads a rune. *)
Definition scanIgnoreWhitespace : M (Token * string) := fun p => scan_tokens (S (remaining (p_s p))) p.

Definition unscan : M unit := fun p => Ok tt (set_n (p_n p + 1) p).

(** A minus and the digits after it; another rune is read and dropped. *)
Definition scanIgnoreWhiteSpaceWithNegativeNum : M (Token * string) :=
  let* t := scanIgnoreWhitespace in
  if tok_eqb (fst t) SUB then
    fun p =>
      let '(_, s1) := ScanWhiteSpace (p_s p) in
      let '(r, s2) := read s1 in
      if isDigit r then
        let '(t', s3) := ScanNumber false true (unread s2) in Ok t' (set_scanner s3 p)
      else Ok t (set_scanner s2 p)
  else ret t.

(** ** Number literals *)

(** The decimal [m / 10 ^ k], rounded to nearest even: the quotient is taken
    with more bits than the significand has and a sticky bit. *)
Definition decimal_to_f64 (neg : bool) (m : Z) (k : Z) : float64 :=
  let s := 4 * k + 64 in
  let q := m * 2 ^ s / 10 ^ k in
  let sticky := if m * 2 ^ s mod 10 ^ k =? 0 then 0 else 1 in
  let v := 2 * q + sticky in
  binary_normalize f64_prec f64_emax (if neg then - v else v) (- (s + 1)) neg.

Fixpoint split_dot (s : string) : string * option string :=
  match s with
  | EmptyString => ("", None)
  | String c s' =>
      if Ascii.eqb c "."%char then ("", Some s')
      else let (a, b) := split_dot s' in (String c a, b)
  end.

(** [strconv.ParseFloat] on what the scanner takes for a number: digits and
    dots after an optional minus. *)
Definition ParseFloat (s : string) : option float64 :=
  let '(neg, ds) := match s with String c s' => if chr c =? 45 then (true, s') else (false, s) | _ => (false, s) end in
  let '(ip, fp) := split_dot ds in
  let frac := match fp with Some f => f | None => "" end in
  if negb (all_digits ip) || negb (all_digits frac) || String.eqb (ip ++ frac) "" then None
  else
    match decimal_to_f64 neg (dec_val 0 (ip ++ frac)) (Z.of_nat (String.length frac)) with
    | S754_infinity _ => None
    | f => Some f
    end.

(** ** Window functions *)

Definition is_integer (e : expr) : bool := match e with IntegerLiteral _ => true | _ => false end.

Fixpoint check_integers (funcName : string) (i : Z) (args : list expr) : option parse_error :=
  match args with
  | [] => None
  | a :: args' =>
      if negb (is_integer a)
      then Some (Errorf "The %d argument for %s is expecting interger literal expression. \n" [ErrD i; ErrS funcName])
      else check_integers funcName (i + 1) args'
  end.

Definition validateWindow (funcName : string) (expectLen : Z) (args : list expr) : option parse_error :=
  if negb (Z.of_nat (List.length args) =? expectLen)
  then Some (Errorf "The arguments for %s should be %d.\n" [ErrS funcName; ErrD expectLen])
  else
    match args with
    | TimeLiteral _ :: args' => check_integers funcName 1 args'
    | _ => Some (Errorf "The 1st argument for %s is expecting timer literal expression. One value of [dd|hh|mi|ss|ms].\n"
                   [ErrS funcName])
    end.

Definition validateWindows (name : string) (args : list expr) : WindowType * option parse_error :=
  let fname := to_lower name in
  if String.eqb fname "tumblingwindow" then (TUMBLING_WINDOW, validateWindow fname 2 args)
  else if String.eqb fname "hoppingwindow" then (HOPPING_WINDOW, validateWindow fname 3 args)
  else if String.eqb fname "sessionwindow" then (SESSION_WINDOW, validateWindow fname 3 args)
  else if String.eqb fname "slidingwindow" then (SLIDING_WINDOW, validateWindow fname 2 args)
  else if String.eqb fname "countwindow" then
    (COUNT_WINDOW,
     match args with
     | [a] =>
         match a with
         | IntegerLiteral v => if v >? 0 then None else Some (Errorf "Invalid parameter value %s." [ErrE a])
         | _ => Some (Errorf "Invalid parameter value %s." [ErrE a])
         end
     | [a; b] =>
         match a, b with
         | IntegerLiteral v1, IntegerLiteral v2 =>
             if v1 <? v2
             then Some (Errorf "The second parameter value %d should be less than the first parameter %d." [ErrD v2; ErrD v1])
             else None
         | _, _ => Some (Errorf "Invalid parameter value %s, %s." [ErrE a; ErrE b])
         end
     | _ => Some (Errorf "Invalid parameter count." [])
     end)
  else (NOT_WINDOW, None).

Definition time_unit (t : Token) : option Z :=
  match t with
  | DD => Some (24 * 3600 * 1000)
  | HH => Some (3600 * 1000)
  | MI => Some (60 * 1000)
  | SS => Some 1000
  | MS => Some 1
  | _ => None
  end.

(** [ConvertToWindows]; [None] is a failed type assertion, which panics. *)
Definition ConvertToWindows (wtype : WindowType) (args : list expr) : option (parse_error + expr) :=
  if wt_eqb wtype COUNT_WINDOW then
    match args with
    | [IntegerLiteral l] => Some (inr (Window wtype l None None))
    | [IntegerLiteral l; IntegerLiteral i] => Some (inr (Window wtype l (Some i) None))
    | IntegerLiteral l :: _ :: _ :: _ => Some (inr (Window wtype l None None))
    | _ => None
    end
  else
    match args with
    | TimeLiteral v :: rest =>
        match time_unit v with
        | None => Some (inl (Errorf "Invalid timeliteral %s" [ErrT v]))
        | Some unit =>
            match rest with
            | [IntegerLiteral l] => Some (inr (Window wtype (int64 (l * unit)) (Some 0) None))
            | IntegerLiteral l :: IntegerLiteral i :: _ =>
                Some (inr (Window wtype (int64 (l * unit)) (Some (int64 (i * unit))) None))
            | _ => None
            end
        end
    | _ => None
    end.

Definition set_filter (f : expr) (w : expr) : expr :=
  match w with Window wt l i _ => Window wt l i (Some f) | _ => w end.

(** ** Names and sources *)

Definition is_tok (t : Token) (x : Token * string) : bool := tok_eqb (fst x) t.

Fixpoint name_sections (fuel : nat) (acc : list string) : M (list string) :=
  match fuel with
  | O => no_fuel
  | S f =>
      let* t := scanIgnoreWhitespace in
      if is_tok IDENT t || is_tok ASTERISK t then
        let acc' := acc ++ [snd t] in
        let* t1 := scanIgnoreWhitespace in
        if negb (AllowedSFNToken (fst t1)) then unscan ;; ret acc' else name_sections f acc'
      else unscan ;; ret acc
  end.

Definition parseFieldNameSections (fuel : nat) : M (list string) :=
  let* ss := name_sections fuel [] in
  match ss with
  | [] => errorf "Cannot find any field name.\n" []
  | _ :: _ :: _ :: _ => errorf "Too many field names. Please use -> to reference keys in struct.\n" []
  | _ => ret ss
  end.

Fixpoint source_literal (fuel : nat) (seg : string) (alias : string) : M (string * string) :=
  match fuel with
  | O => no_fuel
  | S f =>
      let* t := scanIgnoreWhitespace in
      if AllowedSourceToken (fst t) then
        let seg' := (seg ++ snd t)%string in
        let* t1 := scanIgnoreWhitespace in
        if is_tok AS t1 then
          let* t2 := scanIgnoreWhitespace in
          if is_tok IDENT t2 then source_literal f seg' (snd t2)
          else errorf "found %q, expected JOIN key word." [ErrS (snd t)]
        else if AllowedSourceToken (fst t1) then source_literal f (seg' ++ snd t1)%string alias
        else unscan ;; ret (seg', alias)
      else unscan ;; ret (seg, alias)
  end.

Definition parseSourceLiteral (fuel : nat) : M (string * string) := source_literal fuel "" "".

(** ** Expressions *)

(** An operator and its right operand join the tree on its right spine, below
    the operators that bind less. *)
Fixpoint insert_op (e : expr) (op : Token) (rhs : expr) : expr :=
  match e with
  | BinaryExpr o l r =>
      if Precedence o >=? Precedence op then BinaryExpr op e rhs else BinaryExpr o l (insert_op r op rhs)
  | _ => BinaryExpr op e rhs
  end.

Definition parseColonExpr (start : Z) : M expr :=
  let* t := scanIgnoreWhiteSpaceWithNegativeNum in
  if is_tok INTEGER t then
    let (e, ok) := Atoi (snd t) in
    if negb ok then errorf "The end index %s is not an int value in bracket expression." [ErrS (snd t)]
    else
      let* t1 := scanIgnoreWhitespace in
      if is_tok RBRACKET t1 then ret (ColonExpr start e) else errorf "Found %q, expected right bracket." [ErrS (snd t1)]
  else if is_tok RBRACKET t then ret (ColonExpr start MinInt32)
  else errorf "Found %q, expected right bracket." [ErrS (snd t)].

Definition parseBracketExpr : M expr :=
  let* t2 := scanIgnoreWhiteSpaceWithNegativeNum in
  let unexpected := errorf "Unexpected token %q. when parsing bracket expressions." [ErrS (snd t2)] in
  if is_tok RBRACKET t2 then ret (ColonExpr 0 MinInt32)
  else if is_tok INTEGER t2 then
    let (start, ok) := Atoi (snd t2) in
    if negb ok then errorf "The start index %s is not an int value in bracket expression." [ErrS (snd t2)]
    else
      let* t3 := scanIgnoreWhitespace in
      if is_tok RBRACKET t3 then ret (IndexExpr start)
      else if is_tok COLON t3 then parseColonExpr start
      else unexpected
  else if is_tok COLON t2 then parseColonExpr 0
  else unexpected.

(** The field or meta reference of a name. *)
Definition reference_of (inmeta isSubField : bool) (n : list string) : expr :=
  let mk sn x := if inmeta then MetaRef sn x else FieldRef sn x None in
  match n with
  | [a; b] => mk a b
  | a :: _ => mk (if isSubField then "" else DefaultStream) a
  | [] => mk DefaultStream ""
  end.

(** An operand that is one token. *)
Definition literal (t : Token * string) : M expr :=
  let lit := snd t in
  match fst t with
  | STRING => ret (StringLiteral lit)
  | INTEGER => ret (IntegerLiteral (fst (Atoi lit)))
  | NUMBER =>
      match ParseFloat lit with
      | Some v => ret (NumberLiteral v)
      | None => errorf "found %q, invalid number value." [ErrS lit]
      end
  | TRUE | FALSE =>
      match ParseBool lit with
      | Some v => ret (BooleanLiteral v)
      | None => errorf "found %q, invalid boolean value." [ErrS lit]
      end
  | tok => if IsTimeLiteral tok then ret (TimeLiteral tok) else errorf "found %q, expected expression." [ErrS lit]
  end.

Section Expr.
Variable ff : FuncFinder.
Variable runtime : Runtime.

Definition check (name : string) (args : list expr) : M unit :=
  match validateFuncs ff runtime name args with
  | Some None => ret tt
  | Some (Some e) => fun _ => Fail e
  | None => fun _ => Panic
  end.

Definition is_meta (name : string) : bool :=
  String.eqb (to_lower name) "meta" || String.eqb (to_lower name) "mqtt".

Definition get_inmeta : M bool := fun p => Ok (p_inmeta p) p.
Definition put_inmeta (b : bool) : M unit := fun p => Ok tt (set_inmeta b p).

(** A window call once its arguments are valid.  On an error of the conversion
    the code would return a nil expression with no error; time literals have
    valid units, so this is never reached ([ParserFacts.parse_total]). *)
Definition window_of (wt : WindowType) (args : list expr) : M expr :=
  match ConvertToWindows wt args with
  | Some (inr w) => ret w
  | Some (inl _) | None => fun _ => Panic
  end.

Fixpoint ParseExpr (fuel : nat) : M expr :=
  match fuel with
  | O => no_fuel
  | S f => let* rhs := parseUnaryExpr f false in expr_loop f rhs
  end

(** The loop of [ParseExpr]; [root] is [root.RHS]. *)
with expr_loop (fuel : nat) (root : expr) : M expr :=
  match fuel with
  | O => no_fuel
  | S f =>
      let* t := scanIgnoreWhitespace in
      if negb (IsOperator (fst t)) then unscan ;; ret root
      else
        let op := expr_op (fst t) in
        (if is_tok LBRACKET t then unscan else ret tt) ;;
        let* rhs := parseUnaryExpr f (tok_eqb op ARROW) in
        expr_loop f (insert_op root op rhs)
  end

with parseUnaryExpr (fuel : nat) (isSubField : bool) : M expr :=
  match fuel with
  | O => no_fuel
  | S f =>
      let* t1 := scanIgnoreWhitespace in
      if is_tok LPAREN t1 then
        let* e := ParseExpr f in
        let* t2 := scanIgnoreWhitespace in
        if negb (is_tok RPAREN t2) then errorf "found %q, expected right paren." [ErrS (snd t2)]
        else ret (ParenExpr e)
      else if is_tok LBRACKET t1 then parseBracketExpr
      else
        unscan ;;
        let* t := scanIgnoreWhiteSpaceWithNegativeNum in
        if is_tok CASE t then parseCaseExpr f
        else if is_tok IDENT t then
          let* t1 := scanIgnoreWhitespace in
          if is_tok LPAREN t1 then parseCall f (snd t)
          else
            unscan ;; unscan ;;
            let* n := parseFieldNameSections f in
            let* inmeta := get_inmeta in
            ret (reference_of inmeta isSubField n)
        else literal t
  end

with parseCall (fuel : nat) (name : string) : M expr :=
  match fuel with
  | O => no_fuel
  | S f =>
      (if is_meta name then put_inmeta true else ret tt) ;;
      let* r := call_args f name [] in
      let* e :=
        match r with
        | inl e => ret e
        | inr args =>
            let* t := scanIgnoreWhitespace in
            if negb (is_tok RPAREN t)
            then errorf "found function call %q, expected ), but with %q." [ErrS name; ErrS (snd t)]
            else
              match validateWindows name args with
              | (NOT_WINDOW, _) =>
                  check name args ;;
                  ret (Call name (if String.eqb name "deduplicate" then Wildcard ASTERISK :: args else args))
              | (_, Some err) => fun _ => Fail err
              | (wt, None) =>
                  let* w := window_of wt args in
                  let* flt := parseFilter f in
                  ret (match flt with Some x => set_filter x w | None => w end)
              end
        end in
      (if is_meta name then put_inmeta false else ret tt) ;;
      ret e
  end

(** The loop over the arguments: a whole call, or the arguments so far. *)
with call_args (fuel : nat) (name : string) (args : list expr) : M (expr + list expr) :=
  match fuel with
  | O => no_fuel
  | S f =>
      let* t := scanIgnoreWhitespace in
      if is_tok RPAREN t then check name [] ;; ret (inl (Call name args))
      else if is_tok ASTERISK t then
        let* t2 := scanIgnoreWhitespace in
        if negb (is_tok RPAREN t2) then errorf "found %q, expected right paren." [ErrS (snd t2)]
        else
          let* inmeta := get_inmeta in
          ret (inl (Call name (args ++ [if inmeta then MetaRef "" "*" else Wildcard ASTERISK])))
      else
        unscan ;;
        let* e := ParseExpr f in
        let args' := args ++ [e] in
        let* t := scanIgnoreWhitespace in
        if negb (is_tok COMMA t) then unscan ;; ret (inr args') else call_args f name args'
  end

with parseCaseExpr (fuel : nat) : M expr :=
  match fuel with
  | O => no_fuel
  | S f =>
      let* t := scanIgnoreWhitespace in
      unscan ;;
      let* v := if negb (is_tok WHEN t) then let* e := ParseExpr f in ret (Some e) else ret None in
      case_loop f v [] None
  end

with case_loop (fuel : nat) (v : option expr) (ws : list (expr * expr)) (el : option expr) : M expr :=
  match fuel with
  | O => no_fuel
  | S f =>
      let* t := scanIgnoreWhitespace in
      if is_tok WHEN t then
        let* c := ParseExpr f in
        if match v with None => negb (IsBooleanArg c) | Some _ => false end
        then errorf "invalid CASE expression, WHEN expression must be a bool condition" []
        else
          let* t1 := scanIgnoreWhitespace in
          if negb (is_tok THEN t1) then errorf "invalid CASE expression, THEN expected after WHEN" []
          else
            let* r := ParseExpr f in
            case_loop f v (ws ++ [(c, r)]) el
      else if is_tok ELSE t then
        match ws with
        | [] => errorf "invalid CASE expression, WHEN expected before ELSE" []
        | _ => let* e := ParseExpr f in case_loop f v ws (Some e)
        end
      else if is_tok END t then
        match ws with
        | [] => errorf "invalid CASE expression, WHEN expected before END" []
        | _ => ret (CaseExpr v ws el)
        end
      else errorf "invalid CASE expression, END expected" []
  end

with parseFilter (fuel : nat) : M (option expr) :=
  match fuel with
  | O => no_fuel
  | S f =>
      let* t := scanIgnoreWhitespace in
      if negb (is_tok FILTER t) then unscan ;; ret None
      else
        let* t1 := scanIgnoreWhitespace in
        if negb (is_tok LPAREN t1) then errorf "Found %q after FILTER, expect parentheses." [ErrS (snd t1)]
        else
          let* t2 := scanIgnoreWhitespace in
          if negb (is_tok WHERE t2) then errorf "Found %q after FILTER(, expect WHERE." [ErrS (snd t2)]
          else
            let* e := ParseExpr f in
            let* t3 := scanIgnoreWhitespace in
            if negb (is_tok RPAREN t3) then errorf "Found %q after FILTER, expect right parentheses." [ErrS (snd t3)]
            else ret (Some e)
  end.

(** ** SELECT *)

Definition parseAlias : M string :=
  let* t := scanIgnoreWhitespace in
  if is_tok AS t then
    let* t1 := scanIgnoreWhitespace in
    if negb (is_tok IDENT t1) then errorf "found %q, expected as alias." [ErrS (snd t1)] else ret (snd t1)
  else unscan ;; ret "".

Definition parseField (fuel : nat) : M Field :=
  let* e := ParseExpr fuel in
  let* alias := parseAlias in
  ret (mkField (match e with FieldRef _ n _ => n | Call n _ => n | _ => "" end) alias e).

Fixpoint fields_loop (fuel : nat) (acc : list Field) : M (list Field) :=
  match fuel with
  | O => no_fuel
  | S f =>
      let* x := parseField f in
      let* t := scanIgnoreWhitespace in
      if negb (is_tok COMMA t) then unscan ;; ret (acc ++ [x]) else fields_loop f (acc ++ [x])
  end.

Definition parseFields (fuel : nat) : M (list Field) :=
  let* t := scanIgnoreWhitespace in
  if is_tok ASTERISK t then ret [mkField "" "" (Wildcard ASTERISK)]
  else unscan ;; fields_loop fuel [].

Definition parseSource (fuel : nat) : M (list Table) :=
  let* t := scanIgnoreWhitespace in
  if negb (is_tok FROM t) then errorf "found %q, expected FROM." [ErrS (snd t)]
  else let* s := parseSourceLiteral fuel in ret [mkTable (fst s) (snd s)].

Definition join_type (t : Token) : option JoinType :=
  match t with
  | INNER => Some INNER_JOIN
  | LEFT => Some LEFT_JOIN
  | RIGHT => Some RIGHT_JOIN
  | FULL => Some FULL_JOIN
  | CROSS => Some CROSS_JOIN
  | _ => None
  end.

Definition ParseJoin (fuel : nat) (jt : JoinType) : M Join :=
  let* s := parseSourceLiteral fuel in
  let* t := scanIgnoreWhitespace in
  if is_tok ON t then
    if jt_eqb CROSS_JOIN jt then errorf "On expression is not required for cross join type.\n" []
    else let* e := ParseExpr fuel in ret (mkJoin (fst s) (snd s) jt (Some e))
  else unscan ;; ret (mkJoin (fst s) (snd s) jt None).

Fixpoint joins_loop (fuel : nat) (acc : list Join) : M (list Join) :=
  match fuel with
  | O => no_fuel
  | S f =>
      let* t := scanIgnoreWhitespace in
      match join_type (fst t) with
      | None => unscan ;; ret acc
      | Some jt =>
          let* t1 := scanIgnoreWhitespace in
          if negb (is_tok JOIN t1) then errorf "found %q, expected JOIN key word." [ErrS (snd t)]
          else let* j := ParseJoin f jt in joins_loop f (acc ++ [j])
      end
  end.

Definition parseJoins (fuel : nat) : M (list Join) := joins_loop fuel [].

(** [parseCondition] and [parseHaving]: a keyword and an expression. *)
Definition clause (kw : Token) (fuel : nat) : M (option expr) :=
  let* t := scanIgnoreWhitespace in
  if negb (is_tok kw t) then unscan ;; ret None
  else let* e := ParseExpr fuel in ret (Some e).

Definition parseCondition (fuel : nat) : M (option expr) := clause WHERE fuel.
Definition parseHaving (fuel : nat) : M (option expr) := clause HAVING fuel.

Fixpoint dimensions_loop (fuel : nat) (acc : list expr) : M (list expr) :=
  match fuel with
  | O => no_fuel
  | S f =>
      let* e := ParseExpr f in
      let* t := scanIgnoreWhitespace in
      if is_tok COMMA t then dimensions_loop f (acc ++ [e]) else unscan ;; ret (acc ++ [e])
  end.

Definition parseDimensions (fuel : nat) : M (list expr) :=
  let* t := scanIgnoreWhitespace in
  if is_tok GROUP t then
    let* t1 := scanIgnoreWhitespace in
    if is_tok BY t1 then dimensions_loop fuel [] else errorf "found %q, expected BY statement." [ErrS (snd t1)]
  else unscan ;; ret [].

Fixpoint sorts_loop (fuel : nat) (acc : list SortField) : M (list SortField) :=
  match fuel with
  | O => no_fuel
  | S f =>
      let* t := scanIgnoreWhitespace in
      if is_tok IDENT t then
        unscan ;;
        let* name := parseFieldNameSections f in
        let s asc := mkSortField (String.concat COLUMN_SEPARATOR name) asc in
        let* t2 := scanIgnoreWhitespace in
        if is_tok DESC t2 then sorts_loop f (acc ++ [s false])
        else if is_tok ASC t2 then sorts_loop f (acc ++ [s true])
        else unscan ;; sorts_loop f (acc ++ [s true])
      else if is_tok COMMA t then sorts_loop f acc
      else unscan ;; ret acc
  end.

Definition parseSorts (fuel : nat) : M (list SortField) :=
  let* t := scanIgnoreWhitespace in
  if is_tok ORDER t then
    let* t1 := scanIgnoreWhitespace in
    if is_tok BY t1 then sorts_loop fuel [] else errorf "found %q, expected BY keyword." [ErrS (snd t1)]
  else unscan ;; ret [].

(** [Validate] (sqlValidator.go). *)
Definition Validate (stmt : SelectStatement) : option parse_error :=
  if fst (HasAggFuncs ff (Condition stmt))
  then Some (Errorf "Not allowed to call aggregate functions in WHERE clause." [])
  else if existsb (fun d => fst (HasAggFuncs ff (Some d))) (Dimensions stmt)
  then Some (Errorf "Not allowed to call aggregate functions in GROUP BY clause." [])
  else None.

(** [None] is the nil statement of an empty text. *)
Definition Parse (fuel : nat) : M (option SelectStatement) :=
  let* t := scanIgnoreWhitespace in
  if is_tok EOF t then ret None
  else if negb (is_tok SELECT t) then errorf "Found %q, Expected SELECT.\n" [ErrS (snd t)]
  else
    let* fields := parseFields fuel in
    let* src := parseSource fuel in
    let* joins := parseJoins fuel in
    let* cond := parseCondition fuel in
    let* dims := parseDimensions fuel in
    let* having := parseHaving fuel in
    let* sorts := parseSorts fuel in
    let selects := mkSelect fields src joins cond dims having sorts in
    let* t := scanIgnoreWhitespace in
    if is_tok SEMICOLON t then unscan ;; ret (Some selects)
    else if negb (is_tok EOF t) then errorf "found %q, expected EOF." [ErrS (snd t)]
    else match Validate selects with Some e => fun _ => Fail e | None => ret (Some selects) end.

Fixpoint queries_loop (fuel : nat) (acc : list SelectStatement) : M (list SelectStatement) :=
  match fuel with
  | O => no_fuel
  | S f =>
      let* t := scanIgnoreWhitespace in
      if is_tok SEMICOLON t then
        let* s := Parse f in queries_loop f (match s with Some x => acc ++ [x] | None => acc end)
      else if is_tok EOF t then ret acc
      else queries_loop f acc
  end.

(** The first statement is dereferenced without a test. *)
Definition ParseQueries (fuel : nat) : M (list SelectStatement) :=
  let* s := Parse fuel in
  match s with None => fun _ => Panic | Some x => queries_loop fuel [x] end.

(** ** Stream definitions *)

(** The field types are recursive through structs; a struct reads its fields
    like a whole definition. *)
Fixpoint parseStreamFields (fuel : nat) (acc : StreamFields) : M StreamFields :=
  match fuel with
  | O => no_fuel
  | S f =>
      let* t := scanIgnoreWhitespace in
      if is_tok LPAREN t then stream_fields_loop f acc
      else errorf "found %q, expected lparen after stream name." [ErrS (snd t)]
  end

with stream_fields_loop (fuel : nat) (acc : StreamFields) : M StreamFields :=
  match fuel with
  | O => no_fuel
  | S f =>
      let* t1 := scanIgnoreWhitespace in
      if is_tok RPAREN t1 then
        let* t2 := scanIgnoreWhitespace in
        if negb (is_tok WITH t2) then errorf "found %q, expected is with." [ErrS (snd t2)] else ret acc
      else
        unscan ;;
        let* x := parseStreamField f in
        let acc' := acc ++ [x] in
        let* t1 := scanIgnoreWhitespace in
        if is_tok RPAREN t1 then
          let* t2 := scanIgnoreWhitespace in
          if is_tok WITH t2 then ret acc'
          else if is_tok COMMA t2 || is_tok RPAREN t2 then unscan ;; ret acc'
          else errorf "found %q, expected is with." [ErrS (snd t2)]
        else unscan ;; stream_fields_loop f acc'
  end

with parseStreamField (fuel : nat) : M (string * FieldType) :=
  match fuel with
  | O => no_fuel
  | S f =>
      let* t := scanIgnoreWhitespace in
      if is_tok IDENT t then
        let* t1 := scanIgnoreWhitespace in
        let* ft :=
          match GetDataType (fst t1) with
          | ARRAY => parseStreamArrayType f
          | STRUCT => parseStreamStructType f
          | UNKNOWN =>
              errorf "found %q, expect valid stream field types(BIGINT | FLOAT | STRINGS | DATETIME | BOOLEAN | BYTEA | ARRAY | STRUCT)."
                [ErrS (snd t1)]
          | d => ret (BasicType d)
          end in
        let* t2 := scanIgnoreWhitespace in
        if is_tok COMMA t2 then ret (snd t, ft)
        else if is_tok RPAREN t2 then unscan ;; ret (snd t, ft)
        else errorf "found %q, expect comma or rparen." [ErrS (snd t2)]
      else errorf "found %q, expect stream field name." [ErrS (snd t)]
  end

with parseStreamArrayType (fuel : nat) : M FieldType :=
  match fuel with
  | O => no_fuel
  | S f =>
      let* t := scanIgnoreWhitespace in
      if is_tok LPAREN t then
        let* t1 := scanIgnoreWhitespace in
        let d := GetDataType (fst t1) in
        if IsSimpleType d then
          let* t2 := scanIgnoreWhitespace in
          if is_tok RPAREN t2 then ret (ArrayType d None)
          else errorf "found %q, expect rparen in array type definition." [ErrS (snd t2)]
        else if is_tok XSTRUCT t1 then
          let* ft := parseStreamStructType f in
          let* t2 := scanIgnoreWhitespace in
          if is_tok RPAREN t2 then ret (ArrayType STRUCT (Some ft))
          else errorf "found %q, expect rparen in struct of array type definition." [ErrS (snd t2)]
        else if is_tok COMMA t1 then unscan ;; ret NilType
        else errorf "found %q, expect stream data types." [ErrS (snd t1)]
      else ret NilType
  end

with parseStreamStructType (fuel : nat) : M FieldType :=
  match fuel with
  | O => no_fuel
  | S f =>
      let* sfs := parseStreamFields f [] in
      let* t2 := scanIgnoreWhitespace in
      if is_tok COMMA t2 || is_tok RPAREN t2 then unscan ;; ret (RecType sfs)
      else errorf "found %q, expect comma in create stream record statement." [ErrS (snd t2)]
  end.

Definition empty_options : Options := mkOptions "" "" "" "" "" false "" "" 0 false.

Definition option_key (t : Token) : bool :=
  match t with
  | DATASOURCE | FORMAT | KEY | CONF_KEY | STRICT_VALIDATION | TYPE | TIMESTAMP | TIMESTAMP_FORMAT | RETAIN_SIZE
  | SHARED => true
  | _ => false
  end.

Definition parse_flag (key : Token) (lit : string) : parse_error + bool :=
  let val := to_upper lit in
  if String.eqb val "TRUE" then inr true
  else if String.eqb val "FALSE" then inr false
  else inl (Errorf "found %q, expect TRUE/FALSE value in %s option." [ErrS lit; ErrT key]).

(** One option; the string options are set by the name of the keyword. *)
Definition set_option (key : Token) (lit : string) (o : Options) : parse_error + Options :=
  let '(mkOptions ds k fo ck ty sv ts tf rs sh) := o in
  match key with
  | STRICT_VALIDATION =>
      match parse_flag key lit with inl e => inl e | inr b => inr (mkOptions ds k fo ck ty b ts tf rs sh) end
  | SHARED =>
      match parse_flag key lit with inl e => inl e | inr b => inr (mkOptions ds k fo ck ty sv ts tf rs b) end
  | RETAIN_SIZE =>
      let (v, ok) := Atoi lit in
      if negb ok then inl (Errorf "found %q, expect number value in %s option." [ErrS lit; ErrT key])
      else inr (mkOptions ds k fo ck ty sv ts tf v sh)
  | DATASOURCE => inr (mkOptions lit k fo ck ty sv ts tf rs sh)
  | KEY => inr (mkOptions ds lit fo ck ty sv ts tf rs sh)
  | FORMAT => inr (mkOptions ds k lit ck ty sv ts tf rs sh)
  | CONF_KEY => inr (mkOptions ds k fo lit ty sv ts tf rs sh)
  | TYPE => inr (mkOptions ds k fo ck lit sv ts tf rs sh)
  | TIMESTAMP => inr (mkOptions ds k fo ck ty sv lit tf rs sh)
  | TIMESTAMP_FORMAT => inr (mkOptions ds k fo ck ty sv ts lit rs sh)
  | _ => inl (Errorf "invalid field %s." [ErrT key])
  end.

Fixpoint options_loop (fuel : nat) (o : Options) : M Options :=
  match fuel with
  | O => no_fuel
  | S f =>
      let* t1 := scanIgnoreWhitespace in
      if option_key (fst t1) then
        let* t2 := scanIgnoreWhitespace in
        if is_tok EQ t2 then
          let* t3 := scanIgnoreWhitespace in
          if is_tok STRING t3 then
            match set_option (fst t1) (snd t3) o with
            | inl e => fun _ => Fail e
            | inr o' => options_loop f o'
            end
          else errorf "found %q, expect string value in option." [ErrS (snd t3)]
        else errorf "found %q, expect equals(=) in options." [ErrS (snd t2)]
      else if is_tok COMMA t1 then options_loop f o
      else if is_tok RPAREN t1 then ret o
      else errorf "found %q, unknown option keys(DATASOURCE|FORMAT|KEY|CONF_KEY|SHARED|STRICT_VALIDATION|TYPE|TIMESTAMP|TIMESTAMP_FORMAT|RETAIN_SIZE)."
             [ErrS (snd t1)]
  end.

Definition parseStreamOptions (fuel : nat) : M Options :=
  let* t := scanIgnoreWhitespace in
  if is_tok LPAREN t then options_loop fuel empty_options
  else errorf "found %q, expect stream options." [ErrS (snd t)].

Definition validateStream (stmt : StreamStmt) : option parse_error :=
  let fo := o_FORMAT (ss_Options stmt) in
  let f := if String.eqb fo "" then "json" else fo in
  if String.eqb (to_lower f) "json" then None
  else if String.eqb (to_lower f) "binary" then
    match ss_StreamType stmt with
    | TypeTable => Some (Errorf "'binary' format is not supported for table" [])
    | TypeStream =>
        match ss_StreamFields stmt with
        | None | Some [] => None
        | Some [(_, BasicType BYTEA)] => None
        | Some [_] => Some (Errorf "'binary' format stream can have only 'bytea' type field" [])
        | Some _ => Some (Errorf "'binary' format stream can have only one field" [])
        end
    end
  else Some (Errorf "option 'format=%s' is invalid" [ErrS f]).

(** ** Statements *)

Inductive Statement : Type :=
  | SelectStmt (s : SelectStatement)
  | CreateStmt (s : StreamStmt)
  | ShowStreamsStatement | ShowTablesStatement
  | DescribeStreamStatement (name : string) | DescribeTableStatement (name : string)
  | ExplainStreamStatement (name : string) | ExplainTableStatement (name : string)
  | DropStreamStatement (name : string) | DropTableStatement (name : string).

Definition ParseCreateStmt (fuel : nat) : M (option Statement) :=
  let* t := scanIgnoreWhitespace in
  if is_tok CREATE t then
    let* t1 := scanIgnoreWhitespace in
    let* st :=
      match fst t1 with
      | STREAM => ret TypeStream
      | TABLE => ret TypeTable
      | _ => errorf "found %q, expected keyword stream or table." [ErrS (snd t1)]
      end in
    let* t2 := scanIgnoreWhitespace in
    if is_tok IDENT t2 then
      let* fields := parseStreamFields fuel [] in
      let* opts := parseStreamOptions fuel in
      let* t3 := scanIgnoreWhitespace in
      (if is_tok SEMICOLON t3 then unscan
       else if is_tok EOF t3 then ret tt
       else errorf "found %q, expected semicolon or EOF." [ErrS (snd t3)]) ;;
      let stmt := mkStreamStmt (snd t2) (match fields with [] => None | _ => Some fields end) opts st in
      match validateStream stmt with Some e => fun _ => Fail e | None => ret (Some (CreateStmt stmt)) end
    else errorf "found %q, expected stream name." [ErrS (snd t2)]
  else unscan ;; ret None.

Definition parseShowStmt : M (option Statement) :=
  let* t := scanIgnoreWhitespace in
  if is_tok SHOW t then
    let* t1 := scanIgnoreWhitespace in
    let finish s :=
      let* t2 := scanIgnoreWhitespace in
      if is_tok EOF t2 || is_tok SEMICOLON t2 then ret (Some s)
      else errorf "found %q, expected semecolon or EOF." [ErrS (snd t2)] in
    match fst t1 with
    | STREAMS => finish ShowStreamsStatement
    | TABLES => finish ShowTablesStatement
    | _ => errorf "found %q, expected keyword streams or tables." [ErrS (snd t1)]
    end
  else unscan ;; ret None.

(** [parseDescribeStmt], [parseExplainStmt] and [parseDropStmt] differ in the
    keyword and the statements. *)
Definition named_stmt (kw : Token) (stream table : string -> Statement) : M (option Statement) :=
  let* t := scanIgnoreWhitespace in
  if is_tok kw t then
    let* t1 := scanIgnoreWhitespace in
    let finish (mk : string -> Statement) what :=
      let* t2 := scanIgnoreWhitespace in
      if is_tok IDENT t2 then ret (Some (mk (snd t2))) else errorf what [ErrS (snd t2)] in
    match fst t1 with
    | STREAM => finish stream "found %q, expected stream name."
    | TABLE => finish table "found %q, expected table name."
    | _ => errorf "found %q, expected keyword stream or table." [ErrS (snd t1)]
    end
  else unscan ;; ret None.

Definition parseDescribeStmt := named_stmt DESCRIBE DescribeStreamStatement DescribeTableStatement.
Definition parseExplainStmt := named_stmt EXPLAIN ExplainStreamStatement ExplainTableStatement.
Definition parseDropStmt := named_stmt DROP DropStreamStatement DropTableStatement.

(** [Language.Parse] with the handlers of [init]. *)
Definition ParseTree_Parse (fuel : nat) : M (option Statement) :=
  let* t := scanIgnoreWhitespace in
  unscan ;;
  match fst t with
  | SELECT => let* s := Parse fuel in ret (option_map SelectStmt s)
  | CREATE => ParseCreateStmt fuel
  | SHOW => parseShowStmt
  | EXPLAIN => parseExplainStmt
  | DESCRIBE => parseDescribeStmt
  | DROP => parseDropStmt
  | _ => ret None
  end.
End Expr.
