(* ===== verification/ParserFacts.v ===== *)
(** Facts about the parser: the ring of tokens reads the text, parsing always
    ends, and expressions are grouped by precedence and survive a round trip
    through text. *)

From S2P Require Import Prelude Token Ast FuncValidator Lexical Strconv Parser.
From Stdlib Require Import ZArith Lia Bool List String Ascii.
Import ListNotations.

#[local] Open Scope string_scope.
#[local] Open Scope list_scope.
#[local] Open Scope Z_scope.

(** ** The next token of a text *)

Fixpoint next_token (fuel : nat) (rs : list rune) : (Token * string) * list rune :=
  match fuel with
  | O => ((EOF, ""), rs)
  | S f =>
      let '(t, s) := Scan (mkScanner rs None) in
      if blank (fst t) then next_token f (rest s) else (t, rest s)
  end.

Definition next (rs : list rune) : (Token * string) * list rune := next_token (S (List.length rs)) rs.
Arguments next : simpl never.

Lemma Scan_last rs l : Scan (mkScanner rs l) = Scan (mkScanner rs None).
Proof. unfold Scan. destruct rs; reflexivity. Qed.

Lemma Scan_shrinks rs : (List.length (rest (snd (Scan (mkScanner rs None)))) <= List.length rs)%nat
  /\ (rs <> [] -> (List.length (rest (snd (Scan (mkScanner rs None)))) < List.length rs)%nat).
Proof.
  destruct rs as [|r rs]; [split; [cbn; lia|congruence]|].
  pose proof (Scan_progress r rs None) as P. unfold remaining in P. cbn [List.length]. split; intros; lia.
Qed.

Lemma next_token_enough f : forall rs g, (List.length rs < f)%nat -> (List.length rs < g)%nat ->
  next_token f rs = next_token g rs.
Proof.
  induction f as [|f IH]; intros rs g Hf Hg; [lia|]. destruct g as [|g]; [lia|]. cbn [next_token].
  pose proof (Scan_shrinks rs) as [_ P]. destruct (Scan (mkScanner rs None)) as [t s] eqn:E. cbn [snd] in P.
  destruct (blank (fst t)) eqn:B; [|reflexivity].
  assert (rs <> []) by (intros ->; cbn in E; injection E as <- <-; discriminate B).
  apply IH; specialize (P H); lia.
Qed.

Lemma next_step rs : next rs =
  let '(t, s) := Scan (mkScanner rs None) in if blank (fst t) then next (rest s) else (t, rest s).
Proof.
  unfold next at 1. cbn [next_token]. pose proof (Scan_shrinks rs) as [_ P].
  destruct (Scan (mkScanner rs None)) as [t s] eqn:E. cbn [snd] in P. destruct (blank (fst t)) eqn:B; [|reflexivity].
  assert (rs <> []) by (intros ->; cbn in E; injection E as <- <-; discriminate B).
  apply next_token_enough; specialize (P H); lia.
Qed.

Lemma next_ind (P : list rune -> Prop) :
  (forall rs, (forall t s, Scan (mkScanner rs None) = (t, s) -> blank (fst t) = true -> P (rest s)) -> P rs) ->
  forall rs, P rs.
Proof.
  intros H rs. remember (List.length rs) as n eqn:Hn. revert rs Hn.
  induction n as [n IH] using lt_wf_ind. intros rs ->. apply H. intros t s E B.
  pose proof (Scan_shrinks rs) as [_ P0]. rewrite E in P0. cbn in P0.
  assert (rs <> []) by (intros ->; cbn in E; injection E as <- <-; discriminate B).
  eapply IH; [|reflexivity]. auto.
Qed.

Lemma next_nonblank rs : blank (fst (fst (next rs))) = false.
Proof.
  induction rs as [rs IH] using next_ind. rewrite next_step. destruct (Scan _) as [t s] eqn:E.
  destruct (blank (fst t)) eqn:B; [|exact B]. now apply (IH t s).
Qed.

(** A token takes at least one rune, unless the text is at its end. *)
Lemma next_shrinks rs : (List.length (snd (next rs)) <= List.length rs)%nat
  /\ (fst (fst (next rs)) <> EOF -> (List.length (snd (next rs)) < List.length rs)%nat).
Proof.
  induction rs as [rs IH] using next_ind. rewrite next_step. pose proof (Scan_shrinks rs) as [P1 P2].
  destruct (Scan _) as [t s] eqn:E. cbn [snd] in *. destruct (blank (fst t)) eqn:B.
  - destruct (IH t s eq_refl B) as [I1 I2]. split; [lia|]. intros H. specialize (I2 H). lia.
  - cbn. split; [exact P1|]. intros H. apply P2. intros ->. cbn in E. injection E as <- <-. now apply H.
Qed.

(** ** The ring *)

Definition cell (p : Parser) (k : Z) : Token * string :=
  nth (Z.to_nat (go_mod (p_i p - k + 3) 3)) (p_buf p) (ILLEGAL, "").

Record valid (p : Parser) : Prop := {
  v_i : 0 <= p_i p < 3;
  v_n : 0 <= p_n p;
  v_buf : List.length (p_buf p) = 3%nat;
  v_blank : Forall (fun t => blank (fst t) = false) (p_buf p) }.

(** [rs] is what [p] reads when the tokens of the ring from [cell k] on are
    read again. *)
Fixpoint stands (p : Parser) (k : nat) (rs : list rune) : Prop :=
  match k with
  | O => rest (p_s p) = rs
  | S k' => exists rs', next rs = (cell p (Z.of_nat k'), rs') /\ stands p k' rs'
  end.

(** [p] is going to read [rs]; before that it read from [l], the latest first. *)
Record reads (p : Parser) (l : list (list rune)) (rs : list rune) : Prop := {
  r_valid : valid p;
  r_room : p_n p + Z.of_nat (List.length l) <= 3;
  r_now : stands p (Z.to_nat (p_n p)) rs;
  r_past : forall k r, nth_error l k = Some r -> stands p (Z.to_nat (p_n p) + S k) r }.

Lemma curr_cell p : curr p = cell p (p_n p).
Proof. reflexivity. Qed.

Lemma cell_nonblank p k : valid p -> blank (fst (cell p k)) = false.
Proof.
  intros [_ _ Hb Hf]. unfold cell. set (j := Z.to_nat _).
  destruct (Nat.lt_ge_cases j 3) as [H|H].
  - rewrite Forall_forall in Hf. apply Hf, nth_In. lia.
  - now rewrite nth_overflow by lia.
Qed.

Lemma stands_ext p q k : p_s p = p_s q -> (forall j, (j < k)%nat -> cell p (Z.of_nat j) = cell q (Z.of_nat j)) ->
  forall rs, stands p k rs -> stands q k rs.
Proof.
  intros Hs. induction k as [|k IH]; intros Hc rs; cbn; [now rewrite Hs|]. intros (rs' & E & H).
  exists rs'. rewrite <- Hc by lia. split; [exact E|]. apply IH; [intros j Hj; apply Hc; lia|exact H].
Qed.

Lemma list3 {A} (l : list A) : List.length l = 3%nat -> exists a b c, l = [a; b; c].
Proof. destruct l as [|a [|b [|c [|? ?]]]]; try discriminate. eauto. Qed.

(** A new token moves the older ones back by one cell. *)
Lemma push_cells s i n b m t : 0 <= i < 3 -> List.length b = 3%nat ->
  let i' := go_mod (i + 1) 3 in
  let p' := mkParser s i' n (list_set (Z.to_nat i') t b) m in
  cell p' 0 = t /\ forall k, 0 <= k < 2 -> cell p' (k + 1) = cell (mkParser s i n b m) k.
Proof.
  intros Hi Hb. apply list3 in Hb as (x & y & z & ->).
  assert (C : i = 0 \/ i = 1 \/ i = 2) by lia.
  destruct C as [-> | [-> | ->]]; cbn; (split; [reflexivity|]);
    (intros k Hk; assert (K : k = 0 \/ k = 1) by lia; destruct K as [-> | ->]; reflexivity).
Qed.

(** Reading from the scanner, past blanks and comments. *)
Lemma scan_fresh rs : forall p fuel, p_n p = 0 -> valid p -> rest (p_s p) = rs -> (List.length rs < fuel)%nat ->
  exists s, rest s = snd (next rs)
    /\ scan_tokens fuel p = Ok (fst (next rs))
         (let i := go_mod (p_i p + 1) 3 in
          mkParser s i 0 (list_set (Z.to_nat i) (fst (next rs)) (p_buf p)) (p_inmeta p)).
Proof.
  induction rs as [rs IH] using next_ind. intros p fuel Hn Hv Hs Hf. destruct fuel as [|fuel]; [lia|].
  cbn [scan_tokens]. unfold bind, scan. rewrite Hn. cbn [Z.gtb Z.compare].
  destruct (p_s p) as [rs0 l0] eqn:Ep. cbn in Hs. subst rs0. rewrite (Scan_last rs l0), next_step.
  destruct (Scan (mkScanner rs None)) as [t s] eqn:E. pose proof (Scan_shrinks rs) as [_ P]. rewrite E in P. cbn [snd] in P.
  destruct (blank (fst t)) eqn:B; cbn [negb].
  - rewrite B. assert (rs <> []) by (intros ->; cbn in E; injection E as <- <-; discriminate B). specialize (P H).
    destruct (IH t s eq_refl B (set_scanner s p) fuel) as (s' & E1 & E2); auto; [|lia|].
    + destruct Hv. now split.
    + exists s'. split; [exact E1|]. exact E2.
  - rewrite B. cbn. unfold ret. exists s. split; reflexivity.
Qed.

Lemma valid_push p s t : valid p -> blank (fst t) = false ->
  let i := go_mod (p_i p + 1) 3 in valid (mkParser s i 0 (list_set (Z.to_nat i) t (p_buf p)) (p_inmeta p)).
Proof.
  intros [Hi Hn Hb Hf] Ht. cbv zeta. split; cbn.
  - unfold go_mod. rewrite Z.rem_mod_nonneg by lia. apply Z.mod_pos_bound. lia.
  - lia.
  - now rewrite length_list_set.
  - apply list3 in Hb as (x & y & z & E). rewrite E in *. inversion Hf as [|? ? ? Hf1]; inversion Hf1 as [|? ? ? Hf2]; subst.
    inversion Hf2; subst. destruct (Z.to_nat (go_mod (p_i p + 1) 3)) as [|[|[|[|n]]]]; cbn; repeat constructor; assumption.
Qed.

(** Reading a token: it is the next one of the text, and can be read again. *)
Lemma scan_reads p l rs : reads p l rs -> (List.length l <= 1)%nat ->
  exists p1, scanIgnoreWhitespace p = Ok (fst (next rs)) p1 /\ reads p1 (rs :: l) (snd (next rs))
    /\ p_n p1 = Z.max 0 (p_n p - 1) /\ p_inmeta p1 = p_inmeta p.
Proof.
  intros [Hv Hroom Hnow Hpast] Hl. unfold scanIgnoreWhitespace. destruct (Z.eq_dec (p_n p) 0) as [Hn|Hn].
  - rewrite Hn in *. cbn in Hnow.
    destruct (scan_fresh rs p (S (remaining (p_s p))) Hn Hv Hnow) as (s & Es & ->); [unfold remaining; rewrite Hnow; lia|].
    set (i' := go_mod (p_i p + 1) 3).
    pose proof (push_cells (p_s p) (p_i p) (p_n p) (p_buf p) (p_inmeta p) (fst (next rs)) (v_i p Hv) (v_buf p Hv)) as [C0 Ck].
    cbv zeta in C0, Ck. fold i' in C0, Ck. set (b' := list_set (Z.to_nat i') (fst (next rs)) (p_buf p)) in *.
    eexists. split; [reflexivity|]. split; [|split; reflexivity]. cbv zeta. fold i' b'. set (p1 := mkParser s i' 0 b' (p_inmeta p)).
    assert (G : forall k r, (k <= 2)%nat -> stands p k r -> stands p1 (S k) r).
    { induction k as [|k IHk]; intros r Hk Hr.
      - cbn in Hr. cbn [stands]. exists (snd (next rs)). split; [|exact Es]. assert (r = rs) as -> by congruence.
        replace (cell p1 (Z.of_nat 0)) with (fst (next rs)) by (symmetry; exact C0). apply surjective_pairing.
      - cbn in Hr. destruct Hr as (r' & E & Hr). exists r'. split; [|apply IHk; [lia|exact Hr]]. rewrite E. f_equal.
        replace (Z.of_nat (S k)) with (Z.of_nat k + 1) by lia. symmetry. apply (Ck (Z.of_nat k)). lia. }
    split.
    + now apply valid_push; [|apply next_nonblank].
    + cbn. lia.
    + cbn. exact Es.
    + intros k r Hk. cbn. destruct k as [|k]; cbn in Hk.
      * injection Hk as <-. apply (G O); [lia|exact Hnow].
      * specialize (Hpast k r Hk). cbn in Hpast. apply (G (S k)); [|exact Hpast].
        assert (k < List.length l)%nat by (apply nth_error_Some; congruence). lia.
  - destruct Hv as [Hi Hn0 Hb Hf]. destruct (Z.to_nat (p_n p)) as [|n] eqn:En; [lia|]. cbn [stands] in Hnow.
    destruct Hnow as (rs' & E & Hr). cbn [scan_tokens]. unfold bind, scan.
    replace (p_n p >? 0) with true by (symmetry; apply Z.gtb_lt; lia).
    rewrite curr_cell. cbn [p_n set_n]. replace (p_n p - 1) with (Z.of_nat n) by lia.
    change (cell (set_n (Z.of_nat n) p) (Z.of_nat n)) with (cell p (Z.of_nat n)). rewrite E. cbn [fst snd].
    rewrite cell_nonblank by now split. unfold ret. eexists. split; [reflexivity|].
    split; [|split; [cbn; lia|reflexivity]].
    assert (G : forall k r, stands p k r -> stands (set_n (Z.of_nat n) p) k r)
      by (intros k r; apply stands_ext; reflexivity).
    split.
    + now split; cbn; try lia.
    + cbn. lia.
    + cbn. rewrite Nat2Z.id. now apply G.
    + intros k r Hk. cbn [p_n set_n]. rewrite Nat2Z.id. destruct k as [|k]; cbn in Hk.
      * injection Hk as <-. rewrite Nat.add_1_r. apply G. cbn. eauto.
      * apply G. replace (n + S (S k))%nat with (S n + S k)%nat by lia. now apply Hpast.
Qed.

(** Unscanning goes back to the text before the last token. *)
Lemma unscan_reads p r l rs : reads p (r :: l) rs -> reads (set_n (p_n p + 1) p) l r.
Proof.
  intros [[Hi Hn Hb Hf] Hroom Hnow Hpast]. cbn in Hroom.
  assert (G : forall k x, stands p k x -> stands (set_n (p_n p + 1) p) k x)
    by (intros k x; apply stands_ext; reflexivity).
  split.
  - now split; cbn; try lia.
  - cbn. lia.
  - cbn [p_n set_n]. apply G. replace (Z.to_nat (p_n p + 1)) with (Z.to_nat (p_n p) + 1)%nat by lia. now apply (Hpast O).
  - intros k x Hk. cbn [p_n set_n]. apply G.
    replace (Z.to_nat (p_n p + 1) + S k)%nat with (Z.to_nat (p_n p) + S (S k))%nat by lia. now apply (Hpast (S k)).
Qed.

Lemma reads_forget p l rs : reads p l rs -> reads p [] rs.
Proof. intros [Hv Hr Hn _]. split; auto; [cbn; lia|]. intros [|k] r Hk; discriminate. Qed.

Lemma reads_one p r l rs : reads p (r :: l) rs -> reads p [r] rs.
Proof.
  intros [Hv Hr Hn Hp]. split; auto; [cbn in *; lia|]. intros [|[|k]] x Hk; cbn in Hk; try discriminate.
  injection Hk as <-. now apply (Hp O).
Qed.

Lemma reads_start rs : reads (NewParser rs) [] rs.
Proof.
  split; [|cbn; lia|reflexivity|intros [|k] r Hk; discriminate].
  split; cbn; [lia|lia|reflexivity|repeat constructor].
Qed.

Lemma reads_inmeta p l rs b : reads p l rs -> reads (set_inmeta b p) l rs.
Proof.
  intros [[Hi Hn Hb Hf] Hr Hs Hp].
  assert (G : forall k x, stands p k x -> stands (set_inmeta b p) k x) by (intros k x; apply stands_ext; reflexivity).
  split; [now split|exact Hr|now apply G|]. intros k r Hk. apply G. now apply Hp.
Qed.

(** ** Parsing always ends *)

(** Between the parsing functions at most one token waits to be read again. *)
Definition ready (p : Parser) (rs : list rune) : Prop := reads p [] rs /\ p_n p <= 1.

(** A token was just read: it can be unscanned. *)
Definition took (p : Parser) (before after : list rune) : Prop := reads p [before] after /\ p_n p = 0.

Lemma took_ready p rs rs1 : took p rs rs1 -> ready p rs1.
Proof. intros [H Hn]. split; [eapply reads_forget, H|lia]. Qed.

Lemma took_unscan p rs rs1 : took p rs rs1 -> ready (set_n (p_n p + 1) p) rs.
Proof. intros [H Hn]. split; [now apply unscan_reads in H|cbn; lia]. Qed.

Lemma scan_took p rs : ready p rs ->
  exists p1, scanIgnoreWhitespace p = Ok (fst (next rs)) p1 /\ took p1 rs (snd (next rs)) /\ p_inmeta p1 = p_inmeta p.
Proof.
  intros [H Hn]. destruct (scan_reads p [] rs H) as (p1 & E & H1 & N & I); [cbn; lia|].
  exists p1. split; [exact E|]. split; [|exact I]. split; [exact H1|lia].
Qed.

(** A parsing function ends, in [Q] if it succeeds. *)
Definition post {A} (Q : A -> list rune -> Prop) (r : res A) : Prop :=
  match r with
  | Ok a p => exists rs, ready p rs /\ Q a rs
  | Fail _ => True
  | Panic | NoFuel => False
  end.

Lemma post_ret {A} (Q : A -> list rune -> Prop) a p rs : ready p rs -> Q a rs -> post Q (ret a p).
Proof. cbn. eauto. Qed.

Lemma post_bind {A B} (Q : A -> list rune -> Prop) (R : B -> list rune -> Prop) m k p :
  post Q (m p) -> (forall a p' rs', ready p' rs' -> Q a rs' -> post R (k a p')) -> post R (bind m k p).
Proof. unfold bind. destruct (m p); cbn; try tauto. intros (rs & H & HQ) Hk. now apply (Hk a p0 rs). Qed.

Lemma post_weaken {A} (Q R : A -> list rune -> Prop) r : post Q r -> (forall a rs, Q a rs -> R a rs) -> post R r.
Proof. destruct r; cbn; try tauto. intros (rs & H & HQ) HR. eauto. Qed.

(** What is known of a token that was read. *)
Record token_read (rs : list rune) (t : Token * string) (rs1 : list rune) (p1 : Parser) : Prop := {
  tr_next : next rs = (t, rs1);
  tr_took : took p1 rs rs1;
  tr_le : (List.length rs1 <= List.length rs)%nat;
  tr_lt : fst t <> EOF -> (List.length rs1 < List.length rs)%nat }.

Lemma post_scan {B} (R : B -> list rune -> Prop) k p rs : ready p rs ->
  (forall t p1 rs1, token_read rs t rs1 p1 -> post R (k t p1)) -> post R (bind scanIgnoreWhitespace k p).
Proof.
  intros H Hk. destruct (scan_took p rs H) as (p1 & E & T & _). unfold bind. rewrite E.
  apply (Hk _ p1 (snd (next rs))). destruct (next_shrinks rs) as [L1 L2].
  split; [apply surjective_pairing|exact T|exact L1|exact L2].
Qed.

Lemma bind_unscan {B} (k : unit -> M B) p : bind unscan k p = k tt (set_n (p_n p + 1) p).
Proof. reflexivity. Qed.

Lemma bind_ret {A B} (a : A) (k : A -> M B) p : bind (ret a) k p = k a p.
Proof. reflexivity. Qed.

Lemma bind_assoc {A B C} (m : M A) (k : A -> M B) (h : B -> M C) p :
  bind (bind m k) h p = bind m (fun a => bind (k a) h) p.
Proof. unfold bind. now destruct (m p). Qed.

Lemma bind_if {A B} (b : bool) (m1 m2 : M A) (k : A -> M B) p :
  bind (if b then m1 else m2) k p = if b then bind m1 k p else bind m2 k p.
Proof. now destruct b. Qed.

Lemma ScanNumber_token d n s : fst (fst (ScanNumber d n s)) = NUMBER \/ fst (fst (ScanNumber d n s)) = INTEGER.
Proof.
  unfold ScanNumber. destruct (read s) as [c s1]. destruct (loop _ _ s1) as [[b i] s2].
  destruct (i || d); cbn; auto.
Qed.

(** A minus is followed into the scanner, which no token waits in front of. *)
Lemma post_negative {B} (R : B -> list rune -> Prop) k p rs : ready p rs ->
  (forall t p1 rs1, fst t <> SUB -> token_read rs t rs1 p1 -> post R (k t p1)) ->
  (forall t p1 rs1, fst t = SUB \/ fst t = NUMBER \/ fst t = INTEGER ->
     ready p1 rs1 -> (List.length rs1 < List.length rs)%nat -> post R (k t p1)) ->
  post R (bind scanIgnoreWhiteSpaceWithNegativeNum k p).
Proof.
  intros H H1 H2. unfold scanIgnoreWhiteSpaceWithNegativeNum. rewrite bind_assoc. apply (post_scan _ _ _ rs H).
  intros t p1 rs1 T. destruct (tok_eqb (fst t) SUB) eqn:E.
  - apply tok_eqb_eq in E. pose proof T as [_ [[Hv Hroom Hnow Hpast] Hn] _ Hlt]. rewrite Hn in Hnow. cbn in Hnow.
    assert (L : (List.length rs1 < List.length rs)%nat) by (apply Hlt; now rewrite E).
    unfold bind. pose proof (ScanWhiteSpace_weight (p_s p1)) as W1. destruct (ScanWhiteSpace (p_s p1)) as [w s1].
    pose proof (read_weight s1) as W2. pose proof (remaining_le_weight s1) as W2'. destruct (read s1) as [r s2].
    cbn [snd] in *. unfold remaining in W1 at 1. rewrite Hnow in W1.
    assert (G : forall s t', fst t' = SUB \/ fst t' = NUMBER \/ fst t' = INTEGER -> (remaining s <= List.length rs1)%nat ->
      post R (k t' (set_scanner s p1))).
    { intros s t' Ht Hs. apply (H2 t' _ (rest s)); [exact Ht| |unfold remaining in Hs; lia].
      split; [|cbn; lia]. destruct Hv. split; [now split|cbn; lia| |intros [|j] x Hj; discriminate].
      cbn. rewrite Hn. reflexivity. }
    destruct (isDigit r).
    + pose proof (ScanNumber_weight false true (unread s2)) as W3. pose proof (ScanNumber_token false true (unread s2)) as T3.
      rewrite unread_remaining in W3. destruct (ScanNumber false true (unread s2)) as [t' s3]. cbn [fst snd] in *.
      pose proof (remaining_le_weight s3). apply G; [tauto|lia].
    + pose proof (remaining_le_weight s2). apply G; [tauto|lia].
  - rewrite bind_ret. apply (H1 t p1 rs1); [|exact T]. intros F. rewrite F in E. now rewrite tok_eqb_refl in E.
Qed.

Lemma is_tok_eq t x : is_tok t x = true <-> fst x = t.
Proof. apply tok_eqb_eq. Qed.

Lemma is_tok_neq t x : is_tok t x = false <-> fst x <> t.
Proof. apply tok_eqb_neq. Qed.

(** Names: the first token may be the second of two that were unscanned. *)
Lemma name_sections_total f : forall acc rs p, reads p [] rs -> p_n p <= 2 ->
  p_n p <= 1 \/ fst (fst (next rs)) = IDENT -> (List.length rs < f)%nat ->
  post (fun ss rs' => (List.length rs' <= List.length rs)%nat /\ (ss = acc \/ (List.length rs' < List.length rs)%nat))
    (name_sections f acc p).
Proof.
  induction f as [|f IH]; intros acc rs p H Hn Hi Hf; [lia|]. cbn [name_sections].
  destruct (scan_reads p [] rs H) as (p1 & E & H1 & N1 & _); [cbn; lia|].
  unfold bind at 1. rewrite E. destruct (next_shrinks rs) as [L1 L2]. destruct (next rs) as [t rs1]. cbn [fst snd] in *.
  destruct (is_tok IDENT t || is_tok ASTERISK t) eqn:Et.
  - assert (L : (List.length rs1 < List.length rs)%nat).
    { apply L2. apply orb_prop in Et as [Et|Et]; apply is_tok_eq in Et; rewrite Et; discriminate. }
    assert (R1 : ready p1 rs1) by (split; [now apply reads_forget in H1|lia]).
    apply (post_scan _ _ _ rs1 R1). intros t1 p2 rs2 T.
    destruct (negb (AllowedSFNToken (fst t1))) eqn:Ed.
    + rewrite bind_unscan. eapply post_ret; [eapply took_unscan, T|]. split; [lia|right; lia].
    + assert (fst t1 <> EOF) by (intros F; rewrite F in Ed; discriminate Ed).
      assert (L' := tr_lt _ _ _ _ T H0). pose proof (took_ready _ _ _ (tr_took _ _ _ _ T)) as [R2 N2].
      eapply post_weaken; [apply (IH _ rs2 p2 R2); [lia|lia|lia]|]. cbn. intros a rs' [A B]. split; [lia|right; lia].
  - assert (Hn1 : p_n p <= 1).
    { destruct Hi as [Hi|Hi]; [exact Hi|]. apply orb_false_elim in Et as [Et _]. apply is_tok_neq in Et. congruence. }
    rewrite bind_unscan. eapply post_ret; [split; [apply (unscan_reads _ _ _ _ H1)|cbn; lia]|]. split; [lia|auto].
Qed.

Lemma field_name_total f rs p : reads p [] rs -> p_n p <= 2 ->
  p_n p <= 1 \/ fst (fst (next rs)) = IDENT -> (List.length rs < f)%nat ->
  post (fun ss rs' => (List.length rs' < List.length rs)%nat /\ (1 <= List.length ss <= 2)%nat) (parseFieldNameSections f p).
Proof.
  intros H Hn Hi Hf. unfold parseFieldNameSections. eapply post_bind; [apply (name_sections_total f [] rs p); assumption|].
  intros ss p' rs' R [L [->|L']]; [exact I|]. destruct ss as [|a [|b [|c ss]]]; try exact I;
    (eapply post_ret; [exact R|cbn; lia]).
Qed.

(** A time literal among the arguments of a window has a unit. *)
Definition fits (e : expr) : Prop := match e with TimeLiteral t => IsTimeLiteral t = true | _ => True end.

Lemma time_unit_some t : IsTimeLiteral t = true -> exists u, time_unit t = Some u.
Proof. intros H. apply IsTimeLiteral_spec in H. cbn in H. intuition (subst; cbn; eauto). Qed.

Lemma check_integers_ok name i args : check_integers name i args = None -> Forall (fun a => is_integer a = true) args.
Proof.
  revert i. induction args as [|a args IH]; intros i; cbn; [constructor|]. destruct (is_integer a) eqn:E; [|discriminate].
  intros H. constructor; [exact E|eapply IH, H].
Qed.

(** Valid arguments convert to a window. *)
Lemma window_converts name args wt : Forall fits args -> validateWindows name args = (wt, None) -> wt <> NOT_WINDOW ->
  exists l i, ConvertToWindows wt args = Some (inr (Window wt l i None)).
Proof.
  intros Hf H Hw. unfold validateWindows in H.
  assert (G : forall t n, validateWindow (to_lower name) n args = None -> n = 2 \/ n = 3 -> wt = t ->
    wt_eqb t COUNT_WINDOW = false -> exists l i, ConvertToWindows wt args = Some (inr (Window wt l i None))).
  { intros t n V Hn -> Hc. unfold ConvertToWindows. rewrite Hc. unfold validateWindow in V.
    destruct (Z.eqb_spec (Z.of_nat (List.length args)) n) as [El|El]; cbn [negb] in V; [|discriminate].
    destruct args as [|a args]; [cbn in El; lia|]. destruct a; try discriminate. apply check_integers_ok in V.
    inversion Hf as [|? ? Ha _]; subst. destruct (time_unit_some _ Ha) as [u ->].
    destruct args as [|a [|b [|c args]]]; try (cbn in Hn; lia).
    - inversion V as [|? ? V1 _]; subst. destruct a; try discriminate. eauto.
    - inversion V as [|? ? V1 V']; inversion V' as [|? ? V2 _]; subst. destruct a, b; try discriminate. eauto. }
  do 4 (match type of H with (if String.eqb ?x ?y then _ else _) = _ => destruct (String.eqb x y) end;
    [injection H as <- V; eapply G; [exact V|lia|reflexivity|reflexivity]|]).
  destruct (String.eqb (to_lower name) "countwindow"); [|now injection H as <-].
  injection H as <- V. unfold ConvertToWindows. change (wt_eqb COUNT_WINDOW COUNT_WINDOW) with true. cbn [negb].
  destruct args as [|a [|b [|c args]]]; try discriminate; destruct a; try discriminate; eauto.
  destruct b; try discriminate. eauto.
Qed.

(** Steps of the proofs that parsing ends: read a token, and note that it
    shortened the text. *)
Lemma tr_ready rs t rs1 p1 : token_read rs t rs1 p1 -> ready p1 rs1.
Proof. intros T. eapply took_ready, T. Qed.

Lemma tr_unscan rs t rs1 p1 : token_read rs t rs1 p1 -> ready (set_n (p_n p1 + 1) p1) rs.
Proof. intros T. eapply took_unscan, T. Qed.

Lemma tr_is k rs t rs1 p1 : is_tok k t = true -> k <> EOF -> token_read rs t rs1 p1 ->
  (List.length rs1 < List.length rs)%nat.
Proof. intros E N T. apply is_tok_eq in E. apply (tr_lt _ _ _ _ T). congruence. Qed.

Lemma tr_not (k : Token -> bool) rs t rs1 p1 : k (fst t) = true -> k EOF = false -> token_read rs t rs1 p1 ->
  (List.length rs1 < List.length rs)%nat.
Proof. intros E N T. apply (tr_lt _ _ _ _ T). intros F. rewrite F in E. congruence. Qed.

Ltac shorter :=
  repeat match goal with
  | E : negb ?b = _ |- _ => apply (f_equal negb) in E; rewrite negb_involutive in E; cbn [negb] in E
  | E : is_tok ?k ?t = true, T : token_read ?rs ?t ?rs1 _ |- _ =>
      lazymatch goal with
      | _ : (List.length rs1 < List.length rs)%nat |- _ => fail
      | _ => let N := fresh "Lt" in assert (N := tr_is _ _ _ _ _ E ltac:(discriminate) T)
      end
  | E : ?f (fst ?t) = true, T : token_read ?rs ?t ?rs1 _ |- _ =>
      lazymatch goal with
      | _ : (List.length rs1 < List.length rs)%nat |- _ => fail
      | _ => let N := fresh "Lt" in assert (N := tr_not f _ _ _ _ E eq_refl T)
      end
  end.

Ltac token :=
  match goal with
  | H : ready ?p ?rs |- post _ (bind scanIgnoreWhitespace _ ?p) =>
      apply (post_scan _ _ _ _ H);
      let t := fresh "t" in let q := fresh "p" in let r := fresh "rs" in let T := fresh "T" in
      let R := fresh "R" in let L := fresh "L" in
      intros t q r T; pose proof (tr_ready _ _ _ _ T) as R; pose proof (tr_le _ _ _ _ T) as L
  end.

Ltac decide_token :=
  match goal with
  | |- post _ ((if ?b then _ else _) _) => destruct b eqn:?; try exact I; shorter
  | |- post _ (bind (if ?b then _ else _) _ _) => rewrite bind_if
  | |- post _ (if ?b then _ else _) => destruct b eqn:?; try exact I; shorter
  end.

(** The token of the goal's parser goes back. *)
Ltac back :=
  match goal with
  | T : token_read ?rs _ _ ?p |- post _ (bind unscan _ ?p) =>
      rewrite bind_unscan; let R := fresh "R" in pose proof (tr_unscan _ _ _ _ T) as R
  end.

Ltac parsing := repeat first [token | decide_token | back | rewrite bind_assoc | rewrite bind_ret].

Ltac done_with :=
  match goal with
  | R : ready ?p _ |- post _ (ret _ ?p) => apply (post_ret _ _ _ _ R)
  end.

Definition lt_fits (rs : list rune) (e : expr) (rs' : list rune) : Prop := (List.length rs' < List.length rs)%nat /\ fits e.
Definition le_fits (rs : list rune) (e : expr) (rs' : list rune) : Prop := (List.length rs' <= List.length rs)%nat /\ fits e.
Definition le_any {A} (rs : list rune) (_ : A) (rs' : list rune) : Prop := (List.length rs' <= List.length rs)%nat.
Definition lt_any {A} (rs : list rune) (_ : A) (rs' : list rune) : Prop := (List.length rs' < List.length rs)%nat.

Lemma insert_op_fits e op rhs : fits (insert_op e op rhs).
Proof. destruct e; cbn; auto. now destruct (_ >=? _). Qed.

Lemma reference_fits m b n : fits (reference_of m b n).
Proof. unfold reference_of. now destruct n as [|a [|b' [|c n]]], m. Qed.

Lemma literal_post t p rs : ready p rs -> post (fun e rs' => rs' = rs /\ fits e) (literal t p).
Proof.
  intros R.
  assert (G : forall e, fits e -> post (fun e rs' => rs' = rs /\ fits e) (ret e p))
    by (intros e Fe; now apply (post_ret _ _ _ _ R)).
  unfold literal. generalize (ParseFloat (snd t)) (ParseBool (snd t)) (fst (Atoi (snd t))). intros x b z.
  destruct (fst t) eqn:E; try (destruct (IsTimeLiteral _) eqn:F); try exact I; try (apply G; first [exact I|exact F]).
  - destruct x; [apply G|]; exact I.
  - destruct b; [apply G|]; exact I.
  - destruct b; [apply G|]; exact I.
Qed.

Lemma parseColonExpr_total start p rs : ready p rs -> post (le_fits rs) (parseColonExpr start p).
Proof.
  intros R. unfold parseColonExpr. apply (post_negative _ _ _ _ R).
  - intros t p1 rs1 Ht T. pose proof (tr_ready _ _ _ _ T) as R1. pose proof (tr_le _ _ _ _ T).
    parsing.
    + destruct (Atoi (snd t)) as [e ok]. parsing. done_with. split; [lia|exact Logic.I].
    + done_with. split; [lia|exact Logic.I].
  - intros t p1 rs1 Ht R1 L. parsing.
    + destruct (Atoi (snd t)) as [e ok]. parsing. done_with. split; [lia|exact Logic.I].
    + done_with. split; [lia|exact Logic.I].
Qed.

Lemma parseBracketExpr_total p rs : ready p rs -> post (le_fits rs) (parseBracketExpr p).
Proof.
  intros R. unfold parseBracketExpr.
  assert (G : forall t p1 rs1, ready p1 rs1 -> (List.length rs1 <= List.length rs)%nat ->
    post (le_fits rs) ((if is_tok RBRACKET t then ret (ColonExpr 0 MinInt32)
      else if is_tok INTEGER t then
        let (start, ok) := Atoi (snd t) in
        if negb ok then errorf "The start index %s is not an int value in bracket expression." [ErrS (snd t)]
        else
          let* t3 := scanIgnoreWhitespace in
          if is_tok RBRACKET t3 then ret (IndexExpr start)
          else if is_tok COLON t3 then parseColonExpr start
          else errorf "Unexpected token %q. when parsing bracket expressions." [ErrS (snd t)]
      else if is_tok COLON t then parseColonExpr 0
      else errorf "Unexpected token %q. when parsing bracket expressions." [ErrS (snd t)])%parser p1)).
  { intros t p1 rs1 R1 L. parsing.
    - done_with. split; [exact L|exact Logic.I].
    - destruct (Atoi (snd t)) as [start ok]. parsing; [done_with; split; [lia|exact Logic.I]|].
      eapply post_weaken; [apply parseColonExpr_total; eassumption|]. intros e rs' [A B]. split; [lia|exact B].
    - eapply post_weaken; [apply parseColonExpr_total; eassumption|]. intros e rs' [A B]. split; [lia|exact B]. }
  apply (post_negative _ _ _ _ R).
  - intros t p1 rs1 Ht T. apply G with (rs1 := rs1); [eapply tr_ready, T|eapply tr_le, T].
  - intros t p1 rs1 Ht R1 L. apply G with (rs1 := rs1); [exact R1|lia].
Qed.

(** Runs a parser that is known to end, with the length of what is left. *)
Ltac call H :=
  eapply post_bind; [eapply H; [eassumption|..]; try lia; try assumption
    |let a := fresh "a" in let q := fresh "q" in let r := fresh "rs" in let R := fresh "R" in
     intros a q r R; unfold lt_fits, le_fits, le_any, lt_any].

Ltac last H :=
  eapply post_weaken; [eapply H; [eassumption|..]; try lia; try assumption|];
  unfold lt_fits, le_fits, le_any, lt_any; intros; intuition (try lia).

(** The fuel that is enough, for each expression parser. *)
Section Total.
Variable ff : FuncFinder.
Variable rt : Runtime.

Record expr_total (f : nat) : Prop := {
  et_expr : forall p rs, ready p rs -> (4 * List.length rs + 2 <= f)%nat -> post (lt_fits rs) (ParseExpr ff rt f p);
  et_loop : forall p rs e, ready p rs -> fits e -> (4 * List.length rs + 2 <= f)%nat ->
    post (le_fits rs) (expr_loop ff rt f e p);
  et_unary : forall p rs b, ready p rs -> (4 * List.length rs + 1 <= f)%nat ->
    post (lt_fits rs) (parseUnaryExpr ff rt f b p);
  et_call : forall p rs name, ready p rs -> (4 * List.length rs + 4 <= f)%nat ->
    post (le_fits rs) (parseCall ff rt f name p);
  et_args : forall p rs name args, ready p rs -> Forall fits args -> (4 * List.length rs + 3 <= f)%nat ->
    post (fun r rs' => (List.length rs' <= List.length rs)%nat
            /\ match r with inl e => fits e | inr l => Forall fits l end) (call_args ff rt f name args p);
  et_case : forall p rs, ready p rs -> (4 * List.length rs + 3 <= f)%nat -> post (le_fits rs) (parseCaseExpr ff rt f p);
  et_branches : forall p rs v ws el, ready p rs -> (4 * List.length rs + 1 <= f)%nat ->
    post (le_fits rs) (case_loop ff rt f v ws el p);
  et_filter : forall p rs, ready p rs -> (4 * List.length rs + 1 <= f)%nat -> post (le_any rs) (parseFilter ff rt f p) }.

Lemma check_post name args p rs : ready p rs -> post (fun _ rs' => rs' = rs) (check ff rt name args p).
Proof.
  intros R. unfold check. pose proof (validateFuncs_some ff rt name args) as V.
  destruct (validateFuncs ff rt name args) as [[e|]|]; [exact I| |now destruct V]. now apply (post_ret _ _ _ _ R).
Qed.

Lemma expr_step f : expr_total f -> forall p rs, ready p rs -> (4 * List.length rs + 2 <= S f)%nat ->
  post (lt_fits rs) (ParseExpr ff rt (S f) p).
Proof.
  intros IH p rs R Hf. cbn [ParseExpr]. call (et_unary f IH). intros [L Fa].
  last (et_loop f IH).
Qed.

Lemma loop_step f : expr_total f -> forall p rs e, ready p rs -> fits e -> (4 * List.length rs + 2 <= S f)%nat ->
  post (le_fits rs) (expr_loop ff rt (S f) e p).
Proof.
  intros IH p rs e R Fe Hf. cbn [expr_loop]. token. decide_token.
  - parsing. done_with. split; [lia|exact Fe].
  - cbv zeta. parsing.
    + call (et_unary f IH). intros [L2 Fa]. last (et_loop f IH). apply insert_op_fits.
    + call (et_unary f IH). intros [L2 Fa]. last (et_loop f IH). apply insert_op_fits.
Qed.

Lemma case_step f : expr_total f -> forall p rs, ready p rs -> (4 * List.length rs + 3 <= S f)%nat ->
  post (le_fits rs) (parseCaseExpr ff rt (S f) p).
Proof.
  intros IH p rs R Hf. cbn [parseCaseExpr]. parsing.
  - call (et_expr f IH). intros [L2 _]. rewrite bind_ret. last (et_branches f IH).
  - last (et_branches f IH).
Qed.

Lemma branches_step f : expr_total f -> forall p rs v ws el, ready p rs -> (4 * List.length rs + 1 <= S f)%nat ->
  post (le_fits rs) (case_loop ff rt (S f) v ws el p).
Proof.
  intros IH p rs v ws el R Hf. cbn [case_loop]. parsing.
  - call (et_expr f IH). intros [L2 _]. parsing. call (et_expr f IH). intros [L3 _]. last (et_branches f IH).
  - call (et_expr f IH). intros [L2 _]. last (et_branches f IH).
  - done_with. now split; [lia|].
Qed.

Lemma filter_step f : expr_total f -> forall p rs, ready p rs -> (4 * List.length rs + 1 <= S f)%nat ->
  post (le_any rs) (parseFilter ff rt (S f) p).
Proof.
  intros IH p rs R Hf. cbn [parseFilter]. parsing.
  - done_with. unfold le_any. lia.
  - call (et_expr f IH). intros [L2 _]. parsing. done_with. lia.
Qed.

Lemma args_step f : expr_total f -> forall p rs name args, ready p rs -> Forall fits args ->
  (4 * List.length rs + 3 <= S f)%nat ->
  post (fun r rs' => (List.length rs' <= List.length rs)%nat
    /\ match r with inl e => fits e | inr l => Forall fits l end) (call_args ff rt (S f) name args p).
Proof.
  intros IH p rs name args R Fa Hf. cbn [call_args]. parsing.
  - call check_post. intros ->. done_with. now split; [lia|].
  - unfold bind, get_inmeta. done_with. now split; [lia|].
  - call (et_expr f IH). intros [L2 Fe]. cbv zeta. parsing.
    + done_with. split; [lia|]. apply Forall_app. now repeat constructor.
    + last (et_args f IH). apply Forall_app. now repeat constructor.
Qed.

Lemma put_inmeta_post {B} (Q : B -> list rune -> Prop) (b c : bool) (k : unit -> M B) p rs :
  ready p rs -> (forall p', ready p' rs -> post Q (k tt p')) -> post Q (bind (if b then put_inmeta c else ret tt) k p).
Proof.
  intros [R N] H. destruct b; [|now apply H]. unfold bind, put_inmeta. apply H. split; [now apply reads_inmeta|exact N].
Qed.

Lemma call_step f : expr_total f -> forall p rs name, ready p rs -> (4 * List.length rs + 4 <= S f)%nat ->
  post (le_fits rs) (parseCall ff rt (S f) name p).
Proof.
  intros IH p rs name R Hf. cbn [parseCall]. apply (put_inmeta_post _ _ _ _ _ _ R). intros p0 R0.
  call (et_args f IH); [constructor|]. intros [L Fr].
  apply (post_bind (le_fits rs)); [|intros e p' rs' R' LF; apply (put_inmeta_post _ _ _ _ _ _ R'); intros p2 R2; now apply (post_ret _ _ _ _ R2)].
  destruct a as [e|args]; [done_with; now split|].
  token. decide_token. destruct (validateWindows name args) as [wt [err|]] eqn:V.
  { destruct wt; try exact I. call check_post. intros ->. done_with. now split; [lia|]. }
  assert (W : wt = NOT_WINDOW \/ wt <> NOT_WINDOW) by (destruct wt; (now left) || (now right)).
  destruct W as [->|W].
  { call check_post. intros ->. done_with. now split; [lia|]. }
  destruct (window_converts name args wt Fr V W) as (l & i & C).
  assert (G : post (le_fits rs) ((let* w := window_of wt args in let* flt := parseFilter ff rt f in
    ret match flt with Some x => set_filter x w | None => w end)%parser p1)).
  { unfold window_of. rewrite C, bind_ret. call (et_filter f IH). intros L3. done_with. split; [lia|]. now destruct a. }
  destruct wt; try exact G. now destruct W.
Qed.

Lemma unary_step f : expr_total f -> forall p rs b, ready p rs -> (4 * List.length rs + 1 <= S f)%nat ->
  post (lt_fits rs) (parseUnaryExpr ff rt (S f) b p).
Proof.
  intros IH p rs b R Hf. cbn [parseUnaryExpr]. token. decide_token.
  { call (et_expr f IH). intros [L2 _]. parsing. done_with. now split; [lia|]. }
  decide_token; [last parseBracketExpr_total|]. back. apply (post_negative _ _ _ _ R1).
  - intros t1 p1 rs1 Ht T1. pose proof (tr_ready _ _ _ _ T1) as R2. decide_token; [last (et_case f IH)|].
    decide_token.
    2:{ destruct (tok_eqb (fst t1) EOF) eqn:F; [apply tok_eqb_eq in F; unfold literal; rewrite F; exact I|].
      apply tok_eqb_neq in F. pose proof (tr_lt _ _ _ _ T1 F).
      eapply post_weaken; [apply literal_post; eassumption|]. intros e rs' [-> Fe]. now split. }
    destruct T1 as [E1 [H1 N1] L1 _].
    destruct (scan_reads p1 [rs] rs1 H1) as (p2 & E2 & H2 & N2 & _); [cbn; lia|].
    unfold bind at 1. rewrite E2. destruct (next_shrinks rs1) as [L2 _]. destruct (next rs1) as [t2 rs2] eqn:E3.
    cbn [fst snd] in *. assert (R3 : ready p2 rs2) by (split; [eapply reads_forget, H2|lia]). decide_token.
    + last (et_call f IH).
    + rewrite !bind_unscan. apply unscan_reads in H2. apply unscan_reads in H2.
      call field_name_total; [cbn; lia|right; rewrite E1; now apply is_tok_eq|].
      intros [L3 _]. unfold bind, get_inmeta. done_with. split; [lia|apply reference_fits].
  - intros t1 p1 rs1 Ht R2 L2. assert (is_tok CASE t1 = false /\ is_tok IDENT t1 = false) as [-> ->].
    { split; apply is_tok_neq; intuition congruence. }
    eapply post_weaken; [apply literal_post; eassumption|]. intros e rs' [-> Fe]. now split.
Qed.

Lemma expr_total_all f : expr_total f.
Proof.
  induction f as [|f IH]; [split; intros; lia|]. split.
  - now apply expr_step.
  - now apply loop_step.
  - now apply unary_step.
  - now apply call_step.
  - now apply args_step.
  - now apply case_step.
  - now apply branches_step.
  - now apply filter_step.
Qed.

Lemma ParseExpr_total f p rs : ready p rs -> (4 * List.length rs + 2 <= f)%nat -> post (lt_fits rs) (ParseExpr ff rt f p).
Proof. apply et_expr, expr_total_all. Qed.

Lemma source_literal_total f : forall p rs seg alias, ready p rs -> (List.length rs < f)%nat ->
  post (le_any rs) (source_literal f seg alias p).
Proof.
  induction f as [|f IH]; intros p rs seg alias R Hf; [lia|]. cbn [source_literal]. unfold le_any. cbv zeta.
  parsing; try (last IH); done_with; lia.
Qed.

Lemma parseAlias_total p rs : ready p rs -> post (le_any rs) (parseAlias p).
Proof. intros R. unfold parseAlias, le_any. parsing; done_with; lia. Qed.

Lemma fields_loop_total f : forall p rs acc, ready p rs -> (4 * List.length rs + 3 <= f)%nat ->
  post (le_any rs) (fields_loop ff rt f acc p).
Proof.
  induction f as [|f IH]; intros p rs acc R Hf; [lia|]. cbn [fields_loop]. unfold le_any, parseField. rewrite bind_assoc.
  call ParseExpr_total. intros [L _]. rewrite bind_assoc. call parseAlias_total. intros L2. rewrite bind_ret. parsing.
  - done_with. lia.
  - last IH.
Qed.

Lemma parseFields_total f p rs : ready p rs -> (4 * List.length rs + 3 <= f)%nat -> post (le_any rs) (parseFields ff rt f p).
Proof. intros R Hf. unfold parseFields. parsing; [done_with; unfold le_any; lia|]. last fields_loop_total. Qed.

Lemma parseSource_total f p rs : ready p rs -> (List.length rs < f)%nat -> post (le_any rs) (parseSource f p).
Proof.
  intros R Hf. unfold parseSource, parseSourceLiteral. parsing. call source_literal_total. intros L2. done_with. lia.
Qed.

Lemma ParseJoin_total f jt p rs : ready p rs -> (4 * List.length rs + 2 <= f)%nat -> post (le_any rs) (ParseJoin ff rt f jt p).
Proof.
  intros R Hf. unfold ParseJoin, parseSourceLiteral. call source_literal_total. intros L. parsing.
  - call ParseExpr_total. intros [L2 _]. done_with. lia.
  - done_with. lia.
Qed.

Lemma joins_loop_total f : forall p rs acc, ready p rs -> (4 * List.length rs + 3 <= f)%nat ->
  post (le_any rs) (joins_loop ff rt f acc p).
Proof.
  induction f as [|f IH]; intros p rs acc R Hf; [lia|]. cbn [joins_loop]. token.
  destruct (join_type (fst t)) as [jt|] eqn:J; [|parsing; done_with; unfold le_any; lia].
  assert (fst t <> EOF) by (intros F; rewrite F in J; discriminate J). pose proof (tr_lt _ _ _ _ T H).
  parsing. call ParseJoin_total. intros L2. last IH.
Qed.

Lemma clause_total kw f p rs : ready p rs -> kw <> EOF -> (4 * List.length rs + 2 <= f)%nat ->
  post (le_any rs) (clause ff rt kw f p).
Proof.
  intros R K Hf. unfold clause, le_any. token. destruct (is_tok kw t) eqn:E; cbn [negb].
  - pose proof (tr_is _ _ _ _ _ E K T). call ParseExpr_total. intros [L2 _]. done_with. lia.
  - parsing. done_with. lia.
Qed.

Lemma dimensions_loop_total f : forall p rs acc, ready p rs -> (4 * List.length rs + 3 <= f)%nat ->
  post (le_any rs) (dimensions_loop ff rt f acc p).
Proof.
  induction f as [|f IH]; intros p rs acc R Hf; [lia|]. cbn [dimensions_loop]. unfold le_any.
  call ParseExpr_total. intros [L _]. parsing; [last IH|]. done_with. lia.
Qed.

Lemma parseDimensions_total f p rs : ready p rs -> (4 * List.length rs + 3 <= f)%nat ->
  post (le_any rs) (parseDimensions ff rt f p).
Proof. intros R Hf. unfold parseDimensions. parsing; [last dimensions_loop_total|]. done_with. unfold le_any. lia. Qed.

Lemma sorts_loop_total f : forall p rs acc, ready p rs -> (List.length rs + 2 <= f)%nat ->
  post (le_any rs) (sorts_loop f acc p).
Proof.
  induction f as [|f IH]; intros p rs acc R Hf; [lia|]. cbn [sorts_loop]. unfold le_any. token. decide_token.
  - back. destruct R1 as [R1 N1].
    eapply post_bind; [eapply (field_name_total _ _ _ R1); [lia|lia|lia]|]. intros ss q rs1 R2 [L2 _]. cbv zeta.
    parsing; last IH.
  - parsing; [last IH|]. done_with. lia.
Qed.

Lemma parseSorts_total f p rs : ready p rs -> (List.length rs + 2 <= f)%nat -> post (le_any rs) (parseSorts f p).
Proof. intros R Hf. unfold parseSorts. parsing; [last sorts_loop_total|]. done_with. unfold le_any. lia. Qed.

(** A SELECT statement, to its semicolon or the end of the text. *)
Lemma Parse_total f p rs : ready p rs -> (4 * List.length rs + 4 <= f)%nat ->
  post (fun s rs' => (List.length rs' <= List.length rs)%nat /\ (fst (fst (next rs)) <> EOF -> s <> None)) (Parse ff rt f p).
Proof.
  intros R Hf. unfold Parse. parsing.
  { done_with. split; [lia|]. rewrite (tr_next _ _ _ _ T). cbn. now apply is_tok_eq in Heqb. }
  call parseFields_total. intros L1. call parseSource_total. intros L2. call joins_loop_total. intros L3.
  call clause_total; [discriminate|]. intros L4. call parseDimensions_total. intros L5.
  call clause_total; [discriminate|]. intros L6. call parseSorts_total. intros L7. cbv zeta. parsing.
  - done_with. split; [lia|discriminate].
  - destruct (Validate _ _); [exact I|]. done_with. split; [lia|discriminate].
Qed.
End Total.

(** ** Stream definitions end *)

Record stream_total (f : nat) : Prop := {
  st_fields : forall p rs acc, ready p rs -> (4 * List.length rs + 1 <= f)%nat -> post (lt_any rs) (parseStreamFields f acc p);
  st_loop : forall p rs acc, ready p rs -> (4 * List.length rs + 2 <= f)%nat -> post (le_any rs) (stream_fields_loop f acc p);
  st_field : forall p rs, ready p rs -> (4 * List.length rs + 1 <= f)%nat -> post (lt_any rs) (parseStreamField f p);
  st_array : forall p rs, ready p rs -> (4 * List.length rs + 1 <= f)%nat -> post (le_any rs) (parseStreamArrayType f p);
  st_struct : forall p rs, ready p rs -> (4 * List.length rs + 2 <= f)%nat -> post (le_any rs) (parseStreamStructType f p) }.

Lemma field_step f : stream_total f -> forall p rs, ready p rs -> (4 * List.length rs + 1 <= S f)%nat ->
  post (lt_any rs) (parseStreamField (S f) p).
Proof.
  intros IH p rs R Hf. cbn [parseStreamField]. parsing.
  apply (post_bind (le_any rs1)); [|intros ft p2 rs2 R2 L2; unfold le_any in L2; parsing; done_with; unfold lt_any; lia].
  destruct (GetDataType (fst t0)); try exact I; try (done_with; unfold le_any; lia).
  - apply (st_array f IH); [assumption|lia].
  - apply (st_struct f IH); [assumption|lia].
Qed.

Lemma array_step f : stream_total f -> forall p rs, ready p rs -> (4 * List.length rs + 1 <= S f)%nat ->
  post (le_any rs) (parseStreamArrayType (S f) p).
Proof.
  intros IH p rs R Hf. cbn [parseStreamArrayType]. cbv zeta. unfold le_any. parsing; try (done_with; lia).
  call (st_struct f IH). intros L2. parsing. done_with. lia.
Qed.

Lemma stream_loop_step f : stream_total f -> forall p rs acc, ready p rs -> (4 * List.length rs + 2 <= S f)%nat ->
  post (le_any rs) (stream_fields_loop (S f) acc p).
Proof.
  intros IH p rs acc R Hf. cbn [stream_fields_loop]. unfold le_any. parsing; [done_with; lia|].
  call (st_field f IH). intros L2. cbv zeta. parsing; try (done_with; lia). last (st_loop f IH).
Qed.

Lemma stream_total_all f : stream_total f.
Proof.
  induction f as [|f IH]; [split; intros; lia|]. split; [|now apply stream_loop_step|now apply field_step|now apply array_step|].
  - intros p rs acc R Hf. cbn [parseStreamFields]. unfold lt_any. parsing. last (st_loop f IH).
  - intros p rs R Hf. cbn [parseStreamStructType]. unfold le_any. call (st_fields f IH). intros L. parsing. done_with. lia.
Qed.

Lemma options_loop_total f : forall p rs o, ready p rs -> (List.length rs < f)%nat -> post (le_any rs) (options_loop f o p).
Proof.
  induction f as [|f IH]; intros p rs o R Hf; [lia|]. cbn [options_loop]. unfold le_any. parsing.
  - destruct (set_option _ _ _) as [e|o']; [exact I|]. last IH.
  - last IH.
  - done_with. lia.
Qed.

Lemma parseStreamOptions_total f p rs : ready p rs -> (List.length rs <= f)%nat -> post (le_any rs) (parseStreamOptions f p).
Proof. intros R Hf. unfold parseStreamOptions. parsing. last options_loop_total. Qed.

Lemma ParseCreateStmt_total f p rs : ready p rs -> (4 * List.length rs + 1 <= f)%nat ->
  post (le_any rs) (ParseCreateStmt f p).
Proof.
  intros R Hf. unfold ParseCreateStmt, le_any. parsing; [|done_with; lia].
  apply (post_bind (fun _ rs' => rs' = rs1)).
  { destruct (fst t0); try exact I; now apply (post_ret _ _ _ _ R1). }
  intros st p2 rs2 R2 ->. parsing. call (st_fields f (stream_total_all f)). intros L2.
  call parseStreamOptions_total. intros L3. token.
  apply (post_bind (le_any rs4)).
  { repeat decide_token; [|done_with; unfold le_any; lia].
    unfold unscan. eexists. split; [eapply tr_unscan, T2|unfold le_any; lia]. }
  intros u q9 rs9 R9 L9. unfold le_any in L9. cbv zeta. destruct (validateStream _); [exact I|]. done_with. lia.
Qed.

Lemma parseShowStmt_total p rs : ready p rs -> post (le_any rs) (parseShowStmt p).
Proof.
  intros R. unfold parseShowStmt, le_any. parsing; [|done_with; lia].
  destruct (fst t0); try exact I; parsing; done_with; lia.
Qed.

Lemma named_stmt_total kw s1 s2 p rs : ready p rs -> kw <> EOF -> post (le_any rs) (named_stmt kw s1 s2 p).
Proof.
  intros R K. unfold named_stmt, le_any. token. destruct (is_tok kw t) eqn:E; [|parsing; done_with; lia].
  parsing. destruct (fst t0); try exact I; parsing; done_with; lia.
Qed.

Section Statements.
Variable ff : FuncFinder.
Variable rt : Runtime.

(** Enough fuel for a text. *)
Definition parse_fuel (rs : list rune) : nat := 4 * List.length rs + 4.

Lemma ParseTree_Parse_post f p rs : ready p rs -> (parse_fuel rs <= f)%nat ->
  post (le_any rs) (ParseTree_Parse ff rt f p).
Proof.
  unfold parse_fuel. intros R Hf. unfold ParseTree_Parse. token. back.
  destruct (fst t);
    solve [ done_with; unfold le_any; lia
          | apply (ParseCreateStmt_total _ _ _ R1); lia
          | apply (parseShowStmt_total _ _ R1)
          | apply named_stmt_total; [assumption|discriminate]
          | call Parse_total; intros [L2 _]; done_with; exact L2 ].
Qed.

Lemma queries_loop_total f : forall p rs acc, ready p rs -> (4 * List.length rs + 5 <= f)%nat ->
  post (le_any rs) (queries_loop ff rt f acc p).
Proof.
  induction f as [|f IH]; intros p rs acc R Hf; [lia|]. cbn [queries_loop]. unfold le_any. token. decide_token.
  - call Parse_total. intros [L2 _]. last IH.
  - parsing; [done_with; lia|]. apply is_tok_neq in Heqb0. pose proof (tr_lt _ _ _ _ T Heqb0). last IH.
Qed.

(** C5: parsing a statement ends: on every text, with fuel linear in its
    length, [ParseTree_Parse] gives a statement or an error; it neither panics
    (a failed type assertion, a nil statement) nor loops. *)
Theorem parse_total rs extra :
  match ParseTree_Parse ff rt (parse_fuel rs + extra) (NewParser rs) with
  | Ok _ _ | Fail _ => True
  | Panic | NoFuel => False
  end.
Proof.
  pose proof (ParseTree_Parse_post (parse_fuel rs + extra) (NewParser rs) rs) as H.
  destruct (ParseTree_Parse _ _ _ _); auto; apply H; try lia; (split; [apply reads_start|cbn; lia]).
Qed.

(** [ParseQueries] ends on every text that has a token; on a text without
    one it panics, for it dereferences the nil first statement. *)
Theorem ParseQueries_total rs extra :
  match ParseQueries ff rt (S (parse_fuel rs) + extra) (NewParser rs) with
  | Ok _ _ | Fail _ => fst (fst (next rs)) <> EOF
  | Panic => fst (fst (next rs)) = EOF
  | NoFuel => False
  end.
Proof.
  unfold ParseQueries, bind at 1, parse_fuel. set (f := (S _ + extra)%nat).
  assert (R : ready (NewParser rs) rs) by (split; [apply reads_start|cbn; lia]).
  pose proof (Parse_total ff rt f (NewParser rs) rs R ltac:(lia)) as H.
  destruct (scan_took _ _ R) as (p1 & E & _ & _).
  destruct (tok_eqb (fst (fst (next rs))) EOF) eqn:F.
  - assert (X : Parse ff rt f (NewParser rs) = Ok None p1) by (unfold Parse, bind; rewrite E; unfold is_tok; now rewrite F).
    rewrite X. now apply tok_eqb_eq.
  - apply tok_eqb_neq in F. destruct (Parse ff rt f (NewParser rs)) as [s q|e| |]; try (now destruct H).
    destruct H as (rs1 & R1 & L & N). destruct s as [x|]; [|now destruct (N F)].
    pose proof (queries_loop_total f q rs1 [x] R1 ltac:(lia)) as G.
    destruct (queries_loop ff rt f [x] q); auto; now destruct G.
Qed.
End Statements.

(** ** Behaviours of the parser *)

Definition built_ins : FuncFinder := mkFinder [] (fun _ => false).
Definition no_runtime : Runtime := fun _ => inl "not found".

Definition parse_text (t : string) : option (option Statement) :=
  match ParseTree_Parse built_ins no_runtime (parse_fuel (runes t)) (NewParser (runes t)) with Ok s _ => Some s | _ => None end.

Definition condition_of (t : string) : option expr :=
  match parse_text t with Some (Some (SelectStmt s)) => Condition s | _ => None end.

Definition accepted (t : string) : bool := match parse_text t with Some (Some _) => true | _ => false end.

(** A statement ended by a semicolon is not validated: an aggregate in WHERE is
    refused at the end of the text only. *)
Theorem semicolon_skips_validation :
  accepted "SELECT a FROM demo WHERE sum(a) > 1" = false /\ accepted "SELECT a FROM demo WHERE sum(a) > 1;" = true.
Proof. vm_compute. auto. Qed.

(** A comma before the closing parenthesis ends a call with the arguments so
    far, and what is validated is a call without arguments. *)
Theorem trailing_comma_skips_arguments :
  condition_of "SELECT a FROM demo WHERE rand(1,)" = Some (Call "rand" [IntegerLiteral 1])
  /\ accepted "SELECT a FROM demo WHERE rand(1)" = false.
Proof. vm_compute. auto. Qed.

(** A star as last argument ends the call without any validation. *)
Theorem star_skips_validation :
  condition_of "SELECT a FROM demo WHERE abs(1, 2, *)"
    = Some (Call "abs" [IntegerLiteral 1; IntegerLiteral 2; Wildcard ASTERISK]).
Proof. vm_compute. reflexivity. Qed.

(** Names that follow the source without AS are joined to it. *)
Theorem source_names_run_together :
  match parse_text "SELECT a FROM demo other" with Some (Some (SelectStmt s)) => Sources s | _ => [] end
    = [mkTable "demoother" ""].
Proof. vm_compute. reflexivity. Qed.

(** An integer that does not fit is read as the largest one, without an error. *)
Theorem integers_saturate :
  condition_of "SELECT a FROM demo WHERE 99999999999999999999" = Some (IntegerLiteral MaxInt64).
Proof. vm_compute. reflexivity. Qed.

(** The second argument of a count window is only bounded from above. *)
Theorem count_window_interval_zero :
  match parse_text "SELECT a FROM demo GROUP BY countwindow(5, 0)" with Some (Some (SelectStmt s)) => Dimensions s | _ => [] end
    = [Window COUNT_WINDOW 5 (Some 0) None].
Proof. vm_compute. reflexivity. Qed.

(** A condition in parentheses is not a boolean to CASE. *)
Theorem case_refuses_parentheses :
  accepted "SELECT CASE WHEN a > 1 THEN 2 END FROM demo" = true
  /\ accepted "SELECT CASE WHEN (a > 1) THEN 2 END FROM demo" = false.
Proof. vm_compute. auto. Qed.

(** An array type without its element type leaves a nil type. *)
Theorem array_without_type :
  let q := String (ascii_of_nat 34) EmptyString in
  match parse_text ("CREATE STREAM demo (a ARRAY foo, ) WITH (DATASOURCE=" ++ q ++ "x" ++ q ++ ")") with
  | Some (Some (CreateStmt s)) => ss_StreamFields s | _ => None end = Some [("a", NilType)].
Proof. vm_compute. reflexivity. Qed.

(** The wildcard argument of deduplicate is added for the lower-case name only. *)
Theorem deduplicate_needs_lower_case :
  let fields t := match parse_text t with Some (Some (SelectStmt s)) => map f_Expr (Fields s) | _ => [] end in
  fields "SELECT deduplicate(a, true) FROM demo"
    = [Call "deduplicate" [Wildcard ASTERISK; FieldRef DefaultStream "a" None; BooleanLiteral true]]
  /\ fields "SELECT DEDUPLICATE(a, true) FROM demo"
    = [Call "DEDUPLICATE" [FieldRef DefaultStream "a" None; BooleanLiteral true]].
Proof. vm_compute. auto. Qed.
