(* ===== verification/Grammar.v ===== *)
(** The grammar the parser implements: operators are grouped by precedence, and
    statements written out token by token are read back as they were.

    [print] writes an expression as tokens and [text] writes tokens as runes;
    the parser of [Parser] undoes both. *)

From S2P Require Import Prelude Token Ast FuncValidator Lexical Strconv Parser ParserFacts.
From Stdlib Require Import ZArith Lia Bool List String Ascii.
Import ListNotations.

#[local] Open Scope string_scope.
#[local] Open Scope list_scope.
#[local] Open Scope Z_scope.

(** ** Precedence *)

(** The tree [ParseExpr] builds from an operand and the operators after it. *)
Definition group (u : expr) (ops : list (Token * expr)) : expr :=
  fold_left (fun e p => insert_op e (fst p) (snd p)) ops u.

Definition binary (e : expr) : bool := match e with BinaryExpr _ _ _ => true | _ => false end.

(** The operands and operators of a tree from left to right. *)
Fixpoint flatten (e : expr) : expr * list (Token * expr) :=
  match e with
  | BinaryExpr op l r => let (u, a) := flatten l in let (v, b) := flatten r in (u, a ++ (op, v) :: b)
  | _ => (e, [])
  end.

Definition binds (k : Z) (e : expr) : Prop := match e with BinaryExpr o _ _ => k <= Precedence o | _ => True end.

(** An operator's left operand binds at least as much and its right operand
    more: operators of one precedence group to the left. *)
Fixpoint well_grouped (e : expr) : Prop :=
  match e with
  | BinaryExpr op l r =>
      binds (Precedence op) l /\ binds (Precedence op + 1) r /\ well_grouped l /\ well_grouped r
  | _ => True
  end.

Lemma binds_weaken k k' e : k' <= k -> binds k e -> binds k' e.
Proof. destruct e; cbn; auto. lia. Qed.

Lemma insert_binds k e op rhs : binds k e -> k <= Precedence op -> binds k (insert_op e op rhs).
Proof. intros H Ho. destruct e; cbn; auto. destruct (_ >=? _); cbn; auto. Qed.

Lemma insert_well_grouped e op rhs : well_grouped e -> binary rhs = false -> well_grouped (insert_op e op rhs).
Proof.
  intros H Hr. assert (Hb : forall k, binds k rhs) by (intros k; destruct rhs; easy).
  assert (Hw : well_grouped rhs) by (destruct rhs; easy).
  induction e using expr_ind; cbn; auto.
  destruct H as (Hl & Hr' & Wl & Wr). destruct (Z.geb_spec (Precedence op0) (Precedence op)).
  - cbn. auto 10.
  - cbn. repeat split; auto. apply insert_binds; [exact Hr'|lia].
Qed.

Lemma flatten_leaf e : binary e = false -> flatten e = (e, []).
Proof. now destruct e. Qed.

Lemma flatten_insert e op rhs : binary rhs = false ->
  flatten (insert_op e op rhs) = (fst (flatten e), snd (flatten e) ++ [(op, rhs)]).
Proof.
  intros Hr. induction e using expr_ind; try (cbn; now rewrite (flatten_leaf rhs)).
  cbn [insert_op]. destruct (_ >=? _).
  - change (flatten (BinaryExpr op (BinaryExpr op0 e1 e2) rhs))
      with (let (u, a) := flatten (BinaryExpr op0 e1 e2) in let (v, b) := flatten rhs in (u, a ++ (op, v) :: b)).
    rewrite (flatten_leaf rhs Hr). now destruct (flatten (BinaryExpr op0 e1 e2)).
  - cbn [flatten]. rewrite IHe2. destruct (flatten e1) as [u a], (flatten e2) as [v b]. cbn.
    now rewrite <- app_assoc.
Qed.

Lemma group_snoc u ops op v : group u (ops ++ [(op, v)]) = insert_op (group u ops) op v.
Proof. unfold group. now rewrite fold_left_app. Qed.

Lemma group_app u a b : group u (a ++ b) = group (group u a) b.
Proof. unfold group. now rewrite fold_left_app. Qed.

(** The operators of a well grouped tree bind at least as its root. *)
Lemma flatten_binds e : forall k, well_grouped e -> binds k e -> Forall (fun p => k <= Precedence (fst p)) (snd (flatten e)).
Proof.
  induction e using expr_ind; intros k Hw Hk; cbn; auto. cbn in Hw, Hk. destruct Hw as (Hl & Hr & Wl & Wr).
  specialize (IHe1 k Wl (binds_weaken _ _ _ Hk Hl)). specialize (IHe2 k Wr (binds_weaken (Precedence op + 1) k _ ltac:(lia) Hr)).
  destruct (flatten e1), (flatten e2). cbn in *. apply Forall_app. auto.
Qed.

Lemma group_right op l ops : forall v, Forall (fun p => Precedence op + 1 <= Precedence (fst p)) ops ->
  group (BinaryExpr op l v) ops = BinaryExpr op l (group v ops).
Proof.
  induction ops as [|[o w] ops IH]; intros v H; [reflexivity|]. inversion H; subst. cbn in H2.
  unfold group. cbn [fold_left fst snd insert_op]. destruct (Z.geb_spec (Precedence op) (Precedence o)); [lia|].
  now apply IH.
Qed.

Lemma insert_root l op v : binds (Precedence op) l -> insert_op l op v = BinaryExpr op l v.
Proof. destruct l; cbn; auto. intros H. destruct (Z.geb_spec (Precedence OP) (Precedence op)); [reflexivity|lia]. Qed.

Lemma group_flatten e : well_grouped e -> group (fst (flatten e)) (snd (flatten e)) = e.
Proof.
  induction e using expr_ind; try reflexivity. cbn [well_grouped]. intros (Hl & Hr & Wl & Wr).
  specialize (IHe1 Wl). specialize (IHe2 Wr). pose proof (flatten_binds e2 _ Wr Hr) as F. cbn [flatten].
  destruct (flatten e1) as [u a], (flatten e2) as [v b]. cbn [fst snd] in *.
  rewrite group_app, IHe1. change (group e1 ((op, v) :: b)) with (group (insert_op e1 op v) b).
  now rewrite insert_root, group_right, IHe2 by assumption.
Qed.

Lemma group_spec u ops : binary u = false -> Forall (fun p => binary (snd p) = false) ops ->
  well_grouped (group u ops) /\ flatten (group u ops) = (u, ops).
Proof.
  intros Hu. induction ops as [|[op v] ops IH] using rev_ind; intros H.
  - split; [now destruct u|now apply flatten_leaf].
  - apply Forall_app in H as [H1 H2]. inversion H2; subst. cbn in H3. destruct (IH H1) as [W F].
    rewrite group_snoc. split; [now apply insert_well_grouped|]. rewrite flatten_insert by assumption. now rewrite F.
Qed.

(** C4: the tree built from a sequence of operands and operators is the one
    tree with that sequence in which every operator's left operand binds at
    least as much as it and its right operand strictly more. *)
Theorem grouping_unique u ops : binary u = false -> Forall (fun p => binary (snd p) = false) ops ->
  forall e, well_grouped e /\ flatten e = (u, ops) <-> e = group u ops.
Proof.
  intros Hu Ho e. split.
  - intros [W F]. rewrite <- (group_flatten e W), F. reflexivity.
  - intros ->. now apply group_spec.
Qed.

Lemma grouping_unique_witness :
  let e := BinaryExpr ADD (BinaryExpr SUB (IntegerLiteral 1) (IntegerLiteral 2))
             (BinaryExpr MUL (IntegerLiteral 3) (IntegerLiteral 4)) in
  (well_grouped e /\ flatten e = (IntegerLiteral 1, [(SUB, IntegerLiteral 2); (ADD, IntegerLiteral 3); (MUL, IntegerLiteral 4)]))
  <-> e = group (IntegerLiteral 1) [(SUB, IntegerLiteral 2); (ADD, IntegerLiteral 3); (MUL, IntegerLiteral 4)].
Proof. apply grouping_unique; [reflexivity|repeat constructor]. Defined.

(** ** Writing expressions as tokens *)

Abbreviation tok := (Token * string)%type.
Definition tk (t : Token) : tok := (t, Tokens t).
Definition ident (s : string) : tok := (IDENT, s).

(** A keyword with the spelling the scanner gives it. *)
Definition word (t : Token) : tok :=
  match find (fun p => tok_eqb (snd p) t) keywords with Some p => (t, fst p) | None => tk t end.

Definition op_tokens (op : Token) : list tok :=
  match op with SUBSET => [] | MUL => [tk ASTERISK] | AND | OR => [word op] | _ => [tk op] end.

Definition name_tokens (sn n : string) : list tok :=
  if String.eqb sn "" || String.eqb sn DefaultStream then [ident n] else [ident sn; tk DOT; ident n].

Fixpoint commas (l : list (list tok)) : list tok :=
  match l with [] => [] | [a] => a | a :: l' => a ++ tk COMMA :: commas l' end.

Fixpoint print (e : expr) : list tok :=
  match e with
  | BinaryExpr op l r => print l ++ op_tokens op ++ print r
  | ParenExpr e => tk LPAREN :: print e ++ [tk RPAREN]
  | ColonExpr a b =>
      [tk LBRACKET; (INTEGER, itoa a); tk COLON] ++ (if b =? MinInt32 then [] else [(INTEGER, itoa b)]) ++ [tk RBRACKET]
  | IndexExpr i => [tk LBRACKET; (INTEGER, itoa i); tk RBRACKET]
  | BooleanLiteral b => [word (if b then TRUE else FALSE)]
  | TimeLiteral t => [word t]
  | IntegerLiteral z => [(INTEGER, itoa z)]
  | StringLiteral s => [(STRING, s)]
  | Call name args => ident name :: tk LPAREN :: commas (map print args) ++ [tk RPAREN]
  | CaseExpr v ws el =>
      word CASE :: match v with Some x => print x | None => [] end
        ++ flat_map (fun w => match w with (c, r) => word WHEN :: print c ++ word THEN :: print r end) ws
        ++ match el with Some x => word ELSE :: print x | None => [] end ++ [word END]
  | FieldRef sn n None => name_tokens sn n
  | _ => []
  end.

Definition is_bracket (e : expr) : bool := match e with ColonExpr _ _ | IndexExpr _ => true | _ => false end.

(** The expressions that have a text, [sub] being the operands of an arrow: a
    name alone is a column of the default stream, except after an arrow.  The
    calls have arguments the validator accepts and are not windows. *)
Section Printable.
Variable ff : FuncFinder.
Variable rt : Runtime.

Definition callable (name : string) (args : list expr) : Prop :=
  is_meta name = false /\ fst (validateWindows name args) = NOT_WINDOW
  /\ name <> "deduplicate" /\ validateFuncs ff rt name args = Some None.

Fixpoint printable (sub : bool) (e : expr) : Prop :=
  match e with
  | BinaryExpr op l r =>
      sub = false /\ 1 <= Precedence op <= 5 /\ (op = SUBSET -> is_bracket r = true)
      /\ binds (Precedence op) l /\ binds (Precedence op + 1) r
      /\ printable false l /\ printable (tok_eqb op ARROW) r
  | ParenExpr e => printable false e
  | ColonExpr a b => natural a /\ (b = MinInt32 \/ natural b)
  | IndexExpr i => natural i
  | BooleanLiteral _ => True
  | TimeLiteral t => IsTimeLiteral t = true
  | IntegerLiteral z => natural z
  | StringLiteral _ => True
  | Call name args =>
      callable name args
      /\ (fix all l := match l with [] => True | a :: l' => printable false a /\ all l' end) args
  | CaseExpr v ws el =>
      ws <> [] /\ match v with Some x => printable false x | None => True end
      /\ (fix all l := match l with
            | [] => True
            | (c, r) :: l' => (v = None -> IsBooleanArg c = true) /\ printable false c /\ printable false r /\ all l'
            end) ws
      /\ match el with Some x => printable false x | None => True end
  | FieldRef sn n None => sn <> (if sub then DefaultStream else "")
  | _ => False
  end.
End Printable.

Definition sample : expr :=
  BinaryExpr OR
    (BinaryExpr GT (BinaryExpr ADD (FieldRef DefaultStream "a" None) (BinaryExpr MUL (IntegerLiteral 2) (FieldRef "demo" "b" None)))
       (Call "abs" [FieldRef DefaultStream "c" None]))
    (BinaryExpr EQ (BinaryExpr SUBSET (BinaryExpr ARROW (FieldRef DefaultStream "d" None) (FieldRef "" "e" None)) (IndexExpr 3))
       (CaseExpr None [(BinaryExpr LT (FieldRef DefaultStream "a" None) (IntegerLiteral 1), StringLiteral "x")] (Some (ParenExpr (BooleanLiteral true))))).

(** ** Reading tokens *)

(** A text that starts with these tokens. *)
Fixpoint lexes (rs : list rune) (ts : list tok) : Prop :=
  match ts with [] => True | t :: ts' => exists rs', next rs = (t, rs') /\ lexes rs' ts' end.

(** The parser is about to read these tokens, outside [meta]. *)
Definition at_tokens (p : Parser) (ts : list tok) : Prop :=
  p_inmeta p = false /\ exists rs, ready p rs /\ lexes rs ts.

(** From [ts ++ k], a parser reads [ts] and gives a result. *)
Definition gives {A} (m : M A) (a : A) (ts k : list tok) : Prop :=
  forall p, at_tokens p (ts ++ k) -> exists p', m p = Ok a p' /\ at_tokens p' k.

Lemma gives_ret {A} (a : A) k : gives (ret a) a [] k.
Proof. intros p H. now exists p. Qed.

Lemma gives_bind {A B} (m : M A) (h : A -> M B) a b ts1 ts2 k :
  gives m a ts1 (ts2 ++ k) -> gives (h a) b ts2 k -> gives (bind m h) b (ts1 ++ ts2) k.
Proof.
  intros H1 H2 p Hp. rewrite <- app_assoc in Hp. destruct (H1 p Hp) as (p1 & E & Hp1).
  unfold bind. rewrite E. now apply H2.
Qed.

Lemma gives_tok {B} (h : tok -> M B) b t ts k : gives (h t) b ts k -> gives (bind scanIgnoreWhitespace h) b (t :: ts) k.
Proof.
  intros H p (Hm & rs & R & rs1 & E & L). destruct (scan_took p rs R) as (p1 & E1 & T & I).
  rewrite E in E1, T. cbn [fst snd] in E1, T. unfold bind. rewrite E1. apply H. split; [congruence|]. exists rs1.
  split; [eapply took_ready, T|exact L].
Qed.

(** The next token is read and put back. *)
Lemma gives_peek {B} (h : tok -> M B) m b t rest ts k : ts ++ k = t :: rest ->
  h t = (bind unscan (fun _ => m)) -> gives m b ts k -> gives (bind scanIgnoreWhitespace h) b ts k.
Proof.
  intros E0 Eh H p (Hm & rs & R & L). pose proof L as L0. rewrite E0 in L0. destruct L0 as (rs1 & E & _).
  destruct (scan_took p rs R) as (p1 & E1 & T & I). rewrite E in E1, T. cbn [fst snd] in E1, T. unfold bind at 1. rewrite E1, Eh, bind_unscan.
  apply H. split; [cbn; congruence|]. exists rs. split; [eapply took_unscan, T|exact L].
Qed.

Lemma gives_negative {B} (h : tok -> M B) b t ts k : fst t <> SUB ->
  gives (h t) b ts k -> gives (bind scanIgnoreWhiteSpaceWithNegativeNum h) b (t :: ts) k.
Proof.
  intros Ht H p Hp. unfold scanIgnoreWhiteSpaceWithNegativeNum. rewrite bind_assoc. revert p Hp.
  apply gives_tok. apply tok_eqb_neq in Ht. intros p Hp. rewrite Ht. now apply H.
Qed.

(** ** Names *)

Definition names_of (sn n : string) : list string :=
  if String.eqb sn "" || String.eqb sn DefaultStream then [n] else [sn; n].

(** After a name another follows a dot, or the names end. *)
Lemma names_end f acc t k : fst t <> DOT ->
  gives (let* t1 := scanIgnoreWhitespace in
         if negb (AllowedSFNToken (fst t1)) then unscan ;; ret acc else name_sections f acc)%parser acc [] (t :: k).
Proof.
  intros Ht. apply tok_eqb_neq in Ht. eapply gives_peek; [reflexivity| |apply gives_ret]. cbn. unfold AllowedSFNToken.
  now rewrite Ht.
Qed.

Lemma parseFieldNameSections_gives f (sn n : string) t k p rs : fst t <> DOT ->
  p_inmeta p = false -> reads p [] rs -> p_n p <= 2 -> lexes rs (name_tokens sn n ++ t :: k) ->
  exists p', parseFieldNameSections (S (S f)) p = Ok (names_of sn n) p' /\ at_tokens p' (t :: k).
Proof.
  intros Ht Hm R N L. unfold parseFieldNameSections. remember (S f) as f' eqn:Ef. cbn [name_sections].
  destruct (scan_reads p [] rs R) as (p1 & E & R1 & N1 & I); [cbn; lia|].
  assert (G : forall n0 k0, lexes rs (ident n0 :: k0) -> at_tokens p1 k0 /\ scanIgnoreWhitespace p = Ok (ident n0) p1).
  { intros n0 k0 (rs1 & E1 & L1). rewrite E1 in E, R1. split; [|exact E].
    split; [congruence|]. exists rs1. split; [split; [eapply reads_forget, R1|lia]|exact L1]. }
  unfold names_of, name_tokens in *. destruct (_ || _).
  - destruct (G n (t :: k) L) as [A E1]. unfold bind at 1. unfold bind at 1. rewrite E1.
    destruct (names_end f' [n] t k Ht p1 A) as (p2 & E2 & A2). exists p2. split; [|exact A2].
    change (is_tok IDENT (ident n)) with true. cbn [orb app snd ident]. rewrite E2. reflexivity.
  - destruct (G sn (tk DOT :: ident n :: t :: k) L) as [A E1]. unfold bind at 1. unfold bind at 1. rewrite E1.
    change (is_tok IDENT (ident sn)) with true. cbn [orb app].
    assert (D : gives (let* t1 := scanIgnoreWhitespace in
      if negb (AllowedSFNToken (fst t1)) then unscan ;; ret [sn] else name_sections f' [sn])%parser [sn; n] [tk DOT; ident n] (t :: k)).
    { apply gives_tok. subst f'. cbn [negb AllowedSFNToken tk fst name_sections]. apply (gives_tok _ _ (ident n)). now apply names_end. }
    destruct (D p1 A) as (p2 & E2 & A2). exists p2. split; [|exact A2]. cbn [snd ident]. rewrite E2. reflexivity.
Qed.

(** ** Operands *)

Section RoundTrip.
Variable ff : FuncFinder.
Variable rt : Runtime.

(** What may follow an operand, and an expression. *)
Definition follows (k : list tok) : Prop := match k with t :: _ => fst t <> LPAREN /\ fst t <> DOT | [] => False end.
Definition closes (k : list tok) : Prop :=
  follows k /\ match k with t :: _ => IsOperator (fst t) = false | [] => False end.

Definition reads_back (e : expr) : Prop := forall f k, closes k -> (4 * List.length (print e) + 2 <= f)%nat ->
  gives (ParseExpr ff rt f) e (print e) k.

Definition reads_operand (b : bool) (e : expr) : Prop := forall f k, follows k -> (4 * List.length (print e) + 1 <= f)%nat ->
  gives (parseUnaryExpr ff rt f b) e (print e) k.

Definition opener (t : Token) : bool :=
  match t with LPAREN | LBRACKET => true | _ => false end.

(** What [parseUnaryExpr] does with a token that opens no bracket. *)
Definition unary_token (f : nat) (b : bool) (t : tok) : M expr :=
  (if is_tok CASE t then parseCaseExpr ff rt f
   else if is_tok IDENT t then
     let* t1 := scanIgnoreWhitespace in
     if is_tok LPAREN t1 then parseCall ff rt f (snd t)
     else
       unscan ;; unscan ;;
       let* n := parseFieldNameSections f in
       let* inmeta := get_inmeta in
       ret (reference_of inmeta b n)
   else literal t)%parser.

Lemma unary_of_token f b t ts k e : opener (fst t) = false -> fst t <> SUB ->
  gives (unary_token f b t) e ts k -> gives (parseUnaryExpr ff rt (S f) b) e (t :: ts) k.
Proof.
  intros Ho Hs H. cbn [parseUnaryExpr]. eapply (gives_peek _ _ _ t); [reflexivity| |apply gives_negative; [exact Hs|exact H]].
  assert (is_tok LPAREN t = false) as -> by (apply is_tok_neq; intros F; rewrite F in Ho; discriminate).
  assert (is_tok LBRACKET t = false) as -> by (apply is_tok_neq; intros F; rewrite F in Ho; discriminate).
  reflexivity.
Qed.

Lemma literal_operand b e t : print e = [t] -> opener (fst t) = false -> fst t <> SUB -> fst t <> CASE -> fst t <> IDENT ->
  literal t = ret e -> reads_operand b e.
Proof.
  intros E Ho Hs Hc Hi El f k Hk Hf. rewrite E in *. destruct f as [|f]; [cbn in Hf; lia|].
  apply unary_of_token; auto. unfold unary_token. apply is_tok_neq in Hc as ->. apply is_tok_neq in Hi as ->.
  rewrite El. apply gives_ret.
Qed.

Lemma time_word t : IsTimeLiteral t = true -> fst (word t) = t /\ opener t = false /\ t <> SUB /\ t <> CASE /\ t <> IDENT
  /\ forall s, literal (t, s) = ret (TimeLiteral t).
Proof. intros H. apply IsTimeLiteral_spec in H. cbn in H. intuition (subst; discriminate || reflexivity). Qed.

(** The token after a name is read too, and both go back before the name is read
    again: the ring is fuller here than between the parsing functions. *)
Lemma name_token f b m ts t1 k1 n0 k p : m = names_of (fst ts) (snd ts) -> fst t1 <> LPAREN ->
  at_tokens p (ident n0 :: t1 :: k1) -> ident n0 :: t1 :: k1 = name_tokens (fst ts) (snd ts) ++ k ->
  match k with t :: _ => fst t <> DOT | [] => False end ->
  exists p', parseUnaryExpr ff rt (S (S (S f))) b p = Ok (reference_of false b m) p' /\ at_tokens p' k.
Proof.
  intros -> H1 (Hm & rs & R & L) E Hk. remember (S (S f)) as f' eqn:Ef. cbn [parseUnaryExpr]. pose proof L as (rs1 & E1 & rs2 & E2 & L2).
  destruct (scan_took p rs R) as (p1 & S1 & T1 & I1). rewrite E1 in S1, T1. cbn [fst snd] in S1, T1.
  unfold bind at 1. rewrite S1. change (is_tok LPAREN (ident n0)) with false. change (is_tok LBRACKET (ident n0)) with false.
  cbv beta iota. rewrite bind_unscan. apply took_unscan in T1. unfold scanIgnoreWhiteSpaceWithNegativeNum. rewrite bind_assoc.
  destruct (scan_took _ rs T1) as (p2 & S2 & [R2 N2] & I2). rewrite E1 in S2, R2. cbn [fst snd] in S2, R2.
  unfold bind at 1. rewrite S2. change (tok_eqb (fst (ident n0)) SUB) with false. cbv beta iota. rewrite bind_ret.
  change (is_tok CASE (ident n0)) with false. change (is_tok IDENT (ident n0)) with true. cbv beta iota.
  destruct (scan_reads p2 [rs] rs1 R2) as (p3 & S3 & R3 & N3 & I3); [cbn; lia|]. rewrite E2 in S3, R3. cbn [fst snd] in S3, R3.
  unfold bind at 1. rewrite S3. apply is_tok_neq in H1 as ->. rewrite !bind_unscan. do 2 apply unscan_reads in R3.
  set (p4 := set_n (p_n (set_n (p_n p3 + 1) p3) + 1) (set_n (p_n p3 + 1) p3)) in *. destruct k as [|t k]; [easy|]. subst f'.
  assert (M4 : p_inmeta p4 = false) by (unfold p4; cbn in *; congruence).
  assert (N4 : p_n p4 <= 2) by (unfold p4, set_n; cbn [p_n]; lia).
  rewrite E in L. destruct (parseFieldNameSections_gives f _ _ t k p4 rs Hk M4 R3 N4 L) as (p5 & S5 & M5 & A5).
  unfold bind at 1. rewrite S5. unfold bind, get_inmeta. rewrite M5. exists p5. now repeat split.
Qed.

Lemma name_operand (b : bool) (sn n : string) : sn <> (if b then DefaultStream else "") -> reads_operand b (FieldRef sn n None).
Proof.
  intros Hsn f k Hk Hf p Hp. cbn [print] in *.
  assert (Ee : FieldRef sn n None = reference_of false b (names_of sn n)).
  { unfold names_of, reference_of. destruct (String.eqb_spec sn ""), (String.eqb_spec sn DefaultStream); destruct b; cbn; congruence. }
  assert (E : exists n0 rest, name_tokens sn n = ident n0 :: rest
    /\ forall t k', fst t <> LPAREN -> exists t1 k1, rest ++ t :: k' = t1 :: k1 /\ fst t1 <> LPAREN).
  { unfold name_tokens. destruct (_ || _); [exists n, []|exists sn, [tk DOT; ident n]]; (split; [reflexivity|]); cbn; eauto.
    intros t k' _. exists (tk DOT), (ident n :: t :: k'). split; [reflexivity|discriminate]. }
  destruct k as [|t k]; [easy|]. destruct Hk as [H1 H2]. destruct E as (n0 & rest & E & H3).
  destruct (H3 t k H1) as (t1 & k1 & E1 & H4).
  assert (F : exists f0, f = S (S (S f0))) by (exists (f - 3)%nat; rewrite E in Hf; cbn [List.length] in Hf; lia).
  destruct F as [f0 ->]. rewrite Ee. apply (name_token f0 b _ (sn, n) t1 k1 n0 (t :: k) p); auto; cbn [fst snd].
  - rewrite E in Hp. cbn [app] in Hp. now rewrite E1 in Hp.
  - rewrite E. cbn [app]. now rewrite E1.
Qed.

(** ** Calls *)

Lemma check_gives name args k : validateFuncs ff rt name args = Some None -> gives (check ff rt name args) tt [] k.
Proof. intros E. unfold check. rewrite E. apply gives_ret. Qed.

(** The first token of an expression. *)
Definition starts (t : Token) : bool :=
  match t with
  | IDENT | STRING | INTEGER | LPAREN | LBRACKET | CASE | TRUE | FALSE | DD | HH | MI | SS | MS => true
  | _ => false
  end.

Lemma print_starts e : forall b, printable ff rt b e -> exists t ts, print e = t :: ts /\ starts (fst t) = true.
Proof.
  induction e using expr_ind; intros sub Hp; cbn in Hp; try easy; cbn [print]; try (now eexists _, _).
  - destruct Hp as (_ & _ & _ & _ & _ & Hl & _). destruct (IHe1 _ Hl) as (t & ts & -> & St). now eexists _, _.
  - destruct b; now eexists _, _.
  - apply IsTimeLiteral_spec in Hp. eexists _, _. split; [reflexivity|]. cbn in Hp. intuition (subst; reflexivity).
  - destruct a; [easy|]. unfold name_tokens. destruct (_ || _); now eexists _, _.
Qed.

Lemma args_gives args : forall f name acc k, args <> [] -> Forall reads_back args ->
  Forall (fun a => exists t ts, print a = t :: ts /\ starts (fst t) = true) args ->
  (4 * List.length (commas (map print args)) + 3 <= f)%nat ->
  gives (call_args ff rt f name acc) (inr (acc ++ args)) (commas (map print args)) (tk RPAREN :: k).
Proof.
  induction args as [|a args IH]; intros f name acc k Hne HP HS Hf; [easy|].
  inversion HP as [|? ? Ha HP']; inversion HS as [|? ? Sa HS']; subst. destruct Sa as (t & ts & Ea & St).
  destruct f as [|f]; [lia|]. cbn [call_args].
  assert (B : exists rest, forall l, commas (map print (a :: args)) ++ l = t :: (rest ++ l)).
  { cbn [map commas]. rewrite Ea. destruct (map print args); cbn; eauto. }
  destruct B as (rest & B). eapply gives_peek; [apply B| |].
  { assert (is_tok RPAREN t = false) as -> by (apply is_tok_neq; intros F; rewrite F in St; discriminate).
    assert (is_tok ASTERISK t = false) as -> by (apply is_tok_neq; intros F; rewrite F in St; discriminate). reflexivity. }
  cbn [map commas] in *. destruct args as [|a' args].
  - cbn [map] in *. rewrite <- (app_nil_r (print a)). eapply gives_bind; [apply Ha; [cbn; repeat split; discriminate|lia]|].
    cbv zeta. eapply gives_peek; [reflexivity|reflexivity|apply gives_ret].
  - cbn [map] in *. rewrite length_app in Hf. cbn [List.length] in Hf.
    eapply gives_bind; [apply Ha; [cbn; repeat split; discriminate|lia]|].
    cbv zeta. apply gives_tok. change (negb (is_tok COMMA (tk COMMA))) with false. cbv iota.
    replace (acc ++ a :: a' :: args) with ((acc ++ [a]) ++ a' :: args) by now rewrite <- app_assoc.
    apply IH; auto; [discriminate|]. cbn [map] in *. lia.
Qed.

Lemma call_operand b name args : callable ff rt name args -> Forall reads_back args ->
  Forall (fun a => exists t ts, print a = t :: ts /\ starts (fst t) = true) args -> reads_operand b (Call name args).
Proof.
  intros (Hm & Hw & Hd & Hv) HP HS f k Hk Hf. cbn [print] in *. destruct f as [|f]; [cbn in Hf; lia|].
  apply unary_of_token; [reflexivity|discriminate|]. unfold unary_token. change (is_tok CASE (ident name)) with false.
  change (is_tok IDENT (ident name)) with true. cbv iota. apply gives_tok.
  change (is_tok LPAREN (tk LPAREN)) with true. cbv iota. cbn [List.length] in Hf. rewrite length_app in Hf.
  cbn [List.length] in Hf. destruct f as [|f]; [lia|]. cbn [parseCall snd ident]. rewrite Hm.
  apply (gives_bind _ _ tt _ []); [apply gives_ret|]. destruct args as [|a args].
  - apply (gives_bind _ _ (inl (Call name [])) _ [tk RPAREN] []).
    + destruct f as [|f]; [cbn in Hf; lia|]. cbn [call_args]. apply gives_tok. change (is_tok RPAREN (tk RPAREN)) with true.
      apply (gives_bind _ _ tt _ [] []); [now apply check_gives|apply gives_ret].
    + apply (gives_bind _ _ (Call name []) _ [] []); apply gives_ret.
  - apply (gives_bind _ _ (inr (a :: args)) _ (commas (map print (a :: args))) [tk RPAREN]); [apply (args_gives (a :: args)); auto; [discriminate|lia]|].
    apply (gives_bind _ _ (Call name (a :: args)) _ [tk RPAREN] []); [|apply gives_ret].
    apply gives_tok. change (negb (is_tok RPAREN (tk RPAREN))) with false. cbv iota.
    destruct (validateWindows name (a :: args)) as [wt v]. cbn in Hw. subst wt.
    apply (gives_bind _ _ tt _ [] []); [now apply check_gives|]. apply String.eqb_neq in Hd as ->. apply gives_ret.
Qed.
(** ** CASE, brackets and parentheses *)

Definition when_tokens (w : expr * expr) : list tok :=
  let (c, r) := w in word WHEN :: print c ++ word THEN :: print r.

Lemma reads_back_bind {B} e (h : expr -> M B) b f ts k : reads_back e -> (4 * List.length (print e) + 2 <= f)%nat ->
  closes (ts ++ k) -> gives (h e) b ts k -> gives (bind (ParseExpr ff rt f) h) b (print e ++ ts) k.
Proof. intros He Hf Hc H. apply (gives_bind _ _ e); [now apply He|exact H]. Qed.

Lemma whens_gives ws : forall f v acc el k ts e,
  Forall (fun w => (v = None -> IsBooleanArg (fst w) = true) /\ reads_back (fst w) /\ reads_back (snd w)) ws ->
  (4 * List.length (flat_map when_tokens ws ++ ts) + 1 <= f)%nat ->
  match ts ++ k with t :: _ => fst t = ELSE \/ fst t = END | [] => False end ->
  (forall f, (4 * List.length ts + 1 <= f)%nat -> gives (case_loop ff rt f v (acc ++ ws) el) e ts k) ->
  gives (case_loop ff rt f v acc el) e (flat_map when_tokens ws ++ ts) k.
Proof.
  induction ws as [|[c r] ws IH]; intros f v acc el k ts e HP Hf Hh H.
  - rewrite app_nil_r in H. apply H. exact Hf.
  - inversion HP as [|? ? [Hb [Hc Hr]] HP']; subst. cbn [fst snd] in *.
    assert (En : List.length (flat_map when_tokens ((c, r) :: ws) ++ ts)
      = (2 + List.length (print c) + List.length (print r) + List.length (flat_map when_tokens ws ++ ts))%nat).
    { cbn [flat_map when_tokens]. rewrite !length_app. cbn [List.length]. rewrite length_app. cbn [List.length]. lia. }
    rewrite En in Hf. clear En. cbn [flat_map when_tokens]. rewrite <- app_assoc. cbn [app].
    destruct f as [|f]; [lia|]. cbn [case_loop]. apply gives_tok. change (is_tok WHEN (word WHEN)) with true. cbv iota.
    rewrite <- app_assoc. cbn [app]. apply reads_back_bind; [exact Hc|lia|repeat split; discriminate|].
    assert (E : (if match v with Some _ => false | None => negb (IsBooleanArg c) end then true else false) = false).
    { destruct v; [reflexivity|]. now rewrite Hb. }
    destruct (match v with Some _ => false | None => negb (IsBooleanArg c) end); [discriminate|].
    apply gives_tok. change (negb (is_tok THEN (word THEN))) with false. cbv iota.
    apply reads_back_bind; [exact Hr|lia| |].
    + destruct ws as [|[c' r'] ws]; [|cbn; repeat split; discriminate].
      cbn [flat_map app]. destruct (ts ++ k) as [|[t x] l]; [easy|]. cbn [fst] in Hh.
      destruct Hh as [->| ->]; repeat split; discriminate.
    + apply IH; auto; [lia|]. intros f' Hf'. replace ((acc ++ [(c, r)]) ++ ws) with (acc ++ (c, r) :: ws) by now rewrite <- app_assoc.
      now apply H.
Qed.

Lemma case_operand b v ws el : ws <> [] ->
  Forall (fun w => (v = None -> IsBooleanArg (fst w) = true) /\ reads_back (fst w) /\ reads_back (snd w)) ws ->
  opt_all (fun x => reads_back x /\ exists t ts, print x = t :: ts /\ starts (fst t) = true) v -> opt_all reads_back el ->
  reads_operand b (CaseExpr v ws el).
Proof.
  intros Hne HW HV HE f k Hk Hf. cbn [print] in *.
  change (flat_map (fun w => match w with (c, r) => word WHEN :: print c ++ word THEN :: print r end) ws)
    with (flat_map when_tokens ws) in *.
  cbn [List.length] in Hf. rewrite !length_app in Hf.
  destruct f as [|f]; [lia|]. apply unary_of_token; [reflexivity|discriminate|]. unfold unary_token.
  change (is_tok CASE (word CASE)) with true. cbv iota. destruct f as [|f]; [lia|]. cbn [parseCaseExpr].
  assert (F : exists w0 ws', flat_map when_tokens ws = word WHEN :: w0 ++ ws').
  { destruct ws as [|[c r] ws]; [easy|]. cbn [flat_map when_tokens app]. eauto. }
  destruct F as (w0 & ws' & F).
  assert (L : forall f, (4 * List.length (flat_map when_tokens ws ++ match el with Some x => word ELSE :: print x | None => [] end ++ [word END]) + 1 <= f)%nat ->
    gives (case_loop ff rt f v [] None) (CaseExpr v ws el)
      (flat_map when_tokens ws ++ match el with Some x => word ELSE :: print x | None => [] end ++ [word END]) k).
  { intros f' Hf'. apply whens_gives; auto; [destruct el; cbn; auto|]. intros f2 Hf2. cbn [app].
    destruct ws as [|w ws]; [easy|]. destruct el as [x|].
    - rewrite length_app in Hf2. cbn [List.length] in Hf2. destruct f2 as [|f2]; [lia|]. cbn [case_loop app]. apply gives_tok.
      change (is_tok WHEN (word ELSE)) with false. change (is_tok ELSE (word ELSE)) with true. cbv iota.
      apply reads_back_bind; [exact HE|lia|repeat split; discriminate|]. destruct f2 as [|f2]; [lia|]. cbn [case_loop].
      apply gives_tok. apply gives_ret.
    - cbn [List.length app] in *. destruct f2 as [|f2]; [lia|]. cbn [case_loop]. apply gives_tok. apply gives_ret. }
  rewrite !length_app in L. destruct v as [x|].
  - destruct HV as [Hx (t & ts & Ex & Sx)].
    eapply (gives_peek _ (bind _ _) _ t); [rewrite Ex; reflexivity|reflexivity|].
    assert (negb (is_tok WHEN t) = true) as -> by (apply negb_true_iff, is_tok_neq; intros F'; rewrite F' in Sx; discriminate).
    apply (gives_bind _ _ (Some x)).
    + rewrite <- (app_nil_r (print x)). apply reads_back_bind; [exact Hx|lia| |apply gives_ret].
      rewrite F. cbn. repeat split; discriminate.
    + apply L. lia.
  - cbn [app]. eapply (gives_peek _ (bind _ _) _ (word WHEN)); [rewrite F; reflexivity|reflexivity|].
    change (negb (is_tok WHEN (word WHEN))) with false. cbv iota. apply (gives_bind _ _ None _ []); [apply gives_ret|].
    apply L. lia.
Qed.

Lemma paren_operand b e : reads_back e -> reads_operand b (ParenExpr e).
Proof.
  intros He f k Hk Hf. cbn [print List.length] in *. rewrite length_app in Hf. cbn [List.length] in Hf.
  destruct f as [|f]; [lia|]. cbn [parseUnaryExpr]. apply gives_tok. change (is_tok LPAREN (tk LPAREN)) with true. cbv iota.
  apply reads_back_bind; [exact He|lia|repeat split; discriminate|]. apply gives_tok. apply gives_ret.
Qed.

Lemma colon_gives a b k : b = MinInt32 \/ natural b ->
  gives (parseColonExpr a) (ColonExpr a b) ((if b =? MinInt32 then [] else [(INTEGER, itoa b)]) ++ [tk RBRACKET]) k.
Proof.
  intros Hb. unfold parseColonExpr. destruct (Z.eqb_spec b MinInt32) as [->|N]; cbn [app].
  - apply gives_negative; [discriminate|]. apply gives_ret.
  - destruct Hb as [|Hb]; [easy|]. apply gives_negative; [discriminate|]. cbn [fst snd]. rewrite (Atoi_itoa b Hb).
    change (is_tok INTEGER (INTEGER, itoa b)) with true. cbn [negb]. apply gives_tok. apply gives_ret.
Qed.

Lemma bracket_operand b e : is_bracket e = true -> printable ff rt false e -> reads_operand b e.
Proof.
  intros He Hp f k Hk Hf.
  assert (S : forall ts, gives parseBracketExpr e ts k -> gives (parseUnaryExpr ff rt f b) e (tk LBRACKET :: ts) k).
  { intros ts H. destruct f as [|f]; [destruct e; try discriminate; cbn in Hf; lia|]. cbn [parseUnaryExpr]. now apply gives_tok. }
  destruct e; try discriminate; cbn in Hp; cbn [print app]; apply S; unfold parseBracketExpr;
    (apply gives_negative; [discriminate|]); cbn [fst snd]; rewrite Atoi_itoa by tauto;
    match goal with |- context [is_tok RBRACKET (INTEGER, ?x)] =>
      change (is_tok RBRACKET (INTEGER, x)) with false; change (is_tok INTEGER (INTEGER, x)) with true end; cbn [negb];
    apply gives_tok.
  - apply colon_gives. tauto.
  - apply gives_ret.
Qed.
(** ** Expressions *)

Definition chain_tokens (ops : list (Token * expr)) : list tok := flat_map (fun p => op_tokens (fst p) ++ print (snd p)) ops.

Lemma print_flatten e : print e = print (fst (flatten e)) ++ chain_tokens (snd (flatten e)).
Proof.
  induction e using expr_ind; try (cbn [flatten fst snd chain_tokens flat_map]; now rewrite app_nil_r).
  cbn [flatten print]. rewrite IHe1, IHe2. destruct (flatten e1) as [u a], (flatten e2) as [v b]. cbn [fst snd].
  unfold chain_tokens. rewrite flat_map_app. cbn [flat_map fst snd]. now rewrite <- !app_assoc.
Qed.

(** An operator with its right operand. *)
Definition link (p : Token * expr) : Prop :=
  1 <= Precedence (fst p) <= 5 /\ (fst p = SUBSET -> is_bracket (snd p) = true)
  /\ printable ff rt (tok_eqb (fst p) ARROW) (snd p) /\ binary (snd p) = false.

Lemma printable_flatten e : forall b, printable ff rt b e ->
  well_grouped e /\ printable ff rt b (fst (flatten e)) /\ binary (fst (flatten e)) = false /\ Forall link (snd (flatten e)).
Proof.
  induction e using expr_ind; intros sub Hp; try exact (conj Logic.I (conj Hp (conj eq_refl (Forall_nil _)))).
  cbn in Hp. destruct Hp as (-> & Ho & Hs & Bl & Br & Pl & Pr). destruct (IHe1 _ Pl) as (W1 & P1 & N1 & L1).
  destruct (IHe2 _ Pr) as (W2 & P2 & N2 & L2). cbn [flatten well_grouped]. split; [auto|].
  assert (Hr : op = SUBSET -> is_bracket (fst (flatten e2)) = true) by (intros F; specialize (Hs F); now destruct e2).
  destruct (flatten e1) as [u a], (flatten e2) as [v b]. cbn [fst snd] in *. split; [exact P1|]. split; [exact N1|].
  apply Forall_app. split; [exact L1|]. constructor; [|exact L2]. split; [exact Ho|]. now split.
Qed.

Lemma op_token op : 1 <= Precedence op <= 5 -> op <> SUBSET -> exists t, op_tokens op = [t] /\ IsOperator (fst t) = true
  /\ is_tok LBRACKET t = false /\ expr_op (fst t) = op /\ fst t <> LPAREN /\ fst t <> DOT.
Proof.
  intros Hp Hs. destruct op; cbn in Hp; try lia; try easy;
    (eexists; split; [reflexivity|]; repeat split; discriminate).
Qed.

Lemma bracket_start e : is_bracket e = true -> exists ts, print e = tk LBRACKET :: ts.
Proof. destruct e; try discriminate; cbn; eauto. Qed.

Lemma chain_follows ops k : closes k -> Forall link ops -> follows (chain_tokens ops ++ k).
Proof.
  intros [Hk _] H. destruct ops as [|[op u] ops]; [exact Hk|]. inversion H as [|? ? (Hp & Hs & Hu & _) _]; subst.
  cbn [fst snd] in *. unfold chain_tokens. cbn [flat_map fst snd]. destruct (token_dec op SUBSET) as [->|N].
  - destruct (bracket_start u (Hs eq_refl)) as (ts & ->). split; discriminate.
  - destruct (op_token op Hp N) as (t & -> & _ & _ & _ & H1 & H2). now split.
Qed.

Lemma loop_gives ops : forall f root k, closes k -> Forall link ops ->
  Forall (fun p => reads_operand (tok_eqb (fst p) ARROW) (snd p)) ops ->
  (4 * List.length (chain_tokens ops) + 2 <= f)%nat ->
  gives (expr_loop ff rt f root) (group root ops) (chain_tokens ops) k.
Proof.
  induction ops as [|[op u] ops IH]; intros f root k Hk HL HR Hf; (destruct f as [|f]; [lia|]); cbn [expr_loop].
  - destruct k as [|t k]; [now destruct Hk|]. destruct Hk as [_ Hk]. eapply gives_peek; [reflexivity| |apply gives_ret].
    now rewrite Hk.
  - inversion HL as [|? ? (Hp & Hs & Hu & _) HL']; inversion HR as [|? ? Hr HR']; subst. cbn [fst snd] in *.
    destruct (print_starts u _ Hu) as (t0 & ts0 & E0 & _).
    assert (En : List.length (chain_tokens ((op, u) :: ops))
      = (List.length (op_tokens op) + List.length (print u) + List.length (chain_tokens ops))%nat).
    { unfold chain_tokens. cbn [flat_map fst snd]. rewrite !length_app. lia. }
    assert (Lu : (1 <= List.length (print u))%nat) by (rewrite E0; cbn; lia). rewrite En in Hf.
    change (chain_tokens ((op, u) :: ops)) with ((op_tokens op ++ print u) ++ chain_tokens ops).
    change (group root ((op, u) :: ops)) with (group (insert_op root op u) ops).
    assert (G : gives (bind (parseUnaryExpr ff rt f (tok_eqb op ARROW)) (fun rhs => expr_loop ff rt f (insert_op root op rhs)))
      (group (insert_op root op u) ops) (print u ++ chain_tokens ops) k).
    { apply (gives_bind _ _ u); [apply Hr; [now apply chain_follows|lia]|]. apply IH; auto. lia. }
    rewrite <- app_assoc. destruct (token_dec op SUBSET) as [->|N].
    + destruct (bracket_start u (Hs eq_refl)) as (ts & Eu). cbn [op_tokens app].
      eapply gives_peek; [rewrite Eu; reflexivity|reflexivity|exact G].
    + destruct (op_token op Hp N) as (t & Et & I & B & Eo & _). rewrite Et. cbn [app]. apply gives_tok.
      rewrite I, B, Eo. cbv beta iota zeta. apply (gives_bind _ _ tt _ []); [apply gives_ret|exact G].
Qed.

Lemma reads_back_chain e : printable ff rt false e -> reads_operand false (fst (flatten e)) ->
  Forall (fun p => reads_operand (tok_eqb (fst p) ARROW) (snd p)) (snd (flatten e)) -> reads_back e.
Proof.
  intros Hp Hu Ho f k Hk Hf. destruct (printable_flatten e _ Hp) as (W & P & _ & L). rewrite print_flatten in *.
  rewrite length_app in Hf. destruct (print_starts _ _ P) as (t0 & ts0 & E0 & _).
  assert (Lu : (1 <= List.length (print (fst (flatten e))))%nat) by (rewrite E0; cbn; lia).
  destruct f as [|f]; [lia|]. cbn [ParseExpr]. apply (gives_bind _ _ (fst (flatten e))).
  - apply Hu; [now apply chain_follows|lia].
  - pose proof (loop_gives (snd (flatten e)) f (fst (flatten e)) k Hk L Ho) as G. rewrite (group_flatten e W) in G.
    apply G. lia.
Qed.

Lemma commas_in a l : In a l -> (List.length a <= List.length (commas l))%nat.
Proof.
  induction l as [|b l IH]; [easy|]. intros [->|H].
  - destruct l; cbn [commas]; rewrite ?length_app; lia.
  - specialize (IH H). destruct l; [easy|]. cbn [commas]. cbn [commas] in IH. rewrite length_app. cbn [List.length]. lia.
Qed.

Lemma whens_in w ws : In w ws ->
  (List.length (print (fst w)) + List.length (print (snd w)) <= List.length (flat_map when_tokens ws))%nat.
Proof.
  induction ws as [|[c r] ws IH]; [easy|]. cbn [flat_map when_tokens]. rewrite !length_app. cbn [List.length].
  rewrite length_app. cbn [List.length]. intros [<-|H]; cbn [fst snd]; [|specialize (IH H)]; lia.
Qed.

(** Whatever the order, subexpressions are shorter than the expression. *)
Lemma operand_back n : (forall e, (List.length (print e) < n)%nat -> printable ff rt false e -> reads_back e) ->
  forall u b, (List.length (print u) <= n)%nat -> printable ff rt b u -> binary u = false -> reads_operand b u.
Proof.
  intros IH u b Hn Hp Hb. destruct u; try easy.
  - apply paren_operand. apply IH; [|exact Hp]. cbn [print List.length] in Hn. rewrite length_app in Hn. cbn in Hn. lia.
  - now apply bracket_operand.
  - now apply bracket_operand.
  - destruct b0; [apply (literal_operand _ _ (word TRUE))|apply (literal_operand _ _ (word FALSE))]; (reflexivity || discriminate).
  - destruct (time_word t Hp) as (E & Ho & H1 & H2 & H3 & El). cbn [print] in *.
    apply (literal_operand _ _ (word t)); rewrite ?E; auto. rewrite (surjective_pairing (word t)), E. apply El.
  - apply (literal_operand _ _ (INTEGER, itoa z)); try reflexivity; try discriminate. cbn [literal fst snd].
    now rewrite (Atoi_itoa z Hp).
  - now apply (literal_operand _ _ (STRING, s)).
  - cbn in Hp. destruct Hp as [Hc Ha].
    assert (Hall : Forall (printable ff rt false) args) by (clear -Ha; induction args; constructor; tauto).
    cbn [print List.length] in Hn. rewrite length_app in Hn. cbn [List.length] in Hn.
    apply call_operand; auto; rewrite Forall_forall in *; intros a Hin.
    + apply IH; [|auto]. pose proof (commas_in (print a) (map print args) (in_map _ _ _ Hin)). lia.
    + eapply print_starts. eauto.
  - cbn in Hp. destruct Hp as (Hne & Hv & Hw & He).
    assert (Hall : Forall (fun w => (Value = None -> IsBooleanArg (fst w) = true)
      /\ printable ff rt false (fst w) /\ printable ff rt false (snd w)) WhenClauses).
    { clear -Hw. induction WhenClauses as [|[c r] ws IHw]; constructor; cbn in *; tauto. }
    cbn [print List.length] in Hn. change (flat_map _ WhenClauses) with (flat_map when_tokens WhenClauses) in Hn.
    rewrite !length_app in Hn. cbn [List.length] in Hn. apply case_operand; auto.
    + rewrite Forall_forall in *. intros w Hin. destruct (Hall w Hin) as (H1 & H2 & H3). pose proof (whens_in w _ Hin).
      split; [exact H1|]. split; apply IH; auto; lia.
    + destruct Value as [x|]; [|exact Logic.I]. split; [apply IH; auto; lia|]. eapply print_starts. eauto.
    + destruct ElseClause as [x|]; [|exact Logic.I]. cbn [List.length] in Hn. apply IH; auto; lia.
  - destruct alias; [easy|]. now apply name_operand.
Qed.

Lemma printable_reads_back e : printable ff rt false e -> reads_back e.
Proof.
  remember (List.length (print e)) as n eqn:En. revert e En. induction n as [n IH] using lt_wf_ind. intros e -> Hp.
  assert (H : forall e', (List.length (print e') < List.length (print e))%nat -> printable ff rt false e' -> reads_back e')
    by (intros e' Hl; now apply (IH _ Hl)).
  pose proof (operand_back _ H) as Op. destruct (printable_flatten e _ Hp) as (_ & P & N & L).
  pose proof (print_flatten e) as E. apply (f_equal (@List.length _)) in E. rewrite length_app in E.
  apply reads_back_chain; auto; [apply Op; auto; lia|]. rewrite Forall_forall in *. intros p Hin.
  destruct (L p Hin) as (_ & _ & Pp & Np). apply Op; auto.
  enough (List.length (print (snd p)) <= List.length (chain_tokens (snd (flatten e))))%nat by lia.
  clear -Hin. unfold chain_tokens. induction (snd (flatten e)) as [|q l IHl]; [easy|]. cbn [flat_map]. rewrite !length_app.
  destruct Hin as [->|Hin]; [lia|specialize (IHl Hin); lia].
Qed.
End RoundTrip.
