(* ===== verification/Roundtrip.v ===== *)
(** SELECT statements survive a round trip: written out as text, they are
    scanned and parsed back to the statement they were.

    A text is its tokens, each after a space, names in back quotes and strings
    between double quotes. *)

From S2P Require Import Prelude Token Ast FuncValidator Lexical Strconv Parser ParserFacts Grammar.
From Stdlib Require Import ZArith Lia Bool List String Ascii.
Import ListNotations.

#[local] Open Scope string_scope.
#[local] Open Scope list_scope.
#[local] Open Scope Z_scope.

(** ** The text of tokens *)

Definition spell (t : tok) : list rune :=
  match fst t with
  | IDENT => chr "`" :: runes (snd t) ++ [chr "`"]
  | STRING => quote (runes (snd t))
  | _ => runes (snd t)
  end.

Definition text (ts : list tok) : list rune := flat_map (fun t => 32 :: spell t) ts.

Definition symbols : list Token :=
  [ADD; SUB; DIV; MOD; BITWISE_AND; BITWISE_OR; BITWISE_XOR; ASTERISK; EQ; NEQ; LT; LTE; GT; GTE; ARROW;
   COMMA; LPAREN; RPAREN; LBRACKET; RBRACKET; COLON; DOT].

Definition words : list Token :=
  [SELECT; AS; FROM; WHERE; AND; OR; GROUP; HAVING; ORDER; BY; DESC; ASC; INNER; LEFT; RIGHT; FULL; CROSS; JOIN; ON;
   CASE; WHEN; THEN; ELSE; END; TRUE; FALSE; DD; HH; MI; SS; MS].

(** The operators whose spelling could go on after white space. *)
Definition sticky (t : Token) : bool := match t with SUB | DIV | LT | GT => true | _ => false end.

Definition ascii7 (c : ascii) : bool := (0 <? chr c) && (chr c <? 128).

Fixpoint all_chars (f : ascii -> bool) (s : string) : bool :=
  match s with EmptyString => true | String c s' => f c && all_chars f s' end.

(** Names and strings that can be written: ASCII, without NUL, and without back
    quotes in names. *)
Definition spellable (t : tok) : Prop :=
  match fst t with
  | IDENT => all_chars (fun c => ascii7 c && negb (isBackquote (chr c))) (snd t) = true
  | STRING => all_chars ascii7 (snd t) = true
  | _ => True
  end.

(** The tokens that are written. *)
Definition written (t : tok) : Prop :=
  match fst t with
  | IDENT | STRING => True
  | INTEGER => exists z, natural z /\ snd t = itoa z
  | k => (In k symbols /\ snd t = Tokens k) \/ (In k words /\ t = word k)
  end.

(** After a sticky operator comes an operand. *)
Fixpoint glued (ts : list tok) : Prop :=
  match ts with
  | [] => True
  | t :: ts' => match ts' with [] => sticky (fst t) = false | t' :: _ => sticky (fst t) = true -> starts (fst t') = true end
      /\ glued ts'
  end.

(** ** Scanning a written token *)

Definition no_space (rs : list rune) : Prop :=
  match rs with [] => True | r :: _ => isWhiteSpace r = false /\ r <> eof end.

Lemma next_space rs : no_space rs -> next (32 :: rs) = next rs.
Proof.
  intros H. rewrite (next_step (32 :: rs)). unfold Scan. cbn [read rest]. change (isWhiteSpace 32) with true. cbv iota.
  unfold ScanWhiteSpace, loop. cbn [rest]. destruct rs as [|r rs].
  - reflexivity.
  - destruct H as [H1 H2]. cbn [read_loop]. unfold whitespace_body. apply Z.eqb_neq in H2 as ->. rewrite H1. reflexivity.
Qed.

Lemma encode_runes s : all_chars ascii7 s = true -> encode (runes s) = s.
Proof.
  induction s as [|c s IH]; cbn [all_chars runes encode]; [reflexivity|]. intros H. apply andb_prop in H as [Hc Hs].
  rewrite (IH Hs). unfold ascii7 in Hc. apply andb_prop in Hc as [H1 H2]. apply Z.ltb_lt in H1, H2.
  assert (E : utf8 (chr c) = String c ""); [|now rewrite E].
  unfold utf8. destruct (Z.ltb_spec (chr c) 0); [lia|]. destruct (Z.ltb_spec (chr c) 128); [|lia].
  unfold byte_chr, chr. rewrite N2Z.id. now rewrite ascii_N_embedding.
Qed.

Lemma all_chars_impl (f g : ascii -> bool) s : (forall c, f c = true -> g c = true) -> all_chars f s = true -> all_chars g s = true.
Proof.
  intros H. induction s as [|c s IH]; cbn; [reflexivity|]. intros E. apply andb_prop in E as [E1 E2].
  now rewrite (H c E1), (IH E2).
Qed.

Lemma in_runes s f r : all_chars f s = true -> In r (runes s) -> exists c, r = chr c /\ f c = true.
Proof.
  induction s as [|c s IH]; cbn [all_chars runes]; [easy|]. intros E. apply andb_prop in E as [E1 E2]. intros [<-|H]; eauto.
Qed.

Lemma scan_ident s tl : spellable (ident s) -> next (spell (ident s) ++ tl) = (ident s, tl).
Proof.
  intros H. unfold spellable in H. cbn [ident fst snd] in H. unfold spell, ident. cbn [fst snd]. rewrite next_step.
  change ((chr "`" :: runes s ++ [chr "`"]) ++ tl) with (chr "`" :: (runes s ++ [chr "`"]) ++ tl). rewrite <- app_assoc.
  cbn [app]. rewrite backquote_roundtrip.
  - cbn [fst blank]. rewrite encode_runes; [reflexivity|]. revert H. apply all_chars_impl. intros c Hc.
    now apply andb_prop in Hc as [Hc _].
  - intros r Hr. destruct (in_runes _ _ _ H Hr) as (c & -> & Hc). apply andb_prop in Hc as [H1 H2].
    unfold ascii7 in H1. apply andb_prop in H1 as [H1 _]. apply Z.ltb_lt in H1. apply negb_true_iff in H2.
    unfold isBackquote in H2. apply Z.eqb_neq in H2. split; [exact H2|unfold eof; lia].
Qed.

Lemma scan_string s tl : spellable (STRING, s) -> next (spell (STRING, s) ++ tl) = ((STRING, s), tl).
Proof.
  intros H. unfold spellable in H. cbn [fst snd] in H. unfold spell. cbn [fst snd]. rewrite next_step.
  rewrite string_roundtrip.
  - cbn [fst blank]. now rewrite encode_runes.
  - intros r Hr. destruct (in_runes _ _ _ H Hr) as (c & -> & Hc). unfold ascii7 in Hc. apply andb_prop in Hc as [Hc _].
    apply Z.ltb_lt in Hc. unfold eof. lia.
Qed.

(** What follows a written token: the end, or a space. *)
Definition spaced (tl : list rune) : Prop := match tl with [] => True | r :: _ => r = 32 end.

Lemma text_spaced ts : spaced (text ts).
Proof. now destruct ts. Qed.

Lemma digits_loop s tl : forall buf, all_digits s = true -> spaced tl ->
  read_loop number_body (runes s ++ tl) (buf, false) = (((buf ++ s)%string, false), mkScanner tl None).
Proof.
  induction s as [|c s IH]; intros buf Hs Ht; cbn [runes app].
  - rewrite append_nil_r. destruct tl as [|r tl]; [reflexivity|]. cbn in Ht. subst r. reflexivity.
  - cbn [all_digits] in Hs. apply andb_prop in Hs as [Hc Hs]. cbn [read_loop]. unfold number_body at 1. rewrite Hc.
    rewrite IH by assumption. rewrite sapp_assoc. do 3 f_equal. cbn [String.append]. f_equal.
    assert (A : all_chars ascii7 (String c "") = true).
    { cbn [all_chars]. unfold isDigit in Hc. apply andb_prop in Hc as [H1 H2]. apply Z.leb_le in H1, H2.
      change (chr "0") with 48 in H1. change (chr "9") with 57 in H2. unfold ascii7. rewrite andb_true_r.
      apply andb_true_intro. split; apply Z.ltb_lt; lia. }
    apply encode_runes in A. cbn [runes encode] in A. rewrite append_nil_r in A. now rewrite A.
Qed.

Lemma digit_class r : isDigit r = true -> isWhiteSpace r = false /\ isLetter r = false /\ isQuotation r = false.
Proof.
  unfold isDigit, isWhiteSpace, isLetter, isQuotation. change (chr "0") with 48. change (chr "9") with 57.
  change (chr "a") with 97. change (chr "z") with 122. change (chr "A") with 65. change (chr "Z") with 90. lia.
Qed.

Lemma scan_integer s tl : all_digits s = true -> s <> "" -> spaced tl ->
  next (runes s ++ tl) = ((INTEGER, s), tl).
Proof.
  intros H Hne Ht. destruct s as [|c s]; [easy|]. cbn [runes app]. rewrite next_step. unfold Scan. cbn [read rest].
  pose proof H as H0. cbn [all_digits] in H0. apply andb_prop in H0 as [Hc Hs].
  destruct (digit_class _ Hc) as (-> & -> & ->). rewrite Hc. unfold ScanNumber, unread. cbn [Lexical.last rest read].
  unfold loop. cbn [rest]. rewrite digits_loop by assumption. cbn [orb fst].
  pose proof (digits_loop (String c "") [] "" ltac:(cbn [all_digits]; now rewrite Hc) Logic.I) as E.
  cbn [runes app read_loop] in E. unfold number_body in E at 1. rewrite Hc in E. cbn in E.
  injection E as E. cbn [String.append]. rewrite E. reflexivity.
Qed.

(** The word that a keyword is, checked by computation over all of them. *)
Definition word_ok (k : Token) : bool :=
  let w := snd (word k) in
  match w with
  | EmptyString => false
  | String c s =>
      isLetter (chr c) && all_chars (fun c => ident_char (chr c)) s && all_chars ascii7 w && String.eqb (to_upper w) w
      && match lookup_keyword w keywords with Some k' => tok_eqb k' k | None => false end
      && tok_eqb (fst (word k)) k && negb (blank k)
  end.

Lemma words_ok : forallb word_ok words = true.
Proof. vm_compute. reflexivity. Qed.

Lemma scan_keyword k tl : In k words -> spaced tl -> next (runes (snd (word k)) ++ tl) = (word k, tl).
Proof.
  intros Hk Ht. pose proof words_ok as H. rewrite forallb_forall in H. specialize (H k Hk). unfold word_ok in H.
  destruct (word k) as [k' w]. cbn [fst snd] in *. destruct w as [|c s]; [discriminate|].
  repeat (apply andb_prop in H as [H ?]). rename H0 into Hb, H1 into Hf, H2 into Hl, H3 into Hu, H4 into Ha, H5 into Hi, H into Hc.
  apply tok_eqb_eq in Hf. subst k'. apply String.eqb_eq in Hu. apply negb_true_iff in Hb.
  rewrite next_step. cbn [runes app]. change (chr c :: runes s ++ tl) with ((chr c :: runes s) ++ tl). rewrite scan_word.
  - change (encode (chr c :: runes s)) with (encode (runes (String c s))). rewrite (encode_runes _ Ha), Hu.
    destruct (lookup_keyword _ _) as [k'|]; [|discriminate]. apply tok_eqb_eq in Hl. subst k'. cbn [fst]. now rewrite Hb.
  - exact Hc.
  - intros r Hr. destruct (in_runes _ _ _ Hi Hr) as (c' & -> & E). exact E.
  - destruct tl as [|r tl]; [exact Logic.I|]. cbn in Ht. subst r. split; [reflexivity|discriminate].
Qed.

(** The rune an operand starts with goes on no operator. *)
Definition calm (r : rune) : Prop :=
  isWhiteSpace r = false /\ r <> eof /\ r <> chr "-" /\ r <> chr ">" /\ r <> chr "." /\ r <> chr "=" /\ r <> chr "*".

Lemma letter_calm r : isLetter r = true -> calm r.
Proof.
  intros H. unfold calm. split; [now apply letter_not_space|]. unfold isLetter, eof in *.
  change (chr "a") with 97 in H. change (chr "z") with 122 in H. change (chr "A") with 65 in H. change (chr "Z") with 90 in H.
  change (chr "-") with 45. change (chr ">") with 62. change (chr ".") with 46. change (chr "=") with 61. change (chr "*") with 42.
  lia.
Qed.

Lemma digit_calm r : isDigit r = true -> calm r.
Proof.
  intros H. unfold calm. split; [now apply digit_class|]. unfold isDigit, eof in *.
  change (chr "0") with 48 in H. change (chr "9") with 57 in H.
  change (chr "-") with 45. change (chr ">") with 62. change (chr ".") with 46. change (chr "=") with 61. change (chr "*") with 42.
  lia.
Qed.

Lemma word_start k : In k words -> exists r rs, runes (snd (word k)) = r :: rs /\ isLetter r = true.
Proof.
  intros Hk. pose proof words_ok as H. rewrite forallb_forall in H. specialize (H k Hk). unfold word_ok in H.
  destruct (snd (word k)) as [|c s]; [discriminate|]. repeat (apply andb_prop in H as [H ?]). cbn [runes]. eauto.
Qed.

Lemma start_calm t : written t -> starts (fst t) = true -> exists r rs, spell t = r :: rs /\ calm r.
Proof.
  destruct t as [k s]. unfold written, spell. cbn [fst snd]. intros W St. destruct k; try discriminate;
    try (destruct W as [[W _]|[W E]]; [cbn in W; intuition discriminate|apply (f_equal snd) in E; cbn [snd] in E; subst s;
         destruct (word_start _ W) as (r & rs & -> & L); exists r, rs; split; [reflexivity|now apply letter_calm]]).
  - eexists _, _. split; [reflexivity|]. repeat split; discriminate.
  - destruct W as (z & Hz & ->). destruct (itoa_spec z Hz) as (A & _ & N). destruct (itoa z) as [|c s']; [easy|].
    cbn [all_digits] in A. apply andb_prop in A as [A _]. cbn [runes]. eexists _, _. split; [reflexivity|now apply digit_calm].
  - eexists _, _. split; [reflexivity|]. repeat split; discriminate.
  - destruct W as [[_ ->]|[W _]]; [|cbn in W; intuition discriminate]. eexists _, _. split; [reflexivity|]. repeat split; discriminate.
  - destruct W as [[_ ->]|[W _]]; [|cbn in W; intuition discriminate]. eexists _, _. split; [reflexivity|]. repeat split; discriminate.
Qed.

Lemma scan_symbol k tl : In k symbols -> sticky k = false -> spaced tl -> next (runes (Tokens k) ++ tl) = (tk k, tl).
Proof.
  intros Hk Hs Ht. rewrite next_step. cbn in Hk.
  repeat (destruct Hk as [<-|Hk]; [first [discriminate Hs | reflexivity | idtac]|]); [|easy].
  destruct tl as [|r tl]; [reflexivity|]. cbn in Ht. now subst r.
Qed.

Lemma skip_space r tl : calm r -> ScanWhiteSpace (mkScanner (32 :: r :: tl) (Some 32)) = ((WS, " "), mkScanner (r :: tl) None)
  /\ forall l, ScanWhiteSpace (mkScanner (32 :: r :: tl) l) = ((WS, " "), mkScanner (r :: tl) None).
Proof.
  intros (H1 & H2 & _). assert (G : forall l, ScanWhiteSpace (mkScanner (32 :: r :: tl) l) = ((WS, " "), mkScanner (r :: tl) None)).
  { intros l. unfold ScanWhiteSpace, loop. cbn [rest read_loop]. unfold whitespace_body at 1. cbn -[read_loop].
    cbn [read_loop]. unfold whitespace_body. apply Z.eqb_neq in H2 as ->. rewrite H1. reflexivity. }
  split; [apply G|exact G].
Qed.

(** A sticky operator takes the space after it. *)
Lemma scan_sticky k r tl : sticky k = true -> calm r -> next (runes (Tokens k) ++ 32 :: r :: tl) = (tk k, r :: tl).
Proof.
  intros Hk Hr. pose proof (skip_space r tl Hr) as [_ G]. destruct Hr as (_ & _ & H1 & H2 & H3 & H4 & H5).
  apply Z.eqb_neq in H1, H2, H3, H4, H5. rewrite next_step.
  destruct k; try discriminate; cbn [Tokens runes app].
  - change (Scan (mkScanner (chr "-" :: 32 :: r :: tl) None)) with (scan_minus (mkScanner (32 :: r :: tl) (Some (chr "-")))).
    unfold scan_minus. rewrite G. cbn [read rest]. now rewrite H1, H2, H3.
  - change (Scan (mkScanner (chr "/" :: 32 :: r :: tl) None)) with (scan_slash (mkScanner (32 :: r :: tl) (Some (chr "/")))).
    unfold scan_slash. rewrite G. cbn [read rest]. now rewrite H5.
  - change (Scan (mkScanner (chr "<" :: 32 :: r :: tl) None)) with (scan_with_eq LTE LT (mkScanner (32 :: r :: tl) (Some (chr "<")))).
    unfold scan_with_eq. rewrite G. cbn [read rest]. now rewrite H4.
  - change (Scan (mkScanner (chr ">" :: 32 :: r :: tl) None)) with (scan_with_eq GTE GT (mkScanner (32 :: r :: tl) (Some (chr ">")))).
    unfold scan_with_eq. rewrite G. cbn [read rest]. now rewrite H4.
Qed.

Lemma written_no_space t tl : written t -> no_space (spell t ++ tl).
Proof.
  destruct t as [k s]. intros W. destruct (starts k) eqn:St.
  - destruct (start_calm (k, s) W St) as (r & rs & -> & H1 & H2 & _). now split.
  - unfold written, spell in *. cbn [fst snd] in *.
    assert (G : (In k symbols /\ s = Tokens k) \/ (In k words /\ (k, s) = word k) -> no_space (runes s ++ tl)).
    { intros [[H ->]|[H E]].
      - cbn in H. repeat (destruct H as [<-|H]; [split; [reflexivity|discriminate]|]). easy.
      - apply (f_equal snd) in E. cbn [snd] in E. subst s. destruct (word_start _ H) as (r & rs & -> & L).
        destruct (letter_calm _ L) as (H1 & H2 & _). now split. }
    destruct k; try (now apply G); discriminate.
Qed.

Lemma scan_plain t tl : written t -> spellable t -> sticky (fst t) = false -> spaced tl -> next (spell t ++ tl) = (t, tl).
Proof.
  destruct t as [k s]. intros W Sp Hs Ht. cbn [fst] in Hs.
  assert (G : (In k symbols /\ s = Tokens k) \/ (In k words /\ (k, s) = word k) -> next (runes s ++ tl) = ((k, s), tl)).
  { intros [[H ->]|[H E]]; [now apply scan_symbol|]. rewrite E. apply (f_equal snd) in E. cbn [snd] in E. subst s.
    now apply scan_keyword. }
  unfold written in W. cbn [fst snd] in W.
  destruct k; try (apply G, W); [now apply scan_ident| |now apply scan_string].
  destruct W as (z & Hz & ->). destruct (itoa_spec z Hz) as (A & _ & N). now apply scan_integer.
Qed.

(** Written tokens are scanned back, up to the end of the text. *)
Lemma text_lexes ts : Forall written ts -> Forall spellable ts -> glued ts ->
  lexes (text ts) (ts ++ [tk EOF]) /\ match ts with t :: ts' => lexes (spell t ++ text ts') (ts ++ [tk EOF]) | [] => True end.
Proof.
  induction ts as [|t ts IH]; intros W Sp Gl; [split; [|exact Logic.I]; exists []; split; [reflexivity|exact Logic.I]|].
  inversion W as [|? ? Wt W']; inversion Sp as [|? ? St Sp']; subst. cbn [glued] in Gl. destruct Gl as [Hg Gl].
  destruct (IH W' Sp' Gl) as [I1 I2].
  assert (G : lexes (spell t ++ text ts) ((t :: ts) ++ [tk EOF])).
  { destruct (sticky (fst t)) eqn:E.
    - destruct ts as [|t' ts]; [discriminate|]. specialize (Hg eq_refl). inversion W' as [|? ? Wt' _]; subst.
      destruct (start_calm t' Wt' Hg) as (r & rs & Er & Hr). cbn [text flat_map app lexes].
      change (flat_map _ ts) with (text ts). exists (spell t' ++ text ts). split; [|exact I2].
      assert (Et : t = tk (fst t) /\ spell t = runes (Tokens (fst t))).
      { destruct t as [k s]. unfold written, spell in *. cbn [fst snd] in *.
        destruct k; try discriminate; (destruct Wt as [[_ ->]|[Wt _]]; [now split|cbn in Wt; intuition discriminate]). }
      destruct Et as [Et ->]. rewrite Er. cbn [app]. rewrite Et at 2. now apply scan_sticky.
    - exists (text ts). split; [|exact I1]. apply scan_plain; auto. apply text_spaced. }
  split; [|exact G]. cbn [text flat_map]. change (flat_map _ ts) with (text ts). cbn [app].
  destruct G as (rs' & E & L). exists rs'. split; [|exact L]. rewrite next_space by now apply written_no_space. exact E.
Qed.

(** ** Expressions are written *)

(** Tokens that can be written one after the other. *)
Definition fine (ts : list tok) : Prop := Forall written ts /\ glued ts.

Ltac in_list := cbn; repeat first [left; reflexivity | right].

Lemma fine_nil : fine [].
Proof. now split. Qed.

Lemma fine_cons t ts : written t -> sticky (fst t) = false -> fine ts -> fine (t :: ts).
Proof.
  intros Ht Hs [W G]. split; [now constructor|]. cbn. split; [|exact G]. destruct ts; [exact Hs|]. intros E. congruence.
Qed.

Lemma glued_app a b : glued a -> glued b -> glued (a ++ b).
Proof.
  induction a as [|t a IH]; [auto|]. cbn [glued app]. intros [H G] Gb. split; [|now apply IH].
  destruct a as [|t' a]; [|exact H]. cbn [app]. destruct b; [exact H|]. intros E. congruence.
Qed.

Lemma fine_app a b : fine a -> fine b -> fine (a ++ b).
Proof. intros [W1 G1] [W2 G2]. split; [now apply Forall_app|now apply glued_app]. Qed.

Lemma fine_commas l : Forall fine l -> fine (commas l).
Proof.
  induction l as [|a l IH]; intros H; [apply fine_nil|]. inversion H; subst. destruct l; [assumption|].
  apply fine_app; [assumption|]. apply fine_cons; [left; split; [in_list|reflexivity]|reflexivity|now apply IH].
Qed.

Lemma written_symbol k : In k symbols -> written (tk k).
Proof. cbn. intros H. repeat (destruct H as [<-|H]; [left; split; [in_list|reflexivity]|]). easy. Qed.

Lemma written_word k : In k words -> written (word k).
Proof. cbn. intros H. repeat (destruct H as [<-|H]; [right; split; [in_list|reflexivity]|]). easy. Qed.

Lemma word_not_sticky k : In k words -> sticky (fst (word k)) = false.
Proof. cbn. intros H. repeat (destruct H as [<-|H]; [reflexivity|]). easy. Qed.

Lemma fine_symbol k ts : In k symbols -> sticky k = false -> fine ts -> fine (tk k :: ts).
Proof. intros H Hs. apply fine_cons; [now apply written_symbol|exact Hs]. Qed.

Lemma fine_word k ts : In k words -> fine ts -> fine (word k :: ts).
Proof. intros H. apply fine_cons; [now apply written_word|now apply word_not_sticky]. Qed.

Lemma fine_ident s ts : fine ts -> fine (ident s :: ts).
Proof. now apply fine_cons. Qed.

Lemma fine_integer z ts : natural z -> fine ts -> fine ((INTEGER, itoa z) :: ts).
Proof. intros H. apply fine_cons; [|reflexivity]. cbn. eauto. Qed.

Create HintDb fine.
#[export] Hint Resolve fine_nil fine_app fine_ident fine_integer : fine.
#[export] Hint Extern 1 (fine (tk _ :: _)) => apply fine_symbol; [in_list|reflexivity|] : fine.
#[export] Hint Extern 1 (fine (word _ :: _)) => apply fine_word; [in_list|] : fine.

Lemma fine_names (sn n : string) : fine (name_tokens sn n).
Proof. unfold name_tokens. destruct (_ || _); auto with fine. Qed.
#[export] Hint Resolve fine_names : fine.

Lemma fine_operator op ts t rest : 1 <= Precedence op <= 5 -> fine ts -> ts = t :: rest -> starts (fst t) = true ->
  fine (op_tokens op ++ ts).
Proof.
  intros Hp [W G] -> St. destruct op; cbn in Hp; try lia; try (cbn [op_tokens app]; split; assumption);
    (split; [constructor; [solve [apply written_symbol; in_list | apply written_word; in_list]|exact W]|split; [intros _; exact St|exact G]]).
Qed.

Lemma print_fine ff rt e : forall b, printable ff rt b e -> fine (print e).
Proof.
  induction e using expr_ind; intros sub Hp; try (cbn in Hp; easy); cbn [print].
  - cbn in Hp. destruct Hp as (_ & Ho & _ & _ & _ & Pl & Pr). destruct (print_starts _ _ e2 _ Pr) as (t & ts & E & St).
    apply fine_app; [eauto|]. eapply fine_operator; eauto.
  - cbn in Hp. apply fine_symbol; [in_list|reflexivity|]. apply fine_app; [eauto|auto with fine].
  - cbn in Hp. destruct Hp as [Ha Hb]. destruct (Z.eqb_spec b MinInt32); cbn [app]; auto 10 with fine.
    destruct Hb as [Hb|Hb]; [easy|]. auto 10 with fine.
  - cbn in Hp. auto 10 with fine.
  - destruct b; auto with fine.
  - cbn in Hp. apply IsTimeLiteral_spec in Hp. apply fine_word; [|apply fine_nil]. cbn in Hp.
    repeat (destruct Hp as [<-|Hp]; [in_list|]). easy.
  - cbn in Hp. auto with fine.
  - apply fine_cons; [exact Logic.I|reflexivity|apply fine_nil].
  - cbn in Hp. destruct Hp as [_ Ha]. apply fine_ident, fine_symbol; [in_list|reflexivity|]. apply fine_app; [|auto with fine].
    apply fine_commas. clear -Ha H. induction args as [|a args IH]; cbn; [constructor|]. inversion H; subst. destruct Ha.
    constructor; eauto.
  - cbn in Hp. destruct Hp as (_ & Hv & Hw & He). apply fine_word; [in_list|].
    repeat apply fine_app; [destruct v; eauto with fine| |destruct e; [apply fine_word; [in_list|]; eauto|apply fine_nil]|auto with fine].
    clear -Hw H0. induction ws as [|[c r] ws IH]; [apply fine_nil|]. inversion H0 as [|? ? [Hc Hr] H1]; subst. cbn [fst snd] in *.
    destruct Hw as (_ & Pc & Pr & Hw). cbn [flat_map]. apply fine_app; [|now apply IH].
    apply fine_word; [in_list|]. apply fine_app; [eauto|]. apply fine_word; [in_list|]. eauto.
  - destruct a; [easy|]. apply fine_names.
Qed.

(** ** Statements as tokens *)

Definition alias_tokens (a : string) : list tok := if String.eqb a "" then [] else [word AS; ident a].
Definition source_tokens (name alias : string) : list tok := ident name :: alias_tokens alias.

Definition print_field (x : Field) : list tok := print (f_Expr x) ++ alias_tokens (f_AName x).

Definition star : Field := mkField "" "" (Wildcard ASTERISK).

Definition is_star (l : list Field) : bool := match l with [mkField "" "" (Wildcard ASTERISK)] => true | _ => false end.

Definition print_fields (l : list Field) : list tok :=
  if is_star l then [tk ASTERISK] else commas (map print_field l).

Definition join_word (jt : JoinType) : Token :=
  match jt with LEFT_JOIN => LEFT | INNER_JOIN => INNER | RIGHT_JOIN => RIGHT | FULL_JOIN => FULL | CROSS_JOIN => CROSS end.

Definition print_clause (kw : Token) (o : option expr) : list tok :=
  match o with Some e => word kw :: print e | None => [] end.

Definition print_join (j : Join) : list tok :=
  word (join_word (j_Type j)) :: word JOIN :: source_tokens (j_Name j) (j_Alias j) ++ print_clause ON (j_Expr j).

Definition print_dims (l : list expr) : list tok :=
  match l with [] => [] | _ => word GROUP :: word BY :: commas (map print l) end.

(** The stream, if any, and the column of a sort field. *)
Definition sort_name (s : SortField) : string * string :=
  match split_on colsep_char (s_Name s) with [sn; n] => (sn, n) | _ => ("", s_Name s) end.

Definition print_sort (s : SortField) : list tok :=
  name_tokens (fst (sort_name s)) (snd (sort_name s)) ++ [word (if s_Ascending s then ASC else DESC)].

Definition print_sorts (l : list SortField) : list tok :=
  match l with [] => [] | _ => word ORDER :: word BY :: commas (map print_sort l) end.

Definition print_select (s : SelectStatement) : list tok :=
  word SELECT :: print_fields (Fields s) ++ word FROM :: flat_map (fun t => source_tokens (t_Name t) (t_Alias t)) (Sources s)
    ++ flat_map print_join (Joins s) ++ print_clause WHERE (Condition s) ++ print_dims (Dimensions s)
    ++ print_clause HAVING (Having s) ++ print_sorts (SortFields s).

Section Select.
Variable ff : FuncFinder.
Variable rt : Runtime.

(** The statements that have a text: one source, as the parser makes, and
    expressions and names as above. *)
Record printable_select (s : SelectStatement) : Prop := {
  ps_fields : is_star (Fields s) = true
    \/ Fields s <> [] /\ Forall (fun x => printable ff rt false (f_Expr x)
         /\ f_Name x = match f_Expr x with FieldRef _ n _ => n | Call n _ => n | _ => "" end) (Fields s);
  ps_sources : exists n a, Sources s = [mkTable n a];
  ps_joins : Forall (fun j => opt_all (printable ff rt false) (j_Expr j) /\ (j_Type j = CROSS_JOIN -> j_Expr j = None)) (Joins s);
  ps_where : opt_all (printable ff rt false) (Condition s);
  ps_dims : Forall (printable ff rt false) (Dimensions s);
  ps_having : opt_all (printable ff rt false) (Having s);
  ps_sorts : Forall (fun x => String.concat COLUMN_SEPARATOR (names_of (fst (sort_name x)) (snd (sort_name x))) = s_Name x) (SortFields s);
  ps_valid : Validate ff s = None }.

(** ** The clauses are read back *)

(** The keywords that may start what follows. *)
Definition heads (l : list Token) (k : list tok) : Prop := match k with t :: _ => In (fst t) l | [] => False end.

Definition after_sorts := [EOF].
Definition after_having := ORDER :: after_sorts.
Definition after_dims := HAVING :: after_having.
Definition after_where := GROUP :: after_dims.
Definition after_joins := WHERE :: after_where.
Definition after_source := [INNER; LEFT; RIGHT; FULL; CROSS] ++ after_joins.
Definition after_name := ON :: after_source.

Lemma heads_incl l l' k : incl l l' -> heads l k -> heads l' k.
Proof. intros H. destruct k; cbn; auto. Qed.

Lemma heads_closes k : heads after_name k -> closes k.
Proof.
  destruct k as [|[t s] k]; [easy|]. cbn [heads fst]. intros H.
  repeat (destruct H as [<-|H]; [repeat split; discriminate|]). easy.
Qed.

Lemma heads_not l k0 t k : heads l (t :: k) -> forallb (fun x => negb (tok_eqb x k0)) l = true -> is_tok k0 t = false.
Proof.
  intros H F. rewrite forallb_forall in F. specialize (F _ H). apply negb_true_iff in F. exact F.
Qed.

Lemma clause_gives kw o f k : opt_all (printable ff rt false) o -> closes k -> heads [kw] [word kw] ->
  match k with t :: _ => is_tok kw t = false | [] => False end -> (4 * List.length (print_clause kw o) + 2 <= f)%nat ->
  gives (clause ff rt kw f) o (print_clause kw o) k.
Proof.
  intros Ho Hk Hw Hn Hf. unfold clause. destruct o as [e|]; cbn [print_clause List.length] in *.
  - apply gives_tok. assert (is_tok kw (word kw) = true) as ->.
    { apply is_tok_eq. cbn in Hw. now destruct Hw. }
    cbn [negb]. rewrite <- (app_nil_r (print e)). apply reads_back_bind; [now apply printable_reads_back|lia|exact Hk|apply gives_ret].
  - destruct k as [|t k]; [easy|]. eapply gives_peek; [reflexivity| |apply gives_ret]. now rewrite Hn.
Qed.

Lemma source_gives f name alias k : heads after_name k ->
  gives (source_literal (S (S f)) "" "") (name, alias) (source_tokens name alias) k.
Proof.
  intros Hk. destruct k as [|t k]; [easy|].
  assert (A : AllowedSourceToken (fst t) = false /\ is_tok AS t = false).
  { destruct t as [t s]. cbn [heads fst] in Hk. repeat (destruct Hk as [<-|Hk]; [now split|]). easy. }
  destruct A as [A1 A2]. remember (S f) as f' eqn:Ef. cbn [source_literal]. unfold source_tokens. apply gives_tok.
  change (AllowedSourceToken (fst (ident name))) with true. cbn [snd ident String.append]. cbv iota zeta. unfold alias_tokens.
  destruct (String.eqb_spec alias "") as [->|N].
  - eapply gives_peek; [reflexivity| |apply gives_ret]. now rewrite A2, A1.
  - apply gives_tok. change (is_tok AS (word AS)) with true. cbv iota. apply (gives_tok _ _ (ident alias)).
    change (is_tok IDENT (ident alias)) with true. cbv iota. cbn [snd ident]. subst f'. cbn [source_literal].
    eapply gives_peek; [reflexivity| |apply gives_ret]. now rewrite A1.
Qed.

Lemma alias_gives alias k : match k with t :: _ => is_tok AS t = false | [] => False end ->
  gives parseAlias alias (alias_tokens alias) k.
Proof.
  intros H. unfold parseAlias, alias_tokens. destruct (String.eqb_spec alias "") as [->|N].
  - destruct k as [|t k]; [easy|]. eapply gives_peek; [reflexivity| |apply gives_ret]. now rewrite H.
  - apply gives_tok. change (is_tok AS (word AS)) with true. cbv iota. apply (gives_tok _ _ (ident alias)). apply gives_ret.
Qed.
Lemma field_gives x f k : printable ff rt false (f_Expr x) ->
  f_Name x = match f_Expr x with FieldRef _ n _ => n | Call n _ => n | _ => "" end ->
  heads [FROM; COMMA] k -> (4 * List.length (print_field x) + 2 <= f)%nat ->
  gives (parseField ff rt f) x (print_field x) k.
Proof.
  intros Hp Hn Hk Hf. unfold parseField, print_field in *. rewrite length_app in Hf. destruct k as [|[t s] k]; [easy|].
  apply reads_back_bind; [now apply printable_reads_back|lia| |].
  - unfold alias_tokens. destruct (String.eqb _ _); [|repeat split; discriminate].
    cbn [heads fst app] in *. repeat (destruct Hk as [<-|Hk]; [repeat split; discriminate|]). easy.
  - rewrite <- (app_nil_r (alias_tokens _)). eapply gives_bind; [apply alias_gives|].
    + cbn [heads fst app] in *. repeat (destruct Hk as [<-|Hk]; [reflexivity|]). easy.
    + rewrite <- Hn. destruct x. apply gives_ret.
Qed.

Lemma fields_gives l : forall f acc k, l <> [] ->
  Forall (fun x => printable ff rt false (f_Expr x)
         /\ f_Name x = match f_Expr x with FieldRef _ n _ => n | Call n _ => n | _ => "" end) l ->
  heads [FROM] k -> (4 * List.length (commas (map print_field l)) + 3 <= f)%nat ->
  gives (fields_loop ff rt f acc) (acc ++ l) (commas (map print_field l)) k.
Proof.
  induction l as [|x l IH]; intros f acc k Hne H Hk Hf; [easy|]. inversion H as [|? ? [Hp Hn] H']; subst.
  destruct f as [|f]; [lia|]. cbn [fields_loop]. destruct l as [|y l].
  - cbn [map commas] in *. rewrite <- (app_nil_r (print_field x)). apply (gives_bind _ _ x).
    + apply field_gives; auto; [|lia]. cbn [app]. eapply heads_incl, Hk. intros a Ha. cbn in *. tauto.
    + destruct k as [|t k]; [easy|]. eapply gives_peek; [reflexivity| |apply gives_ret]. now rewrite (heads_not _ COMMA _ _ Hk).
  - change (commas (map print_field (x :: y :: l))) with (print_field x ++ tk COMMA :: commas (map print_field (y :: l))) in *.
    rewrite length_app in Hf. cbn [List.length] in Hf. apply (gives_bind _ _ x); [apply field_gives; auto; [cbn; tauto|lia]|].
    apply gives_tok. change (negb (is_tok COMMA (tk COMMA))) with false. cbv iota.
    replace (acc ++ x :: y :: l) with ((acc ++ [x]) ++ y :: l) by now rewrite <- app_assoc. apply IH; auto; [discriminate|lia].
Qed.

Lemma dims_gives l : forall f acc k, l <> [] -> Forall (printable ff rt false) l -> heads after_dims k ->
  (4 * List.length (commas (map print l)) + 3 <= f)%nat ->
  gives (dimensions_loop ff rt f acc) (acc ++ l) (commas (map print l)) k.
Proof.
  induction l as [|x l IH]; intros f acc k Hne H Hk Hf; [easy|]. inversion H as [|? ? Hp H']; subst.
  destruct f as [|f]; [lia|]. cbn [dimensions_loop]. destruct l as [|y l].
  - cbn [map commas] in *. rewrite <- (app_nil_r (print x)). apply reads_back_bind; [now apply printable_reads_back|lia| |].
    + cbn [app]. apply heads_closes. eapply heads_incl, Hk. intros a Ha. cbn in *. tauto.
    + destruct k as [|t k]; [easy|]. eapply gives_peek; [reflexivity| |apply gives_ret]. now rewrite (heads_not _ COMMA _ _ Hk).
  - change (commas (map print (x :: y :: l))) with (print x ++ tk COMMA :: commas (map print (y :: l))) in *.
    rewrite length_app in Hf. cbn [List.length] in Hf.
    apply reads_back_bind; [now apply printable_reads_back|lia|repeat split; discriminate|].
    apply gives_tok. change (is_tok COMMA (tk COMMA)) with true. cbv iota.
    replace (acc ++ x :: y :: l) with ((acc ++ [x]) ++ y :: l) by now rewrite <- app_assoc. apply IH; auto; [discriminate|lia].
Qed.

Lemma parseDimensions_gives l f k : Forall (printable ff rt false) l -> heads after_dims k ->
  (4 * List.length (print_dims l) + 3 <= f)%nat -> gives (parseDimensions ff rt f) l (print_dims l) k.
Proof.
  intros H Hk Hf. unfold parseDimensions, print_dims in *. destruct l as [|x l].
  - destruct k as [|t k]; [easy|]. eapply gives_peek; [reflexivity| |apply gives_ret]. now rewrite (heads_not _ GROUP _ _ Hk).
  - apply gives_tok. change (is_tok GROUP (word GROUP)) with true. cbv iota. apply gives_tok.
    change (is_tok BY (word BY)) with true. cbv iota. cbn [List.length] in Hf. apply (dims_gives (x :: l)); auto; [discriminate|lia].
Qed.

Lemma name_start (sn n : string) : exists s ts, name_tokens sn n = ident s :: ts.
Proof. unfold name_tokens. destruct (_ || _); eauto. Qed.

Lemma names_gives f (sn n : string) k : match k with t :: _ => fst t <> DOT | [] => False end ->
  gives (parseFieldNameSections (S (S f))) (names_of sn n) (name_tokens sn n) k.
Proof.
  intros Hk p (Hm & rs & [R N] & L). destruct k as [|t k]; [easy|].
  apply (parseFieldNameSections_gives f sn n t k p rs); auto. lia.
Qed.

Lemma sorts_gives l : forall f acc k,
  Forall (fun x => String.concat COLUMN_SEPARATOR (names_of (fst (sort_name x)) (snd (sort_name x))) = s_Name x) l ->
  heads after_sorts k -> (4 * List.length (commas (map print_sort l)) + 4 <= f)%nat ->
  gives (sorts_loop f acc) (acc ++ l) (commas (map print_sort l)) k.
Proof.
  assert (One : forall x f acc r ts k,
    String.concat COLUMN_SEPARATOR (names_of (fst (sort_name x)) (snd (sort_name x))) = s_Name x ->
    gives (sorts_loop (S (S f)) (acc ++ [x])) r ts k ->
    gives (sorts_loop (S (S (S f))) acc) r (print_sort x ++ ts) k).
  { intros x f acc r ts k Hx H. remember (S (S f)) as f' eqn:Ef. cbn [sorts_loop]. unfold print_sort. rewrite <- app_assoc.
    destruct (name_start (fst (sort_name x)) (snd (sort_name x))) as (s & ts' & E).
    eapply gives_peek; [rewrite E; reflexivity|reflexivity|]. subst f'.
    apply (gives_bind _ _ (names_of (fst (sort_name x)) (snd (sort_name x))));
      [apply names_gives; destruct (s_Ascending x); discriminate|]. cbv zeta. rewrite Hx.
    apply gives_tok. destruct x as [n asc]. cbn [s_Ascending s_Name] in *. destruct asc; exact H. }
  induction l as [|x l IH]; intros f acc k H Hk Hf.
  - destruct f as [|f]; [cbn in Hf; lia|]. cbn [sorts_loop map commas]. rewrite app_nil_r.
    destruct k as [|t k]; [easy|]. eapply gives_peek; [reflexivity| |apply gives_ret].
    now rewrite (heads_not _ IDENT _ _ Hk), (heads_not _ COMMA _ _ Hk).
  - inversion H as [|? ? Hx H']; subst. replace (acc ++ x :: l) with ((acc ++ [x]) ++ l) by now rewrite <- app_assoc.
    assert (F : exists f0, f = S (S (S f0))) by (exists (f - 3)%nat; lia). destruct F as [f0 ->].
    destruct l as [|y l].
    + cbn [map commas] in *. rewrite <- (app_nil_r (print_sort x)). apply One; [exact Hx|].
      apply (IH (S (S f0)) (acc ++ [x]) k); auto. cbn. unfold print_sort in Hf. rewrite length_app in Hf. cbn in Hf. lia.
    + change (commas (map print_sort (x :: y :: l))) with (print_sort x ++ tk COMMA :: commas (map print_sort (y :: l))) in *.
      rewrite length_app in Hf. cbn [List.length] in Hf. apply One; [exact Hx|].
      remember (S f0) as f1 eqn:Ef. cbn [sorts_loop]. apply gives_tok. change (is_tok IDENT (tk COMMA)) with false.
      change (is_tok COMMA (tk COMMA)) with true. cbv iota. apply IH; auto. lia.
Qed.

Lemma parseSorts_gives l f k :
  Forall (fun x => String.concat COLUMN_SEPARATOR (names_of (fst (sort_name x)) (snd (sort_name x))) = s_Name x) l ->
  heads after_sorts k -> (4 * List.length (print_sorts l) + 4 <= f)%nat -> gives (parseSorts f) l (print_sorts l) k.
Proof.
  intros H Hk Hf. unfold parseSorts, print_sorts in *. destruct l as [|x l].
  - destruct k as [|t k]; [easy|]. eapply gives_peek; [reflexivity| |apply gives_ret]. now rewrite (heads_not _ ORDER _ _ Hk).
  - apply gives_tok. change (is_tok ORDER (word ORDER)) with true. cbv iota. apply gives_tok.
    change (is_tok BY (word BY)) with true. cbv iota. cbn [List.length] in Hf. apply (sorts_gives (x :: l)); auto. lia.
Qed.

Definition join_ok (j : Join) : Prop :=
  opt_all (printable ff rt false) (j_Expr j) /\ (j_Type j = CROSS_JOIN -> j_Expr j = None).

Lemma ParseJoin_gives j f k : join_ok j -> heads after_source k ->
  (4 * List.length (source_tokens (j_Name j) (j_Alias j) ++ print_clause ON (j_Expr j)) + 2 <= f)%nat ->
  gives (ParseJoin ff rt f (j_Type j)) j (source_tokens (j_Name j) (j_Alias j) ++ print_clause ON (j_Expr j)) k.
Proof.
  intros [He Hc] Hk Hf. unfold ParseJoin, parseSourceLiteral. rewrite length_app in Hf.
  assert (Hk' : heads after_name k) by (eapply heads_incl, Hk; intros a Ha; now right).
  assert (F : exists f0, f = S (S f0)) by (exists (f - 2)%nat; unfold source_tokens in Hf; cbn in Hf; lia). destruct F as [f0 ->].
  apply (gives_bind _ _ (j_Name j, j_Alias j)).
  - apply source_gives. destruct (j_Expr j); [cbn; now left|exact Hk'].
  - destruct j as [n a jt o]. cbn [j_Name j_Alias j_Type j_Expr fst snd] in *. destruct o as [e|]; cbn [print_clause] in *.
    + apply gives_tok. change (is_tok ON (word ON)) with true. cbv iota.
      assert (jt_eqb CROSS_JOIN jt = false) as -> by (destruct jt; try reflexivity; specialize (Hc eq_refl); discriminate).
      rewrite <- (app_nil_r (print e)). cbn [List.length] in Hf.
      apply reads_back_bind; [now apply printable_reads_back|lia|now apply heads_closes|apply gives_ret].
    + destruct k as [|t k]; [easy|]. eapply gives_peek; [reflexivity| |apply gives_ret]. now rewrite (heads_not _ ON _ _ Hk).
Qed.

Lemma joins_heads js k : heads after_joins k -> heads after_source (flat_map print_join js ++ k).
Proof.
  intros H. destruct js as [|j js]; [eapply heads_incl, H; intros a Ha; cbn in *; tauto|].
  cbn [flat_map print_join app heads]. destruct (j_Type j); cbn; tauto.
Qed.

Lemma joins_gives js : forall f acc k, Forall join_ok js -> heads after_joins k ->
  (4 * List.length (flat_map print_join js) + 3 <= f)%nat ->
  gives (joins_loop ff rt f acc) (acc ++ js) (flat_map print_join js) k.
Proof.
  induction js as [|j js IH]; intros f acc k H Hk Hf; (destruct f as [|f]; [lia|]); cbn [joins_loop].
  - rewrite app_nil_r. destruct k as [|[t s] k]; [easy|]. eapply gives_peek; [reflexivity| |apply gives_ret].
    cbn [heads fst] in Hk. repeat (destruct Hk as [<-|Hk]; [reflexivity|]). easy.
  - inversion H as [|? ? Hj H']; subst. cbn [flat_map] in *. rewrite length_app in Hf. unfold print_join at 1 in Hf.
    cbn [List.length] in Hf. unfold print_join at 1. cbn [app].
    apply gives_tok. assert (E : join_type (fst (word (join_word (j_Type j)))) = Some (j_Type j)) by (destruct (j_Type j); reflexivity).
    rewrite E. apply gives_tok. change (negb (is_tok JOIN (word JOIN))) with false. cbv iota.
    apply (gives_bind _ _ j); [apply ParseJoin_gives; auto; [now apply joins_heads|lia]|].
    replace (acc ++ j :: js) with ((acc ++ [j]) ++ js) by now rewrite <- app_assoc. apply IH; auto. lia.
Qed.
Lemma sorts_heads l : heads after_having (print_sorts l ++ [tk EOF]).
Proof. destruct l; cbn; tauto. Qed.

Lemma clause_heads kw o l k : fst (word kw) = kw -> heads l k -> heads (kw :: l) (print_clause kw o ++ k).
Proof. intros E H. destruct o; cbn [print_clause app heads]; [now left|]. eapply heads_incl, H. intros a Ha. now right. Qed.

Lemma dims_heads l k : heads after_dims k -> heads after_where (print_dims l ++ k).
Proof. intros H. destruct l; cbn [print_dims app]; [|now left]. eapply heads_incl, H. intros a Ha. now right. Qed.

Lemma heads_tok l k kw : heads l k -> forallb (fun x => negb (tok_eqb x kw)) l = true ->
  match k with t :: _ => is_tok kw t = false | [] => False end.
Proof. destruct k as [|t k]; [easy|]. intros H F. now apply (heads_not l kw t k). Qed.

Lemma parseFields_gives l f k :
  is_star l = true \/ l <> [] /\ Forall (fun x => printable ff rt false (f_Expr x)
         /\ f_Name x = match f_Expr x with FieldRef _ n _ => n | Call n _ => n | _ => "" end) l ->
  heads [FROM] k -> (4 * List.length (print_fields l) + 3 <= f)%nat -> gives (parseFields ff rt f) l (print_fields l) k.
Proof.
  intros H Hk Hf. unfold parseFields, print_fields in *. destruct (is_star l) eqn:E.
  - assert (l = [star]) as ->.
    { clear -E. unfold is_star in E. repeat (match type of E with match ?x with _ => _ end = _ => destruct x; try discriminate end). reflexivity. }
    apply gives_tok. apply gives_ret.
  - destruct H as [H|[Hne H]]; [discriminate|]. destruct l as [|x l]; [easy|].
    assert (S : exists t ts, forall z, commas (map print_field (x :: l)) ++ z = t :: ts ++ z /\ starts (fst t) = true).
    { inversion H as [|? ? [Hp _] _]; subst. destruct (print_starts _ _ _ _ Hp) as (t & ts & E1 & St).
      assert (E2 : print_field x = t :: ts ++ alias_tokens (f_AName x)) by (unfold print_field; now rewrite E1).
      cbn [map commas]. rewrite E2. destruct (map print_field l) as [|q l'].
      - exists t, (ts ++ alias_tokens (f_AName x)). intros z. split; [reflexivity|exact St].
      - exists t, ((ts ++ alias_tokens (f_AName x)) ++ tk COMMA :: commas (q :: l')). intros z. split; [reflexivity|exact St]. }
    destruct S as (t & ts & S). destruct (S k) as [Ek St]. eapply gives_peek; [exact Ek| |apply (fields_gives (x :: l) f []); auto].
    assert (is_tok ASTERISK t = false) as -> by (apply is_tok_neq; intros F; rewrite F in St; discriminate). reflexivity.
Qed.

Lemma parseSource_gives f n a k : heads after_source k ->
  gives (parseSource (S (S f))) [mkTable n a] (word FROM :: source_tokens n a) k.
Proof.
  intros Hk. unfold parseSource, parseSourceLiteral. apply gives_tok. change (negb (is_tok FROM (word FROM))) with false.
  cbv iota. rewrite <- (app_nil_r (source_tokens n a)). apply (gives_bind _ _ (n, a)); [|apply gives_ret].
  apply source_gives. eapply heads_incl, Hk. intros x Hx. now right.
Qed.

Lemma gives_tok_self t k : gives scanIgnoreWhitespace t [t] k.
Proof.
  intros p Hp. destruct (gives_tok ret t t [] k (gives_ret _ _) p Hp) as (p' & E & H). exists p'. split; [|exact H].
  unfold bind in E. now destruct (scanIgnoreWhitespace p).
Qed.

Lemma takes_bind {A B} (m : M A) (h : A -> M B) a b ts k k' :
  gives m a ts k ->
  (forall p, at_tokens p k -> exists p', h a p = Ok b p' /\ at_tokens p' k') ->
  forall p, at_tokens p (ts ++ k) -> exists p', bind m h p = Ok b p' /\ at_tokens p' k'.
Proof. intros H1 H2 p Hp. destruct (H1 p Hp) as (p1 & E & Hp1). unfold bind. rewrite E. now apply H2. Qed.

Lemma Parse_takes s f : printable_select s -> (4 * List.length (print_select s) + 4 <= f)%nat ->
  forall p, at_tokens p (print_select s ++ [tk EOF]) -> exists p', Parse ff rt f p = Ok (Some s) p' /\ at_tokens p' [].
Proof.
  intros [Pf (n & a & Es) Pj Pw Pd Ph Ps Pv] Hf.
  set (ks := [tk EOF]). assert (H0 : heads after_sorts ks) by (cbn; now left).
  pose proof (sorts_heads (SortFields s)) as H1. fold ks in H1.
  pose proof (clause_heads HAVING (Having s) _ _ eq_refl H1) as H2. pose proof (dims_heads (Dimensions s) _ H2) as H3.
  pose proof (clause_heads WHERE (Condition s) _ _ eq_refl H3) as H4. pose proof (joins_heads (Joins s) _ H4) as H5.
  unfold print_select in *. rewrite Es in *. cbn [flat_map t_Name t_Alias] in *. rewrite app_nil_r in *.
  cbn [List.length] in Hf. rewrite !length_app in Hf. cbn [List.length] in Hf. rewrite !length_app in Hf.
  assert (F : exists f0, f = S (S f0)) by (exists (f - 2)%nat; lia). destruct F as [f0 Ef].
  unfold Parse. repeat (cbn [app]; rewrite <- app_assoc). cbn [app].
  match goal with |- forall p, at_tokens p (word SELECT :: ?x) -> _ => change (word SELECT :: x) with ([word SELECT] ++ x) end.
  apply (takes_bind _ _ (word SELECT)); [apply gives_tok_self|]. change (is_tok EOF (word SELECT)) with false.
  change (negb (is_tok SELECT (word SELECT))) with false. cbv iota.
  apply (takes_bind _ _ (Fields s)); [apply parseFields_gives; [exact Pf|cbn; now left|lia]|].
  match goal with |- forall p, at_tokens p (word FROM :: ?x ++ ?y) -> _ => change (word FROM :: x ++ y) with ((word FROM :: x) ++ y) end.
  apply (takes_bind _ _ [mkTable n a]); [rewrite Ef; apply parseSource_gives; exact H5|].
  apply (takes_bind _ _ (Joins s)); [apply (joins_gives (Joins s) f []); [exact Pj|exact H4|lia]|].
  apply (takes_bind _ _ (Condition s)).
  { apply clause_gives; [exact Pw| |cbn; now left|now apply (heads_tok _ _ _ H3)|lia].
    apply heads_closes. eapply heads_incl, H3. intros x Hx. cbn in *. tauto. }
  apply (takes_bind _ _ (Dimensions s)); [apply parseDimensions_gives; [exact Pd|exact H2|lia]|].
  apply (takes_bind _ _ (Having s)).
  { apply clause_gives; [exact Ph| |cbn; now left|now apply (heads_tok _ _ _ H1)|lia].
    apply heads_closes. eapply heads_incl, H1. intros x Hx. cbn in *. tauto. }
  apply (takes_bind _ _ (SortFields s)); [apply parseSorts_gives; [exact Ps|exact H0|lia]|].
  rewrite <- Es. replace (mkSelect _ _ _ _ _ _ _) with s by (destruct s; reflexivity). cbv zeta.
  apply (takes_bind _ _ (tk EOF) _ [tk EOF] []); [apply gives_tok_self|]. change (is_tok SEMICOLON (tk EOF)) with false.
  change (negb (is_tok EOF (tk EOF))) with false. cbv iota. rewrite Pv. apply gives_ret.
Qed.

Lemma select_fine s : printable_select s -> fine (print_select s).
Proof.
  assert (Fa : forall a ts, fine ts -> fine (alias_tokens a ++ ts)).
  { intros a ts H. unfold alias_tokens. destruct (String.eqb a ""); [exact H|]. cbn [app]. auto with fine. }
  assert (Fc : forall kw o, In kw words -> opt_all (printable ff rt false) o -> fine (print_clause kw o)).
  { intros kw o Hk Ho. destruct o; [|apply fine_nil]. cbn. apply fine_word; [exact Hk|]. eapply print_fine, Ho. }
  assert (Fs : forall n a, fine (source_tokens n a)).
  { intros n a. apply fine_ident. rewrite <- (app_nil_r (alias_tokens a)). apply Fa, fine_nil. }
  intros [Pf (n & a & Es) Pj Pw Pd Ph Ps _]. unfold print_select. apply fine_word; [in_list|]. apply fine_app.
  { unfold print_fields. destruct (is_star (Fields s)) eqn:E; [auto with fine|]. destruct Pf as [|[_ Pf]]; [discriminate|].
    apply fine_commas. apply Forall_map. eapply Forall_impl; [|exact Pf]. intros x [Hx _]. unfold print_field.
    apply fine_app; [eapply print_fine, Hx|]. rewrite <- (app_nil_r (alias_tokens _)). apply Fa, fine_nil. }
  apply fine_word; [in_list|]. rewrite Es. cbn [flat_map]. rewrite app_nil_r. apply fine_app; [apply Fs|].
  apply fine_app.
  { clear -Pj Fc Fs. induction (Joins s) as [|j js IH]; [apply fine_nil|]. inversion Pj as [|? ? [Hj _] Pj']; subst.
    cbn [flat_map]. apply fine_app; [|auto]. unfold print_join. apply fine_word; [destruct (j_Type j); in_list|].
    apply fine_word; [in_list|]. apply fine_app; [apply Fs|]. apply Fc; [in_list|exact Hj]. }
  apply fine_app; [apply Fc; [in_list|exact Pw]|]. apply fine_app.
  { unfold print_dims. destruct (Dimensions s) as [|d ds]; [apply fine_nil|]. apply fine_word; [in_list|].
    apply fine_word; [in_list|]. apply fine_commas. apply Forall_map. eapply Forall_impl; [|exact Pd]. intros x. apply print_fine. }
  apply fine_app; [apply Fc; [in_list|exact Ph]|]. unfold print_sorts. destruct (SortFields s) as [|x l]; [apply fine_nil|].
  apply fine_word; [in_list|]. apply fine_word; [in_list|]. apply fine_commas. apply Forall_map. apply Forall_forall.
  intros y _. unfold print_sort. apply fine_app; [apply fine_names|]. destruct (s_Ascending y); auto with fine.
Qed.

Lemma text_length ts : (List.length ts <= List.length (text ts))%nat.
Proof.
  induction ts as [|t ts IH]; [cbn; lia|]. change (text (t :: ts)) with (32 :: (spell t ++ text ts)).
  cbn [List.length]. rewrite length_app. lia.
Qed.

(** C3: a SELECT statement survives the round trip through its text: for every
    statement whose parts have a text, scanning and parsing the text with
    which it is written gives the statement back, operators grouped as they
    were, with clauses, aliases, joins and sort fields in their places. *)
Theorem select_roundtrip s extra : printable_select s -> Forall spellable (print_select s) ->
  exists p, ParseTree_Parse ff rt (parse_fuel (text (print_select s)) + extra) (NewParser (text (print_select s)))
    = Ok (Some (SelectStmt s)) p.
Proof.
  intros Hs Hsp. set (f := (_ + extra)%nat).
  assert (Hf : (4 * List.length (print_select s) + 4 <= f)%nat).
  { pose proof (text_length (print_select s)). unfold f, parse_fuel. lia. }
  destruct (select_fine s Hs) as [W G]. destruct (text_lexes _ W Hsp G) as [L _].
  assert (A : at_tokens (NewParser (text (print_select s))) (print_select s ++ [tk EOF])).
  { split; [reflexivity|]. exists (text (print_select s)). split; [split; [apply reads_start|cbn; lia]|exact L]. }
  unfold ParseTree_Parse.
  destruct (gives_peek (fun t => unscan ;; match fst t with
     | SELECT => let* s := Parse ff rt f in ret (option_map SelectStmt s)
     | CREATE => ParseCreateStmt f
     | SHOW => parseShowStmt
     | EXPLAIN => parseExplainStmt
     | DESCRIBE => parseDescribeStmt
     | DROP => parseDropStmt
     | _ => ret None
     end)%parser (let* s := Parse ff rt f in ret (option_map SelectStmt s))%parser (Some (SelectStmt s)) (word SELECT)
     (tl (print_select s ++ [tk EOF])) (print_select s ++ [tk EOF]) []) with (p := NewParser (text (print_select s))) as (p & E & _).
  - now rewrite app_nil_r.
  - reflexivity.
  - intros p Hp. rewrite app_nil_r in Hp. destruct (Parse_takes s f Hs Hf p Hp) as (p1 & E1 & Hp1).
    exists p1. split; [|exact Hp1]. unfold bind. now rewrite E1.
  - now rewrite app_nil_r.
  - exists p. exact E.
Qed.
End Select.

Definition sample_select : SelectStatement :=
  mkSelect
    [mkField "a" "x" (FieldRef DefaultStream "a" None);
     mkField "" "" (BinaryExpr SUB (FieldRef "d" "b" None) (BinaryExpr MUL (IntegerLiteral 2) (Call "abs" [FieldRef "d" "c" None])))]
    [mkTable "demo" "d"]
    [mkJoin "table 1" "" LEFT_JOIN (Some (BinaryExpr EQ (FieldRef "d" "id" None) (FieldRef "table 1" "id" None)))]
    (Some (BinaryExpr OR (BinaryExpr GT (FieldRef DefaultStream "a" None) (IntegerLiteral 3)) (BooleanLiteral false)))
    [FieldRef DefaultStream "a" None]
    None
    [mkSortField "b" false].

Lemma select_roundtrip_witness :
  let ff := mkFinder [] (fun _ => false) in
  let rt : Runtime := fun _ => inl "no plugin" in
  printable_select ff rt sample_select
  /\ exists p, ParseTree_Parse ff rt (parse_fuel (text (print_select sample_select)) + 0) (NewParser (text (print_select sample_select)))
    = Ok (Some (SelectStmt sample_select)) p.
Proof.
  intros ff rt. assert (H : printable_select ff rt sample_select).
  { split.
    - right. split; [discriminate|]. repeat constructor; cbn; unfold callable, natural, MaxInt64; repeat split; discriminate || lia || reflexivity || auto.
    - now exists "demo", "d".
    - repeat constructor; cbn; repeat split; discriminate || lia || auto.
    - cbn; unfold natural, MaxInt64; repeat split; discriminate || lia || auto.
    - repeat constructor; discriminate.
    - exact Logic.I.
    - repeat constructor.
    - reflexivity. }
  split; [exact H|]. apply (select_roundtrip ff rt sample_select 0 H).
  repeat constructor.
Defined.
