(* ===== verification/Value.v ===== *)
(** Run-time values and the evaluation of operators on simple data
    (src/internal/xsql/valuer.go, from [isSliceOrArray] on).

    [value] is what an [interface{}] of the engine can hold.  [fmt.Errorf]
    results are [VError format args].  A computation that can panic returns an
    [option], [None] being the panic.  [int] is 64 bits wide. *)

From S2P Require Import Prelude Token.
From Stdlib Require Import ZArith Lia Bool List String Ascii SpecFloat.
Import ListNotations.

#[local] Open Scope string_scope.
#[local] Open Scope list_scope.
#[local] Open Scope Z_scope.

(** ** Values *)

(** Go types, for the elements of the other slices and for typed nils. *)
Inductive gotype : Type :=
  | GBool | GInt | GInt8 | GInt16 | GInt32 | GInt64 | GUint | GUint8 | GUint16 | GUint32 | GUint64
  | GFloat32 | GFloat64 | GString | GTime | GMessage
  | GMap                       (* map[string]interface{} *)
  | GIface                     (* interface{} *)
  | GSlice (elem : gotype).

Fixpoint gotype_name (t : gotype) : string :=
  match t with
  | GBool => "bool"
  | GInt => "int" | GInt8 => "int8" | GInt16 => "int16" | GInt32 => "int32" | GInt64 => "int64"
  | GUint => "uint" | GUint8 => "uint8" | GUint16 => "uint16" | GUint32 => "uint32" | GUint64 => "uint64"
  | GFloat32 => "float32" | GFloat64 => "float64"
  | GString => "string" | GTime => "time.Time"
  | GMessage => "xsql.Message"
  | GMap => "map[string]interface {}"
  | GIface => "interface {}"
  | GSlice t => "[]" ++ gotype_name t
  end.

Unset Elimination Schemes.

Inductive value : Type :=
  | VNil
  | VBool (b : bool)
  | VInt (z : Z) | VInt8 (z : Z) | VInt16 (z : Z) | VInt32 (z : Z) | VInt64 (z : Z)
  | VUint (z : Z) | VUint8 (z : Z) | VUint16 (z : Z) | VUint32 (z : Z) | VUint64 (z : Z)
  | VFloat32 (f : float64) | VFloat64 (f : float64)
  | VString (s : string)
  | VBytes (s : string)
  | VTime (nanos : Z)
  | VMap (m : list (string * value))      (* map[string]interface{} *)
  | VMessage (m : list (string * value))  (* xsql.Message *)
  | VSlice (l : list value)               (* []interface{} *)
  | VTyped (elem : gotype) (l : list value)  (* []elem, any other slice *)
  | VTypedNil (t : gotype)                (* a nil slice or map with its type *)
  | VBracket (Start End_ : Z)             (* *BracketEvalResult *)
  | VError (format : string) (args : list value).

Set Elimination Schemes.

Definition is_nil (v : value) : bool := match v with VNil => true | _ => false end.
Definition is_error (v : value) : bool := match v with VError _ _ => true | _ => false end.
Definition is_true (v : value) : bool := match v with VBool b => b | _ => false end.

(** The name [%T] prints. *)
Definition type_name (v : value) : string :=
  match v with
  | VNil => "<nil>"
  | VBool _ => "bool"
  | VInt _ => "int" | VInt8 _ => "int8" | VInt16 _ => "int16" | VInt32 _ => "int32"
  | VInt64 _ => "int64"
  | VUint _ => "uint" | VUint8 _ => "uint8" | VUint16 _ => "uint16" | VUint32 _ => "uint32"
  | VUint64 _ => "uint64"
  | VFloat32 _ => "float32" | VFloat64 _ => "float64"
  | VString _ => "string"
  | VBytes _ => "[]uint8"
  | VTime _ => "time.Time"
  | VMap _ => "map[string]interface {}"
  | VMessage _ => "xsql.Message"
  | VSlice _ => "[]interface {}"
  | VTyped t _ => "[]" ++ gotype_name t
  | VTypedNil t => gotype_name t
  | VBracket _ _ => "*xsql.BracketEvalResult"
  | VError _ _ => "*errors.errorString"
  end.

(** [time.Parse]: nanoseconds since the epoch, or an error. *)
Class TimeParse : Type := { time_parse : string -> string -> option Z }.

(** ** Numeric conversion *)

Definition isInt (v : value) : bool :=
  match v with VInt _ | VInt8 _ | VInt16 _ | VInt32 _ | VInt64 _ => true | _ => false end.

Definition toInt64 (v : value) : Z :=
  match v with
  | VInt z | VInt8 z | VInt16 z | VInt32 z | VInt64 z => z
  | _ => 0
  end.

Definition isFloat (v : value) : bool :=
  match v with VFloat32 _ | VFloat64 _ => true | _ => false end.

Definition toFloat64 (v : value) : float64 :=
  match v with VFloat32 f | VFloat64 f => f | _ => f64_zero end.

Definition convertNum (v : value) : value :=
  if isInt v then VInt64 (toInt64 v)
  else if isFloat v then VFloat64 (toFloat64 v)
  else v.

Definition invalidOpError (lhs : value) (op : Token) (rhs : value) : value :=
  VError "invalid operation %[1]T(%[1]v) %s %[3]T(%[3]v)" [lhs; VString (Tokens op); rhs].

Definition divided_by_zero : value := VError "divided by zero" [].

(** ** Operators by operand type *)

(** Operands of which at least one is [nil]. *)
Definition evalNil (lhs rhs : value) (op : Token) : value :=
  match op with
  | EQ | LTE | GTE => VBool (is_nil lhs && is_nil rhs)
  | NEQ => VBool (negb (is_nil lhs && is_nil rhs))
  | LT | GT => VBool false
  | _ => VNil
  end.

Definition evalBool (lhs rhs : bool) (op : Token) : value :=
  match op with
  | AND => VBool (lhs && rhs)
  | OR => VBool (lhs || rhs)
  | BITWISE_AND => VBool (lhs && rhs)
  | BITWISE_OR => VBool (lhs || rhs)
  | BITWISE_XOR => VBool (negb (Bool.eqb lhs rhs))
  | EQ => VBool (Bool.eqb lhs rhs)
  | NEQ => VBool (negb (Bool.eqb lhs rhs))
  | _ => invalidOpError (VBool lhs) op (VBool rhs)
  end.

Definition evalFloat64 (lhs rhs : float64) (op : Token) : value :=
  match op with
  | EQ => VBool (f64_eqb lhs rhs)
  | NEQ => VBool (negb (f64_eqb lhs rhs))
  | LT => VBool (f64_ltb lhs rhs)
  | LTE => VBool (f64_leb lhs rhs)
  | GT => VBool (f64_ltb rhs lhs)
  | GTE => VBool (f64_leb rhs lhs)
  | ADD => VFloat64 (f64_add lhs rhs)
  | SUB => VFloat64 (f64_sub lhs rhs)
  | MUL => VFloat64 (f64_mul lhs rhs)
  | DIV => if f64_is_zero rhs then divided_by_zero else VFloat64 (f64_div lhs rhs)
  | MOD => if f64_is_zero rhs then divided_by_zero else VFloat64 (f64_mod lhs rhs)
  | _ => invalidOpError (VFloat64 lhs) op (VFloat64 rhs)
  end.

Definition evalInt64 (ifd : bool) (lhs rhs : Z) (op : Token) : value :=
  match op with
  | EQ => VBool (lhs =? rhs)
  | NEQ => VBool (negb (lhs =? rhs))
  | LT => VBool (lhs <? rhs)
  | LTE => VBool (lhs <=? rhs)
  | GT => VBool (lhs >? rhs)
  | GTE => VBool (lhs >=? rhs)
  | ADD => VInt64 (int64 (lhs + rhs))
  | SUB => VInt64 (int64 (lhs - rhs))
  | MUL => VInt64 (int64 (lhs * rhs))
  | DIV =>
      if rhs =? 0 then divided_by_zero
      else if ifd then VFloat64 (f64_div (f64_of_Z lhs) (f64_of_Z rhs))
      else VInt64 (int64 (go_div lhs rhs))
  | MOD => if rhs =? 0 then divided_by_zero else VInt64 (int64 (go_mod lhs rhs))
  | BITWISE_AND => VInt64 (Z.land lhs rhs)
  | BITWISE_OR => VInt64 (Z.lor lhs rhs)
  | BITWISE_XOR => VInt64 (Z.lxor lhs rhs)
  | _ => invalidOpError (VInt64 lhs) op (VInt64 rhs)
  end.

Definition evalInt64Uint64 (lhs rhs : Z) (op : Token) : value :=
  match op with
  | EQ => VBool (uint64 lhs =? rhs)
  | NEQ => VBool (negb (uint64 lhs =? rhs))
  | LT => VBool (if lhs <? 0 then true else uint64 lhs <? rhs)
  | LTE => VBool (if lhs <? 0 then true else uint64 lhs <=? rhs)
  | GT => VBool (if lhs <? 0 then false else uint64 lhs >? rhs)
  | GTE => VBool (if lhs <? 0 then false else uint64 lhs >=? rhs)
  | ADD => VUint64 (uint64 (uint64 lhs + rhs))
  | SUB => VUint64 (uint64 (uint64 lhs - rhs))
  | MUL => VUint64 (uint64 (uint64 lhs * rhs))
  | DIV => if rhs =? 0 then divided_by_zero else VUint64 (uint64 lhs / rhs)
  | MOD => if rhs =? 0 then divided_by_zero else VUint64 (uint64 lhs mod rhs)
  | BITWISE_AND => VUint64 (Z.land (uint64 lhs) rhs)
  | BITWISE_OR => VUint64 (Z.lor (uint64 lhs) rhs)
  | BITWISE_XOR => VUint64 (Z.lxor (uint64 lhs) rhs)
  | _ => invalidOpError (VInt64 lhs) op (VUint64 rhs)
  end.

Definition evalUint64Int64 (lhs rhs : Z) (op : Token) : value :=
  match op with
  | EQ => VBool (lhs =? uint64 rhs)
  | NEQ => VBool (negb (lhs =? uint64 rhs))
  | LT => VBool (if rhs <? 0 then false else lhs <? uint64 rhs)
  | LTE => VBool (if rhs <? 0 then false else lhs <=? uint64 rhs)
  | GT => VBool (if rhs <? 0 then true else lhs >? uint64 rhs)
  | GTE => VBool (if rhs <? 0 then true else lhs >=? uint64 rhs)
  | ADD => VUint64 (uint64 (lhs + uint64 rhs))
  | SUB => VUint64 (uint64 (lhs - uint64 rhs))
  | MUL => VUint64 (uint64 (lhs * uint64 rhs))
  | DIV => if rhs =? 0 then divided_by_zero else VUint64 (lhs / uint64 rhs)
  | MOD => if rhs =? 0 then divided_by_zero else VUint64 (lhs mod uint64 rhs)
  | BITWISE_AND => VUint64 (Z.land lhs (uint64 rhs))
  | BITWISE_OR => VUint64 (Z.lor lhs (uint64 rhs))
  | BITWISE_XOR => VUint64 (Z.lxor lhs (uint64 rhs))
  | _ => invalidOpError (VUint64 lhs) op (VInt64 rhs)
  end.

Definition evalUint64 (lhs rhs : Z) (op : Token) : value :=
  match op with
  | EQ => VBool (lhs =? rhs)
  | NEQ => VBool (negb (lhs =? rhs))
  | LT => VBool (lhs <? rhs)
  | LTE => VBool (lhs <=? rhs)
  | GT => VBool (lhs >? rhs)
  | GTE => VBool (lhs >=? rhs)
  | ADD => VUint64 (uint64 (lhs + rhs))
  | SUB => VUint64 (uint64 (lhs - rhs))
  | MUL => VUint64 (uint64 (lhs * rhs))
  | DIV => if rhs =? 0 then divided_by_zero else VUint64 (lhs / rhs)
  | MOD => if rhs =? 0 then divided_by_zero else VUint64 (lhs mod rhs)
  | BITWISE_AND => VUint64 (Z.land lhs rhs)
  | BITWISE_OR => VUint64 (Z.lor lhs rhs)
  | BITWISE_XOR => VUint64 (Z.lxor lhs rhs)
  | _ => invalidOpError (VUint64 lhs) op (VUint64 rhs)
  end.

Definition evalString (lhs rhss : string) (op : Token) : value :=
  match op with
  | EQ => VBool (String.eqb lhs rhss)
  | NEQ => VBool (negb (String.eqb lhs rhss))
  | LT => VBool (str_ltb lhs rhss)
  | LTE => VBool (str_leb lhs rhss)
  | GT => VBool (str_ltb rhss lhs)
  | GTE => VBool (str_leb rhss lhs)
  | _ => invalidOpError (VString lhs) op (VString rhss)
  end.

Definition evalTime (lhs rt : Z) (op : Token) (rhs : value) : value :=
  match op with
  | EQ => VBool (lhs =? rt)
  | NEQ => VBool (negb (lhs =? rt))
  | LT => VBool (lhs <? rt)
  | LTE => VBool ((lhs <? rt) || (lhs =? rt))
  | GT => VBool (rt <? lhs)
  | GTE => VBool ((rt <? lhs) || (lhs =? rt))
  | _ => invalidOpError (VTime lhs) op rhs
  end.

Section Eval.
Context {TP : TimeParse}.

(** [cast.InterfaceToTime] with an empty format. *)
Definition JSISO : string := "2006-01-02T15:04:05.000Z07:00".

Definition TimeFromUnixMilli (t : Z) : Z := t * 1000000.

Definition InterfaceToTime (v : value) : option Z :=
  match v with
  | VInt64 t | VInt t => Some (TimeFromUnixMilli t)
  | VFloat64 f => Some (TimeFromUnixMilli (f64_to_int64 f))
  | VTime t => Some t
  | VString s => time_parse JSISO s
  | _ => None
  end.

(** The type dispatch of [simpleDataEval] on two converted operands. *)
Definition evalSimple (ifd : bool) (lhs rhs : value) (op : Token) : value :=
  match lhs with
  | VBool l =>
      match rhs with
      | VBool r => evalBool l r op
      | _ => invalidOpError lhs op (VBool false)
      end
  | VFloat64 l =>
      match rhs with
      | VFloat64 r => evalFloat64 l r op
      | VInt64 r | VUint64 r => evalFloat64 l (f64_of_Z r) op
      | _ => invalidOpError lhs op rhs
      end
  | VInt64 l =>
      match rhs with
      | VFloat64 r => evalFloat64 (f64_of_Z l) r op
      | VInt64 r => evalInt64 ifd l r op
      | VUint64 r => evalInt64Uint64 l r op
      | _ => invalidOpError lhs op rhs
      end
  | VUint64 l =>
      match rhs with
      | VFloat64 r => evalFloat64 (f64_of_Z l) r op
      | VInt64 r => evalUint64Int64 l r op
      | VUint64 r => evalUint64 l r op
      | _ => invalidOpError lhs op rhs
      end
  | VString l =>
      match rhs with
      | VString r => evalString l r op
      | _ => invalidOpError lhs op rhs
      end
  | VTime l =>
      match InterfaceToTime rhs with
      | Some rt => evalTime l rt op rhs
      | None => invalidOpError lhs op rhs
      end
  | _ => invalidOpError lhs op rhs
  end.

Definition simpleDataEval (ifd : bool) (lhs rhs : value) (op : Token) : value :=
  if is_nil lhs || is_nil rhs then evalNil lhs rhs op
  else evalSimple ifd (convertNum lhs) (convertNum rhs) op.
End Eval.

(** ** Brackets: [field\[i\]] and [field\[i:j\]] *)

Definition isSliceOrArray (v : value) : bool :=
  match v with VSlice _ | VTyped _ _ | VTypedNil (GSlice _) | VBytes _ => true | _ => false end.

(** [reflect.Value.Len], [Index] and [Slice] on a slice value. *)
Definition slice_elems (v : value) : list value :=
  match v with
  | VSlice l | VTyped _ l => l
  | VBytes s => map (fun c => VUint8 (Z.of_N (N_of_ascii c))) (list_ascii_of_string s)
  | _ => []
  end.

Definition slice_len (v : value) : Z := Z.of_nat (List.length (slice_elems v)).

Definition slice_index (v : value) (i : Z) : option value :=
  if i <? 0 then None else nth_error (slice_elems v) (Z.to_nat i).

Definition slice_slice (v : value) (i j : Z) : option value :=
  if (0 <=? i) && (i <=? j) && (j <=? slice_len v) then
    match v with
    | VSlice l => Some (VSlice (firstn (Z.to_nat (j - i)) (skipn (Z.to_nat i) l)))
    | VTyped t l => Some (VTyped t (firstn (Z.to_nat (j - i)) (skipn (Z.to_nat i) l)))
    | VTypedNil (GSlice t) => Some v
    | VBytes s => Some (VBytes (substring (Z.to_nat i) (Z.to_nat (j - i)) s))
    | _ => None
    end
  else None.

Definition out_of_index (i len : Z) : value := VError "out of index: %d of %d" [VInt i; VInt len].

(** [subset] once the bracket expression has been evaluated to [Start], [End]. *)
Definition subset_index (val : value) (Start : Z) : option value :=
  let len := slice_len val in
  if 0 >? Start then
    if 0 >? Start + len then Some (out_of_index Start len)
    else slice_index val (Start + len)
  else if Start >=? len then Some (out_of_index Start len)
  else slice_index val Start.

(** The end of a slice and the check against the adjusted start. *)
Definition subset_end (val : value) (Start End_ : Z) : option value :=
  let len := slice_len val in
  if MinInt32 =? End_ then slice_slice val Start len
  else if 0 >? End_ then
    if 0 >? End_ + len then Some (out_of_index End_ len)
    else slice_slice val Start (End_ + len)
  else if End_ >? len then Some (VError "end value is out of index: %d of %d" [VInt End_; VInt len])
  else if Start >=? End_ then
    Some (VError "start cannot be greater than end. start:%d  end:%d" [VInt Start; VInt End_])
  else slice_slice val Start End_.

Definition subset_range (val : value) (Start End_ : Z) : option value :=
  let len := slice_len val in
  if 0 >? Start then
    if 0 >? Start + len then Some (out_of_index Start len)
    else subset_end val (Start + len) End_
  else if Start >=? len then
    Some (VError "start value is out of index: %d of %d" [VInt Start; VInt len])
  else subset_end val Start End_.

Definition subset (val ber : value) : option value :=
  match ber with
  | VBracket s e => if s =? e then subset_index val s else subset_range val s e
  | _ => Some (VError "invalid evaluation result - %v" [VNil])
  end.

(** ** Integer arithmetic *)

(** The mathematical result of an operator on two integers. *)
Definition exact_int (op : Token) (a b : Z) : option Z :=
  match op with
  | ADD => Some (a + b)
  | SUB => Some (a - b)
  | MUL => Some (a * b)
  | DIV => if b =? 0 then None else Some (Z.quot a b)
  | MOD => if b =? 0 then None else Some (Z.rem a b)
  | BITWISE_AND => Some (Z.land a b)
  | BITWISE_OR => Some (Z.lor a b)
  | BITWISE_XOR => Some (Z.lxor a b)
  | _ => None
  end.

(** A number is in the signed range exactly when its bits from 63 on agree. *)
Lemma in_int64_shiftr z : in_int64 z <-> Z.shiftr z 63 = 0 \/ Z.shiftr z 63 = -1.
Proof.
  unfold in_int64, MinInt64, MaxInt64. rewrite Z.shiftr_div_pow2 by lia.
  change (2 ^ 63) with 9223372036854775808. split; intros H.
  - pose proof (Z.div_mod z 9223372036854775808 ltac:(lia)).
    pose proof (Z.mod_pos_bound z 9223372036854775808 ltac:(lia)). nia.
  - pose proof (Z.div_mod z 9223372036854775808 ltac:(lia)).
    pose proof (Z.mod_pos_bound z 9223372036854775808 ltac:(lia)).
    destruct H as [H|H]; rewrite H in *; lia.
Qed.

Lemma in_int64_bitwise f a b :
  (forall x y n, Z.shiftr (f x y) n = f (Z.shiftr x n) (Z.shiftr y n)) ->
  (forall x y, (x = 0 \/ x = -1) -> (y = 0 \/ y = -1) -> f x y = 0 \/ f x y = -1) ->
  in_int64 a -> in_int64 b -> in_int64 (f a b).
Proof. rewrite !in_int64_shiftr. intros Hs Hf Ha Hb. rewrite Hs. auto. Qed.

Ltac bitwise_closed lem :=
  apply in_int64_bitwise; auto;
  [intros; apply lem | intros x y [-> | ->] [-> | ->]; cbn; auto].

Lemma in_int64_land a b : in_int64 a -> in_int64 b -> in_int64 (Z.land a b).
Proof. intros. bitwise_closed Z.shiftr_land. Qed.

Lemma in_int64_lor a b : in_int64 a -> in_int64 b -> in_int64 (Z.lor a b).
Proof. intros. bitwise_closed Z.shiftr_lor. Qed.

Lemma in_int64_lxor a b : in_int64 a -> in_int64 b -> in_int64 (Z.lxor a b).
Proof. intros. bitwise_closed Z.shiftr_lxor. Qed.

#[export] Hint Resolve in_int64_land in_int64_lor in_int64_lxor : kuiper.

(** integer arithmetic at 64 bits: for operands in range, every
    arithmetic and bitwise operator with a defined result yields the
    mathematical result wrapped to 64 bits; the value is always in range, and
    it is the exact result whenever that one fits. *)
Theorem evalInt64_arith op a b e :
  in_int64 a -> in_int64 b -> exact_int op a b = Some e ->
  exists r, evalInt64 false a b op = VInt64 r /\ in_int64 r /\
    r mod 2 ^ 64 = e mod 2 ^ 64 /\ (in_int64 e -> r = e).
Proof.
  intros Ha Hb He.
  assert (W : forall z, in_int64 (int64 z) /\ int64 z mod 2 ^ 64 = z mod 2 ^ 64 /\
                        (in_int64 z -> int64 z = z)).
  { intros z. split; [apply int64_range|]. split; [apply int64_mod|apply int64_id]. }
  destruct op; cbn in He; try discriminate;
    try (destruct (b =? 0) eqn:Eb; [discriminate|]); injection He as <-; cbn [evalInt64];
    rewrite ?Eb; eexists; (split; [reflexivity|]); try apply W;
    (split; [auto with kuiper|split; [reflexivity|auto]]).
Qed.

Lemma evalInt64_arith_witness :
  in_int64 MaxInt64 /\ in_int64 1 /\ exact_int ADD MaxInt64 1 = Some (MaxInt64 + 1) /\
  exists r, evalInt64 false MaxInt64 1 ADD = VInt64 r /\ in_int64 r /\
    r mod 2 ^ 64 = (MaxInt64 + 1) mod 2 ^ 64 /\ (in_int64 (MaxInt64 + 1) -> r = MaxInt64 + 1).
Proof.
  assert (A : in_int64 MaxInt64) by (unfold in_int64, MaxInt64, MinInt64; lia).
  assert (B : in_int64 1) by (unfold in_int64, MaxInt64, MinInt64; lia).
  split; [exact A|]. split; [exact B|]. split; [reflexivity|].
  exact (evalInt64_arith ADD MaxInt64 1 _ A B eq_refl).
Defined.

(** Division and remainder by zero are reported, never executed. *)
Lemma evalInt64_div_zero a op ifd :
  op = DIV \/ op = MOD -> evalInt64 ifd a 0 op = divided_by_zero.
Proof. intros [-> | ->]; reflexivity. Qed.

(** ** Comparisons *)

(** The integer an int64 or uint64 value stands for, when it is in range. *)
Definition as_int (v : value) : option Z :=
  match v with
  | VInt64 z => if (MinInt64 <=? z) && (z <=? MaxInt64) then Some z else None
  | VUint64 z => if (0 <=? z) && (z <? 2 ^ 64) then Some z else None
  | _ => None
  end.

Definition order_op (op : Token) (a b : Z) : option bool :=
  match op with
  | LT => Some (a <? b)
  | LTE => Some (a <=? b)
  | GT => Some (a >? b)
  | GTE => Some (a >=? b)
  | _ => None
  end.

Lemma as_int_cases v z :
  as_int v = Some z -> (v = VInt64 z /\ in_int64 z) \/ (v = VUint64 z /\ in_uint64 z).
Proof.
  unfold in_int64, in_uint64.
  destruct v; cbn [as_int]; try discriminate;
    (match goal with |- context [if ?c then _ else _] => destruct c eqn:E end; [|discriminate]);
    intros [= ->]; bool_to_prop; intuition lia.
Qed.

Lemma uint64_nonneg z : in_int64 z -> 0 <= z -> uint64 z = z.
Proof. unfold in_int64, MaxInt64. intros. apply uint64_id. unfold in_uint64. lia. Qed.

(** ordering between integers is mathematically correct for every mix
    of signed and unsigned 64-bit operands, negative numbers included. *)
Theorem order_ops_exact {TP : TimeParse} ifd l r op a b c :
  as_int l = Some a -> as_int r = Some b -> order_op op a b = Some c ->
  simpleDataEval ifd l r op = VBool c.
Proof.
  intros Hl Hr Hc.
  destruct (as_int_cases _ _ Hl) as [[-> La]|[-> La]];
    destruct (as_int_cases _ _ Hr) as [[-> Rb]|[-> Rb]];
    unfold simpleDataEval; cbn -[uint64];
    destruct op; try discriminate; injection Hc as <-; cbn -[uint64]; try reflexivity;
    match goal with
    | |- context [if ?z <? 0 then _ else _] =>
        unfold in_uint64 in *; destruct (Z.ltb_spec z 0); [|now rewrite uint64_nonneg by assumption]
    end; f_equal; symmetry;
    first [apply Z.ltb_lt | apply Z.leb_le | rewrite Z.gtb_ltb; apply Z.ltb_ge
          | rewrite Z.geb_leb; apply Z.leb_gt | rewrite Z.gtb_ltb; apply Z.ltb_lt
          | rewrite Z.geb_leb; apply Z.leb_le | apply Z.ltb_ge | apply Z.leb_gt]; lia.
Qed.

#[local] Instance no_time_parse : TimeParse := { time_parse := fun _ _ => None }.

Lemma order_ops_exact_witness :
  as_int (VInt64 (-1)) = Some (-1) /\ as_int (VUint64 7) = Some 7 /\
  order_op LT (-1) 7 = Some true /\ simpleDataEval false (VInt64 (-1)) (VUint64 7) LT = VBool true.
Proof.
  split; [reflexivity|]. split; [reflexivity|]. split; [reflexivity|].
  exact (order_ops_exact false (VInt64 (-1)) (VUint64 7) LT (-1) 7 true eq_refl eq_refl eq_refl).
Defined.

(** Equality across signedness has no such guard: a negative number equals the
    unsigned number with the same bits, although it also orders below it. *)
Theorem mixed_equality_wraps :
  simpleDataEval false (VInt64 (-1)) (VUint64 (2 ^ 64 - 1)) EQ = VBool true /\
  simpleDataEval false (VInt64 (-1)) (VUint64 (2 ^ 64 - 1)) LT = VBool true.
Proof. split; vm_compute; reflexivity. Qed.

Definition is_comparison (op : Token) : bool :=
  match op with EQ | NEQ | LT | LTE | GT | GTE => true | _ => false end.

Definition bool_or_error (v : value) : Prop := (exists b, v = VBool b) \/ is_error v = true.

Lemma bool_boe b : bool_or_error (VBool b).
Proof. left. eauto. Qed.

Lemma error_boe f l : bool_or_error (VError f l).
Proof. now right. Qed.

#[export] Hint Resolve bool_boe error_boe : kuiper.

(** a comparison is a condition: on any two values whatsoever, [nil]
    included, a comparison operator yields a boolean or an error, so a WHERE
    clause made of comparisons is never rejected as non-boolean. *)
Theorem comparison_bool_or_error {TP : TimeParse} ifd l r op :
  is_comparison op = true -> bool_or_error (simpleDataEval ifd l r op).
Proof.
  intros Hop. unfold simpleDataEval.
  destruct (is_nil l || is_nil r); [destruct op; try discriminate; cbn; eauto with kuiper|].
  unfold evalSimple.
  destruct (convertNum l); try apply error_boe;
    (match goal with
     | |- context [InterfaceToTime ?x] => destruct (InterfaceToTime x)
     | _ => destruct (convertNum r)
     end); try apply error_boe; destruct op; try discriminate; cbn; eauto with kuiper.
Qed.

Lemma comparison_bool_or_error_witness :
  is_comparison GTE = true /\ bool_or_error (simpleDataEval false VNil (VString "a") GTE).
Proof. split; [reflexivity|]. exact (comparison_bool_or_error false VNil (VString "a") GTE eq_refl). Defined.

(** ** Brackets *)

(** The element position a bracket index denotes, from the left or the right. *)
Definition resolve (len i : Z) : Z := if i <? 0 then i + len else i.

Lemma slice_index_in v i :
  0 <= i < slice_len v -> exists x, slice_index v i = Some x /\ nth_error (slice_elems v) (Z.to_nat i) = Some x.
Proof.
  unfold slice_len, slice_index. intros H.
  destruct (nth_error (slice_elems v) (Z.to_nat i)) eqn:E.
  - exists v0. destruct (Z.ltb_spec i 0); [lia|]. auto.
  - apply nth_error_None in E. lia.
Qed.

(** indexing: [field\[i\]] counts from the left for [i >= 0] and from the
    right for [i < 0]; an index that falls inside the slice gives that element,
    any other gives an error, and the access never panics. *)
Theorem subset_index_spec val i :
  let p := resolve (slice_len val) i in
  if (0 <=? p) && (p <? slice_len val)
  then exists x, subset val (VBracket i i) = Some x /\ nth_error (slice_elems val) (Z.to_nat p) = Some x
  else exists e, subset val (VBracket i i) = Some e /\ is_error e = true.
Proof.
  unfold subset, subset_index, resolve. rewrite Z.eqb_refl.
  rewrite !Z.gtb_ltb, Z.geb_leb.
  assert (0 <= slice_len val) by (unfold slice_len; lia).
  destruct (Z.ltb_spec i 0).
  - destruct (Z.ltb_spec (i + slice_len val) 0).
    + rewrite (proj2 (Z.leb_gt 0 (i + slice_len val))) by lia. eexists. split; reflexivity.
    + rewrite (proj2 (Z.leb_le 0 (i + slice_len val))),
        (proj2 (Z.ltb_lt (i + slice_len val) (slice_len val))) by lia.
      apply slice_index_in. lia.
  - rewrite (proj2 (Z.leb_le 0 i)) by lia. cbn [andb].
    destruct (Z.leb_spec (slice_len val) i).
    + rewrite (proj2 (Z.ltb_ge i (slice_len val))) by lia. eexists. split; reflexivity.
    + rewrite (proj2 (Z.ltb_lt i (slice_len val))) by lia. apply slice_index_in. lia.
Qed.

(** A slice bound that counts from the right, below the resolved start. *)
Definition crossed (len s e : Z) : bool :=
  (0 <=? resolve len s) && (resolve len s <? len) && (e <? 0) && negb (e =? MinInt32)
  && (0 <=? e + len) && (e + len <? resolve len s).

Lemma slice_slice_in l i j :
  0 <= i <= j -> j <= slice_len (VSlice l) ->
  slice_slice (VSlice l) i j = Some (VSlice (firstn (Z.to_nat (j - i)) (skipn (Z.to_nat i) l))).
Proof.
  intros H1 H2. unfold slice_slice.
  destruct ((0 <=? i) && (i <=? j) && (j <=? slice_len (VSlice l))) eqn:E; [reflexivity|].
  repeat (apply andb_false_iff in E as [E|E]); bool_to_prop; lia.
Qed.

Lemma slice_slice_None l i j :
  0 <= i -> j <= slice_len (VSlice l) -> (slice_slice (VSlice l) i j = None <-> j < i).
Proof.
  intros Hi Hj. destruct (Z.lt_ge_cases j i) as [H|H].
  - unfold slice_slice. rewrite (proj2 (Z.leb_gt i j)), andb_false_r by lia. tauto.
  - rewrite slice_slice_in by lia. split; [discriminate|lia].
Qed.

(** The end bound, for a start already resolved into the slice. *)
Lemma subset_end_None l i e :
  let len := slice_len (VSlice l) in
  0 <= i < len ->
  (subset_end (VSlice l) i e = None <->
   (e <? 0) && negb (e =? MinInt32) && (0 <=? e + len) && (e + len <? i) = true).
Proof.
  intros len Hi. unfold subset_end. fold len. rewrite !Z.gtb_ltb, Z.geb_leb, (Z.eqb_sym e).
  destruct (Z.eqb_spec MinInt32 e) as [<-|Hm]; cbn [negb].
  - rewrite andb_false_r, slice_slice_None by lia. split; [lia|discriminate].
  - destruct (Z.ltb_spec e 0); cbn [andb].
    + destruct (Z.ltb_spec (e + len) 0).
      * rewrite (proj2 (Z.leb_gt 0 (e + len))) by lia. split; discriminate.
      * rewrite (proj2 (Z.leb_le 0 (e + len))), slice_slice_None by lia.
        cbn [andb]. rewrite Z.ltb_lt. tauto.
    + destruct (Z.ltb_spec len e); [split; discriminate|].
      destruct (Z.leb_spec e i); [split; discriminate|].
      rewrite slice_slice_None by lia. split; [lia|discriminate].
Qed.

(** the only panic of the bracket operators: slicing a list panics
    exactly when the end counts from the right and lands before the resolved
    start; every other pair of bounds gives a sub-list or an error.  (The check
    that the start is below the end is skipped for a negative end.) *)
Theorem subset_range_panics_iff l s e :
  s <> e ->
  (subset (VSlice l) (VBracket s e) = None <-> crossed (slice_len (VSlice l)) s e = true).
Proof.
  intros Hse. unfold subset. apply Z.eqb_neq in Hse as ->.
  unfold subset_range, crossed, resolve. set (len := slice_len (VSlice l)).
  assert (0 <= len) by (unfold len, slice_len; lia).
  rewrite !Z.gtb_ltb, !Z.geb_leb. destruct (Z.ltb_spec s 0).
  - destruct (Z.ltb_spec (s + len) 0).
    + rewrite (proj2 (Z.leb_gt 0 (s + len))) by lia. split; discriminate.
    + rewrite (proj2 (Z.leb_le 0 (s + len))), (proj2 (Z.ltb_lt (s + len) len)) by lia.
      apply subset_end_None. lia.
  - rewrite (proj2 (Z.leb_le 0 s)) by lia. destruct (Z.leb_spec len s).
    + rewrite (proj2 (Z.ltb_ge s len)) by lia. split; discriminate.
    + rewrite (proj2 (Z.ltb_lt s len)) by lia. apply subset_end_None. lia.
Qed.

Lemma subset_range_panics_iff_witness :
  (3 <> -4) /\ crossed 5 3 (-4) = true /\
  subset (VSlice [VInt 1; VInt 2; VInt 3; VInt 4; VInt 5]) (VBracket 3 (-4)) = None.
Proof.
  assert (N : 3 <> -4) by lia.
  split; [exact N|]. split; [reflexivity|].
  apply (subset_range_panics_iff [VInt 1; VInt 2; VInt 3; VInt 4; VInt 5] 3 (-4) N).
  reflexivity.
Defined.
