(* ===== verification/Collections.v ===== *)
(** Data carried between operators (src/internal/xsql/collections.go):
    messages, tuples, the tuple sets of windows and joins, and the groups of
    GROUP BY.

    A Go map is an association list in its iteration order, so that code which
    depends on that order is visible; lookups are shown not to depend on it.  A
    [nil] map and an empty map are told apart only where the code tells them
    apart ([Metadata], [AliasMap]). *)

From S2P Require Import Prelude Token Value.
From Stdlib Require Import ZArith Lia Bool List String Ascii Permutation Sorted Morphisms.
Import ListNotations.

#[local] Open Scope string_scope.
#[local] Open Scope list_scope.
#[local] Open Scope Z_scope.

Definition DEFAULT_FIELD_NAME_PREFIX : string := "kuiper_field_".
Definition PRIVATE_PREFIX : string := "$$".

(** ** Messages *)

Definition Message := list (string * value).

Definition ToMessage (v : value) : option Message :=
  match v with
  | VMessage m | VMap m => Some m
  | VTypedNil GMap => Some []
  | _ => None
  end.

(** [getIgnoreCase]: the first entry, in iteration order, whose key matches. *)
Fixpoint getIgnoreCase (m : Message) (key : string) : option value :=
  match m with
  | [] => None
  | (k, v) :: m' => if String.eqb (to_lower k) (to_lower key) then Some v else getIgnoreCase m' key
  end.

(** The column part of [column] or [stream<BEL>column]. *)
Definition column_key (key : string) : option string :=
  match split_on colsep_char key with
  | [_] => Some key
  | [_; c] => Some c
  | _ => None
  end.

Definition Message_Value (m : Message) (key : string) : option value :=
  match column_key key with
  | None => None
  | Some colkey =>
      match assoc (to_lower colkey) m with
      | Some v => Some v
      | None => getIgnoreCase m colkey
      end
  end.

Definition Message_Meta (m : Message) (key : string) : option value :=
  if String.eqb key "*" then Some (VMap m) else Message_Value m key.

(** ** Aliases *)

(** The lazily created alias map of a tuple. *)
Definition AliasMap := option Message.

Definition AppendAlias (key : string) (v : value) (a : AliasMap) : AliasMap :=
  Some (assoc_set (PRIVATE_PREFIX ++ key)%string v (match a with Some m => m | None => [] end)).

Definition AliasValue (a : AliasMap) (key : string) : option value :=
  match a with None => None | Some m => Message_Value m key end.

(** ** Tuples *)

Record Tuple : Type := mkTuple {
  Emitter : string;
  Msg : Message;
  Timestamp : Z;
  Metadata : option Message;
  t_alias : AliasMap }.

Definition Tuple_Value (t : Tuple) (key : string) : option value :=
  match AliasValue (t_alias t) key with
  | Some v => Some v
  | None => Message_Value (Msg t) key
  end.

Definition meta_map (t : Tuple) : Message := match Metadata t with Some m => m | None => [] end.

Definition Tuple_Meta (t : Tuple) (key : string) : option value :=
  if String.eqb key "*" then Some (VMap (meta_map t)) else Message_Value (meta_map t) key.

Definition Tuple_All (t : Tuple) : option value := Some (VMessage (Msg t)).

Definition Tuple_AppendAlias (key : string) (v : value) (t : Tuple) : Tuple :=
  mkTuple (Emitter t) (Msg t) (Timestamp t) (Metadata t) (AppendAlias key v (t_alias t)).

(** [Clone] copies message and metadata and drops the aliases. *)
Definition Tuple_Clone (t : Tuple) : Tuple :=
  mkTuple (Emitter t) (Msg t) (Timestamp t) (Metadata t) None.

(** ** Window tuple sets *)

Record WindowTuples : Type := mkWT { wt_Emitter : string; wt_Tuples : list Tuple }.

Record WindowRange : Type := mkRange { WindowStart : Z; WindowEnd : Z }.

Record WindowTuplesSet : Type := mkWTS {
  w_Content : list WindowTuples;
  w_Range : option WindowRange }.

Fixpoint content_by_src (c : list WindowTuples) (src : string) : list Tuple :=
  match c with
  | [] => []
  | me :: c' => if String.eqb (wt_Emitter me) src then wt_Tuples me else content_by_src c' src
  end.

Definition GetBySrc (w : WindowTuplesSet) (src : string) : list Tuple :=
  content_by_src (w_Content w) src.

Definition WTS_Len (w : WindowTuplesSet) : Z :=
  match w_Content w with
  | [] => 0
  | c :: _ => Z.of_nat (List.length (wt_Tuples c))
  end.

(** The loop of [AddTuple]: the first entry of the emitter grows, or a new
    entry is appended. *)
Fixpoint add_content (c : list WindowTuples) (t : Tuple) : list WindowTuples :=
  match c with
  | [] => [mkWT (Emitter t) [t]]
  | me :: c' =>
      if String.eqb (wt_Emitter me) (Emitter t)
      then mkWT (wt_Emitter me) (wt_Tuples me ++ [t]) :: c'
      else me :: add_content c' t
  end.

Definition AddTuple (w : WindowTuplesSet) (t : Tuple) : WindowTuplesSet :=
  mkWTS (add_content (w_Content w) t) (w_Range w).

(** [Sort] orders the tuples of every emitter in place. *)
Definition WTS_Sort (w : WindowTuplesSet) : WindowTuplesSet :=
  mkWTS (map (fun c => mkWT (wt_Emitter c) (stable_sort Timestamp (wt_Tuples c))) (w_Content w))
    (w_Range w).

(** ** Joined tuples *)

Record JoinTuple : Type := mkJT { jt_Tuples : list Tuple; jt_alias : AliasMap }.

Definition JT_AddTuple (jt : JoinTuple) (t : Tuple) : JoinTuple :=
  mkJT (jt_Tuples jt ++ [t]) (jt_alias jt).

Definition JT_AddTuples (jt : JoinTuple) (ts : list Tuple) : JoinTuple :=
  mkJT (jt_Tuples jt ++ ts) (jt_alias jt).

(** Which accessor [doGetValue] uses on a member tuple. *)
Inductive accessor : Type := AccValue | AccMeta.

Definition getTupleValue (t : Tuple) (a : accessor) (key : string) : option value :=
  match a with AccValue => Tuple_Value t key | AccMeta => Tuple_Meta t key end.

Fixpoint first_value (ts : list Tuple) (a : accessor) (key : string) : option value :=
  match ts with
  | [] => None
  | t :: ts' => match getTupleValue t a key with Some v => Some v | None => first_value ts' a key end
  end.

Fixpoint emitter_value (ts : list Tuple) (a : accessor) (emitter key : string) : option value :=
  match ts with
  | [] => None
  | t :: ts' =>
      if String.eqb (Emitter t) emitter then getTupleValue t a key
      else emitter_value ts' a emitter key
  end.

(** [doGetValue].  With a single member the key is looked up in it directly;
    the code indexes the first member, so the join tuple must not be empty. *)
Definition doGetValue (jt : JoinTuple) (a : accessor) (key : string) : option value :=
  match split_on colsep_char key with
  | [_] => first_value (jt_Tuples jt) a key
  | [emitter; key'] => emitter_value (jt_Tuples jt) a emitter key'
  | _ => None
  end.

Definition JT_Value (jt : JoinTuple) (key : string) : option value :=
  match AliasValue (jt_alias jt) key with
  | Some v => Some v
  | None => doGetValue jt AccValue key
  end.

Definition JT_Meta (jt : JoinTuple) (key : string) : option value := doGetValue jt AccMeta key.

(** Merging messages: a key that is already there is kept. *)
Definition merge_message (r m : Message) : Message :=
  fold_left (fun r kv => match assoc (fst kv) r with
                         | Some _ => r
                         | None => r ++ [kv]
                         end) m r.

Fixpoint all_of_stream (ts : list Tuple) (stream : string) : option value :=
  match ts with
  | [] => None
  | t :: ts' =>
      if String.eqb (Emitter t) stream then Some (VMessage (Msg t)) else all_of_stream ts' stream
  end.

Definition JT_All (jt : JoinTuple) (stream : string) : option value :=
  if negb (String.eqb stream "") then all_of_stream (jt_Tuples jt) stream
  else Some (VMessage (fold_left (fun r t => merge_message r (Msg t)) (jt_Tuples jt) [])).

Definition JT_AppendAlias (key : string) (v : value) (jt : JoinTuple) : JoinTuple :=
  mkJT (jt_Tuples jt) (AppendAlias key v (jt_alias jt)).

Definition JT_Clone (jt : JoinTuple) : JoinTuple := mkJT (map Tuple_Clone (jt_Tuples jt)) None.

Record JoinTupleSets : Type := mkJTS { js_Content : list JoinTuple; js_Range : option WindowRange }.

(** ** Groups *)

(** A [DataValuer]: what a group is made of. *)
Inductive DataValuer : Type := DTuple (t : Tuple) | DJoin (jt : JoinTuple).

Record GroupedTuples : Type := mkGroup { g_Content : list DataValuer; g_Range : option WindowRange }.

Definition GroupedTuplesSet := list GroupedTuples.

(** ** Lookups ignore case and iteration order *)

(** No two keys of the message differ only in letter case. *)
Definition caseless (m : Message) : Prop := NoDup (map (fun kv => to_lower (fst kv)) m).

Lemma getIgnoreCase_In m key v :
  getIgnoreCase m key = Some v -> exists k, In (k, v) m /\ to_lower k = to_lower key.
Proof.
  induction m as [|[k w] m IH]; cbn; [discriminate|].
  destruct (String.eqb (to_lower k) (to_lower key)) eqn:E; bool_to_prop.
  - intros [= ->]. exists k. auto.
  - intros H. destruct (IH H) as (k' & Hin & Hk). eauto.
Qed.

Lemma In_getIgnoreCase m key k v :
  caseless m -> In (k, v) m -> to_lower k = to_lower key -> getIgnoreCase m key = Some v.
Proof.
  unfold caseless. induction m as [|[k' w] m IH]; cbn; [tauto|].
  rewrite NoDup_cons_iff. intros [Hn Hd] [[= -> ->]|Hin] Hk.
  - rewrite Hk, String.eqb_refl. reflexivity.
  - destruct (String.eqb (to_lower k') (to_lower key)) eqn:E; bool_to_prop; [|auto].
    exfalso. apply Hn. rewrite E, <- Hk. apply in_map_iff. now exists (k, v).
Qed.

Lemma getIgnoreCase_None m key :
  getIgnoreCase m key = None <-> (forall k v, In (k, v) m -> to_lower k <> to_lower key).
Proof.
  induction m as [|[k w] m IH]; cbn; [split; [tauto|reflexivity]|].
  destruct (String.eqb (to_lower k) (to_lower key)) eqn:E; bool_to_prop.
  - split; [discriminate|]. intros H. exfalso. eapply H; [now left|exact E].
  - rewrite IH. split; intros H k' v'; [intros [[= -> ->]|Hin]; eauto|eauto].
Qed.

(** What a key lookup means: the entry whose key equals the column name up to
    letter case. *)
Definition lookup_spec (m : Message) (key : string) (r : option value) : Prop :=
  match column_key key with
  | None => r = None
  | Some c =>
      match r with
      | Some v => exists k, In (k, v) m /\ to_lower k = to_lower c
      | None => forall k v, In (k, v) m -> to_lower k <> to_lower c
      end
  end.

(** message lookup is the case-insensitive column lookup it is meant to
    be: on every message, a value is returned exactly if some key equals the
    column name up to case, and then it is the value of such a key. *)
Theorem Message_Value_spec m key : lookup_spec m key (Message_Value m key).
Proof.
  unfold lookup_spec, Message_Value. destruct (column_key key) as [c|]; [|reflexivity].
  destruct (assoc (to_lower c) m) as [v|] eqn:E.
  - exists (to_lower c). split; [now apply assoc_In|apply to_lower_idem].
  - destruct (getIgnoreCase m c) as [v|] eqn:G.
    + now apply getIgnoreCase_In.
    + now apply getIgnoreCase_None.
Qed.

Lemma caseless_unique m k1 v1 k2 v2 :
  caseless m -> In (k1, v1) m -> In (k2, v2) m -> to_lower k1 = to_lower k2 -> v1 = v2.
Proof.
  intros Hc H1 H2 E.
  pose proof (In_getIgnoreCase m k1 k1 v1 Hc H1 eq_refl).
  pose proof (In_getIgnoreCase m k1 k2 v2 Hc H2 (eq_sym E)). congruence.
Qed.

(** the value found does not depend on Go's random map iteration order:
    two orders of the same message, no two keys of which differ only in case,
    give the same answer to every lookup. *)
Theorem Message_Value_order_independent m m' key :
  caseless m -> Permutation m m' -> Message_Value m key = Message_Value m' key.
Proof.
  intros Hc Hp. pose proof (Message_Value_spec m key) as S1.
  pose proof (Message_Value_spec m' key) as S2. unfold lookup_spec in *.
  destruct (column_key key) as [c|]; [|congruence].
  destruct (Message_Value m key) as [v|], (Message_Value m' key) as [v'|].
  - destruct S1 as (k & Hk & E), S2 as (k' & Hk' & E').
    f_equal. apply (Permutation_in _ (Permutation_sym Hp)) in Hk'.
    exact (caseless_unique m k v k' v' Hc Hk Hk' (eq_trans E (eq_sym E'))).
  - destruct S1 as (k & Hk & E). exfalso. eapply S2; [|exact E]. eapply Permutation_in; eauto.
  - destruct S2 as (k & Hk & E). exfalso. eapply S1; [|exact E].
    eapply Permutation_in; [symmetry; eassumption|eassumption].
  - reflexivity.
Qed.

Lemma Message_Value_order_independent_witness :
  caseless [("Temp", VInt 20); ("id", VInt 1)] /\
  Message_Value [("Temp", VInt 20); ("id", VInt 1)] "temp"
    = Message_Value [("id", VInt 1); ("Temp", VInt 20)] "temp".
Proof.
  assert (H : caseless [("Temp", VInt 20); ("id", VInt 1)]).
  { unfold caseless. cbn. repeat constructor; cbn; intuition discriminate. }
  split; [exact H|]. apply (Message_Value_order_independent _ _ "temp" H). apply perm_swap.
Defined.

(** An alias just appended is what a reference to it finds, in any case of its
    name, provided the name has no separator. *)
Lemma column_key_free key : has_char colsep_char key = false -> column_key key = Some key.
Proof. intros H. unfold column_key. now rewrite split_on_free. Qed.

Lemma AppendAlias_lookup key v a :
  to_lower key = key -> has_char colsep_char key = false ->
  AliasValue (AppendAlias key v a) (PRIVATE_PREFIX ++ key)%string = Some v.
Proof.
  intros Hl Hs. unfold AliasValue, AppendAlias, Message_Value.
  rewrite column_key_free by exact Hs.
  rewrite to_lower_app, Hl. change (to_lower PRIVATE_PREFIX) with PRIVATE_PREFIX.
  now rewrite assoc_set_same.
Qed.

(** ** Window sets collect tuples by emitter *)

Lemma add_content_by_src c t src :
  content_by_src (add_content c t) src =
    content_by_src c src ++ (if String.eqb (Emitter t) src then [t] else []).
Proof.
  induction c as [|me c IH]; cbn.
  - destruct (String.eqb (Emitter t) src); reflexivity.
  - destruct (String.eqb (wt_Emitter me) (Emitter t)) eqn:E; cbn.
    + apply String.eqb_eq in E as ->.
      destruct (String.eqb (Emitter t) src); [reflexivity|now rewrite app_nil_r].
    + destruct (String.eqb (wt_Emitter me) src) eqn:E2; [|exact IH].
      apply String.eqb_eq in E2 as <-. rewrite String.eqb_sym, E. now rewrite app_nil_r.
Qed.

Lemma fold_add_by_src ts : forall w src,
  GetBySrc (fold_left AddTuple ts w) src =
    GetBySrc w src ++ filter (fun t => String.eqb (Emitter t) src) ts.
Proof.
  induction ts as [|t ts IH]; intros w src; cbn [fold_left filter]; [now rewrite app_nil_r|].
  rewrite IH. unfold GetBySrc, AddTuple. cbn [w_Content]. rewrite add_content_by_src, <- app_assoc.
  destruct (String.eqb (Emitter t) src); reflexivity.
Qed.

Definition emitters (c : list WindowTuples) : list string := map wt_Emitter c.

Lemma add_content_emitters c t :
  emitters (add_content c t) =
    if existsb (String.eqb (Emitter t)) (emitters c) then emitters c else emitters c ++ [Emitter t].
Proof.
  unfold emitters. induction c as [|me c IH]; cbn; [reflexivity|].
  rewrite (String.eqb_sym (Emitter t)).
  destruct (String.eqb (wt_Emitter me) (Emitter t)) eqn:E; cbn; [reflexivity|].
  rewrite IH. now destruct (existsb _ _).
Qed.

Lemma add_content_NoDup c t : NoDup (emitters c) -> NoDup (emitters (add_content c t)).
Proof.
  intros H. rewrite add_content_emitters.
  destruct (existsb (String.eqb (Emitter t)) (emitters c)) eqn:E; [assumption|].
  apply (Permutation_NoDup (l := Emitter t :: emitters c)); [apply Permutation_cons_append|].
  constructor; [|assumption]. intros Hin.
  assert (existsb (String.eqb (Emitter t)) (emitters c) = true); [|congruence].
  apply existsb_exists. exists (Emitter t). split; [assumption|apply String.eqb_refl].
Qed.

Lemma fold_add_NoDup ts : forall w,
  NoDup (emitters (w_Content w)) -> NoDup (emitters (w_Content (fold_left AddTuple ts w))).
Proof.
  induction ts as [|t ts IH]; intros w H; cbn; [assumption|]. apply IH. now apply add_content_NoDup.
Qed.

Definition all_tuples (w : WindowTuplesSet) : list Tuple := flat_map wt_Tuples (w_Content w).

Lemma add_content_all c t :
  Permutation (flat_map wt_Tuples (add_content c t)) (t :: flat_map wt_Tuples c).
Proof.
  induction c as [|me c IH]; cbn; [reflexivity|].
  destruct (String.eqb (wt_Emitter me) (Emitter t)); cbn.
  - rewrite <- app_assoc. cbn. now rewrite <- Permutation_middle.
  - rewrite IH. now rewrite <- Permutation_middle.
Qed.

Lemma fold_add_all ts : forall w,
  Permutation (all_tuples (fold_left AddTuple ts w)) (all_tuples w ++ ts).
Proof.
  induction ts as [|t ts IH]; intros w; cbn; [now rewrite app_nil_r|].
  rewrite IH. unfold all_tuples at 1, AddTuple. cbn [w_Content].
  rewrite add_content_all. cbn. now rewrite Permutation_middle.
Qed.

Definition empty_set (r : option WindowRange) : WindowTuplesSet := mkWTS [] r.

(** collecting tuples into a window set loses and invents nothing: each
    source sees exactly its own tuples, in arrival order; every emitter has one
    entry; and all entries together are the input tuples. *)
Theorem collect_tuples ts r :
  let w := fold_left AddTuple ts (empty_set r) in
  (forall src, GetBySrc w src = filter (fun t => String.eqb (Emitter t) src) ts) /\
  NoDup (emitters (w_Content w)) /\
  Permutation (all_tuples w) ts.
Proof.
  split; [intros; now rewrite fold_add_by_src|].
  split; [apply fold_add_NoDup; constructor|apply fold_add_all].
Qed.

Lemma sort_by_src c src :
  content_by_src (map (fun c => mkWT (wt_Emitter c) (stable_sort Timestamp (wt_Tuples c))) c) src =
    stable_sort Timestamp (content_by_src c src).
Proof.
  induction c as [|me c IH]; cbn; [reflexivity|].
  now destruct (String.eqb (wt_Emitter me) src).
Qed.

(** sorting a window set orders each source by timestamp, keeps exactly
    its tuples, and keeps the arrival order of tuples with equal timestamps. *)
Theorem WTS_Sort_spec w src :
  let l := GetBySrc w src in
  let l' := GetBySrc (WTS_Sort w) src in
  StronglySorted (key_le Timestamp) l' /\ Permutation l l' /\
  (forall ts, filter (fun t => Timestamp t =? ts) l' = filter (fun t => Timestamp t =? ts) l).
Proof.
  cbn zeta. unfold GetBySrc, WTS_Sort. cbn [w_Content]. rewrite sort_by_src.
  split; [apply stable_sort_sorted|]. split; [apply stable_sort_perm|].
  intros. apply stable_sort_stable.
Qed.

(** ** Merged wildcards *)

Lemma merge_message_assoc m : forall r k,
  assoc k (merge_message r m) = match assoc k r with Some v => Some v | None => assoc k m end.
Proof.
  assert (App : forall (a b : Message) k,
    assoc k (a ++ b) = match assoc k a with Some v => Some v | None => assoc k b end).
  { induction a as [|[k' v'] a IH]; intros b k; cbn; [reflexivity|]. destruct (String.eqb k' k); auto. }
  unfold merge_message. induction m as [|[k' v'] m IH]; intros r k; cbn [fold_left fst].
  - destruct (assoc k r); reflexivity.
  - rewrite IH. cbn [assoc]. destruct (assoc k' r) eqn:E.
    + destruct (assoc k r) eqn:E2; [reflexivity|].
      destruct (String.eqb k' k) eqn:E3; [|reflexivity]. bool_to_prop. congruence.
    + rewrite App. destruct (assoc k r) eqn:E2; [reflexivity|]. cbn.
      destruct (String.eqb k' k); reflexivity.
Qed.

Fixpoint first_assoc (k : string) (ts : list Tuple) : option value :=
  match ts with
  | [] => None
  | t :: ts' => match assoc k (Msg t) with Some v => Some v | None => first_assoc k ts' end
  end.

(** The wildcard over a joined tuple is the union of its members' messages in
    which the leftmost member wins. *)
Lemma JT_All_lookup jt k :
  exists m, JT_All jt "" = Some (VMessage m) /\ assoc k m = first_assoc k (jt_Tuples jt).
Proof.
  eexists. split; [reflexivity|].
  assert (G : forall ts r, assoc k (fold_left (fun r t => merge_message r (Msg t)) ts r) =
    match assoc k r with Some v => Some v | None => first_assoc k ts end).
  { induction ts as [|t ts IH]; intros r; cbn; [now destruct (assoc k r)|].
    rewrite IH, merge_message_assoc. now destruct (assoc k r). }
  now rewrite G.
Qed.
