(* ===== verification/AggFuncs.v ===== *)
(** Aggregate functions over the rows of a window or group
    (src/internal/xsql/funcsAggregate.go), and the [%v] rendering of values they
    and GROUP BY use as a key.

    The plugin registry is a parameter ([Plugins]); formatting of floats, times
    and errors is the standard library's and is the parameter [GoFmt]. *)

From S2P Require Import Prelude Token Ast Value.
From Stdlib Require Import ZArith Lia Bool List String Ascii Permutation.
Import ListNotations.

#[local] Open Scope string_scope.
#[local] Open Scope list_scope.
#[local] Open Scope Z_scope.

(** ** [fmt.Sprintf("%v", v)] *)

Class GoFmt : Type := { fmt_atom : value -> string }.

Fixpoint join (sep : string) (l : list string) : string :=
  match l with
  | [] => ""
  | [s] => s
  | s :: l' => (s ++ sep ++ join sep l')%string
  end.

(** Maps print in key order. *)
Fixpoint insert_key (k v : string) (l : list (string * string)) : list (string * string) :=
  match l with
  | [] => [(k, v)]
  | (k', v') :: l' => if str_leb k k' then (k, v) :: l else (k', v') :: insert_key k v l'
  end.

Section Format.
Context {F : GoFmt}.

Fixpoint fmt_v (v : value) : string :=
  let fix go_list (l : list value) : list string :=
    match l with [] => [] | x :: l' => fmt_v x :: go_list l' end in
  let fix go_map (m : list (string * value)) : list (string * string) :=
    match m with [] => [] | (k, x) :: m' => insert_key k (fmt_v x) (go_map m') end in
  let fmt_map m :=
    ("map[" ++ join " " (map (fun kv => (fst kv ++ ":" ++ snd kv)%string) (go_map m)) ++ "]")%string in
  match v with
  | VNil => "<nil>"
  | VBool b => if b then "true" else "false"
  | VInt z | VInt8 z | VInt16 z | VInt32 z | VInt64 z
  | VUint z | VUint8 z | VUint16 z | VUint32 z | VUint64 z => itoa z
  | VString s => s
  | VBytes s =>
      ("[" ++ join " " (map (fun c => itoa (Z.of_N (N_of_ascii c))) (list_ascii_of_string s)) ++ "]")%string
  | VSlice l | VTyped _ l => ("[" ++ join " " (go_list l) ++ "]")%string
  | VTypedNil (GSlice _) => "[]"
  | VTypedNil GMap => "map[]"
  | VMap m | VMessage m => fmt_map m
  | _ => fmt_atom v
  end.
End Format.

(** ** Folds over a column *)

Definition getCount (s : list value) : Z :=
  fold_left (fun c v => if is_nil v then c else c + 1) s 0.

Fixpoint getFirstValidArg (s : list value) : value :=
  match s with
  | [] => VNil
  | v :: s' => if is_nil v then getFirstValidArg s' else v
  end.

Definition requires (ty : string) (v : value) : value :=
  VError ("requires " ++ ty ++ " but found %[1]T(%[1]v)")%string [v].

(** A loop that folds the values of one Go type, skips [nil] and stops with an
    error at the first value of another type. *)
Section TypedFold.
Context {A T : Type} (proj : value -> option T) (ty : string) (f : A -> T -> A).

Fixpoint typed_fold (s : list value) (acc : A) : A + value :=
  match s with
  | [] => inl acc
  | v :: s' =>
      match proj v with
      | Some x => typed_fold s' (f acc x)
      | None => if is_nil v then typed_fold s' acc else inr (requires ty v)
      end
  end.
End TypedFold.

Definition as_Int (v : value) : option Z := match v with VInt z => Some z | _ => None end.
Definition as_Float (v : value) : option float64 := match v with VFloat64 f => Some f | _ => None end.
Definition as_String (v : value) : option string := match v with VString s => Some s | _ => None end.

Definition sliceIntTotal (s : list value) : Z + value :=
  typed_fold as_Int "int" (fun total vi => int64 (total + vi)) s 0.

Definition sliceFloatTotal (s : list value) : float64 + value :=
  typed_fold as_Float "float64" f64_add s f64_zero.

Definition sliceIntMax (s : list value) (max : Z) : Z + value :=
  typed_fold as_Int "int" (fun max vi => if max <? vi then vi else max) s max.

Definition sliceFloatMax (s : list value) (max : float64) : float64 + value :=
  typed_fold as_Float "float64" (fun max vf => if f64_ltb max vf then vf else max) s max.

Definition sliceStringMax (s : list value) (max : string) : string + value :=
  typed_fold as_String "string" (fun max vs => if str_ltb max vs then vs else max) s max.

Definition sliceIntMin (s : list value) (min : Z) : Z + value :=
  typed_fold as_Int "int" (fun min vi => if min >? vi then vi else min) s min.

Definition sliceFloatMin (s : list value) (min : float64) : float64 + value :=
  typed_fold as_Float "float64" (fun min vf => if f64_ltb vf min then vf else min) s min.

Definition sliceStringMin (s : list value) (min : string) : string + value :=
  typed_fold as_String "string" (fun min vs => if str_ltb min vs then vs else min) s min.

(** [dedup]: the loop over the key column, [i] the position, [n] the length of
    the column.  [r\[i\]] panics when there are fewer rows than keys. *)
Section Dedup.
Context {F : GoFmt}.

Fixpoint dedup_loop (r col : list value) (all : bool) (i n : nat) (keyset : list string)
    (result : list value) : option (list value) :=
  match col with
  | [] => Some result
  | m :: col' =>
      let key := fmt_v m in
      if mem key keyset then dedup_loop r col' all (S i) n keyset result
      else if all || (i =? n - 1)%nat then
        match nth_error r i with
        | Some x => dedup_loop r col' all (S i) n (key :: keyset) (result ++ [x])
        | None => None
        end
      else dedup_loop r col' all (S i) n (key :: keyset) result
  end.

Definition dedup (r col : list value) (all : bool) : option value :=
  match dedup_loop r col all 0 (List.length col) [] [] with
  | None => None
  | Some result =>
      Some (if negb all then match result with [] => VNil | x :: _ => x end else VSlice result)
  end.
End Dedup.

(** ** Dispatch *)

(** What [runtime.Get] of the function plugins answers. *)
Inductive plugin : Type :=
  | NotFound
  | GetError (e : value)
  | Found (isAgg : bool) (exec : list value -> value * bool).

Class Plugins : Type := { runtime_Get : string -> plugin }.

Definition slice_arg (args : list value) (i : nat) : option (list value) :=
  match nth_error args i with Some (VSlice l) => Some l | _ => None end.

Definition ret_sum {A} (mk : A -> value) (r : A + value) : value * bool :=
  match r with inl a => (mk a, true) | inr e => (e, false) end.

Definition bad_arg (fn : string) (v : value) : value :=
  VError ("run " ++ fn ++ " function error: found invalid arg %[1]T(%[1]v)")%string [v].

Definition agg_avg (arg0 : list value) : value * bool :=
  let c := getCount arg0 in
  if c >? 0 then
    match getFirstValidArg arg0 with
    | VInt _ | VInt64 _ => ret_sum (fun r => VInt (int64 (go_div r c))) (sliceIntTotal arg0)
    | VFloat64 _ => ret_sum (fun r => VFloat64 (f64_div r (f64_of_Z c))) (sliceFloatTotal arg0)
    | VNil => (VNil, true)
    | v => (bad_arg "avg" v, false)
    end
  else (VInt 0, true).

Definition agg_max (arg0 : list value) : value * bool :=
  match arg0 with
  | [] => (VError "run max function error: empty data" [], false)
  | _ =>
      match getFirstValidArg arg0 with
      | VInt t | VInt64 t => ret_sum VInt (sliceIntMax arg0 t)
      | VFloat64 t => ret_sum VFloat64 (sliceFloatMax arg0 t)
      | VString t => ret_sum VString (sliceStringMax arg0 t)
      | VNil => (VNil, true)
      | v => (bad_arg "max" v, false)
      end
  end.

Definition agg_min (arg0 : list value) : value * bool :=
  match arg0 with
  | [] => (VError "run min function error: empty data" [], false)
  | _ =>
      match getFirstValidArg arg0 with
      | VInt t | VInt64 t => ret_sum VInt (sliceIntMin arg0 t)
      | VFloat64 t => ret_sum VFloat64 (sliceFloatMin arg0 t)
      | VString t => ret_sum VString (sliceStringMin arg0 t)
      | VNil => (VNil, true)
      | v => (bad_arg "min" v, false)
      end
  end.

Definition agg_sum (arg0 : list value) : value * bool :=
  match arg0 with
  | [] => (VInt 0, true)
  | _ =>
      match getFirstValidArg arg0 with
      | VInt _ | VInt64 _ => ret_sum VInt (sliceIntTotal arg0)
      | VFloat64 _ => ret_sum VFloat64 (sliceFloatTotal arg0)
      | VNil => (VNil, true)
      | v => (bad_arg "sum" v, false)
      end
  end.

Section Dispatch.
Context {F : GoFmt} {P : Plugins}.

Definition agg_dedup (args : list value) : option (value * bool) :=
  match nth_error args 0, nth_error args 1, nth_error args 2 with
  | Some v1, Some v2, Some v3 =>
      match v1, v2, v3 with
      | VSlice l1, VSlice l2, VSlice (x :: l3) =>
          match getFirstValidArg (x :: l3) with
          | VBool all =>
              match dedup l1 l2 all with Some r => Some (r, true) | None => None end
          | _ => Some (VError "Invalid argument type found." [], false)
          end
      | _, _, _ => Some (VError "Invalid argument type found." [], false)
      end
  | _, _, _ => None
  end.

(** [AggregateFunctionValuer.Call]; [None] is a panic of a type assertion or
    an index. *)
Definition agg_Call (name : string) (args : list value) : option (value * bool) :=
  let lowerName := to_lower name in
  let on_slice f := match slice_arg args 0 with Some l => Some (f l) | None => None end in
  if String.eqb lowerName "avg" then on_slice agg_avg
  else if String.eqb lowerName "count" then on_slice (fun l => (VInt (getCount l), true))
  else if String.eqb lowerName "max" then on_slice agg_max
  else if String.eqb lowerName "min" then on_slice agg_min
  else if String.eqb lowerName "sum" then on_slice agg_sum
  else if String.eqb lowerName "collect" then
    match nth_error args 0 with Some v => Some (v, true) | None => None end
  else if String.eqb lowerName "deduplicate" then agg_dedup args
  else match runtime_Get name with
       | NotFound => Some (VNil, false)
       | GetError e => Some (e, false)
       | Found isAgg exec => if negb isAgg then Some (VNil, false) else Some (exec args)
       end.
End Dispatch.

(** ** Correctness of the folds *)

Lemma getCount_acc s : forall c,
  fold_left (fun c v => if is_nil v then c else c + 1) s c =
    c + Z.of_nat (List.length (filter (fun v => negb (is_nil v)) s)).
Proof.
  induction s as [|v s IH]; intros c; cbn [fold_left filter]; [cbn; lia|].
  rewrite IH. destruct (is_nil v); cbn [negb List.length]; lia.
Qed.

(** [count] is the number of values that are not nil. *)
Lemma getCount_spec s : getCount s = Z.of_nat (List.length (filter (fun v => negb (is_nil v)) s)).
Proof. apply getCount_acc. Qed.

(** The column holds only values of one type and nils; its projection. *)
Definition column {T} (proj : value -> option T) (s : list value) (xs : list T) : Prop :=
  (forall v, In v s -> is_nil v = true \/ exists x, proj v = Some x) /\
  xs = flat_map (fun v => match proj v with Some x => [x] | None => [] end) s.

Lemma column_cons {T} (proj : value -> option T) v s xs :
  proj VNil = None -> column proj (v :: s) xs ->
  exists xs', column proj s xs' /\
    ((proj v = None /\ is_nil v = true /\ xs = xs') \/ (exists x, proj v = Some x /\ xs = x :: xs')).
Proof.
  intros Hn [H1 H2]. exists (flat_map (fun v => match proj v with Some x => [x] | None => [] end) s).
  split; [split; [intros; apply H1; now right|reflexivity]|].
  cbn in H2. destruct (H1 v (or_introl eq_refl)) as [Hv|[x Hx]].
  - left. destruct v; try discriminate. rewrite Hn in H2. auto.
  - right. exists x. rewrite Hx in H2. auto.
Qed.

Lemma typed_fold_column {A T} (proj : value -> option T) ty (f : A -> T -> A) s : forall xs acc,
  proj VNil = None -> column proj s xs -> typed_fold proj ty f s acc = inl (fold_left f xs acc).
Proof.
  induction s as [|v s IH]; intros xs acc Hn Hc.
  - destruct Hc as [_ ->]. reflexivity.
  - destruct (column_cons proj v s xs Hn Hc) as (xs' & Hc' & [(Hp & Hv & ->)|(x & Hp & ->)]);
      cbn; rewrite Hp; [rewrite Hv|]; auto.
Qed.

Lemma fold_int_total xs : forall acc,
  fold_left (fun total vi => int64 (total + vi)) xs (int64 acc) = int64 (acc + fold_right Z.add 0 xs).
Proof.
  induction xs as [|x xs IH]; intros acc; cbn; [now rewrite Z.add_0_r|].
  rewrite (int64_eq_mod (int64 acc + x) (acc + x)), IH; [f_equal; lia|].
  rewrite Z.add_mod, int64_mod, <- Z.add_mod; lia.
Qed.

(** [sum] and [avg] over an integer column with nulls: the sum of the
    non-null values, wrapped to 64 bits as Go adds them, and its truncated
    quotient by their number; nulls count for neither. *)
Theorem int_sum_avg s xs :
  column as_Int s xs -> xs <> [] ->
  agg_sum s = (VInt (int64 (fold_right Z.add 0 xs)), true) /\
  agg_avg s = (VInt (int64 (Z.quot (int64 (fold_right Z.add 0 xs)) (Z.of_nat (List.length xs)))), true).
Proof.
  intros Hc Hne.
  assert (T : sliceIntTotal s = inl (int64 (fold_right Z.add 0 xs))).
  { unfold sliceIntTotal. rewrite (typed_fold_column as_Int _ _ s xs 0 eq_refl Hc).
    f_equal. exact (fold_int_total xs 0). }
  assert (C : getCount s = Z.of_nat (List.length xs) /\
              exists z, getFirstValidArg s = VInt z).
  { rewrite getCount_spec. clear T. revert xs Hc Hne.
    induction s as [|v s IH]; intros xs Hc Hne.
    - destruct Hc as [_ ->]. now destruct Hne.
    - destruct (column_cons as_Int v s xs eq_refl Hc) as (xs' & Hc' & [(Hp & Hv & ->)|(x & Hp & ->)]).
      + cbn. rewrite Hv. cbn. auto.
      + destruct v; try discriminate. cbn [filter is_nil negb List.length getFirstValidArg].
        split; [|eauto]. destruct xs' as [|y xs'].
        * assert (N : filter (fun v => negb (is_nil v)) s = []).
          { apply filter_none. intros w Hw. destruct Hc' as [H1 H2].
            destruct (H1 w Hw) as [Hn|[q Hq]]; [now rewrite Hn|].
            exfalso. apply in_split in Hw as (l1 & l2 & ->).
            rewrite flat_map_app in H2. cbn in H2. rewrite Hq in H2.
            destruct (flat_map _ l1); discriminate. }
          now rewrite N.
        * destruct (IH (y :: xs') Hc' ltac:(discriminate)) as [IHc _]. cbn [List.length] in *. lia. }
  destruct C as (Cc & z & Cf). split.
  - unfold agg_sum. destruct s; [destruct Hc as [_ ->]; now destruct Hne|]. now rewrite Cf, T.
  - unfold agg_avg. rewrite Cf, T, Cc. destruct xs; [congruence|].
    cbn [List.length]. rewrite Z.gtb_ltb. rewrite (proj2 (Z.ltb_lt 0 _)) by lia. reflexivity.
Qed.

Lemma int_sum_avg_witness :
  column as_Int [VInt 5; VNil; VInt 4] [5; 4] /\ [5; 4] <> [] /\
  agg_sum [VInt 5; VNil; VInt 4] = (VInt 9, true) /\ agg_avg [VInt 5; VNil; VInt 4] = (VInt 4, true).
Proof.
  assert (C : column as_Int [VInt 5; VNil; VInt 4] [5; 4]).
  { split; [|reflexivity]. intros v [<-|[<-|[<-|[]]]]; cbn; eauto. }
  assert (N : [5; 4] <> @nil Z) by discriminate.
  split; [exact C|]. split; [exact N|]. exact (int_sum_avg _ _ C N).
Defined.

(** Folding with a strict comparison keeps an extremum. *)
Lemma fold_extremum {T} (ltb : T -> T -> bool) (le : T -> T -> Prop) xs : forall m,
  (forall x, le x x) -> (forall x y z, le x y -> le y z -> le x z) ->
  (forall x y, ltb x y = true -> le x y) -> (forall x y, ltb x y = false -> le y x) ->
  let r := fold_left (fun m x => if ltb m x then x else m) xs m in
  In r (m :: xs) /\ (forall x, In x (m :: xs) -> le x r).
Proof.
  induction xs as [|y xs IH]; intros m Hr Ht Hl Hg; cbn [fold_left].
  - split; [now left|]. intros x [->|[]]. apply Hr.
  - destruct (IH (if ltb m y then y else m) Hr Ht Hl Hg) as [I1 I2]. split.
    + destruct I1 as [I1|I1]; [rewrite <- I1; destruct (ltb m y); cbn; auto|cbn; auto].
    + assert (Hm : le m (if ltb m y then y else m)) by (destruct (ltb m y) eqn:E; auto).
      assert (Hy : le y (if ltb m y then y else m)) by (destruct (ltb m y) eqn:E; auto).
      intros x [<-|[<-|Hx]]; [eapply Ht; [exact Hm|]|eapply Ht; [exact Hy|]|]; apply I2; cbn; auto.
Qed.

Lemma column_first s xs :
  column as_Int s xs -> xs <> [] -> exists t, getFirstValidArg s = VInt t /\ In t xs.
Proof.
  revert xs. induction s as [|v s IH]; intros xs Hc Hne.
  - destruct Hc as [_ ->]. now destruct Hne.
  - destruct (column_cons as_Int v s xs eq_refl Hc) as (xs' & Hc' & [(Hp & Hv & ->)|(x & Hp & ->)]).
    + cbn. rewrite Hv. eauto.
    + destruct v; try discriminate. injection Hp as ->. cbn. eexists. split; [reflexivity|now left].
Qed.

(** [max] and [min] over an integer column with nulls return the largest
    and the smallest non-null value of the column. *)
Theorem int_max_min s xs :
  column as_Int s xs -> xs <> [] ->
  (exists m, agg_max s = (VInt m, true) /\ In m xs /\ forall x, In x xs -> x <= m) /\
  (exists m, agg_min s = (VInt m, true) /\ In m xs /\ forall x, In x xs -> m <= x).
Proof.
  intros Hc Hne. destruct (column_first s xs Hc Hne) as (t & Ht & Hin).
  assert (Hs : s <> []) by (intros ->; destruct Hc as [_ ->]; now destruct Hne).
  split.
  - destruct (fold_extremum Z.ltb Z.le xs t ltac:(lia) ltac:(lia)
      ltac:(intros; bool_to_prop; lia) ltac:(intros; bool_to_prop; lia)) as [I1 I2].
    eexists. split.
    + unfold agg_max. destruct s; [congruence|]. rewrite Ht. unfold sliceIntMax.
      now rewrite (typed_fold_column as_Int _ _ _ xs t eq_refl Hc).
    + split; [destruct I1 as [<-|I1]; assumption|]. intros. apply I2. now right.
  - destruct (fold_extremum Z.gtb Z.ge xs t ltac:(lia) ltac:(lia)
      ltac:(intros; bool_to_prop; lia) ltac:(intros; bool_to_prop; lia)) as [I1 I2].
    eexists. split.
    + unfold agg_min. destruct s; [congruence|]. rewrite Ht. unfold sliceIntMin.
      now rewrite (typed_fold_column as_Int _ _ _ xs t eq_refl Hc).
    + split; [destruct I1 as [<-|I1]; assumption|].
      intros x Hx. specialize (I2 x (or_intror Hx)). lia.
Qed.

Lemma int_max_min_witness :
  column as_Int [VInt 5; VNil; VInt 4] [5; 4] /\ [5; 4] <> [] /\
  (exists m, agg_max [VInt 5; VNil; VInt 4] = (VInt m, true) /\ In m [5; 4] /\
     forall x, In x [5; 4] -> x <= m).
Proof.
  assert (C : column as_Int [VInt 5; VNil; VInt 4] [5; 4]).
  { split; [|reflexivity]. intros v [<-|[<-|[<-|[]]]]; cbn; eauto. }
  assert (N : [5; 4] <> @nil Z) by discriminate.
  split; [exact C|]. split; [exact N|]. exact (proj1 (int_max_min _ _ C N)).
Defined.

(** The minimum of a string column is computed with the comparison of the
    maximum: [min] and [max] agree on every string column. *)
Theorem string_min_is_max s : forall m, sliceStringMin s m = sliceStringMax s m.
Proof. reflexivity. Qed.

(** A column that starts with an [int64] is accepted by the type switch but
    refused by the fold, so the aggregate of int64 data is always an error. *)
Theorem int64_columns_fail z s :
  snd (agg_max (VInt64 z :: s)) = false /\ snd (agg_min (VInt64 z :: s)) = false /\
  snd (agg_sum (VInt64 z :: s)) = false /\ snd (agg_avg (VInt64 z :: s)) = false.
Proof.
  repeat split; try reflexivity.
  unfold agg_avg. rewrite getCount_spec. cbn [filter is_nil negb List.length].
  rewrite Z.gtb_ltb, (proj2 (Z.ltb_lt 0 _)) by lia. reflexivity.
Qed.

(** ** Deduplication *)

(** The rows whose key occurs for the first time. *)
Fixpoint first_rows (seen keys : list string) (r : list value) : list value :=
  match keys, r with
  | k :: keys', x :: r' =>
      if mem k seen then first_rows seen keys' r' else x :: first_rows (k :: seen) keys' r'
  | _, _ => []
  end.

Lemma dedup_loop_all {F : GoFmt} pre r : forall col seen result n,
  List.length col = List.length r ->
  dedup_loop (pre ++ r) col true (List.length pre) n seen result =
    Some (result ++ first_rows seen (map fmt_v col) r).
Proof.
  revert pre. induction r as [|x r IH]; intros pre col seen result n H;
    destruct col as [|m col]; try discriminate; cbn [dedup_loop map first_rows];
    [now rewrite app_nil_r|].
  assert (E : pre ++ x :: r = (pre ++ [x]) ++ r) by now rewrite <- app_assoc.
  assert (L : S (List.length pre) = List.length (pre ++ [x])) by (rewrite length_app; cbn; lia).
  destruct (mem (fmt_v m) seen) eqn:Em.
  - rewrite E, L. apply IH. now injection H.
  - cbn [orb]. rewrite nth_error_app2, Nat.sub_diag by lia. cbn [nth_error].
    rewrite E, L, IH by (now injection H). now rewrite <- app_assoc.
Qed.

(** [deduplicate(col, true)] keeps, in order, exactly the rows whose
    rendered key has not occurred in an earlier row. *)
Theorem dedup_all_first_rows {F : GoFmt} r col :
  List.length col = List.length r ->
  dedup r col true = Some (VSlice (first_rows [] (map fmt_v col) r)).
Proof.
  intros H. unfold dedup. change r with ([] ++ r) at 1.
  change 0%nat with (List.length (@nil value)). now rewrite dedup_loop_all.
Qed.

#[local] Instance fmt_constant : GoFmt := { fmt_atom := fun _ => "" }.

Lemma dedup_all_first_rows_witness :
  List.length [VInt 1; VInt 1; VInt 2] = List.length [VString "a"; VString "b"; VString "c"] /\
  dedup [VString "a"; VString "b"; VString "c"] [VInt 1; VInt 1; VInt 2] true
    = Some (VSlice [VString "a"; VString "c"]).
Proof.
  split; [reflexivity|].
  exact (dedup_all_first_rows [VString "a"; VString "b"; VString "c"] [VInt 1; VInt 1; VInt 2] eq_refl).
Defined.
