(* ===== verification/Cast.v ===== *)
(** Conversions between Go types (src/pkg/cast/cast.go).

    [ToInt] to [ToInt64] and [ToUint8] to [ToUint64] are copies of two functions
    at different widths, and so are they here.  A conversion gives an error
    ([inl]) or the number.  What the packages [strconv] does with floats, and
    what converting a float to an integer type that cannot hold it gives, which
    Go leaves to the platform, are parameters. *)

From S2P Require Import Prelude Token Lexical Strconv Value AggFuncs.
From Stdlib Require Import ZArith Lia Bool List String Ascii SpecFloat.
Import ListNotations.

#[local] Open Scope string_scope.
#[local] Open Scope list_scope.
#[local] Open Scope Z_scope.

(** ** Strictness and the parameters *)

Inductive Strictness : Type := STRICT | CONVERT_SAMEKIND | CONVERT_ALL.

Definition not_strict (sn : Strictness) : bool := match sn with STRICT => false | _ => true end.
Definition convert_all (sn : Strictness) : bool := match sn with CONVERT_ALL => true | _ => false end.

Class FloatLib : Type := {
  parse_float : Z -> string -> option float64;  (* ParseFloat(s, bits) *)
  format_float : Z -> float64 -> string;        (* FormatFloat(f, 'f', -1, bits) *)
  float_other : bool -> Z -> float64 -> Z       (* a float out of range: signed, width *)
}.

Definition cannot (input : value) (ty : string) : value := VError ("cannot convert %[1]T(%[1]v) to " ++ ty)%string [input].

(** ** Floats and integers *)

Definition f64_finite (f : float64) : bool := match f with S754_nan | S754_infinity _ => false | _ => true end.

Definition int_min (signed : bool) (w : Z) : Z := if signed then - 2 ^ (w - 1) else 0.
Definition int_max (signed : bool) (w : Z) : Z := if signed then 2 ^ (w - 1) - 1 else 2 ^ w - 1.

Definition in_range (signed : bool) (w z : Z) : Prop := int_min signed w <= z <= int_max signed w.

(** A [float32] is kept as the binary64 number it is equal to. *)
Definition f32_of_f64 (f : float64) : float64 :=
  match f with
  | S754_finite s m e =>
      match binary_normalize 24 128 (if s then Z.neg m else Z.pos m) e s with
      | S754_finite s' m' e' => binary_normalize f64_prec f64_emax (if s' then Z.neg m' else Z.pos m') e' s'
      | g => g
      end
  | _ => f
  end.

Definition f32_of_Z (z : Z) : float64 :=
  match binary_normalize 24 128 z 0 false with
  | S754_finite s m e => binary_normalize f64_prec f64_emax (if s then Z.neg m else Z.pos m) e s
  | g => g
  end.

Section Casts.
Context {L : FloatLib} {F : GoFmt}.

(** [intN(f)]: truncation, where the result fits. *)
Definition float_to (signed : bool) (w : Z) (f : float64) : Z :=
  let t := f64_trunc f in
  if f64_finite f && (int_min signed w <=? t) && (t <=? int_max signed w) then t else float_other signed w f.

Definition isIntegral64 (val : float64) : bool := f64_eqb val (f64_of_Z (float_to true 64 val)).
Definition isIntegral32 (val : float64) : bool := f64_eqb val (f32_of_Z (float_to true 64 val)).

(** ** Strings *)

Definition ToStringAlways (input : value) : string := fmt_v input.

Definition ToString (input : value) (sn : Strictness) : value + string :=
  match input with
  | VString s | VBytes s => inr s
  | _ =>
      if convert_all sn then
        match input with
        | VBool b => inr (if b then "true" else "false")
        | VFloat64 f => inr (format_float 64 f)
        | VFloat32 f => inr (format_float 32 f)
        | VInt z | VInt8 z | VInt16 z | VInt32 z | VInt64 z
        | VUint z | VUint8 z | VUint16 z | VUint32 z | VUint64 z => inr (itoa z)
        | VNil => inr ""
        | VTime _ | VError _ _ => inr (fmt_v input)  (* a Stringer, an error *)
        | _ => inl (cannot input "string")
        end
      else inl (cannot input "string")
  end.

(** ** Signed integers *)

Definition to_signed (w : Z) (ty : string) (input : value) (sn : Strictness) : value + Z :=
  match input with
  | VInt s | VInt8 s | VInt16 s | VInt32 s | VInt64 s
  | VUint s | VUint8 s | VUint16 s | VUint32 s | VUint64 s => inr (wrapS w s)
  | VFloat64 s => if not_strict sn || isIntegral64 s then inr (float_to true w s) else inl (cannot input ty)
  | VFloat32 s => if not_strict sn || isIntegral32 s then inr (float_to true w s) else inl (cannot input ty)
  | VString s =>
      if convert_all sn then match ParseInt s with Some v => inr (wrapS w v) | None => inl (cannot input ty) end
      else inl (cannot input ty)
  | VBool b => if convert_all sn then inr (if b then 1 else 0) else inl (cannot input ty)
  | VNil => if convert_all sn then inr 0 else inl (cannot input ty)
  | _ => inl (cannot input ty)
  end.

Definition ToInt := to_signed 64 "int".
Definition ToInt8 := to_signed 8 "int".
Definition ToInt16 := to_signed 16 "int".
Definition ToInt32 := to_signed 32 "int".
Definition ToInt64 := to_signed 64 "int64".

(** ** Floats *)

Definition to_float (bits : Z) (of_Z of_f : Z + float64 -> float64) (input : value) (sn : Strictness) : value + float64 :=
  match input with
  | VFloat64 s | VFloat32 s => inr (of_f (inr s))
  | VInt s | VInt8 s | VInt16 s | VInt32 s | VInt64 s
  | VUint s | VUint8 s | VUint16 s | VUint32 s | VUint64 s =>
      if not_strict sn then inr (of_Z (inl s)) else inl (cannot input "float64")
  | VString s =>
      if convert_all sn then match parse_float bits s with Some v => inr v | None => inl (cannot input "float64") end
      else inl (cannot input "float64")
  | VBool b => if convert_all sn then inr (of_Z (inl (if b then 1 else 0))) else inl (cannot input "float64")
  | _ => inl (cannot input "float64")
  end.

Definition f64_from (x : Z + float64) : float64 := match x with inl z => f64_of_Z z | inr f => f end.
Definition f32_from (x : Z + float64) : float64 := match x with inl z => f32_of_Z z | inr f => f32_of_f64 f end.

Definition ToFloat64 := to_float 64 f64_from f64_from.
Definition ToFloat32 := to_float 32 f32_from f32_from.

(** ** Unsigned integers *)

Definition negative (input : value) : value :=
  VError "cannot convert %[1]T(%[1]v) to uint, negative not allowed" [input].

Definition to_unsigned (w : Z) (input : value) (sn : Strictness) : value + Z :=
  match input with
  | VString s =>
      if convert_all sn then match ParseUint s with Some v => inr (wrapU w v) | None => inl (cannot input "uint") end
      else inl (cannot input "uint")
  | VInt s | VInt8 s | VInt16 s | VInt32 s | VInt64 s => if s <? 0 then inl (negative input) else inr (wrapU w s)
  | VUint s | VUint8 s | VUint16 s | VUint32 s | VUint64 s => inr (wrapU w s)
  | VFloat32 s =>
      if f64_ltb s f64_zero then inl (negative input)
      else if not_strict sn || isIntegral32 s then inr (float_to false w s)
      else inl (cannot input "uint")
  | VFloat64 s =>
      if f64_ltb s f64_zero then inl (negative input)
      else if not_strict sn || isIntegral64 s then inr (float_to false w s)
      else inl (cannot input "uint")
  | VBool b => if convert_all sn then inr (if b then 1 else 0) else inl (cannot input "uint")
  | VNil => if convert_all sn then inr 0 else inl (cannot input "uint")
  | _ => inl (cannot input "uint")
  end.

Definition ToUint64 := to_unsigned 64.
Definition ToUint8 := to_unsigned 8.
Definition ToUint16 := to_unsigned 16.
Definition ToUint32 := to_unsigned 32.

(** ** Booleans and bytes *)

Definition ToBool (input : value) (sn : Strictness) : value + bool :=
  match input with
  | VBool b => inr b
  | VNil => if convert_all sn then inr false else inl (cannot input "bool")
  | VInt b => if convert_all sn then inr (negb (b =? 0)) else inl (cannot input "bool")
  | VString b =>
      if convert_all sn then
        match ParseBool b with
        | Some r => inr r
        | None => inl (VError "strconv.ParseBool: parsing %q: invalid syntax" [VString b])
        end
      else inl (cannot input "bool")
  | _ => inl (cannot input "bool")
  end.

Definition ToBytes (input : value) (sn : Strictness) : value + string :=
  match input with
  | VBytes b => inr b
  | VString b => if not_strict sn then inr b else inl (cannot input "bytes")
  | _ => inl (cannot input "bytes")
  end.

(** ** Slices *)

Fixpoint conv_all {A} (conv : value -> Strictness -> value + A) (sn : Strictness) (elem_error : Z -> value -> value)
    (i : Z) (l : list value) : value + list A :=
  match l with
  | [] => inr []
  | x :: l' =>
      match conv x sn with
      | inl e => inl (elem_error i e)
      | inr a => match conv_all conv sn elem_error (i + 1) l' with inl e => inl e | inr r => inr (a :: r) end
      end
  end.

Definition slice_error (name : string) (input : value) (i : Z) (e : value) : value :=
  VError ("cannot convert %[1]T(%[1]v) to " ++ name ++ " slice for the %d element: %v")%string [input; VInt i; e].

Definition to_slice {A} (conv : value -> Strictness -> value + A) (name elem_name : string)
    (input : value) (sn : Strictness) : value + list A :=
  if isSliceOrArray input then conv_all conv sn (slice_error elem_name input) 0 (slice_elems input)
  else inl (cannot input (name ++ " slice)")).

Definition ToInt64Slice := to_slice ToInt64 "int" "int".
Definition ToUint64Slice := to_slice ToUint64 "uint" "uint".
Definition ToFloat64Slice := to_slice ToFloat64 "float" "float".
Definition ToBoolSlice := to_slice ToBool "bool" "bool".
Definition ToStringSlice := to_slice ToString "string" "string".
Definition ToBytesSlice := to_slice ToBytes "string" "bytes".

(** [reflect.TypeOf]; the nil interface has no type. *)
Definition type_of (v : value) : option gotype :=
  match v with
  | VBool _ => Some GBool
  | VInt _ => Some GInt | VInt8 _ => Some GInt8 | VInt16 _ => Some GInt16 | VInt32 _ => Some GInt32 | VInt64 _ => Some GInt64
  | VUint _ => Some GUint | VUint8 _ => Some GUint8 | VUint16 _ => Some GUint16 | VUint32 _ => Some GUint32
  | VUint64 _ => Some GUint64
  | VFloat32 _ => Some GFloat32 | VFloat64 _ => Some GFloat64
  | VString _ => Some GString
  | VBytes _ => Some (GSlice GUint8)
  | VTime _ => Some GTime
  | VMap _ => Some GMap
  | VMessage _ => Some GMessage
  | VSlice _ => Some (GSlice GIface)
  | VTyped t _ => Some (GSlice t)
  | VTypedNil t => Some t
  | _ => None
  end.

Definition gotype_dec : forall a b : gotype, {a = b} + {a <> b}.
Proof. decide equality. Defined.

(** Slices of the type of the first converted element.  [None] is a panic: of
    [Index] on an empty slice, of [SliceOf] on no type, or of [Set] on an
    element of another type. *)
Fixpoint typed_rest (conv : value -> Strictness -> value + value) (sn : Strictness) (input : value) (t : gotype)
    (i : Z) (l : list value) : option (value + list value) :=
  match l with
  | [] => Some (inr [])
  | x :: l' =>
      match conv x sn with
      | inl e => Some (inl (slice_error "int" input i e))
      | inr a =>
          match type_of a with
          | Some t' =>
              if gotype_dec t' t then
                match typed_rest conv sn input t (i + 1) l' with Some (inr r) => Some (inr (a :: r)) | r => r end
              else None
          | None => None
          end
      end
  end.

Definition ToTypedSlice (input : value) (conv : value -> Strictness -> value + value) (eleType : string) (sn : Strictness)
    : option (value + value) :=
  if isSliceOrArray input then
    match slice_elems input with
    | [] => None
    | x :: l =>
        match conv x sn with
        | inl e =>
            Some (inl (VError "cannot convert %[1]T(%[1]v) to %s slice for the %d element: %v" [input; VString eleType; VInt 0; e]))
        | inr a =>
            match type_of a with
            | Some t =>
                match typed_rest conv sn input t 1 l with
                | Some (inr r) => Some (inr (VTyped t (a :: r)))
                | Some (inl e) => Some (inl e)
                | None => None
                end
            | None => None
            end
        end
    end
  else Some (inl (VError "cannot convert %[1]T(%[1]v) to %s slice)" [input; VString eleType])).

(** ** Maps *)

(** What a YAML decoder yields: maps with any key, in iteration order. *)
Inductive yaml : Type :=
  | YV (v : value)
  | YMap (m : list (value * yaml))   (* map[interface{}]interface{} *)
  | YSlice (l : list yaml).          (* []interface{} *)

Definition ToStringMap (input : yaml) : value + list (string * yaml) :=
  match input with
  | YMap m => inr (fold_left (fun r kv => assoc_set (ToStringAlways (fst kv)) (snd kv) r) m [])
  | YV (VMap m) => inr (map (fun kv => (fst kv, YV (snd kv))) m)
  | YV v => inl (cannot v "map")
  | YSlice l => inl (VError "cannot convert %[1]T(%[1]v) to map" [])
  end.

(** [ConvertMap] and [ConvertArray] on a value of either type. *)
Fixpoint convert_yaml (y : yaml) : value :=
  match y with
  | YV v => v
  | YMap m =>
      VMap ((fix go (l : list (value * yaml)) (r : list (string * value)) : list (string * value) :=
               match l with [] => r | (k, x) :: l' => go l' (assoc_set (fmt_v k) (convert_yaml x) r) end) m [])
  | YSlice l => VSlice (map convert_yaml l)
  end.

Definition ConvertMap (s : list (value * yaml)) : value := convert_yaml (YMap s).
Definition ConvertArray (s : list yaml) : value := convert_yaml (YSlice s).

(** A [sync.Map] as the entries its [Range] visits. *)
Definition SyncMapToMap (sm : list (value * value)) : list (string * value) :=
  fold_left (fun m kv => assoc_set (fmt_v (fst kv)) (snd kv) m) sm [].

Definition MapToSyncMap (m : list (string * value)) : list (value * value) :=
  map (fun kv => (VString (fst kv), snd kv)) m.
End Casts.

(** ** Facts *)

Section Facts.
Context {L : FloatLib} {F : GoFmt}.

(** *** Ranges *)

Lemma wrapS_in_range w z : 1 <= w -> in_range true w (wrapS w z).
Proof.
  intros Hw. unfold in_range, int_min, int_max, wrapS.
  pose proof (Z.mod_pos_bound (z + 2 ^ (w - 1)) (2 ^ w) ltac:(apply Z.pow_pos_nonneg; lia)).
  assert (2 ^ w = 2 * 2 ^ (w - 1)) by (rewrite <- Z.pow_succ_r by lia; f_equal; lia). lia.
Qed.

Lemma wrapU_in_range w z : 0 <= w -> in_range false w (wrapU w z).
Proof.
  intros Hw. unfold in_range, int_min, int_max, wrapU.
  pose proof (Z.mod_pos_bound z (2 ^ w) ltac:(apply Z.pow_pos_nonneg; lia)). lia.
Qed.

Lemma bit_in_range signed w (b : bool) : 2 <= w -> in_range signed w (if b then 1 else 0).
Proof.
  intros Hw. unfold in_range, int_min, int_max. pose proof (Z.pow_pos_nonneg 2 (w - 1) ltac:(lia) ltac:(lia)).
  assert (2 ^ 1 <= 2 ^ (w - 1)) by (apply Z.pow_le_mono_r; lia).
  assert (2 ^ 1 <= 2 ^ w) by (apply Z.pow_le_mono_r; lia). destruct signed, b; lia.
Qed.

Lemma float_to_in_range signed w f :
  (forall g, in_range signed w (float_other signed w g)) -> in_range signed w (float_to signed w f).
Proof.
  intros H. unfold float_to. destruct (f64_finite f && _ && _) eqn:E; [|apply H].
  bool_to_prop. unfold in_range. lia.
Qed.

(** A conversion to an integer type of [w] bits yields a number of that type,
    whatever it is given. *)
Definition converts_in_range (signed : bool) (w : Z) (conv : value -> Strictness -> value + Z) : Prop :=
  forall v sn z, conv v sn = inr z -> in_range signed w z.

Lemma to_signed_in_range w ty :
  2 <= w -> (forall g, in_range true w (float_other true w g)) -> converts_in_range true w (to_signed w ty).
Proof.
  intros Hw Hf v sn z H. destruct v; cbn [to_signed] in H; try discriminate;
    repeat match type of H with
           | (if ?c then _ else _) = _ => destruct c
           | (match ParseInt ?s with _ => _ end) = _ => destruct (ParseInt s)
           end; try discriminate; injection H as <-;
    first [apply wrapS_in_range; lia | now apply float_to_in_range
          | apply bit_in_range; lia | apply (bit_in_range true w false); lia].
Qed.

Lemma to_unsigned_in_range w :
  2 <= w -> (forall g, in_range false w (float_other false w g)) -> converts_in_range false w (to_unsigned w).
Proof.
  intros Hw Hf v sn z H. destruct v; cbn [to_unsigned] in H; try discriminate;
    repeat match type of H with
           | (if ?c then _ else _) = _ => destruct c
           | (match ParseUint ?s with _ => _ end) = _ => destruct (ParseUint s)
           end; try discriminate; injection H as <-;
    first [apply wrapU_in_range; lia | now apply float_to_in_range
          | apply bit_in_range; lia | apply (bit_in_range false w false); lia].
Qed.


(** *** Strictness *)

Definition looser (sn sn' : Strictness) : bool :=
  match sn, sn' with
  | STRICT, _ | CONVERT_SAMEKIND, CONVERT_SAMEKIND | CONVERT_SAMEKIND, CONVERT_ALL | CONVERT_ALL, CONVERT_ALL => true
  | _, _ => false
  end.

Definition monotone {A} (conv : value -> Strictness -> value + A) : Prop :=
  forall v sn sn' a, looser sn sn' = true -> conv v sn = inr a -> conv v sn' = inr a.

Ltac monotone_tac :=
  let H := fresh in
  intros [] [] [] ? H; try discriminate H; cbn; auto; try discriminate;
  repeat match goal with |- context [if ?c then _ else _] => destruct c end; intros; auto; discriminate.

Lemma ToString_monotone : monotone ToString.
Proof. monotone_tac. Qed.

Lemma to_signed_monotone w ty : monotone (to_signed w ty).
Proof. monotone_tac. Qed.

Lemma to_unsigned_monotone w : monotone (to_unsigned w).
Proof. monotone_tac. Qed.

Lemma to_float_monotone bits of_Z of_f : monotone (to_float bits of_Z of_f).
Proof. monotone_tac. Qed.

Lemma ToBool_monotone : monotone ToBool.
Proof. monotone_tac. Qed.

Lemma ToBytes_monotone : monotone ToBytes.
Proof. monotone_tac. Qed.

Lemma conv_all_monotone {A} (conv : value -> Strictness -> value + A) sn sn' ee l : forall i r,
  monotone conv -> looser sn sn' = true -> conv_all conv sn ee i l = inr r -> conv_all conv sn' ee i l = inr r.
Proof.
  induction l as [|x l IH]; intros i r M Hl; cbn [conv_all]; [auto|].
  destruct (conv x sn) as [e|a] eqn:E; [discriminate|]. rewrite (M _ _ _ _ Hl E).
  destruct (conv_all conv sn ee (i + 1) l) as [e|r'] eqn:E'; [discriminate|]. now rewrite (IH _ _ M Hl E').
Qed.

Lemma to_slice_monotone {A} (conv : value -> Strictness -> value + A) n1 n2 : monotone conv -> monotone (to_slice conv n1 n2).
Proof.
  intros M v sn sn' a Hl. unfold to_slice. destruct (isSliceOrArray v); [|discriminate]. now apply conv_all_monotone.
Qed.

(** loosening the strictness never changes a result: a value that a
    conversion accepts is accepted, with the same result, by the same
    conversion under every looser mode. *)
Theorem strictness_monotone :
  monotone ToString /\ monotone ToInt /\ monotone ToInt8 /\ monotone ToInt16 /\ monotone ToInt32 /\ monotone ToInt64 /\
  monotone ToUint64 /\ monotone ToUint8 /\ monotone ToUint16 /\ monotone ToUint32 /\ monotone ToFloat64 /\
  monotone ToFloat32 /\ monotone ToBool /\ monotone ToBytes /\ monotone ToInt64Slice /\ monotone ToUint64Slice /\
  monotone ToFloat64Slice /\ monotone ToBoolSlice /\ monotone ToStringSlice /\ monotone ToBytesSlice.
Proof.
  unfold ToInt, ToInt8, ToInt16, ToInt32, ToInt64, ToUint64, ToUint8, ToUint16, ToUint32, ToFloat64, ToFloat32,
    ToInt64Slice, ToUint64Slice, ToFloat64Slice, ToBoolSlice, ToStringSlice, ToBytesSlice.
  repeat match goal with |- _ /\ _ => split end;
    try apply to_slice_monotone;
    first [apply ToString_monotone | apply to_signed_monotone | apply to_unsigned_monotone | apply to_float_monotone
          | apply ToBool_monotone | apply ToBytes_monotone].
Qed.

(** *** Round trip *)

(** The values of a Go integer type: their number and type. *)
Definition as_integer (v : value) : option (bool * Z * Z) :=
  match v with
  | VInt z | VInt64 z => Some (true, 64, z) | VInt8 z => Some (true, 8, z) | VInt16 z => Some (true, 16, z)
  | VInt32 z => Some (true, 32, z)
  | VUint z | VUint64 z => Some (false, 64, z) | VUint8 z => Some (false, 8, z) | VUint16 z => Some (false, 16, z)
  | VUint32 z => Some (false, 32, z)
  | _ => None
  end.

Lemma signed_in_int64 w z : In w [8; 16; 32; 64] -> in_range true w z -> in_int64 z.
Proof. cbn. unfold in_range, in_int64, MinInt64, MaxInt64, int_min, int_max. intuition (subst; lia). Qed.

(** an integer that fits 64 signed bits, of any integer type, is read
    back from the string it is converted to. *)
Theorem integer_string_roundtrip v signed w z :
  as_integer v = Some (signed, w, z) -> in_int64 z ->
  exists s, ToString v CONVERT_ALL = inr s /\ ToInt64 (VString s) CONVERT_ALL = inr z /\ ToInt (VString s) CONVERT_ALL = inr z.
Proof.
  intros Hv Hz. exists (itoa z).
  assert (E : ToInt64 (VString (itoa z)) CONVERT_ALL = inr z).
  { unfold ToInt64. cbn [to_signed convert_all]. rewrite ParseInt_itoa by exact Hz. f_equal. apply (int64_id z Hz). }
  split; [|split; [exact E|]].
  - destruct v; try discriminate Hv; injection Hv as <- <- <-; reflexivity.
  - unfold ToInt. cbn [to_signed convert_all]. rewrite ParseInt_itoa by exact Hz. f_equal. apply (int64_id z Hz).
Qed.

(** *** Typed slices *)

Lemma type_of_elem conv sn input t l : forall i r, typed_rest conv sn input t i l = Some (inr r) ->
  Forall2 (fun x a => conv x sn = inr a /\ type_of a = Some t) l r.
Proof.
  induction l as [|x l IH]; intros i r; cbn [typed_rest]; [intros [= <-]; constructor|].
  destruct (conv x sn) as [e|a] eqn:E; [discriminate|]. destruct (type_of a) as [t'|] eqn:T; [|discriminate].
  destruct (gotype_dec t' t) as [->|]; [|discriminate].
  destruct (typed_rest conv sn input t (i + 1) l) as [[e|r']|] eqn:R; try discriminate. intros [= <-].
  constructor; eauto.
Qed.

(** A typed slice holds the converted elements, all of the slice's type. *)
Lemma ToTypedSlice_typed conv input ty sn v :
  ToTypedSlice input conv ty sn = Some (inr v) ->
  exists t r, v = VTyped t r /\ r <> [] /\ Forall2 (fun x a => conv x sn = inr a /\ type_of a = Some t) (slice_elems input) r.
Proof.
  unfold ToTypedSlice. destruct (isSliceOrArray input); [|discriminate].
  destruct (slice_elems input) as [|x l]; [discriminate|]. destruct (conv x sn) as [e|a] eqn:E; [discriminate|].
  destruct (type_of a) as [t|] eqn:T; [|discriminate].
  destruct (typed_rest conv sn input t 1 l) as [[e|r]|] eqn:R; try discriminate. intros [= <-].
  exists t, (a :: r). split; [reflexivity|]. split; [discriminate|]. constructor; [auto|]. now apply type_of_elem in R.
Qed.

(** An empty slice makes it panic, whatever the conversion. *)
Lemma ToTypedSlice_empty conv input ty sn :
  isSliceOrArray input = true -> slice_elems input = [] -> ToTypedSlice input conv ty sn = None.
Proof. unfold ToTypedSlice. now intros -> ->. Qed.

(** Strict conversions to narrow types wrap silently. *)
Lemma strict_narrowing_wraps : ToInt8 (VInt 300) STRICT = inr 44 /\ ToUint8 (VInt 256) STRICT = inr 0 /\
  ToInt64 (VUint64 (2 ^ 64 - 1)) STRICT = inr (-1).
Proof. repeat split; vm_compute; reflexivity. Qed.
End Facts.

(** A platform on which a float out of range converts to the least number. *)
#[local] Instance floats_none : FloatLib :=
  { parse_float := fun _ _ => None; format_float := fun _ _ => "?"; float_other := fun signed w _ => int_min signed w }.
#[local] Instance fmt_question : GoFmt := { fmt_atom := fun _ => "?" }.


Lemma integer_string_roundtrip_witness :
  as_integer (VInt16 (-5)) = Some (true, 16, -5) /\ in_int64 (-5) /\
  exists s, ToString (VInt16 (-5)) CONVERT_ALL = inr s /\ ToInt64 (VString s) CONVERT_ALL = inr (-5) /\
    ToInt (VString s) CONVERT_ALL = inr (-5).
Proof.
  assert (H : in_int64 (-5)) by (unfold in_int64, MinInt64, MaxInt64; lia).
  split; [reflexivity|]. split; [exact H|]. exact (integer_string_roundtrip (VInt16 (-5)) true 16 (-5) eq_refl H).
Defined.
