(* ===== verification/TimeFormat.v ===== *)
(** Times and time formats (src/pkg/cast/time.go).

    A [time.Time] is its nanoseconds since the epoch.  [convertFormat] turns a
    format of the documented letters into a layout of package [time], whose
    [Parse] and [Format] are parameters. *)

From S2P Require Import Prelude Token Lexical Utf8 Value.
From Stdlib Require Import ZArith Lia Bool List String Ascii.
Import ListNotations.

#[local] Open Scope string_scope.
#[local] Open Scope list_scope.
#[local] Open Scope Z_scope.

(** ** Formats *)

Definition quote : rune := 39.

(** The letters that may be repeated, with the longest run the code counts. *)
Definition run_max (r : rune) : option nat :=
  if (r =? chr "Y") || (r =? chr "y") || (r =? chr "M") || (r =? chr "E") then Some 4%nat
  else if (r =? chr "S") || (r =? chr "X") then Some 3%nat
  else if (r =? chr "d") || (r =? chr "H") || (r =? chr "h") || (r =? chr "m") || (r =? chr "s") then Some 2%nat
  else None.

(** The letters that stand alone. *)
Definition fixed (r : rune) : option string :=
  if r =? chr "G" then Some "AD" else if r =? chr "a" then Some "PM"
  else if r =? chr "z" then Some "MST" else if r =? chr "Z" then Some "-0700" else None.

Definition year (j : nat) (f : string) : value + string :=
  match j with
  | 4%nat => inr "2006" | 2%nat => inr "06"
  | _ => inl (VError "invalid time format %s for Y/y" [VString f])
  end.
Definition month (j : nat) : string :=
  match j with 1%nat => "1" | 2%nat => "01" | 3%nat => "Jan" | 4%nat => "January" | _ => "" end.
Definition weekday (j : nat) (f : string) : value + string :=
  match j with
  | 3%nat => inr "Mon" | 4%nat => inr "Monday"
  | _ => inl (VError "invalid time format %s for E" [VString f])
  end.
Definition hour24 (j : nat) (f : string) : value + string :=
  match j with
  | 2%nat => inr "15"
  | _ => inl (VError "invalid time format %s of H, only HH is supported" [VString f])
  end.
Definition one_two (a b : string) (j : nat) : string := match j with 1%nat => a | 2%nat => b | _ => "" end.
Definition millis (j : nat) : string := match j with 1%nat => ".0" | 2%nat => ".00" | 3%nat => ".000" | _ => "" end.
Definition zone (j : nat) : string := match j with 1%nat => "-07" | 2%nat => "-0700" | 3%nat => "-07:00" | _ => "" end.

(** What a run of [j] letters [r] adds to the layout. *)
Definition run_out (r : rune) (j : nat) (f : string) : value + string :=
  if (r =? chr "Y") || (r =? chr "y") then year j f
  else if r =? chr "M" then inr (month j)
  else if r =? chr "d" then inr (one_two "2" "02" j)
  else if r =? chr "E" then weekday j f
  else if r =? chr "H" then hour24 j f
  else if r =? chr "h" then inr (one_two "3" "03" j)
  else if r =? chr "m" then inr (one_two "4" "04" j)
  else if r =? chr "s" then inr (one_two "5" "05" j)
  else if r =? chr "S" then inr (millis j)
  else inr (zone j).

(** The loop [for ; i+j < lenFormat && j <= max; j++]: the further runes equal
    to [r], at most [max]. *)
Fixpoint more (r : rune) (max : nat) (l : list rune) : nat :=
  match max, l with
  | S m, x :: l' => if x =? r then S (more r m l') else O
  | _, _ => O
  end.

(** The text up to the closing quote or the end. *)
Fixpoint text (l : list rune) : list rune :=
  match l with
  | [] => []
  | x :: l' => if x =? quote then [] else x :: text l'
  end.

(** The loop over the runes; [skip] is how many of them [i] has already moved
    past.  [None] is the panic of [formatRune\[i+1\]] behind the last rune. *)
Fixpoint convert (f : string) (skip : nat) (l : list rune) (out : string) : option (value + string) :=
  match l with
  | [] => Some (inr out)
  | r :: l' =>
      match skip with
      | S k => convert f k l' out
      | O =>
          match run_max r with
          | Some max =>
              let j := S (more r max l') in
              match run_out r j f with
              | inl e => Some (inl e)
              | inr s => convert f (j - 1) l' (out ++ s)
              end
          | None =>
              match fixed r with
              | Some s => convert f 0 l' (out ++ s)
              | None =>
                  if r =? quote then
                    match l' with
                    | [] => None
                    | x :: _ =>
                        if x =? quote then convert f 1 l' (out ++ "'")
                        else convert f (List.length (text l') + 1) l' (out ++ encode (text l'))
                    end
                  else convert f 0 l' (out ++ utf8 r)
              end
          end
      end
  end.

Definition convertFormat (f : string) : option (value + string) := convert f 0 (decode f) "".

Example convertFormat_examples :
  map convertFormat ["YYYY-MM-dd HH:mm:ss"; "EEE, d MMM yy hh 'o''clock' a"; "yyyy-MM-dd'T'HH:mm:ssSSXXX"; "''''"; "MMMMM|ddd|SSSS"]
  = map (fun s => Some (inr s))
      ["2006-01-02 15:04:05"; "Mon, 2 Jan 06 03 oclock PM"; "2006-01-02T15:04:05.00-07:00"; "''"; "||"].
Proof. vm_compute. reflexivity. Qed.

(** ** Times *)

Class TimeFormatter : Type := { time_format : Z -> string -> string (* Time.Format *) }.

(** [UnixNano] is a 64-bit number. *)
Definition TimeToUnixMilli (t : Z) : Z := Z.quot (int64 t) 1000000.

Definition unsupported (i : value) : value := VError "unsupported type to convert to timestamp %v" [i].

Section Times.
Context {TP : TimeParse} {TF : TimeFormatter}.

(** [time.Parse], with its error. *)
Definition Parse (layout t : string) : value + Z :=
  match time_parse layout t with
  | Some z => inr z
  | None => inl (VError "parsing time %q as %q: cannot parse" [VString t; VString layout])
  end.

(** The layout for a format that may be absent. *)
Definition layout_of (format : string) : option (value + string) :=
  if String.eqb format "" then Some (inr JSISO) else convertFormat format.

Definition parse_with (format t : string) : option (value + Z) :=
  match layout_of format with
  | Some (inr f) => Some (Parse f t)
  | Some (inl e) => Some (inl e)
  | None => None
  end.

Definition InterfaceToUnixMilli (i : value) (format : string) : option (value + Z) :=
  match i with
  | VInt64 t | VInt t => Some (inr t)
  | VFloat64 t => Some (inr (f64_to_int64 t))
  | VTime t => Some (inr (TimeToUnixMilli t))
  | VString t =>
      match parse_with format t with
      | Some (inr ti) => Some (inr (TimeToUnixMilli ti))
      | r => r
      end
  | _ => Some (inl (unsupported i))
  end.

Definition InterfaceToTime (i : value) (format : string) : option (value + Z) :=
  match i with
  | VInt64 t | VInt t => Some (inr (TimeFromUnixMilli t))
  | VFloat64 t => Some (inr (TimeFromUnixMilli (f64_to_int64 t)))
  | VTime t => Some (inr t)
  | VString t => parse_with format t
  | _ => Some (inl (unsupported i))
  end.

Definition ParseTime (t f : string) : option (value + Z) :=
  match convertFormat f with
  | Some (inr l) => Some (Parse l t)
  | Some (inl e) => Some (inl e)
  | None => None
  end.

Definition FormatTime (t : Z) (f : string) : option (value + string) :=
  match convertFormat f with
  | Some (inr l) => Some (inr (time_format t l))
  | Some (inl e) => Some (inl e)
  | None => None
  end.
End Times.

(** ** What a format means *)

(** The pieces a format is written with. *)
Inductive piece : Type :=
  | Letters (r : rune) (j : nat)       (* MM, dd, yyyy *)
  | Letter (r : rune)                  (* G, a, z, Z *)
  | Quoted (t : list rune)             (* 'text' *)
  | RealQuote                          (* '' *)
  | Literal (r : rune).

Definition special (r : rune) : bool :=
  match run_max r, fixed r with None, None => r =? quote | _, _ => true end.

(** A piece as it is written, what it means, and when it is allowed. *)
Definition written (p : piece) : list rune :=
  match p with
  | Letters r j => repeat r j
  | Letter r => [r]
  | Quoted t => quote :: t ++ [quote]
  | RealQuote => [quote; quote]
  | Literal r => [r]
  end.

Definition meaning (p : piece) : string :=
  match p with
  | Letters r j => match run_out r j "" with inr s => s | inl _ => "" end
  | Letter r => match fixed r with Some s => s | None => "" end
  | Quoted t => encode t
  | RealQuote => "'"
  | Literal r => utf8 r
  end.

Definition allowed (p : piece) : Prop :=
  match p with
  | Letters r j => (1 <= j)%nat /\ (exists max, run_max r = Some max /\ (j <= max)%nat) /\ (exists s, run_out r j "" = inr s)
  | Letter r => exists s, fixed r = Some s
  | Quoted t => t <> [] /\ Forall (fun x => x <> quote) t
  | RealQuote => True
  | Literal r => special r = false
  end.

(** A run does not go on with the next piece. *)
Definition ends (p : piece) (rest : list piece) : Prop :=
  match p, rest with
  | Letters r _, Letters r' _ :: _ => r <> r'
  | _, _ => True
  end.

Fixpoint format_ok (ps : list piece) : Prop :=
  match ps with [] => True | p :: ps' => allowed p /\ ends p ps' /\ format_ok ps' end.

Definition write (ps : list piece) : list rune := flat_map written ps.
Definition layout (ps : list piece) : string := fold_right (fun p s => (meaning p ++ s)%string) "" ps.

Lemma skip_all f : forall n l out, List.length l = n -> forall l2, convert f n (l ++ l2) out = convert f 0 l2 out.
Proof.
  induction n as [|n IH]; intros [|x l] out H l2; try discriminate; [reflexivity|]. cbn [app convert]. apply IH. now injection H.
Qed.

Lemma more_repeat r m n l : (n <= m)%nat -> (match l with x :: _ => x <> r | [] => True end) ->
  more r m (repeat r n ++ l) = n.
Proof.
  revert m. induction n as [|n IH]; intros m Hm Hl; cbn [repeat app].
  - destruct m, l as [|x l]; cbn; try reflexivity. now rewrite (proj2 (Z.eqb_neq _ _) Hl).
  - destruct m; [lia|]. cbn [more]. rewrite Z.eqb_refl. f_equal. apply IH; [lia|exact Hl].
Qed.

Lemma run_out_any r j f s : run_out r j "" = inr s -> run_out r j f = inr s.
Proof.
  unfold run_out. repeat match goal with |- context [if ?c then _ else _] => destruct c end; auto;
    destruct j as [|[|[|[|[|j]]]]]; cbn; auto; discriminate.
Qed.

Lemma text_closed t l : Forall (fun x => x <> quote) t -> text (t ++ quote :: l) = t.
Proof. induction 1 as [|x t Hx _ IH]; [reflexivity|]. cbn. rewrite (proj2 (Z.eqb_neq _ _) Hx). now f_equal. Qed.

(** The first rune of what follows a run is another one. *)
Lemma run_stops r j ps max : run_max r = Some max -> ends (Letters r j) ps -> format_ok ps ->
  match write ps with x :: _ => x <> r | [] => True end.
Proof.
  destruct ps as [|p ps]; [easy|]. cbn [format_ok]. intros Hr He (Hp & _ & _). unfold write. cbn [flat_map].
  destruct p as [r' j'|r'|t| |r']; cbn in *.
  - destruct Hp as (Hj & _). destruct j'; [lia|]. cbn. congruence.
  - destruct Hp as [s Hs]. intros ->. revert Hr Hs. unfold run_max, fixed.
    repeat match goal with |- context [?a =? ?b] => destruct (Z.eqb_spec a b); [subst; try discriminate|] end; discriminate.
  - intros <-. discriminate Hr.
  - intros <-. discriminate Hr.
  - intros ->. unfold special in Hp. now rewrite Hr in Hp.
Qed.

Lemma fixed_not_run r s : fixed r = Some s -> run_max r = None.
Proof.
  unfold run_max, fixed.
  repeat match goal with |- context [if ?a =? ?b then _ else _] => destruct (Z.eqb_spec a b); [subst; intros; reflexivity|] end.
  discriminate.
Qed.

Lemma convert_piece f p ps out : allowed p -> ends p ps -> format_ok ps ->
  convert f 0 (written p ++ write ps) out = convert f 0 (write ps) (out ++ meaning p).
Proof.
  intros Hp He Hps. destruct p as [r j|r|t| |r]; cbn [written meaning].
  - destruct Hp as (Hj & (max & Hm & Hle) & (s & Hs)). destruct j as [|j]; [lia|]. cbn [repeat app convert]. rewrite Hm.
    rewrite more_repeat; [|lia|eapply run_stops; eauto]. rewrite (run_out_any _ _ f _ Hs), Hs.
    rewrite Nat.sub_succ, Nat.sub_0_r. apply skip_all, repeat_length.
  - destruct Hp as [s Hs]. cbn [app convert]. now rewrite (fixed_not_run _ _ Hs), Hs.
  - destruct Hp as [Ht Hq]. cbn [app convert]. change (run_max quote) with (@None nat). change (fixed quote) with (@None string).
    rewrite Z.eqb_refl. rewrite <- app_assoc. cbn [app].
    destruct t as [|x t]; [easy|]. inversion Hq as [|? ? Hx Ht']; subst. cbn [app].
    rewrite (proj2 (Z.eqb_neq _ _) Hx). change (x :: t ++ quote :: write ps) with ((x :: t) ++ quote :: write ps).
    rewrite text_closed by assumption.
    change ((x :: t) ++ quote :: write ps) with ((x :: t) ++ [quote] ++ write ps). rewrite app_assoc.
    apply skip_all. rewrite length_app. reflexivity.
  - cbn [app convert]. change (run_max quote) with (@None nat). change (fixed quote) with (@None string).
    now rewrite !Z.eqb_refl.
  - cbn in Hp. unfold special in Hp. cbn [app convert]. destruct (run_max r); [discriminate|].
    destruct (fixed r); [discriminate|]. now rewrite Hp.
Qed.

Lemma convert_pieces f ps : forall out, format_ok ps -> convert f 0 (write ps) out = Some (inr (out ++ layout ps)%string).
Proof.
  induction ps as [|p ps IH]; intros out H.
  - cbn. now rewrite append_nil_r.
  - destruct H as (Hp & He & Hps). unfold write. cbn [flat_map]. fold (write ps).
    rewrite convert_piece, IH by assumption. cbn [layout fold_right]. now rewrite sapp_assoc.
Qed.

(** a format written with the documented pieces (runs of the pattern
    letters within their lengths, quoted text, doubled quotes, other characters)
    is converted to the layout that the pieces mean, one after the other. *)
Theorem convertFormat_layout ps :
  format_ok ps -> Forall valid_rune (write ps) -> convertFormat (encode (write ps)) = Some (inr (layout ps)).
Proof. intros H V. unfold convertFormat. rewrite decode_encode by exact V. now rewrite convert_pieces. Qed.

Definition iso_pieces : list piece :=
  [Letters (chr "y") 4; Literal (chr "-"); Letters (chr "M") 2; Literal (chr "-"); Letters (chr "d") 2;
   Quoted (runes "T"); Letters (chr "H") 2; RealQuote; Letters (chr "m") 2; Letter (chr "a")].

Lemma convertFormat_layout_witness :
  format_ok iso_pieces /\ Forall valid_rune (write iso_pieces) /\
  convertFormat "yyyy-MM-dd'T'HH''mma" = Some (inr "2006-01-02T15'04PM").
Proof.
  assert (H : format_ok iso_pieces).
  { cbn -[chr run_max run_out]. 
    repeat match goal with
           | |- True => exact I
           | |- _ /\ _ => split
           | |- (_ <= _)%nat => lia
           | |- exists m, _ /\ _ => eexists; split; [reflexivity|lia]
           | |- exists s, _ => eexists; reflexivity
           end; try reflexivity; try discriminate.
    repeat constructor. discriminate. }
  assert (V : Forall valid_rune (write iso_pieces)) 
    by (repeat (apply Forall_cons; [left; vm_compute; split; [discriminate|reflexivity]|]); apply Forall_nil).
  split; [exact H|]. split; [exact V|].
  exact (convertFormat_layout iso_pieces H V).
Defined.

(** A quote that opens nothing, at the end, makes the conversion panic. *)
Lemma convertFormat_panics : convertFormat "HH:mm '" = None.
Proof. reflexivity. Qed.

(** Runs that are too long vanish from the layout. *)
Lemma long_runs_vanish : convertFormat "yyyy-MMMMM-ddd" = Some (inr "2006--").
Proof. reflexivity. Qed.

(** Without a quote nothing panics. *)
Lemma convert_no_quote f l : forall skip out, Forall (fun x => x <> quote) l -> convert f skip l out <> None.
Proof.
  induction l as [|r l IH]; intros skip out H; [discriminate|]. inversion H as [|? ? Hr Hl]; subst. cbn [convert].
  destruct skip; [|now apply IH]. destruct (run_max r) as [max|].
  - destruct (run_out _ _ f); [discriminate|now apply IH].
  - destruct (fixed r); [now apply IH|]. rewrite (proj2 (Z.eqb_neq _ _) Hr). now apply IH.
Qed.

(** ** Milliseconds *)

(** A timestamp is kept by the conversion to a time and back as long as its
    nanoseconds fit 64 bits (the years 1678 to 2262). *)
Lemma millis_roundtrip t : in_int64 (TimeFromUnixMilli t) -> TimeToUnixMilli (TimeFromUnixMilli t) = t.
Proof. intros H. unfold TimeToUnixMilli. rewrite int64_id by exact H. unfold TimeFromUnixMilli. apply Z.quot_mul. lia. Qed.

(** Outside of that range it is another time. *)
Lemma millis_overflow : TimeToUnixMilli (TimeFromUnixMilli 10000000000000) = -8446744073709.
Proof. vm_compute. reflexivity. Qed.

(** The conversion that comparisons use is the one without a format. *)
Lemma InterfaceToTime_default {TP : TimeParse} v :
  exists e, InterfaceToTime v "" = Some (match Value.InterfaceToTime v with Some t => inr t | None => inl e end).
Proof.
  destruct v; first [exists VNil; reflexivity | eexists; reflexivity].
Qed.
