(* ===== verification/Eval.v ===== *)
(** Expression evaluation (src/internal/xsql/valuer.go, funcValuer.go).

    A [Valuer] of the code is one of the composites the operators build: a
    [MultiValuer] list, a [MultiAggregateValuer] (a list plus the data of the
    window or group), or a bare [Message] (the right side of an arrow).  Its
    only mutable part is the alias map of the row, which evaluation extends, so
    [eval] returns the valuer it leaves behind.  The alias map is a shared
    object: the row of an aggregate valuer is also a row of its data, so an
    alias stored through one is seen through the other exactly when they share
    the map ([shares]).  [None] is a run-time panic.

    Parameters: the scalar built-in functions ([Builtins]), the plugin registry
    and the formatting and time parsing of the standard library. *)

From S2P Require Import Prelude Token Ast Value Collections AggFuncs.
From Stdlib Require Import ZArith Lia Bool List String Ascii.
Import ListNotations.

#[local] Open Scope string_scope.
#[local] Open Scope list_scope.
#[local] Open Scope Z_scope.

(** The scalar functions reached through [FunctionValuer.Call]; [None] is a
    panic.  [Functions] implements them. *)
Class Builtins : Type := { builtin_Call : FuncType -> string -> list value -> option (value * bool) }.

(** What evaluation asks of them: the calls that [safe] allows, by name and
    number of arguments, do not panic. *)
Class TotalBuiltins {B : Builtins} (safe : string -> nat -> bool) : Prop :=
  total_builtins : forall ff name args, safe (to_lower name) (List.length args) = true ->
    exists r, builtin_Call (FuncTypeOf ff (to_lower name)) (to_lower name) args = Some r.

(** ** Valuers *)

Inductive valuer : Type :=
  | ValData (d : DataValuer)
  | ValFun
  | ValAggFun
  | ValWild (d : DataValuer).

(** The data an aggregate valuer ranges over. *)
Inductive AggregateData : Type :=
  | ADTuple (t : Tuple)
  | ADWindow (w : WindowTuplesSet)
  | ADJoin (s : JoinTupleSets)
  | ADGroup (g : GroupedTuples).

(** [VaAgg data i row] is the aggregate valuer of the operators: it works on the
    data and on [row], which is row [i] of the data. *)
Inductive Valuer : Type :=
  | VaMulti (vs : list valuer)
  | VaAgg (data : AggregateData) (i : nat) (row : DataValuer)
  | VaMsg (m : Message).

Definition data_Value (d : DataValuer) (key : string) : option value :=
  match d with DTuple t => Tuple_Value t key | DJoin jt => JT_Value jt key end.

Definition data_Meta (d : DataValuer) (key : string) : option value :=
  match d with DTuple t => Tuple_Meta t key | DJoin jt => JT_Meta jt key end.

Definition data_All (d : DataValuer) (stream : string) : option value :=
  match d with DTuple t => Tuple_All t | DJoin jt => JT_All jt stream end.

Definition data_AppendAlias (key : string) (v : value) (d : DataValuer) : DataValuer :=
  match d with
  | DTuple t => DTuple (Tuple_AppendAlias key v t)
  | DJoin jt => DJoin (JT_AppendAlias key v jt)
  end.

(** [strings.Index(key, COLUMN_SEPARATOR+"*")]: the text before it. *)
Fixpoint before_sep_star (key : string) : option string :=
  match key with
  | String c (String d rest as key') =>
      if Ascii.eqb c colsep_char && Ascii.eqb d "*" then Some ""
      else match before_sep_star key' with Some p => Some (String c p) | None => None end
  | _ => None
  end.

Definition WildcardValuer_Value (d : DataValuer) (key : string) : option value :=
  if String.eqb key "" then data_All d key
  else match before_sep_star key with
       | Some "" | None => None
       | Some p => data_All d p
       end.

Definition valuer_Value (v : valuer) (key : string) : option value :=
  match v with
  | ValData d => data_Value d key
  | ValFun | ValAggFun => None
  | ValWild d => WildcardValuer_Value d key
  end.

Definition valuer_Meta (v : valuer) (key : string) : option value :=
  match v with
  | ValData d => data_Meta d key
  | ValFun | ValAggFun | ValWild _ => None
  end.

Fixpoint multi_Value (vs : list valuer) (key : string) : option value :=
  match vs with
  | [] => None
  | v :: vs' => match valuer_Value v key with Some x => Some x | None => multi_Value vs' key end
  end.

Fixpoint multi_Meta (vs : list valuer) (key : string) : option value :=
  match vs with
  | [] => None
  | v :: vs' => match valuer_Meta v key with Some x => Some x | None => multi_Meta vs' key end
  end.

(** The first valuer that accepts the alias stores it. *)
Fixpoint multi_AppendAlias (vs : list valuer) (key : string) (x : value) : list valuer :=
  match vs with
  | [] => []
  | ValData d :: vs' => ValData (data_AppendAlias key x d) :: vs'
  | v :: vs' => v :: multi_AppendAlias vs' key x
  end.

(** ** Aggregate data *)

(** A range embedded as a nil pointer panics when asked for its bounds. *)
Definition range_start (r : option WindowRange) : option Z :=
  match r with Some r => Some (WindowStart r) | None => None end.

Definition range_end (r : option WindowRange) : option Z :=
  match r with Some r => Some (WindowEnd r) | None => None end.

Definition GetWindowStart (d : AggregateData) : option Z :=
  match d with
  | ADTuple _ => Some 0
  | ADWindow w => range_start (w_Range w)
  | ADJoin s => range_start (js_Range s)
  | ADGroup g => range_start (g_Range g)
  end.

Definition GetWindowEnd (d : AggregateData) : option Z :=
  match d with
  | ADTuple _ => Some 0
  | ADWindow w => range_end (w_Range w)
  | ADJoin s => range_end (js_Range s)
  | ADGroup g => range_end (g_Range g)
  end.

(** The rows [AggregateEval] iterates over. *)
Definition agg_rows (d : AggregateData) : list DataValuer :=
  match d with
  | ADTuple t => [DTuple t]
  | ADWindow w =>
      match w_Content w with
      | [c] => map DTuple (wt_Tuples c)
      | _ => []
      end
  | ADJoin s => map DJoin (js_Content s)
  | ADGroup g => g_Content g
  end.

(** The rows of a group are pointers; the rows of a window and of a join are
    structs that the loops copy.  A copy shares the alias map of the original if
    there is one already; otherwise the map the copy makes is its own. *)
Definition by_pointer (d : AggregateData) : bool :=
  match d with ADTuple _ | ADGroup _ => true | ADWindow _ | ADJoin _ => false end.

Definition data_alias (d : DataValuer) : AliasMap :=
  match d with DTuple t => t_alias t | DJoin jt => jt_alias jt end.

(** Does a loop over the data share the alias map of this row of it? *)
Definition shares (d : AggregateData) (row : DataValuer) : bool :=
  by_pointer d || match data_alias row with None => false | Some _ => true end.

(** What the data holds for its row [old] once a loop over it has turned its
    copy of the row into [new]. *)
Definition keep (d : AggregateData) (old new : DataValuer) : DataValuer :=
  if shares d old then new else old.

Definition as_tuple (d : DataValuer) : list Tuple := match d with DTuple t => [t] | DJoin _ => [] end.

Definition as_join (d : DataValuer) : list JoinTuple := match d with DJoin j => [j] | DTuple _ => [] end.

Definition set_rows (d : AggregateData) (rows : list DataValuer) : AggregateData :=
  match d with
  | ADTuple t => match rows with [DTuple t'] => ADTuple t' | _ => d end
  | ADWindow w =>
      match w_Content w with
      | [c] => ADWindow {| w_Content := [{| wt_Emitter := wt_Emitter c;
                                            wt_Tuples := flat_map as_tuple rows |}];
                           w_Range := w_Range w |}
      | _ => d
      end
  | ADJoin s => ADJoin {| js_Content := flat_map as_join rows; js_Range := js_Range s |}
  | ADGroup g => ADGroup {| g_Content := rows; g_Range := g_Range g |}
  end.

Definition set_row (d : AggregateData) (i : nat) (row : DataValuer) : AggregateData :=
  set_rows d (list_set i row (agg_rows d)).

(** The valuers behind an aggregate valuer. *)
Definition agg_valuers (row : DataValuer) : list valuer :=
  [ValData row; ValFun; ValAggFun; ValWild row].

Definition Valuer_Value (V : Valuer) (key : string) : option value :=
  match V with
  | VaMulti vs => multi_Value vs key
  | VaAgg _ _ row => multi_Value (agg_valuers row) key
  | VaMsg m => Message_Value m key
  end.

Definition Valuer_Meta (V : Valuer) (key : string) : option value :=
  match V with
  | VaMulti vs => multi_Meta vs key
  | VaAgg _ _ row => multi_Meta (agg_valuers row) key
  | VaMsg m => Message_Meta m key
  end.

Definition Valuer_AppendAlias (V : Valuer) (key : string) (x : value) : Valuer :=
  match V with
  | VaMulti vs => VaMulti (multi_AppendAlias vs key x)
  | VaAgg d i row =>
      let row' := data_AppendAlias key x row in
      VaAgg (set_row d i (keep d (nth i (agg_rows d) row) row')) i row'
  | VaMsg m => VaMsg m
  end.

(** ** Function calls *)

Section Eval.
Context {TP : TimeParse} {F : GoFmt} {P : Plugins} {B : Builtins}.
Variable ff : FuncFinder.

(** [FunctionValuer.Call]; the finder is the one the call sees. *)
Definition fv_Call (ff : FuncFinder) (name : string) (args : list value) : option (value * bool) :=
  let lowerName := to_lower name in
  match FuncTypeOf ff lowerName with
  | NotFoundFunc =>
      match runtime_Get name with
      | NotFound => Some (VNil, false)
      | GetError e => Some (e, false)
      | Found isAgg exec => if isAgg then Some (VNil, false) else Some (exec args)
      end
  | AggFunc => Some (VNil, false)
  | t => builtin_Call t lowerName args
  end.

Definition call_error (name : string) (v : value) : value :=
  VError "call func %s error: %v" [VString name; v].

(** [multiValuer.Call]: the first call valuer decides. *)
Fixpoint multi_Call (ff : FuncFinder) (vs : list valuer) (name : string) (args : list value)
    : option value :=
  let check r :=
    match r with
    | Some (v, true) => Some v
    | Some (v, false) => Some (call_error name v)
    | None => None
    end in
  match vs with
  | [] => Some VNil
  | ValFun :: _ => check (fv_Call ff name args)
  | ValAggFun :: _ => check (agg_Call name args)
  | _ :: vs' => multi_Call ff vs' name args
  end.

(** [multiAggregateValuer.Call]: aggregates go to the aggregate valuer; for
    other functions a failing valuer is skipped. *)
Fixpoint multiAgg_Call (ff : FuncFinder) (vs : list valuer) (name : string) (args : list value)
    : option value :=
  let isAgg := match FuncTypeOf ff name with AggFunc => true | _ => false end in
  match vs with
  | [] => Some VNil
  | ValAggFun :: vs' =>
      match agg_Call name args with
      | None => None
      | Some (v, true) => Some v
      | Some (v, false) => if isAgg then Some (call_error name v) else multiAgg_Call ff vs' name args
      end
  | ValFun :: vs' =>
      if isAgg then multiAgg_Call ff vs' name args
      else match fv_Call ff name args with
           | None => None
           | Some (v, true) => Some v
           | Some (_, false) => multiAgg_Call ff vs' name args
           end
  | _ :: vs' => multiAgg_Call ff vs' name args
  end.

Definition Valuer_Call (ff : FuncFinder) (V : Valuer) (name : string) (args : list value)
    : option value :=
  match V with
  | VaMulti vs => multi_Call ff vs name args
  | VaAgg _ _ row => multiAgg_Call ff (agg_valuers row) name args
  | VaMsg _ => Some VNil
  end.

(** ** The evaluator *)

(** The key a field reference looks up. *)
Definition field_key (sn : StreamName) (name : string) : string :=
  if fr_IsAlias sn then (PRIVATE_PREFIX ++ name)%string
  else if String.eqb sn DefaultStream then name
  else (sn ++ COLUMN_SEPARATOR ++ name)%string.

Definition meta_key (sn : StreamName) (name : string) : string :=
  if String.eqb sn "" || String.eqb sn DefaultStream then name
  else (sn ++ COLUMN_SEPARATOR ++ name)%string.

Definition case_error (r : value) : value := VError "evaluate case expression error: %s" [r].

Definition row_valuer (d : DataValuer) : Valuer := VaMulti [ValData d; ValFun; ValWild d].

(** The row a row valuer works on. *)
Definition valuer_row (row : DataValuer) (V : Valuer) : DataValuer :=
  match V with VaMulti (ValData d :: _) => d | VaAgg _ _ d => d | _ => row end.

Definition invalid_operation (op : Token) (v : value) : value :=
  VError "%v is an invalid operation for %T" [VString (Tokens op); v].

Notation "'do' ( x , s ) <- m ; k" :=
  (match m with Some (x, s) => k | None => None end)
    (at level 10, x name, s name, m at level 100, k at level 200).

(** The loops of the evaluator, given the evaluator of sub-expressions. *)
Section Loops.
Variable ev : expr -> Valuer -> option (value * Valuer).

(** [evalJsonExpr] on a map. *)
Definition json_map (op : Token) (rhs : expr) (m : Message) (V1 : Valuer)
    : option (value * Valuer) :=
  match op with
  | ARROW =>
      match rhs with
      | FieldRef _ _ _ | MetaRef _ _ =>
          match ev rhs (VaMsg m) with Some (r, _) => Some (r, V1) | None => None end
      | _ => Some (VError "the right expression is not a field reference node" [], V1)
      end
  | _ => Some (invalid_operation op (VMap m), V1)
  end.

(** [evalJsonExpr] on a slice. *)
Definition json_slice (op : Token) (rhs : expr) (l : value) (V1 : Valuer)
    : option (value * Valuer) :=
  match op with
  | ARROW => Some (VError "the result %v is not a type of map[string]interface{}" [l], V1)
  | SUBSET =>
      do (ber, V2) <- ev rhs V1;
      match subset l ber with Some r => Some (r, V2) | None => None end
  | _ => Some (invalid_operation op l, V1)
  end.

(** [AggregateEval]: one value per row, and the rows afterwards. *)
Fixpoint aggregate_eval (d : AggregateData) (arg : expr) (rows : list DataValuer)
    : option (list value * list DataValuer) :=
  match rows with
  | [] => Some ([], [])
  | row :: rows' =>
      match ev arg (row_valuer row), aggregate_eval d arg rows' with
      | Some (v, V), Some (l, rs) => Some (v :: l, keep d row (valuer_row row V) :: rs)
      | _, _ => None
      end
  end.

(** The aggregate valuer after such an evaluation of its data. *)
Definition after_rows (d : AggregateData) (i : nat) (row : DataValuer) (rows : list DataValuer)
    : Valuer :=
  VaAgg (set_rows d rows) i
    (if shares d (nth i (agg_rows d) row) then nth i rows row else row).

(** The argument loop of a call.  An argument that evaluates to an error
    ([inl]) is the result of the call. *)
Fixpoint eval_args (isAgg : bool) (l : list expr) (V0 : Valuer)
    : option ((value + list value) * Valuer) :=
  match l with
  | [] => Some (inr [], V0)
  | arg :: l' =>
      match V0, isAgg with
      | VaAgg d i row, true =>
          match aggregate_eval d arg (agg_rows d) with
          | None => None
          | Some (col, rows) =>
              match eval_args isAgg l' (after_rows d i row rows) with
              | Some (inr vs, V2) => Some (inr (VSlice col :: vs), V2)
              | r => r
              end
          end
      | _, _ =>
          match ev arg V0 with
          | None => None
          | Some (v, V1) =>
              if is_error v then Some (inl v, V1)
              else match eval_args isAgg l' V1 with
                   | Some (inr vs, V2) => Some (inr (v :: vs), V2)
                   | r => r
                   end
          end
      end
  end.

(** [evalCase]: the loop over the WHEN clauses, then the ELSE clause.
    [ev0] is the value to compare with, if the CASE has one. *)
Fixpoint eval_whens (ev0 : option value) (els : option expr) (ws : list (expr * expr))
    (V0 : Valuer) : option (value * Valuer) :=
  match ws with
  | [] => match els with Some x => ev x V0 | None => Some (VNil, V0) end
  | (c, r) :: ws' =>
      do (wv, V2) <- ev c V0;
      match (match ev0 with Some v => simpleDataEval false v wv EQ | None => wv end) with
      | VError f a => Some (case_error (VError f a), V2)
      | VBool true => ev r V2
      | _ => eval_whens ev0 els ws' V2
      end
  end.
End Loops.

Definition shortcut (op : Token) (l : value) : option bool :=
  match op, l with
  | AND, VBool false => Some false
  | OR, VBool true => Some true
  | _, _ => None
  end.

Definition window_bound (name : string) (d : AggregateData) : option Z :=
  if String.eqb name "window_start" then GetWindowStart d else GetWindowEnd d.

Fixpoint eval (e : expr) (V : Valuer) {struct e} : option (value * Valuer) :=
  match e with
  | BinaryExpr op lhs rhs =>
      do (l, V1) <- eval lhs V;
      match l with
      | VMap m | VMessage m => json_map eval op rhs m V1
      | VTypedNil GMap => json_map eval op rhs [] V1
      | VError _ _ => Some (l, V1)
      | _ =>
          match shortcut op l with
          | Some b => Some (VBool b, V1)
          | None =>
              if isSliceOrArray l then json_slice eval op rhs l V1
              else
                do (r, V2) <- eval rhs V1;
                if is_error r then Some (r, V2) else Some (simpleDataEval false l r op, V2)
          end
      end
  | IntegerLiteral z => Some (VInt z, V)
  | NumberLiteral f => Some (VFloat64 f, V)
  | ParenExpr x => eval x V
  | StringLiteral s => Some (VString s, V)
  | BooleanLiteral b => Some (VBool b, V)
  | ColonExpr a b => Some (VBracket a b, V)
  | IndexExpr i => Some (VBracket i i, V)
  | Call name args =>
      match V with
      | VaMsg _ => Some (VNil, V)
      | _ =>
          if String.eqb name "window_start" || String.eqb name "window_end" then
            match V with
            | VaAgg d _ _ =>
                match window_bound name d with Some z => Some (VInt64 z, V) | None => None end
            | _ => Some (VNil, V)
            end
          else
            match eval_args eval (is_agg ff name) args V with
            | None => None
            | Some (inl err, V1) => Some (err, V1)
            | Some (inr vs, V1) =>
                let ff1 := match args with [] => ff | _ => snd (IsAggFunc ff name) end in
                match Valuer_Call ff1 V1 name vs with
                | Some r => Some (r, V1)
                | None => None
                end
            end
      end
  | FieldRef sn name alias =>
      let n := field_key sn name in
      match (if negb (String.eqb n "") then Valuer_Value V n else None) with
      | Some v => Some (v, V)
      | None =>
          if fr_IsAlias sn then
            match alias with
            | Some i =>
                do (r, V1) <- eval (Expression i) V;
                Some (r, Valuer_AppendAlias V1 name r)
            | None => None
            end
          else Some (VNil, V)
      end
  | MetaRef sn name =>
      Some (match Valuer_Meta V (meta_key sn name) with Some v => v | None => VNil end, V)
  | Wildcard _ => Some (match Valuer_Value V "" with Some v => v | None => VNil end, V)
  | CaseExpr value whens els =>
      match value with
      | Some x => do (v, V1) <- eval x V; eval_whens eval (Some v) els whens V1
      | None => eval_whens eval None els whens V
      end
  | _ => Some (VNil, V)
  end.

(** [Eval] of a possibly absent expression. *)
Definition eval_opt (e : option expr) (V : Valuer) : option (value * Valuer) :=
  match e with Some x => eval x V | None => Some (VNil, V) end.
End Eval.

(** ** Evaluation returns *)

(** Valuers of the operators that work row by row: no aggregate function valuer. *)
Definition row_level (V : Valuer) : Prop :=
  match V with
  | VaMulti vs => ~ In ValAggFun vs
  | VaAgg _ _ _ => False
  | VaMsg _ => True
  end.

Definition safe_bracket (e : expr) : bool :=
  match e with
  | IndexExpr _ => true
  | ColonExpr _ b => (0 <=? b) || (b =? MinInt32)
  | _ => false
  end.

(** The expressions binding leaves behind, with slice bounds that count from
    the left: alias references are bound, a bracket operator has an index or such
    a slice on its right, and the functions called are [safe]. *)
Fixpoint well_bound (safe : string -> nat -> bool) (e : expr) : bool :=
  let fix go_list (l : list expr) : bool :=
    match l with [] => true | x :: l' => well_bound safe x && go_list l' end in
  let fix go_when (l : list (expr * expr)) : bool :=
    match l with [] => true | (c, r) :: l' => well_bound safe c && well_bound safe r && go_when l' end in
  let go_opt (o : option expr) : bool := match o with Some x => well_bound safe x | None => true end in
  match e with
  | BinaryExpr op l r =>
      well_bound safe l && well_bound safe r && (if tok_eqb op SUBSET then safe_bracket r else true)
  | ParenExpr x | ArrowExpr x | BracketExpr x => well_bound safe x
  | Call name args => safe (to_lower name) (List.length args) && go_list args
  | CaseExpr v ws el => go_opt v && go_when ws && go_opt el
  | FieldRef sn _ a =>
      match a with
      | Some i => well_bound safe (Expression i)
      | None => negb (fr_IsAlias sn)
      end
  | _ => true
  end.

Lemma row_level_append V key x : row_level V -> row_level (Valuer_AppendAlias V key x).
Proof.
  destruct V as [vs|d i row|m]; cbn; auto. intros H Hin. apply H. clear H.
  induction vs as [|v vs IH]; cbn in *; [contradiction|].
  destruct v; cbn in Hin; destruct Hin as [Hv|Hin]; try discriminate; auto.
Qed.

Lemma slice_slice_total l i j : isSliceOrArray l = true ->
  0 <= i <= j -> j <= slice_len l -> exists r, slice_slice l i j = Some r.
Proof.
  intros Hl H1 H2. unfold slice_slice.
  rewrite (proj2 (Z.leb_le 0 i)), (proj2 (Z.leb_le i j)), (proj2 (Z.leb_le j _)) by lia. cbn [andb].
  destruct l as [| | | | | | | | | | | | | | | | | | | | |t| |]; try discriminate; eauto. destruct t; try discriminate; eauto.
Qed.

(** Index and left-counted slice never panic on a slice. *)
Lemma subset_safe l e a b :
  isSliceOrArray l = true -> safe_bracket e = true ->
  (e = IndexExpr a /\ b = a) \/ e = ColonExpr a b ->
  exists r, subset l (VBracket a b) = Some r.
Proof.
  intros Hl Hs He. unfold subset. destruct (Z.eqb_spec a b) as [->|Hab].
  - unfold subset_index. rewrite !Z.gtb_ltb, Z.geb_leb.
    destruct (Z.ltb_spec b 0); [destruct (Z.ltb_spec (b + slice_len l) 0)|
      destruct (Z.leb_spec (slice_len l) b)]; eauto.
    + destruct (slice_index_in l (b + slice_len l)) as (x & Hx & _); [lia|eauto].
    + destruct (slice_index_in l b) as (x & Hx & _); [lia|eauto].
  - destruct He as [[_ ->]| ->]; [congruence|]. cbn in Hs.
    unfold subset_range, subset_end. rewrite !Z.gtb_ltb, !Z.geb_leb, (Z.eqb_sym MinInt32).
    assert (forall i, 0 <= i < slice_len l -> exists r,
      (if b =? MinInt32 then slice_slice l i (slice_len l)
       else if b <? 0 then (if b + slice_len l <? 0 then Some (out_of_index b (slice_len l))
                            else slice_slice l i (b + slice_len l))
       else if slice_len l <? b
            then Some (VError "end value is out of index: %d of %d" [VInt b; VInt (slice_len l)])
            else if b <=? i
                 then Some (VError "start cannot be greater than end. start:%d  end:%d" [VInt i; VInt b])
                 else slice_slice l i b) = Some r) as G.
    { intros i Hi. destruct (Z.eqb_spec b MinInt32) as [->|]; [apply slice_slice_total; auto; lia|].
      rewrite orb_false_r in Hs. bool_to_prop.
      rewrite (proj2 (Z.ltb_ge b 0)) by lia.
      destruct (Z.ltb_spec (slice_len l) b); [eauto|].
      destruct (Z.leb_spec b i); [eauto|]. apply slice_slice_total; auto; lia. }
    destruct (Z.ltb_spec a 0); [destruct (Z.ltb_spec (a + slice_len l) 0)|
      destruct (Z.leb_spec (slice_len l) a)]; eauto; apply G; lia.
Qed.

Section Totality.
Context {TP : TimeParse} {F : GoFmt} {P : Plugins} {B : Builtins}.
Context {safe : string -> nat -> bool} {TB : TotalBuiltins safe}.
Variable ff : FuncFinder.

Lemma fv_Call_total fd name args : safe (to_lower name) (List.length args) = true -> exists r, fv_Call fd name args = Some r.
Proof.
  intros Hs. unfold fv_Call. pose proof (total_builtins fd name args Hs) as T.
  destruct (FuncTypeOf fd (to_lower name)); eauto.
  destruct (runtime_Get name) as [|e|[] ex]; eauto.
Qed.

Lemma Valuer_Call_row fd V name args :
  row_level V -> safe (to_lower name) (List.length args) = true -> exists r, Valuer_Call fd V name args = Some r.
Proof.
  intros HV Hs. revert HV. destruct V as [vs|d i row|m]; cbn; [|tauto|eauto]. intros H.
  induction vs as [|v vs IH]; cbn; [eauto|].
  destruct v; cbn in H; [apply IH; tauto| |exfalso; tauto|apply IH; tauto].
  destruct (fv_Call_total fd name args Hs) as [[r []] ->]; eauto.
Qed.

(** What evaluation promises of an expression. *)
Definition returns (e : expr) : Prop :=
  forall V, row_level V -> exists r V', eval ff e V = Some (r, V') /\ row_level V'.

Lemma well_bound_list args :
  (fix go_list (l : list expr) : bool :=
     match l with [] => true | x :: l' => well_bound safe x && go_list l' end) args = true ->
  Forall (fun e => well_bound safe e = true) args.
Proof.
  induction args; intros H; constructor; apply andb_true_iff in H as [? ?]; auto.
Qed.

Lemma eval_args_returns args : forall b V,
  Forall returns args -> row_level V ->
  exists r V', eval_args (eval ff) b args V = Some (r, V') /\ row_level V'
    /\ match r with inr vals => List.length vals = List.length args | inl _ => True end.
Proof.
  induction args as [|a args IH]; intros b V H HV; cbn; [eauto|].
  inversion H as [|? ? Ha Has]; subst. destruct (Ha V HV) as (v & V1 & E1 & R1). rewrite E1.
  destruct (IH b V1 Has R1) as (r & V2 & E2 & R2 & L). rewrite E2.
  assert (G : exists r0 V', (if is_error v then Some (inl v, V1)
      else match r with inl _ => Some (r, V2) | inr vs => Some (inr (v :: vs), V2) end) = Some (r0, V')
      /\ row_level V' /\ match r0 with inr vals => List.length vals = S (List.length args) | inl _ => True end).
  { destruct (is_error v); [eexists _, _; split; [reflexivity|auto]|].
    destruct r; eexists _, _; (split; [reflexivity|]); (split; [assumption|]); cbn; auto. }
  destruct V as [vs|d i row|m], b; cbn in HV; try tauto; destruct r; exact G.
Qed.

Lemma eval_whens_returns ws els : forall v V,
  Forall (fun w => returns (fst w) /\ returns (snd w)) ws -> opt_all returns els -> row_level V ->
  exists r V', eval_whens (eval ff) v els ws V = Some (r, V') /\ row_level V'.
Proof.
  induction ws as [|[c t] ws IH]; intros v V H He HV; cbn.
  - destruct els; cbn in He; eauto.
  - inversion H as [|? ? [Hc Ht] Hws]; subst. cbn in Hc, Ht.
    destruct (Hc V HV) as (wv & V2 & E & R). rewrite E.
    match goal with |- context [match ?x with _ => _ end] => destruct x as [|[]| | | | | | | | | | | | | | | | | | | | | |] end;
      eauto.
Qed.

Lemma json_slice_returns op rhs l V :
  returns rhs -> isSliceOrArray l = true -> row_level V ->
  (if tok_eqb op SUBSET then safe_bracket rhs else true) = true ->
  exists r V', json_slice (eval ff) op rhs l V = Some (r, V') /\ row_level V'.
Proof.
  intros Hr Hl HV Hs. destruct op; unfold json_slice; eauto.
  change (safe_bracket rhs = true) in Hs.
  destruct rhs; try discriminate; cbn [eval].
  - destruct (subset_safe l (ColonExpr Start End_) Start End_ Hl Hs (or_intror eq_refl)) as [x Hx].
    rewrite Hx. eauto.
  - destruct (subset_safe l (IndexExpr Index) Index Index Hl Hs (or_introl (conj eq_refl eq_refl)))
      as [x Hx].
    rewrite Hx. eauto.
Qed.

Lemma json_map_returns op rhs m V :
  returns rhs -> row_level V ->
  exists r V', json_map (eval ff) op rhs m V = Some (r, V') /\ row_level V'.
Proof.
  intros Hr HV. destruct op; cbn; eauto.
  destruct (Hr (VaMsg m) I) as (r & V' & E & _).
  destruct rhs; eauto; rewrite E; eauto.
Qed.

Lemma binary_returns op l r :
  returns l -> returns r -> (if tok_eqb op SUBSET then safe_bracket r else true) = true ->
  returns (BinaryExpr op l r).
Proof.
  intros Hl Hr Hs V HV. destruct (Hl V HV) as (x & V1 & E1 & R1).
  destruct (Hr V1 R1) as (y & V2 & E2 & R2).
  cbn [eval]. rewrite E1.
  assert (G : isSliceOrArray x = false -> exists z V',
    match shortcut op x with
    | Some b => Some (VBool b, V1)
    | None => match eval ff r V1 with
              | Some (r0, V3) => if is_error r0 then Some (r0, V3)
                                 else Some (simpleDataEval false x r0 op, V3)
              | None => None
              end
    end = Some (z, V') /\ row_level V').
  { intros _. rewrite E2. destruct (shortcut op x); [eauto|]. destruct (is_error y); eauto. }
  destruct x; try match goal with t : gotype |- _ => destruct t end; cbn [isSliceOrArray] in *; eauto using json_map_returns;
    (destruct (shortcut op _); [eauto|]); now apply json_slice_returns.
Qed.

Lemma field_returns sn name a :
  match a with Some i => returns (Expression i) | None => fr_IsAlias sn = false end ->
  returns (FieldRef sn name a).
Proof.
  intros Ha V HV. cbn [eval].
  match goal with |- context [match ?x with Some _ => _ | None => _ end] => destruct x end; [eauto|].
  destruct (fr_IsAlias sn) eqn:Es; [|eauto]. destruct a as [i|]; [|discriminate].
  destruct (Ha V HV) as (r & V1 & E & R). rewrite E.
  eexists _, _. split; [reflexivity|now apply row_level_append].
Qed.

Lemma call_returns name args :
  safe (to_lower name) (List.length args) = true -> Forall returns args -> returns (Call name args).
Proof.
  intros Hs H V HV. cbn [eval].
  destruct (eval_args_returns args (is_agg ff name) V H HV) as (r & V1 & E & R & L).
  destruct V as [vs|d i row|m]; [|destruct HV|eauto].
  destruct (String.eqb name "window_start" || String.eqb name "window_end"); [eauto|].
  rewrite E. destruct r as [err|vals]; [eauto|]. rewrite <- L in Hs.
  destruct (Valuer_Call_row (match args with [] => ff | _ => snd (IsAggFunc ff name) end) V1 name vals R Hs)
    as [x Hx].
  rewrite Hx. eauto.
Qed.

(** evaluation row by row always returns: for every bound expression
    whose slices count from the left, and every row, message or joined row,
    the evaluator yields a value (possibly an error value) and never panics. *)
Theorem eval_total e V :
  well_bound safe e = true -> row_level V ->
  exists r V', eval ff e V = Some (r, V') /\ row_level V'.
Proof.
  intros He. revert V. change (returns e). revert He.
  induction e using expr_ind; intros He; try (intros V HV; cbn; now eauto);
    cbn [well_bound] in He.
  - apply andb_true_iff in He as [He Hs]. apply andb_true_iff in He as [H1 H2].
    apply binary_returns; auto.
  - intros V HV. cbn. now apply IHe.
  - apply andb_true_iff in He as [Hs He]. apply call_returns; [exact Hs|]. apply well_bound_list in He.
    rewrite Forall_forall in *. auto.
  - apply andb_true_iff in He as [He Bel]. apply andb_true_iff in He as [Bv Bw].
    assert (Hw : Forall (fun w => returns (fst w) /\ returns (snd w)) ws).
    { clear Bv Bel. induction H0 as [|[c r] ws [Hc Hr] _ IH]; constructor;
        apply andb_true_iff in Bw as [Bw Bw']; apply andb_true_iff in Bw as [? ?]; cbn in *; auto. }
    assert (He' : opt_all returns e) by (destruct e; cbn in *; auto).
    intros V HV. cbn. destruct v as [x|]; [|now apply eval_whens_returns].
    cbn in H. destruct (H Bv V HV) as (y & V1 & E & R). rewrite E. now apply eval_whens_returns.
  - apply field_returns. destruct a; cbn in *; auto. now apply negb_true_iff.
Qed.
End Totality.

(** ** Evaluation changes aliases only *)

Definition erase_tuple (t : Tuple) : Tuple :=
  mkTuple (Emitter t) (Msg t) (Timestamp t) (Metadata t) None.

Definition erase_row (d : DataValuer) : DataValuer :=
  match d with
  | DTuple t => DTuple (erase_tuple t)
  | DJoin jt => DJoin (mkJT (jt_Tuples jt) None)
  end.

Definition erase_valuer (v : valuer) : valuer :=
  match v with
  | ValData d => ValData (erase_row d)
  | ValWild d => ValWild (erase_row d)
  | v => v
  end.

Definition erase_data (d : AggregateData) : AggregateData := set_rows d (map erase_row (agg_rows d)).

(** A valuer without the aliases of its rows. *)
Definition erase (V : Valuer) : Valuer :=
  match V with
  | VaMulti vs => VaMulti (map erase_valuer vs)
  | VaAgg d i row => VaAgg (erase_data d) i (erase_row row)
  | VaMsg m => VaMsg m
  end.

Lemma erase_append key x d : erase_row (data_AppendAlias key x d) = erase_row d.
Proof. now destruct d. Qed.

Lemma erase_keep d old new : erase_row new = erase_row old -> erase_row (keep d old new) = erase_row old.
Proof. unfold keep. now destruct (shares d old). Qed.

Lemma cons_inv {A} (x y : A) l l' : x :: l = y :: l' -> x = y /\ l = l'.
Proof. intros H. now inversion H. Qed.

Lemma erase_as_tuple rows ts :
  map erase_row rows = map erase_row (map DTuple ts) ->
  map erase_row (map DTuple (flat_map as_tuple rows)) = map erase_row (map DTuple ts).
Proof.
  revert ts. induction rows as [|[t|j] rows IH]; intros [|t' ts] H; try discriminate; auto.
  apply cons_inv in H as [H1 H2]. cbn in *. rewrite (IH ts H2). congruence.
Qed.

Lemma erase_as_join rows js :
  map erase_row rows = map erase_row (map DJoin js) ->
  map erase_row (map DJoin (flat_map as_join rows)) = map erase_row (map DJoin js).
Proof.
  revert js. induction rows as [|[t|j] rows IH]; intros [|j' js] H; try discriminate; auto.
  apply cons_inv in H as [H1 H2]. cbn in *. rewrite (IH js H2). congruence.
Qed.

(** Writing back rows that differ in their aliases only changes nothing else. *)
Lemma erase_set_rows d rows :
  map erase_row rows = map erase_row (agg_rows d) -> erase_data (set_rows d rows) = erase_data d.
Proof.
  unfold erase_data. destruct d as [t|w|s|g]; cbn; intros H.
  - destruct rows as [|[t'|j] [|? ?]]; cbn in *; try discriminate; congruence.
  - destruct (w_Content w) as [|c [|? ?]] eqn:E; cbn in *.
    + now rewrite E.
    + now rewrite (erase_as_tuple rows (wt_Tuples c) H).
    + now rewrite E.
  - now rewrite (erase_as_join rows (js_Content s) H).
  - now rewrite H.
Qed.

Lemma map_list_set {A C} (f : A -> C) i x l d :
  f x = f (nth i l d) -> map f (list_set i x l) = map f l.
Proof.
  revert i. induction l as [|y l IH]; intros [|i] H; cbn in *; auto; try congruence.
  now rewrite IH.
Qed.

Lemma list_set_out {A} i (x : A) l : (List.length l <= i)%nat -> list_set i x l = l.
Proof. revert i. induction l as [|y l IH]; intros [|i] H; cbn in *; auto; try lia. rewrite IH; auto; lia. Qed.

(** The row of an aggregate valuer is the row of its data, up to aliases. *)
Definition in_place (V : Valuer) : Prop :=
  match V with
  | VaAgg d i row => erase_row (nth i (agg_rows d) row) = erase_row row
  | _ => True
  end.

Lemma erase_AppendAlias V key x : in_place V -> erase (Valuer_AppendAlias V key x) = erase V.
Proof.
  destruct V as [vs|d i row|m]; cbn; intros H; f_equal.
  - induction vs as [|[d| | |d] vs IH]; cbn; rewrite ?erase_append; congruence.
  - apply erase_set_rows. apply map_list_set with (d := row).
    apply erase_keep. now rewrite erase_append.
  - apply erase_append.
Qed.

Lemma nth_map_eq {A C} (f : A -> C) l l' i d d' :
  map f l = map f l' -> f d = f d' -> f (nth i l d) = f (nth i l' d').
Proof.
  intros H Hd. revert l' i H. induction l as [|x l IH]; intros [|y l'] [|i] H; try discriminate; auto;
    apply cons_inv in H as [H1 H2]; cbn; auto.
Qed.

Lemma agg_rows_set_rows d rows :
  map erase_row rows = map erase_row (agg_rows d) ->
  map erase_row (agg_rows (set_rows d rows)) = map erase_row (agg_rows d).
Proof.
  destruct d as [t|w|s|g]; cbn; intros H; auto using erase_as_join.
  - destruct rows as [|[t'|j] [|? ?]]; auto; discriminate.
  - destruct (w_Content w) as [|c [|? ?]] eqn:E; cbn; rewrite ?E; auto using erase_as_tuple.
Qed.

Lemma in_place_AppendAlias V key x : in_place V -> in_place (Valuer_AppendAlias V key x).
Proof.
  destruct V as [vs|d i row|m]; cbn; auto. intros H.
  rewrite erase_append, <- H at 1. apply nth_map_eq; [|now rewrite erase_append].
  apply agg_rows_set_rows. apply map_list_set with (d := row).
  apply erase_keep. now rewrite erase_append.
Qed.

Section AliasOnly.
Context {TP : TimeParse} {F : GoFmt} {P : Plugins} {B : Builtins}.
Variable ff : FuncFinder.

(** [V'] is [V] with other aliases. *)
Definition alias_only (V V' : Valuer) : Prop := erase V' = erase V /\ in_place V'.

Definition keeps (e : expr) : Prop :=
  forall V r V', in_place V -> eval ff e V = Some (r, V') -> alias_only V V'.

Lemma alias_only_refl V : in_place V -> alias_only V V.
Proof. split; auto. Qed.

Lemma alias_only_trans V1 V2 V3 : alias_only V1 V2 -> alias_only V2 V3 -> alias_only V1 V3.
Proof. intros [E1 _] [E2 I2]. split; congruence. Qed.

Lemma alias_only_append V V' key x : alias_only V V' -> alias_only V (Valuer_AppendAlias V' key x).
Proof.
  intros [E I]. split; [rewrite erase_AppendAlias; auto|now apply in_place_AppendAlias].
Qed.

Lemma valuer_row_erase row V :
  alias_only (row_valuer row) V -> erase_row (valuer_row row V) = erase_row row.
Proof.
  intros [E _]. destruct V as [vs|d i r|m]; try discriminate.
  destruct vs as [|[d| | |d] vs]; try discriminate. cbn in E. now inversion E.
Qed.

Lemma aggregate_eval_keeps d arg rows : keeps arg -> forall col rows',
  aggregate_eval (eval ff) d arg rows = Some (col, rows') -> map erase_row rows' = map erase_row rows.
Proof.
  intros Ha. induction rows as [|row rows IH]; intros col rows' H; cbn in H; [congruence|].
  destruct (eval ff arg (row_valuer row)) as [[v V]|] eqn:E; [|discriminate].
  destruct (aggregate_eval (eval ff) d arg rows) as [[l rs]|]; [|discriminate].
  inversion H; subst. cbn. f_equal; [|eauto]. apply erase_keep, valuer_row_erase. now eapply Ha; eauto.
Qed.

Lemma after_rows_keeps d i row rows :
  in_place (VaAgg d i row) -> map erase_row rows = map erase_row (agg_rows d) ->
  alias_only (VaAgg d i row) (after_rows d i row rows).
Proof.
  intros Hi Hr. unfold after_rows.
  assert (Hrow : erase_row (if shares d (nth i (agg_rows d) row) then nth i rows row else row) = erase_row row).
  { destruct (shares _ _); auto. rewrite <- Hi. now apply nth_map_eq. }
  split; cbn.
  - rewrite Hrow. f_equal. now apply erase_set_rows.
  - rewrite Hrow. rewrite <- Hi. apply nth_map_eq; auto. now apply agg_rows_set_rows.
Qed.

Lemma eval_args_keeps b args : Forall keeps args -> forall V r V', in_place V ->
  eval_args (eval ff) b args V = Some (r, V') -> alias_only V V'.
Proof.
  induction 1 as [|a args Ha _ IH]; intros V r V' HV H; cbn in H.
  - inversion H; subst. now apply alias_only_refl.
  - assert (G : match eval ff a V with
                | Some (v, V1) => if is_error v then Some (inl v, V1)
                    else match eval_args (eval ff) b args V1 with
                         | Some (inr vs, V2) => Some (inr (v :: vs), V2) | r => r end
                | None => None end = Some (r, V') -> alias_only V V').
    { clear H. intros H. destruct (eval ff a V) as [[v V1]|] eqn:E; [|discriminate].
      pose proof (Ha V v V1 HV E) as K1. destruct (is_error v); [now inversion H; subst|].
      destruct (eval_args (eval ff) b args V1) as [[[e|vs] V2]|] eqn:E2; inversion H; subst;
        eapply alias_only_trans; eauto; eapply IH; eauto; apply K1. }
    destruct V as [vs|d i row|m]; auto. destruct b; auto.
    destruct (aggregate_eval (eval ff) d a (agg_rows d)) as [[col rows]|] eqn:E; [|discriminate].
    pose proof (after_rows_keeps d i row rows HV (aggregate_eval_keeps d a _ Ha _ _ E)) as K1.
    destruct (eval_args (eval ff) true args _) as [[[e|vs] V2]|] eqn:E2; inversion H; subst;
      eapply alias_only_trans; eauto; eapply IH; eauto; apply K1.
Qed.

Lemma eval_whens_keeps v els ws :
  Forall (fun w => keeps (fst w) /\ keeps (snd w)) ws -> opt_all keeps els ->
  forall V r V', in_place V -> eval_whens (eval ff) v els ws V = Some (r, V') -> alias_only V V'.
Proof.
  intros Hw He. induction Hw as [|[c t] ws [Hc Ht] _ IH]; intros V r V' HV H; cbn in H.
  - destruct els; cbn in He; [now eapply He; eauto|]. inversion H; subst. now apply alias_only_refl.
  - destruct (eval ff c V) as [[wv V2]|] eqn:E; [|discriminate].
    pose proof (Hc V wv V2 HV E) as K. assert (K2 : in_place V2) by apply K.
    match type of H with
    | match ?x with _ => _ end = _ => destruct x as [|[]| | | | | | | | | | | | | | | | | | | | | |]
    end; try (inversion H; subst; exact K);
      (eapply alias_only_trans; [exact K|]); solve [eapply Ht; eauto | eapply IH; eauto].
Qed.

Lemma binary_keeps op l r : keeps l -> keeps r -> keeps (BinaryExpr op l r).
Proof.
  intros Hl Hr V x V' HV H. cbn [eval] in H.
  destruct (eval ff l V) as [[y V1]|] eqn:E1; [|discriminate].
  pose proof (Hl V y V1 HV E1) as K. assert (K1 : in_place V1) by apply K.
  assert (J : forall m, json_map (eval ff) op r m V1 = Some (x, V') -> alias_only V V').
  { intros m Hm. unfold json_map in Hm.
    repeat match type of Hm with match ?a with _ => _ end = _ => destruct a as [] end;
      inversion Hm; subst; exact K. }
  assert (S' : forall l0, json_slice (eval ff) op r l0 V1 = Some (x, V') -> alias_only V V').
  { intros l0 Hm. unfold json_slice in Hm.
    destruct op; try (inversion Hm; subst; exact K).
    destruct (eval ff r V1) as [[b V2]|] eqn:E2; [|discriminate].
    destruct (subset l0 b); inversion Hm; subst. eapply alias_only_trans; eauto. }
  assert (G : match eval ff r V1 with
              | Some (r0, V3) => if is_error r0 then Some (r0, V3)
                                 else Some (simpleDataEval false y r0 op, V3)
              | None => None end = Some (x, V') -> alias_only V V').
  { clear H. intros H. destruct (eval ff r V1) as [[b V2]|] eqn:E2; [|discriminate].
    eapply alias_only_trans; [exact K|]. destruct (is_error b); inversion H; subst; eauto. }
  destruct y; try match goal with t : gotype |- _ => destruct t end; cbn [isSliceOrArray] in *; eauto; try (inversion H; subst; exact K);
    (destruct (shortcut op _); [inversion H; subst; exact K|eauto]).
Qed.

Lemma field_keeps sn name a :
  opt_all (fun i => keeps (Expression i)) a -> keeps (FieldRef sn name a).
Proof.
  intros Ha V x V' HV H. cbn [eval] in H.
  match type of H with match ?a with _ => _ end = _ => destruct a end;
    [inversion H; subst; now apply alias_only_refl|].
  destruct (fr_IsAlias sn); [|inversion H; subst; now apply alias_only_refl].
  destruct a as [i|]; [|discriminate].
  destruct (eval ff (Expression i) V) as [[r V1]|] eqn:E; [|discriminate].
  inversion H; subst. apply alias_only_append. eapply Ha; eauto.
Qed.

Lemma call_keeps name args : Forall keeps args -> keeps (Call name args).
Proof.
  intros Ha V x V' HV H. cbn [eval] in H.
  assert (G : match eval_args (eval ff) (is_agg ff name) args V with
              | None => None
              | Some (inl err, V1) => Some (err, V1)
              | Some (inr vs, V1) =>
                  match Valuer_Call (match args with [] => ff | _ => snd (IsAggFunc ff name) end)
                          V1 name vs with Some r => Some (r, V1) | None => None end
              end = Some (x, V') -> alias_only V V').
  { clear H. intros H.
    destruct (eval_args (eval ff) (is_agg ff name) args V) as [[[e|vs] V1]|] eqn:E; try discriminate;
      pose proof (eval_args_keeps _ _ Ha _ _ _ HV E) as K; [now inversion H; subst|].
    destruct (Valuer_Call _ V1 name vs); inversion H; subst; exact K. }
  destruct V as [vs|d i row|m]; [| |inversion H; subst; now apply alias_only_refl];
    (destruct (String.eqb name "window_start" || String.eqb name "window_end"); [|exact (G H)]).
  - inversion H; subst; now apply alias_only_refl.
  - destruct (window_bound name d); inversion H; subst; now apply alias_only_refl.
Qed.

(** Whatever an expression evaluates to, the rows it was evaluated on keep
    their messages, metadata and timestamps: only alias maps grow. *)
Lemma eval_alias_only e V r V' :
  in_place V -> eval ff e V = Some (r, V') -> alias_only V V'.
Proof.
  revert V r V'. change (keeps e).
  induction e using expr_ind;
    try (intros V x V' HV HE; cbn in HE; inversion HE; subst; now apply alias_only_refl).
  - now apply binary_keeps.
  - intros V x V' HV HE. cbn in HE. eapply IHe; eauto.
  - now apply call_keeps.
  - intros V x V' HV HE. cbn in HE. destruct v as [y|]; cbn in H; [|eapply eval_whens_keeps; eauto].
    destruct (eval ff y V) as [[z V1]|] eqn:E1; [|discriminate].
    pose proof (H V z V1 HV E1) as K. eapply alias_only_trans; [exact K|].
    eapply eval_whens_keeps; eauto. apply K.
  - now apply field_keeps.
Qed.
End AliasOnly.

Section AliasCache.
Context {TP : TimeParse} {F : GoFmt} {P : Plugins} {B : Builtins}.
Variable ff : FuncFinder.

Lemma row_alias_lookup d key x :
  to_lower key = key -> has_char colsep_char key = false ->
  data_Value (data_AppendAlias key x d) (PRIVATE_PREFIX ++ key)%string = Some x.
Proof.
  intros Hl Hs.
  destruct d as [t|j]; unfold data_Value, data_AppendAlias, Tuple_Value, JT_Value,
    Tuple_AppendAlias, JT_AppendAlias; cbn [t_alias jt_alias]; now rewrite AppendAlias_lookup.
Qed.

(** an alias is computed once per row: after a query has evaluated an
    alias on a row, every later reference to it on that row finds the cached
    value and leaves the row alone, and the row's own data is unchanged. *)
Theorem alias_evaluated_once name i d r V :
  to_lower name = name -> has_char colsep_char name = false ->
  eval ff (FieldRef AliasStream name (Some i)) (row_valuer d) = Some (r, V) ->
  eval ff (FieldRef AliasStream name (Some i)) V = Some (r, V)
  /\ erase_row (valuer_row d V) = erase_row d.
Proof.
  intros Hl Hs He.
  pose proof (eval_alias_only ff _ (row_valuer d) r V I He) as K.
  split; [|now apply valuer_row_erase].
  cbn [eval] in He. change (fr_IsAlias AliasStream) with true in He. cbv iota in He.
  set (n := field_key AliasStream name) in *.
  assert (Hn : String.eqb n "" = false) by reflexivity.
  assert (F1 : forall W, (if negb (String.eqb n "") then Valuer_Value W n else None) = Some r ->
    eval ff (FieldRef AliasStream name (Some i)) W = Some (r, W)).
  { intros W HW. cbn [eval]. fold n. now rewrite HW. }
  rewrite Hn in *. cbn [negb] in *.
  destruct (Valuer_Value (row_valuer d) n) as [v|] eqn:E.
  - inversion He; subst. now apply F1.
  - destruct (eval ff (Expression i) (row_valuer d)) as [[r1 V1]|] eqn:E1; [|discriminate].
    inversion He; subst r1 V. apply F1.
    destruct (eval_alias_only ff _ (row_valuer d) r V1 I E1) as [K1 _].
    destruct V1 as [[|[d1| | |d1] vs]|? ? ?|?]; try discriminate.
    cbn [Valuer_AppendAlias multi_AppendAlias Valuer_Value multi_Value valuer_Value].
    change n with (PRIVATE_PREFIX ++ name)%string. now rewrite row_alias_lookup.
Qed.
End AliasCache.

(** Concrete parameters to evaluate with: no plugins, no scalar functions. *)
Module Plain.
#[export] Instance time_none : TimeParse := { time_parse := fun _ _ => None }.
#[export] Instance fmt_none : GoFmt := { fmt_atom := fun _ => "?" }.
#[export] Instance plugins_none : Plugins := { runtime_Get := fun _ => NotFound }.
#[export] Instance builtins_none : Builtins := { builtin_Call := fun _ _ _ => Some (VNil, false) }.
#[export] Instance builtins_none_total : TotalBuiltins (fun _ _ => true) := fun _ _ _ _ => ex_intro _ _ eq_refl.
Definition finder : FuncFinder := mkFinder [] (fun _ => false).
End Plain.

Import Plain.

(** [a > 2 OR arr[0] = 1] on a row: the hypotheses of [eval_total] hold. *)
Definition sample_row : DataValuer :=
  DTuple (mkTuple "demo" [("a", VInt 1); ("arr", VSlice [VInt 1])] 0 None None).

Definition sample_expr : expr :=
  BinaryExpr OR (BinaryExpr GT (FieldRef "demo" "a" None) (IntegerLiteral 2))
    (BinaryExpr EQ (BinaryExpr SUBSET (FieldRef "demo" "arr" None) (IndexExpr 0)) (IntegerLiteral 1)).

Lemma eval_total_witness :
  well_bound (fun _ _ => true) sample_expr = true
  /\ exists r V', eval finder sample_expr (row_valuer sample_row) = Some (r, V') /\ row_level V'.
Proof.
  split; [reflexivity|]. apply (eval_total (safe := fun _ _ => true) finder); [reflexivity|].
  cbn. intros [H|[H|[H|[]]]]; discriminate H.
Defined.

Lemma alias_evaluated_once_witness :
  exists r V, eval finder (FieldRef AliasStream "x" (Some (mkAlias sample_expr [] None))) V = Some (r, V)
    /\ erase_row (valuer_row sample_row V) = erase_row sample_row.
Proof.
  eexists _, _.
  apply (alias_evaluated_once finder "x" (mkAlias sample_expr [] None) sample_row);
    [reflexivity|reflexivity|].
  vm_compute. reflexivity.
Defined.
