(* ===== verification/Functions.v ===== *)
(** The scalar functions (src/internal/xsql/funcsMath.go, funcsStr.go,
    funcsMisc.go), which implement the interface [Eval.Builtins].

    A call gives a value with [true], an error with [false], or panics ([None]):
    an argument that is not there, a string index out of range, a negative count.
    The transcendental functions, hashes, regular expressions, JSON and JSON
    paths, random numbers and the clock are parameters ([Externals]). *)

From S2P Require Import Prelude Token Ast Lexical Strconv Utf8 Strings Base64 Value Collections AggFuncs Cast TimeFormat Eval.
From Stdlib Require Import ZArith Lia Bool List String Ascii SpecFloat.
Import ListNotations.

#[local] Open Scope string_scope.
#[local] Open Scope list_scope.
#[local] Open Scope Z_scope.

Class Externals : Type := {
  math_Acos : float64 -> float64; math_Asin : float64 -> float64; math_Atan : float64 -> float64;
  math_Cos : float64 -> float64; math_Cosh : float64 -> float64; math_Exp : float64 -> float64;
  math_Log2 : float64 -> float64; math_Log10 : float64 -> float64; math_Sin : float64 -> float64;
  math_Sinh : float64 -> float64; math_Tan : float64 -> float64; math_Tanh : float64 -> float64;
  math_Atan2 : float64 -> float64 -> float64; math_Pow : float64 -> float64 -> float64;
  rand_Float64 : float64;
  hash_hex : string -> string -> string;                     (* algorithm, data *)
  regexp_Match : string -> string -> value + bool;           (* pattern, text *)
  regexp_Replace : string -> string -> string -> value + string;
  regexp_Find : string -> string -> value + string;
  format_g : float64 -> string;                              (* %g *)
  json_any : string -> option value;                         (* json.Unmarshal *)
  jsonpath_New : string -> value + (value -> value + value); (* NewEvaluable, then the evaluation *)
  uuid_New : value + string;
  GetNowInMilli : Z
}.

(** ** Floats *)

Definition f64_abs : float64 -> float64 := SFabs.
Definition f64_sqrt : float64 -> float64 := SFsqrt f64_prec f64_emax.

(** Rounding a finite number to an integer; the sign of zero is kept. *)
Definition f64_rounded (up : bool -> Z -> Z -> Z) (f : float64) : float64 :=
  match f with
  | S754_finite s m e =>
      if 0 <=? e then f
      else
        let a := up s (Z.pos m) (2 ^ (- e)) in
        binary_normalize f64_prec f64_emax (if s then - a else a) 0 s
  | _ => f
  end.

Definition f64_ceil : float64 -> float64 := f64_rounded (fun s m d => if s then m / d else (m + d - 1) / d).

(** [math.Round]: half away from zero. *)
Definition f64_round : float64 -> float64 := f64_rounded (fun _ m d => (2 * m + d) / (2 * d)).

(** ** Calls *)

Section Functions.
Context {TP : TimeParse} {TF : TimeFormatter} {F : GoFmt} {L : FloatLib} {X : Externals}.

Definition result : Type := option (value * bool).
Definition ret (v : value) : result := Some (v, true).
Definition error (e : value) : result := Some (e, false).
Definition errorf (s : string) : result := error (VError s []).

(** [args\[i\]], which panics if there is no such argument. *)
Definition arg (args : list value) (i : nat) (k : value -> result) : result :=
  match nth_error args i with Some v => k v | None => None end.

Definition toF64 (a : value) : value + float64 :=
  match a with
  | VFloat64 v => inr v
  | VInt v => inr (f64_of_Z v)
  | _ => inl (VError "only float64 & int type are supported" [])
  end.

(** ** Mathematical functions *)

Definition unary (f : float64 -> value) (args : list value) : result :=
  arg args 0 (fun a => match toF64 a with inr v => ret (f v) | inl e => error e end).

Definition binary (f : float64 -> float64 -> float64) (args : list value) : result :=
  arg args 0 (fun a =>
    match toF64 a with
    | inr v1 => arg args 1 (fun b => match toF64 b with inr v2 => ret (VFloat64 (f v1 v2)) | inl e => error e end)
    | inl e => error e
    end).

(** The second error is not looked at, and the number that comes with it is 0. *)
Definition mod_call (args : list value) : result :=
  arg args 0 (fun a =>
    match toF64 a with
    | inr v => arg args 1 (fun b => ret (VFloat64 (f64_mod v (match toF64 b with inr v1 => v1 | inl _ => f64_zero end))))
    | inl e => error e
    end).

Definition bitwise (f : Z -> Z -> Z) (args : list value) : result :=
  arg args 0 (fun a => arg args 1 (fun b =>
    match a, b with
    | VInt v1, VInt v2 => ret (VInt (f v1 v2))
    | _, _ => errorf "Expect int type for both operands."
    end)).

Definition bitnot_call (args : list value) : result :=
  arg args 0 (fun a => match a with VInt v => ret (VInt (Z.lnot v)) | _ => errorf "Expect int type for operand." end).

Definition abs_call (args : list value) : result :=
  arg args 0 (fun a =>
    match a with
    | VInt v => ret (VInt (float_to true 64 (f64_abs (f64_of_Z v))))
    | VFloat64 v => ret (VFloat64 (f64_abs v))
    | _ => errorf "only float64 & int type are supported"
    end).

Definition sign_of (v : float64) : value :=
  if f64_ltb f64_zero v then VInt 1 else if f64_ltb v f64_zero then VInt (-1) else VInt 0.

Definition float_fun (f : float64 -> float64) : list value -> result := unary (fun v => VFloat64 (f v)).

Definition math_table : list (string * (list value -> result)) :=
  [("abs", abs_call); ("acos", float_fun math_Acos); ("asin", float_fun math_Asin); ("atan", float_fun math_Atan);
   ("atan2", binary math_Atan2); ("bitand", bitwise Z.land); ("bitor", bitwise Z.lor); ("bitxor", bitwise Z.lxor);
   ("bitnot", bitnot_call); ("ceil", float_fun f64_ceil); ("cos", float_fun math_Cos); ("cosh", float_fun math_Cosh);
   ("exp", float_fun math_Exp); ("ln", float_fun math_Log2); ("log", float_fun math_Log10); ("mod", mod_call);
   ("power", binary math_Pow); ("rand", fun _ => ret (VFloat64 rand_Float64)); ("round", float_fun f64_round);
   ("sign", unary sign_of); ("sin", float_fun math_Sin); ("sinh", float_fun math_Sinh); ("sqrt", float_fun f64_sqrt);
   ("tan", float_fun math_Tan); ("tanh", float_fun math_Tanh)].

Definition mathCall (name : string) (args : list value) : result :=
  match assoc name math_table with Some f => f args | None => errorf "Unknown math function name." end.

(** ** String functions *)

Definition str1 (f : string -> value) (args : list value) : result := arg args 0 (fun a => ret (f (ToStringAlways a))).

Definition str2 (f : string -> string -> result) (args : list value) : result :=
  arg args 0 (fun a => arg args 1 (fun b => f (ToStringAlways a) (ToStringAlways b))).

Definition concat_call (args : list value) : result :=
  ret (VString (fold_left (fun b a => (b ++ ToStringAlways a)%string) args "")).

(** [lpad] and [rpad]. *)
Definition pad_call (put : string -> string -> string) (args : list value) : result :=
  arg args 0 (fun a => arg args 1 (fun n =>
    match ToInt n STRICT with
    | inl err => error err
    | inr arg1 => match Repeat arg1 with Some sp => ret (VString (put sp (ToStringAlways a))) | None => None end
    end)).

Definition format_time_call (args : list value) : result :=
  arg args 0 (fun a =>
    match InterfaceToTime a "" with
    | None => None
    | Some (inl err) => error err
    | Some (inr arg0) =>
        arg args 1 (fun f =>
          match FormatTime arg0 (ToStringAlways f) with
          | None => None
          | Some (inr s) => ret (VString s)
          | Some (inl err) => error err
          end)
    end).

Definition of_sum {A} (f : A -> value) (r : value + A) : result :=
  match r with inr a => ret (f a) | inl e => error e end.

Definition regexp_replace_call (args : list value) : result :=
  arg args 0 (fun a => arg args 1 (fun b => arg args 2 (fun c =>
    of_sum VString (regexp_Replace (ToStringAlways b) (ToStringAlways a) (ToStringAlways c))))).

Definition substring_call (args : list value) : result :=
  arg args 0 (fun a =>
    let arg0 := ToStringAlways a in
    arg args 1 (fun b =>
      match ToInt b STRICT with
      | inl err => error err
      | inr arg1 =>
          let cut (e : Z) := match slice_string arg0 arg1 e with Some s => ret (VString s) | None => None end in
          match nth_error args 2 with
          | Some c => match ToInt c STRICT with inl err => error err | inr arg2 => cut arg2 end
          | None => cut (Z.of_nat (String.length arg0))
          end
      end)).

(** An index that is not a number is 0. *)
Definition split_value_call (args : list value) : result :=
  arg args 0 (fun a => arg args 1 (fun b => arg args 2 (fun c =>
    let ss := Split (ToStringAlways a) (ToStringAlways b) in
    let v := match ToInt c STRICT with inr v => v | inl _ => 0 end in
    let size := Z.of_nat (List.length ss) in
    if v >? size - 1 then error (VError "%d out of index array (size = %d)" [VInt v; VInt size])
    else if v <? 0 then None
    else match nth_error ss (Z.to_nat v) with Some s => ret (VString s) | None => None end))).

Definition str_table : list (string * (list value -> result)) :=
  [("concat", concat_call);
   ("endswith", str2 (fun a b => ret (VBool (HasSuffix a b))));
   ("indexof", str2 (fun a b => ret (VInt (Index a b))));
   ("length", str1 (fun s => VInt (Z.of_nat (List.length (decode s)))));
   ("lower", str1 (fun s => VString (to_lower s)));
   ("lpad", pad_call (fun sp s => sp ++ s)%string);
   ("ltrim", str1 (fun s => VString (TrimLeft s)));
   ("numbytes", str1 (fun s => VInt (Z.of_nat (String.length s))));
   ("format_time", format_time_call);
   ("regexp_matches", str2 (fun a b => of_sum VBool (regexp_Match b a)));
   ("regexp_replace", regexp_replace_call);
   ("regexp_substr", str2 (fun a b => of_sum VString (regexp_Find b a)));
   ("rpad", pad_call (fun sp s => s ++ sp)%string);
   ("rtrim", str1 (fun s => VString (TrimRight s)));
   ("substring", substring_call);
   ("startswith", str2 (fun a b => ret (VBool (HasPrefix a b))));
   ("split_value", split_value_call);
   ("trim", str1 (fun s => VString (TrimSpace s)));
   ("upper", str1 (fun s => VString (to_upper s)))].

Definition strCall (name : string) (args : list value) : result :=
  match assoc name str_table with
  | Some f => f args
  | None => error (VError "unknown string function name %s" [VString name])
  end.

(** ** Conversions *)

Definition not_supported : result := errorf "Not supported type conversion.".

Definition to_bigint (a : value) : result :=
  match a with
  | VInt v => ret (VInt v)
  | VFloat64 v => ret (VInt (float_to true 64 v))
  | VString v =>
      let '(temp, good) := Atoi v in
      if good then ret (VInt temp) else error (VError "strconv.Atoi: parsing %q" [VString v])
  | VBool v => ret (VInt (if v then 1 else 0))
  | _ => not_supported
  end.

Definition to_floating (a : value) : result :=
  match a with
  | VInt v => ret (VFloat64 (f64_of_Z v))
  | VFloat64 v => ret (VFloat64 v)
  | VString v => match parse_float 64 v with Some t => ret (VFloat64 t) | None => error (VError "strconv.ParseFloat: parsing %q" [VString v]) end
  | VBool v => ret (VFloat64 (f64_of_Z (if v then 1 else 0)))
  | _ => not_supported
  end.

Definition to_string (a : value) : result :=
  match a with
  | VInt v => ret (VString (itoa v))
  | VFloat64 v => ret (VString (format_g v))
  | VString v => ret (VString v)
  | VBool v => ret (VString (if v then "true" else "false"))
  | _ => not_supported
  end.

Definition to_boolean (a : value) : result :=
  match a with
  | VInt v => ret (VBool (negb (v =? 0)))
  | VFloat64 v => ret (VBool (negb (f64_eqb v f64_zero)))
  | VString v => match ParseBool v with Some t => ret (VBool t) | None => error (VError "strconv.ParseBool: parsing %q" [VString v]) end
  | VBool v => ret (VBool v)
  | _ => not_supported
  end.

Definition to_datetime (a : value) : result :=
  match InterfaceToTime a "" with
  | None => None
  | Some (inl err) => error err
  | Some (inr dt) => ret (VTime dt)
  end.

Definition cast_table : list (string * (value -> result)) :=
  [("bigint", to_bigint); ("float", to_floating); ("string", to_string); ("boolean", to_boolean); ("datetime", to_datetime)].

Definition cast_call (args : list value) : result :=
  arg args 1 (fun t =>
    match t with
    | VString v =>
        match assoc (to_lower v) cast_table with
        | Some f => arg args 0 f
        | None => errorf "Unknow type, only support bigint, float, string, boolean and datetime."
        end
    | _ => errorf "Expect string type for the 2nd parameter."
    end).

(** The result is a [rune], a number of 32 bits. *)
Definition chr_call (args : list value) : result :=
  arg args 0 (fun a =>
    match a with
    | VInt v => ret (VInt32 (wrapS 32 v))
    | VFloat64 v => ret (VInt32 (wrapS 32 (float_to true 64 v)))
    | VString v =>
        if (1 <? String.length v)%nat then errorf "Parameter length cannot larger than 1."
        else match decode v with r :: _ => ret (VInt32 r) | [] => None end
    | _ => errorf "Only bigint, float and string type can be convert to char type."
    end).

Definition encode_call (args : list value) : result :=
  arg args 1 (fun t =>
    match t with
    | VString v =>
        if String.eqb (to_lower v) "base64" then
          arg args 0 (fun a =>
            match a with
            | VString v1 => ret (VString (EncodeToString v1))
            | _ => errorf "Only string type can be encoded."
            end)
        else errorf "Only base64 encoding is supported."
    | _ => Some (VNil, false)
    end).

Definition f64_half : float64 := binary_normalize f64_prec f64_emax 1 (-1) false.

Definition sign_bit (f : float64) : bool :=
  match f with S754_zero s | S754_infinity s | S754_finite s _ _ => s | S754_nan => false end.

Definition round (num : float64) : Z :=
  float_to true 64 (f64_add num (if sign_bit num then SFopp f64_half else f64_half)).

Definition toFixed (num : float64) (precision : Z) : float64 :=
  let output := math_Pow (f64_of_Z 10) (f64_of_Z precision) in
  f64_div (f64_of_Z (round (f64_mul num output))) output.

Definition trunc_call (args : list value) : result :=
  arg args 0 (fun a =>
    let go (v0 : float64) :=
      arg args 1 (fun b =>
        match b with
        | VInt v2 => ret (VFloat64 (toFixed v0 v2))
        | _ => errorf "The 2nd parameter must be int value."
        end) in
    match a with
    | VInt v1 => go (f64_of_Z v1)
    | VFloat64 v1 => go v1
    | _ => errorf "Only int and float type can be truncated."
    end).

Definition conv_table : list (string * (list value -> result)) :=
  [("cast", cast_call); ("chr", chr_call); ("encode", encode_call); ("trunc", trunc_call)].

Definition convCall (name : string) (args : list value) : result :=
  match assoc name conv_table with
  | Some f => f args
  | None => error (VError "Not supported function name %s" [VString name])
  end.

(** ** Hashes and others *)

Definition hashCall (name : string) (args : list value) : result :=
  arg args 0 (fun a =>
    if mem name ["md5"; "sha1"; "sha256"; "sha384"; "sha512"] then ret (VString (hash_hex name (ToStringAlways a)))
    else error (VError "unknown hash function name %s" [VString name])).

Definition isnull (a : value) : bool :=
  match a with VNil | VTypedNil (GSlice _) | VTypedNil GMap | VTypedNil GMessage => true | _ => false end.

Definition mqtt_call (args : list value) : result :=
  arg args 0 (fun a => match a with VString v => ret (VString v) | _ => Some (VNil, false) end).

Definition cardinality (a : value) : Z := if isSliceOrArray a then slice_len a else 0.

Definition other_table : list (string * (list value -> result)) :=
  [("isnull", fun args => arg args 0 (fun a => ret (VBool (isnull a))));
   ("newuuid", fun _ => of_sum VString uuid_New);
   ("tstamp", fun _ => ret (VInt64 GetNowInMilli));
   ("mqtt", mqtt_call);
   ("meta", fun args => arg args 0 ret);
   ("cardinality", fun args => arg args 0 (fun a => ret (VInt (cardinality a))))].

Definition otherCall (name : string) (args : list value) : result :=
  match assoc name other_table with
  | Some f => f args
  | None => error (VError "unknown function name %s" [VString name])
  end.
(** ** JSON paths *)

(** [convertToInterfaceArr] on maps and [convertSlice] on slices.  The elements
    of a [\[\]interface{}] have the kind of an interface and are left alone; a nil
    in a map has no type, and the panic of [Kind]. *)
Fixpoint interface_value (v : value) : option value :=
  match v with
  | VNil | VMessage _ | VTypedNil GMessage => None
  | VMap m =>
      option_map VMap
        ((fix go (m : list (string * value)) : option (list (string * value)) :=
            match m with
            | [] => Some []
            | (k, x) :: m' =>
                match interface_value x, go m' with Some y, Some r => Some ((k, y) :: r) | _, _ => None end
            end) m)
  | VTypedNil GMap => Some (VMap [])
  | VTyped (GMap | GMessage | GSlice _) l =>
      option_map VSlice
        ((fix go (l : list value) : option (list value) :=
            match l with
            | [] => Some []
            | x :: l' => match interface_value x, go l' with Some y, Some r => Some (y :: r) | _, _ => None end
            end) l)
  | VSlice l | VTyped _ l => Some (VSlice l)
  | VBytes _ => Some (VSlice (slice_elems v))
  | VTypedNil (GSlice _) => Some (VSlice [])
  | _ => Some v
  end.

Definition is_map (v : value) : bool :=
  match v with VMap _ | VMessage _ | VTypedNil GMap | VTypedNil GMessage => true | _ => false end.

(** The first argument as JSON: a panic, an error or the value. *)
Definition json_input (name : string) (a : value) : option (value + value) :=
  if is_nil a then None
  else if is_map a || isSliceOrArray a then option_map inr (interface_value a)
  else
    match a with
    | VString v =>
        match json_any v with
        | Some x => Some (inr x)
        | None => Some (inl (VError "%s function error: the first argument '%v' is not a valid json string" [VString name; a]))
        end
    | _ => Some (inl (VError "%s function error: the first argument must be a map but got %v" [VString name; a]))
    end.

Definition path_error (name : string) (e : value) : value := VError "%s function error: %s" [VString name; e].

(** What the three functions make of the result of the path. *)
Definition json_result (name : string) (r : value) : result :=
  if String.eqb name "json_path_query" then ret r
  else if String.eqb name "json_path_query_first" then
    match r with
    | VSlice (x :: _) => ret x
    | VSlice [] | VTypedNil (GSlice GIface) => None
    | _ => error (VError "%s function error: query result (%v) is not an array" [VString name; r])
    end
  else if String.eqb name "json_path_exists" then
    if is_nil r then None
    else ret (VBool (if isSliceOrArray r then 0 <? slice_len r else true))
  else error (VError "invalid function name: %s" [VString name]).

Definition jsonCall (name : string) (args : list value) : result :=
  arg args 0 (fun a =>
    match json_input name a with
    | None => None
    | Some (inl e) => error e
    | Some (inr input) =>
        arg args 1 (fun b =>
          match b with
          | VString path =>
              match jsonpath_New path with
              | inl err => error (path_error name err)
              | inr run =>
                  match run input with
                  | inl err => if String.eqb name "json_path_exists" then ret (VBool false) else error (path_error name err)
                  | inr r => json_result name r
                  end
              end
          | _ => None   (* args\[1\].(string) *)
          end)
    end).

(** ** The interface of the evaluator *)

Definition Call_builtin (t : FuncType) (lowerName : string) (args : list value) : result :=
  match t with
  | MathFunc => mathCall lowerName args
  | ConvFunc => convCall lowerName args
  | StrFunc => strCall lowerName args
  | HashFunc => hashCall lowerName args
  | JsonFunc => jsonCall lowerName args
  | OtherFunc => otherCall lowerName args
  | NotFoundFunc | AggFunc => Some (VNil, false)
  end.

#[export] Instance scalar_functions : Builtins := { builtin_Call := Call_builtin }.

(** The functions of one, two and three arguments that panic on no arguments of
    that number. *)
Definition safe_call (name : string) (n : nat) : bool :=
  match n with
  | O => mem name ["rand"; "newuuid"; "tstamp"; "concat"]
  | S m =>
      negb (mem name ["lpad"; "rpad"; "format_time"; "substring"; "split_value"; "chr"; "json_path_query";
                      "json_path_query_first"; "json_path_exists"])
      && match m with
         | O => negb (mem name ["atan2"; "bitand"; "bitor"; "bitxor"; "mod"; "power"; "endswith"; "indexof"; "regexp_matches";
                                "regexp_replace"; "regexp_substr"; "startswith"; "cast"; "encode"; "trunc"])
         | S O => negb (mem name ["regexp_replace"])
         | _ => true
         end
  end.

Ltac call_total :=
  repeat match goal with
         | |- exists r, Some _ = Some r => eexists; reflexivity
         | |- exists r, (match ?x with _ => _ end) = Some r => destruct x
         | |- exists r, (if ?x then _ else _) = Some r => destruct x
         end.

(** Case analysis on the entry of a table that a name selects. *)
Ltac table_cases :=
  match goal with
  | |- exists r, (match assoc ?n ?t with _ => _ end) = Some r =>
      let E := fresh "E" in
      destruct (assoc n t) eqn:E; [|eexists; reflexivity];
      apply assoc_In in E; cbn in E;
      repeat (destruct E as [E|E]; [injection E as <- <-|]); [..|destruct E]
  end.

Ltac run_call args Hs :=
  destruct args as [|? [|? [|? ?]]]; try discriminate Hs;
  unfold float_fun, unary, binary, mod_call, bitwise, bitnot_call, abs_call, str1, str2, concat_call,
    regexp_replace_call, of_sum, encode_call, trunc_call, mqtt_call, arg, ret, not_supported, errorf, error;
  cbn [nth_error]; call_total.

Lemma mathCall_total name args : safe_call name (List.length args) = true -> exists r, mathCall name args = Some r.
Proof. intros Hs. unfold mathCall. table_cases; run_call args Hs. Qed.

Lemma strCall_total name args : safe_call name (List.length args) = true -> exists r, strCall name args = Some r.
Proof. intros Hs. unfold strCall. table_cases; run_call args Hs. Qed.

Lemma cast_total t a : exists r, (match assoc t cast_table with
  | Some f => f a
  | None => errorf "Unknow type, only support bigint, float, string, boolean and datetime."
  end) = Some r.
Proof.
  table_cases; unfold to_bigint, to_floating, to_string, to_boolean, to_datetime, ret, not_supported, errorf, error; try (call_total; fail).
  destruct (InterfaceToTime_default a) as [e ->]. call_total.
Qed.

Lemma convCall_total name args : safe_call name (List.length args) = true -> exists r, convCall name args = Some r.
Proof.
  intros Hs. unfold convCall. table_cases; [|run_call args Hs..].
  destruct args as [|a [|t args]]; try discriminate Hs.
  unfold cast_call, arg. cbn [nth_error]. destruct t; try (unfold errorf, error; call_total; fail). apply cast_total.
Qed.

Lemma otherCall_total name args : safe_call name (List.length args) = true -> exists r, otherCall name args = Some r.
Proof. intros Hs. unfold otherCall. table_cases; run_call args Hs. Qed.

Lemma hash_names ff name : FuncTypeOf ff name = HashFunc -> mem (to_lower name) hashFuncMap = true.
Proof.
  unfold FuncTypeOf. repeat match goal with |- context [if ?c then _ else _] => destruct c eqn:?; try discriminate end. auto.
Qed.

Lemma json_names ff name : FuncTypeOf ff name = JsonFunc -> mem (to_lower name) jsonFuncMap = true.
Proof.
  unfold FuncTypeOf. repeat match goal with |- context [if ?c then _ else _] => destruct c eqn:?; try discriminate end. auto.
Qed.

Lemma hashCall_total ff name args : FuncTypeOf ff name = HashFunc -> safe_call name (List.length args) = true ->
  exists r, hashCall name args = Some r.
Proof.
  intros Ht Hs. apply hash_names in Ht. unfold hashCall, arg. destruct args as [|a args].
  - cbn in Hs. unfold mem in Hs. cbn [existsb] in Hs.
    repeat (apply orb_true_iff in Hs as [Hs|Hs]; [apply String.eqb_eq in Hs; subst; discriminate Ht|]). discriminate Hs.
  - cbn [nth_error]. unfold ret, error. destruct (mem name ["md5"; "sha1"; "sha256"; "sha384"; "sha512"]); eexists; reflexivity.
Qed.

Lemma jsonCall_unsafe ff name n : FuncTypeOf ff (to_lower name) = JsonFunc -> safe_call (to_lower name) n = false.
Proof.
  intros M. apply json_names in M. rewrite to_lower_idem in M. revert M. generalize (to_lower name). intros fn M.
  unfold mem in M. cbn [jsonFuncMap existsb] in M.
  repeat (apply orb_true_iff in M as [M|M]; [apply String.eqb_eq in M; subst; now destruct n|]). discriminate M.
Qed.

#[export] Instance safe_calls_total : TotalBuiltins safe_call.
Proof.
  intros ff name args Hs. cbn [builtin_Call scalar_functions]. unfold Call_builtin.
  destruct (FuncTypeOf ff (to_lower name)) eqn:E; try (eexists; reflexivity);
    eauto using mathCall_total, strCall_total, convCall_total, otherCall_total, hashCall_total.
  now rewrite (jsonCall_unsafe ff name _ E) in Hs.
Qed.

(** C30: the evaluation of an expression never panics: over the program's own
    scalar functions, every bound expression whose slices count from the left
    and that calls only the functions of [safe_call] evaluates, on every row, to a
    value or an error value. *)
Theorem evaluation_never_panics {P : Plugins} ff e V :
  well_bound safe_call e = true -> row_level V ->
  exists r V', eval ff e V = Some (r, V') /\ row_level V'.
Proof. apply eval_total. Qed.

(** ** Conversions *)

(** a [bigint] is read back from its string: casting any integer to
    [string] and the result to [bigint] gives the integer. *)
Theorem cast_bigint_roundtrip z : in_int64 z ->
  exists s, convCall "cast" [VInt z; VString "string"] = ret (VString s) /\
    convCall "cast" [VString s; VString "bigint"] = ret (VInt z).
Proof.
  intros H. exists (itoa z). split; [reflexivity|].
  change (convCall "cast" [VString (itoa z); VString "bigint"]) with (to_bigint (VString (itoa z))).
  unfold to_bigint. now rewrite (Atoi_itoa_int z H).
Qed.

(** ** Which calls panic *)

(** A part of a string that is not inside it. *)
Lemma substring_panics_iff s a b :
  strCall "substring" [VString s; VInt a; VInt b] = None <->
  ~ (0 <= int64 a <= int64 b /\ int64 b <= Z.of_nat (String.length s)).
Proof.
  unfold strCall. cbn. unfold ToInt, to_signed. change (wrapS 64 a) with (int64 a). change (wrapS 64 b) with (int64 b).
  change (ToStringAlways (VString s)) with s. unfold slice_string.
  destruct ((0 <=? int64 a) && (int64 a <=? int64 b) && (int64 b <=? Z.of_nat (String.length s))) eqn:E.
  - split; [discriminate|]. intros N. exfalso. apply N. bool_to_prop. lia.
  - split; [|reflexivity]. intros _ N. revert E. rewrite (proj2 (Z.leb_le 0 (int64 a))), (proj2 (Z.leb_le (int64 a) (int64 b))), (proj2 (Z.leb_le (int64 b) _)) by lia.
    discriminate.
Qed.

(** The others: a negative count, a negative index, an empty string, an
    unfinished quote in a time format. *)
Lemma calls_that_panic :
  strCall "lpad" [VString "a"; VInt (-1)] = None /\ strCall "rpad" [VString "a"; VInt (-1)] = None /\
  strCall "split_value" [VString "a,b"; VString ","; VInt (-1)] = None /\ convCall "chr" [VString ""] = None /\
  strCall "format_time" [VInt 0; VString "HH 'o"] <> None /\ strCall "format_time" [VInt 0; VString "HH '"] = None /\
  jsonCall "json_path_query" [VNil; VString "$"] = None.
Proof. repeat split; try reflexivity. vm_compute. discriminate. Qed.

(** ** Other behaviours *)

(** [mod] by something that is no number is [mod] by 0. *)
Lemma mod_ignores_error v s : mathCall "mod" [VFloat64 v; VString s] = mathCall "mod" [VFloat64 v; VFloat64 f64_zero].
Proof. reflexivity. Qed.

(** [abs] of an integer goes through a float. *)
Lemma abs_rounds : mathCall "abs" [VInt (-9007199254740993)] = ret (VInt 9007199254740992).
Proof. vm_compute. reflexivity. Qed.

(** [ln] is the binary logarithm. *)
Lemma ln_is_log2 v : mathCall "ln" [VFloat64 v] = ret (VFloat64 (math_Log2 v)).
Proof. reflexivity. Qed.

(** [trunc] rounds to the nearest. *)
Lemma trunc_rounds : math_Pow (f64_of_Z 10) f64_zero = f64_of_Z 1 ->
  convCall "trunc" [VFloat64 (f64_div (f64_of_Z 19) (f64_of_Z 10)); VInt 0] = ret (VFloat64 (f64_of_Z 2)).
Proof.
  intros H. unfold convCall. cbn -[f64_div f64_of_Z toFixed]. unfold toFixed. change (f64_of_Z 0) with f64_zero. rewrite H.
  vm_compute. reflexivity.
Qed.

(** ** Strings *)

(** the trimming functions remove exactly the white space at the ends: on
    every text, whatever its characters, [ltrim] leaves the text from its first
    other character on, [rtrim] up to its last one, and [trim] both. *)
Theorem trim_functions rs : Forall valid_rune rs ->
  strCall "ltrim" [VString (encode rs)] = ret (VString (encode (drop_spaces rs))) /\
  strCall "rtrim" [VString (encode rs)] = ret (VString (encode (drop_last_spaces rs))) /\
  strCall "trim" [VString (encode rs)] = ret (VString (encode (drop_last_spaces (drop_spaces rs)))).
Proof.
  intros V. change (strCall "ltrim" [VString (encode rs)]) with (ret (VString (TrimLeft (encode rs)))).
  change (strCall "rtrim" [VString (encode rs)]) with (ret (VString (TrimRight (encode rs)))).
  change (strCall "trim" [VString (encode rs)]) with (ret (VString (TrimRight (TrimLeft (encode rs))))).
  now rewrite TrimLeft_encode, !TrimRight_encode by auto using drop_spaces_valid.
Qed.

(** [split_value] with an index inside gives that part. *)
Lemma split_value_part s sep i x : 0 <= i < 2 ^ 63 -> nth_error (Split s sep) (Z.to_nat i) = Some x ->
  strCall "split_value" [VString s; VString sep; VInt i] = ret (VString x).
Proof.
  intros Hi H. change (strCall "split_value" [VString s; VString sep; VInt i]) with (split_value_call [VString s; VString sep; VInt i]).
  unfold split_value_call, arg. cbn [nth_error]. change (ToStringAlways (VString s)) with s. change (ToStringAlways (VString sep)) with sep.
  change (ToInt (VInt i) STRICT) with (@inr value Z (int64 i)). rewrite int64_id by (unfold in_int64, MinInt64, MaxInt64; lia).
  cbv zeta. assert (Lt : (Z.to_nat i < List.length (Split s sep))%nat) by (apply nth_error_Some; congruence).
  destruct (Z.gtb_spec i (Z.of_nat (List.length (Split s sep)) - 1)); [lia|]. destruct (Z.ltb_spec i 0); [lia|]. now rewrite H.
Qed.
End Functions.

(** ** Witnesses *)

Section Witnesses.
#[local] Instance no_time : TimeParse := { time_parse := fun _ _ => None }.
#[local] Instance no_format : TimeFormatter := { time_format := fun _ _ => "" }.
#[local] Instance no_fmt : GoFmt := { fmt_atom := fun _ => "?" }.
#[local] Instance no_floats : FloatLib :=
  { parse_float := fun _ _ => None; format_float := fun _ _ => "?"; float_other := fun signed w _ => int_min signed w }.
#[local] Instance no_plugins : Plugins := { runtime_Get := fun _ => NotFound }.
#[local] Instance no_externals : Externals := {
  math_Acos := fun x => x; math_Asin := fun x => x; math_Atan := fun x => x; math_Cos := fun x => x; math_Cosh := fun x => x;
  math_Exp := fun x => x; math_Log2 := fun x => x; math_Log10 := fun x => x; math_Sin := fun x => x; math_Sinh := fun x => x;
  math_Tan := fun x => x; math_Tanh := fun x => x; math_Atan2 := fun x _ => x; math_Pow := fun x _ => x;
  rand_Float64 := f64_zero; hash_hex := fun _ s => s; regexp_Match := fun _ _ => inr true; regexp_Replace := fun _ s _ => inr s;
  regexp_Find := fun _ s => inr s; format_g := fun _ => "0"; json_any := fun _ => None;
  jsonpath_New := fun _ => inr (fun v => inr v); uuid_New := inr "id"; GetNowInMilli := 0 }.

(** [trim(name)] and [mod(a, name)] on a row. *)
Definition calls_expr : expr :=
  BinaryExpr EQ (Call "TRIM" [FieldRef "demo" "name" None]) (Call "mod" [FieldRef "demo" "a" None; FieldRef "demo" "name" None]).

Definition calls_row : DataValuer := DTuple (mkTuple "demo" [("a", VInt 1); ("name", VString " x ")] 0 None None).

Lemma evaluation_never_panics_witness :
  well_bound safe_call calls_expr = true /\ row_level (row_valuer calls_row) /\
  exists r V', eval (mkFinder [] (fun _ => false)) calls_expr (row_valuer calls_row) = Some (r, V') /\ row_level V'.
Proof.
  assert (R : row_level (row_valuer calls_row)) by (cbn; intros [H|[H|[H|[]]]]; discriminate H).
  split; [reflexivity|]. split; [exact R|]. exact (evaluation_never_panics _ calls_expr (row_valuer calls_row) eq_refl R).
Defined.

Lemma cast_bigint_roundtrip_witness :
  in_int64 (-7) /\ exists s, convCall "cast" [VInt (-7); VString "string"] = ret (VString s) /\
    convCall "cast" [VString s; VString "bigint"] = ret (VInt (-7)).
Proof.
  assert (H : in_int64 (-7)) by (unfold in_int64, MinInt64, MaxInt64; lia).
  split; [exact H|]. exact (cast_bigint_roundtrip (-7) H).
Defined.

Lemma trim_functions_witness :
  Forall valid_rune [8195; 233; 32] /\
  strCall "trim" [VString (encode [8195; 233; 32])] = ret (VString (encode [233])).
Proof.
  assert (V : Forall valid_rune [8195; 233; 32]) by (repeat (apply Forall_cons; [left; lia|]); apply Forall_nil).
  split; [exact V|]. exact (proj2 (proj2 (trim_functions [8195; 233; 32] V))).
Defined.
End Witnesses.
