(* ===== verification/Operators.v ===== *)
(** The stateless operators of a rule
    (src/internal/topo/operator: filter, having, project and aggregate).

    [stream_data] is what the channels between operators carry.  Every [Apply]
    returns [None] for a run-time panic; its [SNil] result is Go's [nil], which
    the node drops.  Ranging over a Go map visits its entries in an unspecified
    order: [MapOrder] is that order, of which only the documented fact is used,
    that it visits every entry once.  [json.Marshal] is the parameter
    [Marshal]. *)

From S2P Require Import Prelude Token Ast Value Collections AggFuncs Eval.
From Stdlib Require Import ZArith Lia Bool List String Ascii Permutation.
Import ListNotations.

#[local] Open Scope string_scope.
#[local] Open Scope list_scope.
#[local] Open Scope Z_scope.

Class MapOrder : Type := {
  map_range : forall A, list (string * A) -> list (string * A);
  map_range_perm : forall A (m : list (string * A)), Permutation m (map_range A m) }.

Class Marshal : Type := { json_Marshal : list Message -> string + value }.

(** ** Data *)

Inductive stream_data : Type :=
  | SNil
  | SErr (e : value)
  | SRow (d : DataValuer)
  | SBatch (b : WindowTuples)
  | SWindow (w : WindowTuplesSet)
  | SJoin (s : JoinTupleSets)
  | SGroups (g : GroupedTuplesSet)
  | SBytes (s : string).

Section Operators.
Context {TP : TimeParse} {F : GoFmt} {P : Plugins} {B : Builtins}.
Variable ff : FuncFinder.

(** ** Conditions *)

Definition where_valuer (d : DataValuer) : Valuer := VaMulti [ValData d; ValFun].

(** What the switch on the result of a condition does with a row. *)
Inductive verdict : Type :=
  | Keep (row : DataValuer)
  | Drop
  | Fails (e : value)
  | Panics.

Definition run_error (op : string) (e : value) : value :=
  VError ("run " ++ op ++ " error: %s")%string [e].

Definition non_bool (op : string) (v : value) : value :=
  VError ("run " ++ op ++ " error: invalid condition that returns non-bool value %[1]T(%[1]v)")%string [v].

Definition judge (op : string) (row : DataValuer) (r : option (value * Valuer)) : verdict :=
  match r with
  | None => Panics
  | Some (VError f a, _) => Fails (run_error op (VError f a))
  | Some (VBool true, V) => Keep (valuer_row row V)
  | Some (VBool false, _) => Drop
  | Some (v, _) => Fails (non_bool op v)
  end.

Definition where_row (c : option expr) (row : DataValuer) : verdict :=
  judge "Where" row (eval_opt ff c (where_valuer row)).

(** The loop over rows: the kept rows in order, or the first failure. *)
Fixpoint filter_rows (f : DataValuer -> verdict) (rows : list DataValuer)
    : option (value + list DataValuer) :=
  match rows with
  | [] => Some (inr [])
  | row :: rows' =>
      match f row with
      | Panics => None
      | Fails e => Some (inl e)
      | Drop => filter_rows f rows'
      | Keep row' =>
          match filter_rows f rows' with
          | Some (inr l) => Some (inr (row' :: l))
          | r => r
          end
      end
  end.

Definition invalid_input (op : string) : value :=
  VError ("run " ++ op ++ " error: invalid input %[1]T(%[1]v)")%string [].

Definition multiple_tuples (op : string) : value :=
  VError ("run " ++ op ++ " error: the input WindowTuplesSet with multiple tuples cannot be evaluated")%string [].

(** Continue with the rows a loop kept. *)
Definition with_rows (r : option (value + list DataValuer))
    (k : list DataValuer -> option stream_data) : option stream_data :=
  match r with
  | None => None
  | Some (inl e) => Some (SErr e)
  | Some (inr l) => k l
  end.

(** ** FilterOp *)

Definition FilterOp_Apply (c : option expr) (data : stream_data) : option stream_data :=
  match data with
  | SErr e => Some (SErr e)
  | SRow d =>
      match where_row c d with
      | Panics => None
      | Fails e => Some (SErr e)
      | Drop => Some SNil
      | Keep d' => Some (SRow d')
      end
  | SBatch b =>
      with_rows (filter_rows (where_row c) (map DTuple (wt_Tuples b))) (fun f =>
        Some (SBatch (mkWT (wt_Emitter b) (flat_map as_tuple f))))
  | SWindow w =>
      match w_Content w with
      | [me] =>
          with_rows (filter_rows (where_row c) (map DTuple (wt_Tuples me))) (fun r =>
            match r with
            | [] => Some SNil
            | _ => Some (SWindow (mkWTS [mkWT (wt_Emitter me) (flat_map as_tuple r)] (w_Range w)))
            end)
      | _ => Some (SErr (multiple_tuples "Where"))
      end
  | SJoin s =>
      with_rows (filter_rows (where_row c) (map DJoin (js_Content s))) (fun r =>
        match r with
        | [] => Some SNil
        | _ => Some (SJoin (mkJTS (flat_map as_join r) (js_Range s)))
        end)
  | SNil | SGroups _ | SBytes _ => Some (SErr (invalid_input "Where"))
  end.

(** ** HavingOp *)

(** The groups that satisfy the condition; a group keeps the aliases the
    condition stored in its rows. *)
Fixpoint having_groups (c : option expr) (gs : GroupedTuplesSet)
    : option (value + GroupedTuplesSet) :=
  match gs with
  | [] => Some (inr [])
  | g :: gs' =>
      match g_Content g with
      | [] => None
      | row :: _ =>
          match eval_opt ff c (VaAgg (ADGroup g) 0 row) with
          | None => None
          | Some (VError f a, _) => Some (inl (run_error "Having" (VError f a)))
          | Some (VBool false, _) => having_groups c gs'
          | Some (VBool true, V) =>
              match having_groups c gs' with
              | Some (inr l) =>
                  Some (inr (match V with VaAgg (ADGroup g') _ _ => g' | _ => g end :: l))
              | r => r
              end
          | Some (v, _) => Some (inl (non_bool "Having" v))
          end
      end
  end.

(** The loop over joined rows.  It writes the rows it keeps over the front of
    the very slice the aggregate functions read ([ms[:0]]): after [n] rows of
    which the rows [r] were kept, the data is [r] followed by the rest. *)
Fixpoint having_joins (c : option expr) (range : option WindowRange)
    (todo : nat) (r : list JoinTuple) (data : list JoinTuple) (n : nat)
    : option (value + list JoinTuple) :=
  match todo with
  | O => Some (inr r)
  | S todo' =>
      match nth_error data n with
      | None => Some (inr r)
      | Some row =>
          match eval_opt ff c (VaAgg (ADJoin (mkJTS data range)) n (DJoin row)) with
          | None => None
          | Some (VError f a, _) => Some (inl (run_error "Having" (VError f a)))
          | Some (VBool b, V) =>
              let data1 := match V with VaAgg (ADJoin s) _ _ => js_Content s | _ => data end in
              let row1 := match V with VaAgg _ _ (DJoin j) => j | _ => row end in
              if b then having_joins c range todo' (r ++ [row1]) (list_set (List.length r) row1 data1) (S n)
              else having_joins c range todo' r data1 (S n)
          | Some (v, _) => Some (inl (non_bool "Having" v))
          end
      end
  end.

Definition HavingOp_Apply (c : option expr) (data : stream_data) : option stream_data :=
  match data with
  | SErr e => Some (SErr e)
  | SGroups gs =>
      match having_groups c gs with
      | None => None
      | Some (inl e) => Some (SErr e)
      | Some (inr []) => Some SNil
      | Some (inr r) => Some (SGroups r)
      end
  | SWindow w =>
      match w_Content w with
      | [me] =>
          match wt_Tuples me with
          | [] => None
          | v :: _ =>
              match eval_opt ff c (VaAgg (ADWindow w) 0 (DTuple v)) with
              | None => None
              | Some (VError f a, _) => Some (SErr (run_error "Having" (VError f a)))
              | Some (VBool false, _) => Some SNil
              | Some (VBool true, V) =>
                  Some (SWindow (match V with VaAgg (ADWindow w') _ _ => w' | _ => w end))
              | Some (x, _) => Some (SErr (non_bool "Having" x))
              end
          end
      | _ => Some (SErr (VError "run Having error: input WindowTuplesSet with multiple tuples cannot be evaluated" []))
      end
  | SJoin s =>
      match having_joins c (js_Range s) (List.length (js_Content s)) [] (js_Content s) 0 with
      | None => None
      | Some (inl e) => Some (SErr e)
      | Some (inr []) => Some SNil
      | Some (inr r) => Some (SJoin (mkJTS r (js_Range s)))
      end
  | SNil | SRow _ | SBatch _ | SBytes _ => Some (SErr (invalid_input "Having"))
  end.
(** ** ProjectOp *)

Record ProjectOp : Type := mkProject {
  p_Fields : list Field;
  p_IsAggregate : bool;
  p_SendMeta : bool }.

(** [strings.Trim(s, " ")] of the alias, else of the name. *)
Definition assignName (name alias : string) : string :=
  if negb (String.eqb (trim alias) "") then trim alias else trim name.

(** Write an entry unless its key is taken. *)
Definition put_new (r : Message) (kv : string * value) : Message :=
  match assoc (fst kv) r with Some _ => r | None => assoc_set (fst kv) (snd kv) r end.

Definition is_wildcard (f : Field) : bool :=
  match f_Expr f with Wildcard _ => true | _ => String.eqb (f_Name f) "*" end.

Fixpoint project_loop (fs : list Field) (result : Message) (V : Valuer)
    : option (value + Message) :=
  match fs with
  | [] => Some (inr result)
  | f :: fs' =>
      match eval ff (f_Expr f) V with
      | None => None
      | Some (v, V') =>
          if is_error v then Some (inl v)
          else if is_wildcard f then
            match v with
            | VMap m | VMessage m => project_loop fs' (fold_left put_new m result) V'
            | VTypedNil GMap => project_loop fs' result V'
            | _ => Some (inl (VError "wildcarder does not return map" []))
            end
          else if is_nil v then project_loop fs' result V'
          else project_loop fs' (put_new result (assignName (f_Name f) (f_AName f), v)) V'
      end
  end.

Definition project (fs : list Field) (V : Valuer) : option (value + Message) :=
  project_loop fs [] V.

Definition getVE (pp : ProjectOp) (row : DataValuer) (agg : AggregateData) : Valuer :=
  if p_IsAggregate pp then VaAgg agg 0 row
  else VaMulti [ValData row; ValFun; ValWild row].

(** The loop over rows; an aggregate query stops after the first. *)
Fixpoint project_rows (pp : ProjectOp) (agg : DataValuer -> AggregateData) (rows : list DataValuer)
    : option (value + list Message) :=
  match rows with
  | [] => Some (inr [])
  | row :: rows' =>
      match project (p_Fields pp) (getVE pp row (agg row)) with
      | None => None
      | Some (inl e) => Some (inl e)
      | Some (inr r) =>
          if p_IsAggregate pp then Some (inr [r])
          else match project_rows pp agg rows' with
               | Some (inr l) => Some (inr (r :: l))
               | x => x
               end
      end
  end.

(** One result per group, from its first row. *)
Fixpoint project_groups (pp : ProjectOp) (gs : GroupedTuplesSet) : option (value + list Message) :=
  match gs with
  | [] => Some (inr [])
  | g :: gs' =>
      match g_Content g with
      | [] => None
      | row :: _ =>
          match project (p_Fields pp) (getVE pp row (ADGroup g)) with
          | None => None
          | Some (inl e) => Some (inl e)
          | Some (inr r) =>
              match project_groups pp gs' with
              | Some (inr l) => Some (inr (r :: l))
              | x => x
              end
          end
      end
  end.

Definition MetaKey : string := "__meta".

(** The metadata map goes out with the result of a single tuple. *)
Definition add_meta (pp : ProjectOp) (t : Tuple) (r : Message) : Message :=
  match p_SendMeta pp, Metadata t with
  | true, Some md => assoc_set MetaKey (VMap md) r
  | _, _ => r
  end.

(** The results [Apply] marshals, or the error it returns. *)
Definition project_results (pp : ProjectOp) (data : stream_data) : option (value + list Message) :=
  let wrap r := match r with Some (inl e) => Some (inl (run_error "Select" e)) | x => x end in
  match data with
  | SErr e => Some (inl e)
  | SRow (DTuple t) =>
      match project (p_Fields pp) (getVE pp (DTuple t) (ADTuple t)) with
      | None => None
      | Some (inl e) => Some (inl (run_error "Select" e))
      | Some (inr r) => Some (inr [add_meta pp t r])
      end
  | SWindow w =>
      match w_Content w with
      | [me] => wrap (project_rows pp (fun _ => ADWindow w) (map DTuple (wt_Tuples me)))
      | _ => Some (inl (VError "run Select error: the input WindowTuplesSet with multiple tuples cannot be evaluated)" []))
      end
  | SJoin s => project_rows pp (fun _ => ADJoin s) (map DJoin (js_Content s))
  | SGroups gs => wrap (project_groups pp gs)
  | SNil | SRow (DJoin _) | SBatch _ | SBytes _ => Some (inl (invalid_input "Select"))
  end.

Definition ProjectOp_Apply {M : Marshal} (pp : ProjectOp) (data : stream_data)
    : option stream_data :=
  match project_results pp data with
  | None => None
  | Some (inl e) => Some (SErr e)
  | Some (inr results) =>
      match json_Marshal results with
      | inl bytes => Some (SBytes bytes)
      | inr e => Some (SErr (VError "run Select error: %v" [e]))
      end
  end.

(** ** AggregateOp *)

(** The group key of a row: each dimension's value followed by a comma. *)
Fixpoint group_name (ds : list expr) (name : string) (V : Valuer)
    : option (value + (string * Valuer)) :=
  match ds with
  | [] => Some (inr (name, V))
  | d :: ds' =>
      match eval ff d V with
      | None => None
      | Some (r, V') =>
          if is_error r then Some (inl (run_error "Group By" r))
          else group_name ds' (name ++ (fmt_v r ++ ","))%string V'
      end
  end.

Definition group_row (ds : list expr) (row : DataValuer) : option (value + (string * DataValuer)) :=
  match group_name ds "" (where_valuer row) with
  | None => None
  | Some (inl e) => Some (inl e)
  | Some (inr (name, V)) => Some (inr (name, valuer_row row V))
  end.

(** [result[name]]: a new group, or one more row of an existing one. *)
Definition add_group (wr : option WindowRange) (name : string) (m : DataValuer)
    (result : list (string * GroupedTuples)) : list (string * GroupedTuples) :=
  match assoc name result with
  | None => assoc_set name {| g_Content := [m]; g_Range := wr |} result
  | Some ts => assoc_set name {| g_Content := g_Content ts ++ [m]; g_Range := g_Range ts |} result
  end.

Fixpoint group_loop (ds : list expr) (wr : option WindowRange) (ms : list DataValuer)
    (result : list (string * GroupedTuples)) : option (value + list (string * GroupedTuples)) :=
  match ms with
  | [] => Some (inr result)
  | m :: ms' =>
      match group_row ds m with
      | None => None
      | Some (inl e) => Some (inl e)
      | Some (inr (name, m')) => group_loop ds wr ms' (add_group wr name m' result)
      end
  end.

Definition group_result {O : MapOrder} (r : option (value + list (string * GroupedTuples)))
    : option stream_data :=
  match r with
  | None => None
  | Some (inl e) => Some (SErr e)
  | Some (inr []) => Some SNil
  | Some (inr result) => Some (SGroups (map snd (map_range _ result)))
  end.

(** [Dimensions] absent: the data goes through. *)
Definition AggregateOp_Apply {O : MapOrder} (dims : option (list expr)) (data : stream_data)
    : option stream_data :=
  match dims with
  | None => Some data
  | Some ds =>
      match data with
      | SErr e => Some (SErr e)
      | SRow d => group_result (group_loop ds None [d] [])
      | SWindow w =>
          match w_Content w with
          | [me] => group_result (group_loop ds (w_Range w) (map DTuple (wt_Tuples me)) [])
          | _ => Some (SErr (multiple_tuples "Group By"))
          end
      | SJoin s => group_result (group_loop ds (js_Range s) (map DJoin (js_Content s)) [])
      | SNil | SBatch _ | SGroups _ | SBytes _ => Some (SErr (invalid_input "Group By"))
      end
  end.

(** ** The unary node: what one input makes it broadcast *)

Definition doOp_item (apply : stream_data -> option stream_data) (item : stream_data)
    : option (list stream_data) :=
  match apply item with
  | None => None
  | Some SNil => Some []
  | Some val => Some [val]
  end.
End Operators.

(** ** Loops over rows *)

(** A row on which a loop goes on. *)
Definition decided (v : verdict) : Prop :=
  match v with Keep _ | Drop => True | Fails _ | Panics => False end.

Definition kept (v : verdict) : bool := match v with Keep _ => true | _ => false end.

(** [row] is the first on which [f] does not decide. *)
Definition first_stop (f : DataValuer -> verdict) (rows : list DataValuer) (out : verdict) : Prop :=
  exists pre row post, rows = pre ++ row :: post
    /\ Forall (fun r => decided (f r)) pre /\ f row = out.

Lemma first_stop_cons f row rows out :
  decided (f row) -> first_stop f rows out -> first_stop f (row :: rows) out.
Proof.
  intros Hd (pre & r & post & -> & Hp & Hr).
  exists (row :: pre), r, post. repeat split; auto.
Qed.

(** Rows that only gained aliases. *)
Definition aliased (rows rows' : list DataValuer) : Prop := map erase_row rows' = map erase_row rows.

Definition alias_verdict (f : DataValuer -> verdict) : Prop :=
  forall row row', f row = Keep row' -> erase_row row' = erase_row row.

Lemma filter_rows_spec f rows : alias_verdict f ->
  match filter_rows f rows with
  | None => first_stop f rows Panics
  | Some (inl e) => first_stop f rows (Fails e)
  | Some (inr l) =>
      Forall (fun r => decided (f r)) rows /\ aliased (filter (fun r => kept (f r)) rows) l
  end.
Proof.
  intros Hf. induction rows as [|row rows IH]; cbn; [split; [constructor|reflexivity]|].
  destruct (f row) eqn:E; cbn.
  - destruct (filter_rows f rows) as [[e|l]|];
      try (apply first_stop_cons; [now rewrite E|assumption]).
    destruct IH as [IH1 IH2]. split; [constructor; [now rewrite E|assumption]|].
    unfold aliased in *. cbn. rewrite (Hf _ _ E). congruence.
  - destruct (filter_rows f rows) as [[e0|l]|];
      try (apply first_stop_cons; [now rewrite E|assumption]).
    destruct IH as [IH1 IH2]. split; [constructor; [now rewrite E|assumption]|assumption].
  - exists [], row, rows. auto.
  - exists [], row, rows. auto.
Qed.

Lemma as_tuple_map ts : flat_map as_tuple (map DTuple ts) = ts.
Proof. induction ts; cbn; congruence. Qed.

Lemma filter_map_comm {A C} (g : A -> C) p l : filter p (map g l) = map g (filter (fun x => p (g x)) l).
Proof. induction l as [|x l IH]; cbn; auto. destruct (p (g x)); cbn; congruence. Qed.

Lemma aliased_tuples ts rows :
  aliased (map DTuple ts) rows -> map erase_tuple (flat_map as_tuple rows) = map erase_tuple ts.
Proof.
  unfold aliased. revert rows. induction ts as [|t ts IH]; intros [|[t'|j] rows] H; try discriminate; auto.
  apply cons_inv in H as [H1 H2]. cbn. rewrite (IH rows H2). cbn in H1. congruence.
Qed.

Section OperatorSpecs.
Context {TP : TimeParse} {F : GoFmt} {P : Plugins} {B : Builtins}.
Variable ff : FuncFinder.

Lemma where_row_alias c : alias_verdict (where_row ff c).
Proof.
  intros row row' H. unfold where_row, judge in H.
  destruct (eval_opt ff c (where_valuer row)) as [[v V]|] eqn:E; [|discriminate].
  assert (K : alias_only (where_valuer row) V).
  { destruct c as [e|]; cbn in E; [|inversion E; subst; now apply alias_only_refl].
    eapply eval_alias_only; eauto. exact I. }
  destruct v as [|[]| | | | | | | | | | | | | | | | | | | | | |]; try discriminate.
  inversion H; subst. destruct K as [K _].
  destruct V as [vs|d i r|m]; try discriminate.
  destruct vs as [|[d| | |d] vs]; try discriminate. cbn in K. now inversion K.
Qed.

(** Does the condition hold for a tuple? *)
Definition holds (c : option expr) (t : Tuple) : bool := kept (where_row ff c (DTuple t)).

(** WHERE over a window: the output window holds, in order, exactly the
    tuples whose condition is true, unchanged up to aliases and in the same
    range; nothing is emitted when there are none; and the first tuple whose
    condition is an error or not a boolean decides the error. *)
Theorem filter_window_spec c emitter ts range :
  let rows := map DTuple ts in
  match FilterOp_Apply ff c (SWindow (mkWTS [mkWT emitter ts] range)) with
  | None => first_stop (where_row ff c) rows Panics
  | Some (SErr e) => first_stop (where_row ff c) rows (Fails e)
  | Some SNil => Forall (fun r => decided (where_row ff c r)) rows /\ filter (holds c) ts = []
  | Some (SWindow w) =>
      Forall (fun r => decided (where_row ff c r)) rows
      /\ exists ts', w = mkWTS [mkWT emitter ts'] range /\ ts' <> []
           /\ map erase_tuple ts' = map erase_tuple (filter (holds c) ts)
  | _ => False
  end.
Proof.
  cbn. pose proof (filter_rows_spec (where_row ff c) (map DTuple ts) (where_row_alias c)) as H.
  destruct (filter_rows (where_row ff c) (map DTuple ts)) as [[e|l]|]; cbn in *; auto.
  destruct H as [H1 H2]. rewrite filter_map_comm in H2. apply aliased_tuples in H2 as H3.
  destruct l as [|row l]; cbn in *.
  - split; auto. unfold holds. destruct (filter _ ts); [reflexivity|discriminate].
  - split; auto. eexists. split; [reflexivity|]. split; [|exact H3].
    destruct (filter _ ts) as [|t ts'] eqn:Ef; [discriminate|].
    destruct row; [discriminate|]. unfold aliased in H2. discriminate.
Qed.

(** What the fields produce, in order, before names collide. *)
Fixpoint outputs (fs : list Field) (V : Valuer) : option (value + list (string * value)) :=
  match fs with
  | [] => Some (inr [])
  | f :: fs' =>
      match eval ff (f_Expr f) V with
      | None => None
      | Some (v, V') =>
          let rest l := match outputs fs' V' with Some (inr l') => Some (inr (l ++ l')) | x => x end in
          if is_error v then Some (inl v)
          else if is_wildcard f then
            match v with
            | VMap m | VMessage m => rest m
            | VTypedNil GMap => rest []
            | _ => Some (inl (VError "wildcarder does not return map" []))
            end
          else if is_nil v then rest []
          else rest [(assignName (f_Name f) (f_AName f), v)]
      end
  end.

Lemma put_new_spec r kv n :
  assoc n (put_new r kv) =
    match assoc n r with Some v => Some v | None => assoc n [kv] end.
Proof.
  unfold put_new. destruct kv as [k v]. cbn.
  destruct (assoc k r) eqn:Ek.
  - destruct (assoc n r) eqn:En; [reflexivity|].
    destruct (String.eqb_spec k n); [congruence|reflexivity].
  - destruct (String.eqb_spec k n) as [->|Hn].
    + rewrite assoc_set_same, Ek. reflexivity.
    + rewrite assoc_set_other by congruence. now destruct (assoc n r).
Qed.

Lemma put_new_nodup r kv : NoDup (keys r) -> NoDup (keys (put_new r kv)).
Proof. unfold put_new. intros H. destruct (assoc (fst kv) r); auto using keys_assoc_set. Qed.

Lemma assoc_app {V} n (l l' : list (string * V)) :
  assoc n (l ++ l') = match assoc n l with Some v => Some v | None => assoc n l' end.
Proof. induction l as [|[k v] l IH]; cbn; auto. destruct (String.eqb k n); auto. Qed.

Lemma fold_put_new m : forall r n,
  assoc n (fold_left put_new m r) = assoc n (r ++ m).
Proof.
  induction m as [|kv m IH]; intros r n; cbn; [now rewrite app_nil_r|].
  rewrite IH, !assoc_app, put_new_spec. destruct (assoc n r); [reflexivity|].
  destruct kv as [k v]. cbn. now destruct (String.eqb k n).
Qed.

Lemma fold_put_new_nodup m : forall r, NoDup (keys r) -> NoDup (keys (fold_left put_new m r)).
Proof. induction m as [|kv m IH]; intros r H; cbn; auto. apply IH. now apply put_new_nodup. Qed.

(** The result of the loop, from a partial result. *)
Lemma project_loop_spec fs : forall r V, NoDup (keys r) ->
  match outputs fs V with
  | None => project_loop ff fs r V = None
  | Some (inl e) => project_loop ff fs r V = Some (inl e)
  | Some (inr l) => exists r', project_loop ff fs r V = Some (inr r') /\ NoDup (keys r')
      /\ forall n, assoc n r' = assoc n (r ++ l)
  end.
Proof.
  induction fs as [|f fs IH]; intros r V Hr; cbn.
  { exists r. rewrite app_nil_r. auto. }
  destruct (eval ff (f_Expr f) V) as [[v V']|]; [|reflexivity].
  assert (G : forall m, match
      match outputs fs V' with Some (inr l') => Some (inr (m ++ l')) | x => x end with
    | None => project_loop ff fs (fold_left put_new m r) V' = None
    | Some (inl e) => project_loop ff fs (fold_left put_new m r) V' = Some (inl e)
    | Some (inr l) => exists r', project_loop ff fs (fold_left put_new m r) V' = Some (inr r')
        /\ NoDup (keys r') /\ forall n, assoc n r' = assoc n (r ++ l)
    end).
  { intros m. specialize (IH (fold_left put_new m r) V' (fold_put_new_nodup m r Hr)).
    destruct (outputs fs V') as [[e|l']|]; auto.
    destruct IH as (r' & H1 & H2 & H3). exists r'. repeat split; auto.
    intros n. now rewrite H3, assoc_app, fold_put_new, !assoc_app; destruct (assoc n r), (assoc n m). }
  destruct (is_error v); [reflexivity|].
  destruct (is_wildcard f); [destruct v as [| | | | | | | | | | | | | | | | | | | | |[]| |]; auto; (apply G || apply (G []))|].
  destruct (is_nil v); [apply (G [])|apply (G [(assignName (f_Name f) (f_AName f), v)])].
Qed.

(** SELECT: the projected map gives every output name the value of the
    first field (or wildcard entry) that produces a non-nil value under that
    name, has no other names and no name twice; an error of a field is the
    error of the projection. *)
Theorem project_spec fs V :
  match outputs fs V with
  | None => project ff fs V = None
  | Some (inl e) => project ff fs V = Some (inl e)
  | Some (inr l) => exists r, project ff fs V = Some (inr r) /\ NoDup (keys r)
      /\ forall n, assoc n r = assoc n l
  end.
Proof. exact (project_loop_spec fs [] V (NoDup_nil _)). Qed.

(** ** Grouping *)

Definition rows_of (k : string) (keyed : list (string * DataValuer)) : list DataValuer :=
  map snd (filter (fun kr => String.eqb (fst kr) k) keyed).

(** The distinct keys in order of first appearance, after [seen]. *)
Fixpoint new_keys (seen : list string) (keyed : list (string * DataValuer)) : list string :=
  match keyed with
  | [] => []
  | (k, _) :: l => if mem k seen then new_keys seen l else k :: new_keys (seen ++ [k]) l
  end.

Definition group_of (wr : option WindowRange) (keyed : list (string * DataValuer)) (k : string)
    : string * GroupedTuples := (k, {| g_Content := rows_of k keyed; g_Range := wr |}).

Definition grouped (wr : option WindowRange) (keyed : list (string * DataValuer))
    : list (string * GroupedTuples) := map (group_of wr keyed) (new_keys [] keyed).

Lemma mem_In k l : mem k l = true <-> In k l.
Proof.
  unfold mem. rewrite existsb_exists. split.
  - intros (x & Hx & E). apply String.eqb_eq in E. now subst.
  - intros H. exists k. split; [exact H|apply String.eqb_refl].
Qed.

Lemma new_keys_app seen l l' :
  new_keys seen (l ++ l') = new_keys seen l ++ new_keys (seen ++ new_keys seen l) l'.
Proof.
  revert seen. induction l as [|[k r] l IH]; intros seen; cbn; [now rewrite app_nil_r|].
  destruct (mem k seen); cbn; rewrite IH; [reflexivity|]. now rewrite <- app_assoc.
Qed.

Lemma rows_of_app k l l' : rows_of k (l ++ l') = rows_of k l ++ rows_of k l'.
Proof. unfold rows_of. now rewrite filter_app, map_app. Qed.

Lemma new_keys_nodup l : forall seen,
  NoDup (new_keys seen l) /\ forall k, In k (new_keys seen l) -> ~ In k seen.
Proof.
  induction l as [|[k r] l IH]; intros seen; cbn; [split; [constructor|tauto]|].
  destruct (mem k seen) eqn:E; [apply IH|]. destruct (IH (seen ++ [k])) as [H1 H2].
  assert (Hk : ~ In k seen) by (intros H; apply mem_In in H; congruence).
  split.
  - constructor; auto. intros H. apply (H2 k H). apply in_or_app. cbn. auto.
  - intros k' [<-|H]; auto. intros Hs. apply (H2 k' H). apply in_or_app. auto.
Qed.

Lemma rows_of_snoc wr l k m k' :
  k' <> k -> group_of wr (l ++ [(k, m)]) k' = group_of wr l k'.
Proof.
  intros H. unfold group_of. rewrite rows_of_app. cbn. unfold rows_of at 2. cbn.
  destruct (String.eqb_spec k k'); [congruence|]. cbn. now rewrite app_nil_r.
Qed.

Lemma rows_of_absent k l : ~ In k (new_keys [] l) -> rows_of k l = [].
Proof.
  enough (G : forall seen, ~ In k (new_keys seen l) -> ~ In k seen -> rows_of k l = []).
  { intros H. apply (G [] H). cbn. tauto. }
  induction l as [|[k' r] l IH]; intros seen H Hs; [reflexivity|]. cbn in H.
  unfold rows_of. cbn. destruct (mem k' seen) eqn:E.
  - apply mem_In in E. destruct (String.eqb_spec k' k) as [->|]; [tauto|]. now apply (IH seen).
  - cbn in H. destruct (String.eqb_spec k' k) as [->|]; [tauto|].
    apply (IH (seen ++ [k'])); [tauto|]. rewrite in_app_iff. cbn. tauto.
Qed.

(** Updating the entry of one key, or appending it, in a list of groups. *)
Lemma add_group_at wr l k m ks : NoDup ks -> (~ In k ks -> rows_of k l = []) ->
  add_group wr k m (map (group_of wr l) ks)
    = map (group_of wr (l ++ [(k, m)])) (if mem k ks then ks else ks ++ [k]).
Proof.
  assert (Hg : group_of wr (l ++ [(k, m)]) k = (k, {| g_Content := rows_of k l ++ [m]; g_Range := wr |})).
  { unfold group_of. rewrite rows_of_app. unfold rows_of at 2. cbn. now rewrite String.eqb_refl. }
  unfold add_group. induction ks as [|k' ks IH]; intros Hn Ha.
  - cbn [map assoc assoc_set app]. change (mem k []) with false. cbn [map app].
    rewrite Hg, Ha by tauto. reflexivity.
  - inversion Hn as [|? ? Hk' Hn']; subst. unfold mem. cbn [existsb map assoc assoc_set].
    change (group_of wr l k') with (k', snd (group_of wr l k')). cbv iota beta.
    destruct (String.eqb_spec k' k) as [->|Hne].
    + rewrite String.eqb_refl. cbn [orb map]. rewrite Hg. cbn [snd group_of g_Content g_Range]. f_equal.
      apply map_ext_in. intros k' H. rewrite rows_of_snoc; [reflexivity|]. intros ->. tauto.
    + destruct (String.eqb_spec k k'); [congruence|]. cbn [orb].
      specialize (IH Hn'). fold (mem k ks) in *.
      destruct (assoc k (map (group_of wr l) ks)) eqn:E;
        (rewrite IH by (intros ?; apply Ha; intros [?|?]; tauto);
         rewrite <- (rows_of_snoc wr l k m k') by congruence; now destruct (mem k ks)).
Qed.

Lemma add_group_grouped wr l k m :
  add_group wr k m (grouped wr l) = grouped wr (l ++ [(k, m)]).
Proof.
  unfold grouped. rewrite add_group_at; [|apply new_keys_nodup|apply rows_of_absent].
  rewrite new_keys_app. cbn. now destruct (mem k (new_keys [] l)); rewrite ?app_nil_r.
Qed.

(** The rows with their keys, as the loop computes them. *)
Definition keyed_rows (ds : list expr) (ms : list DataValuer) (keyed : list (string * DataValuer)) : Prop :=
  Forall2 (fun m kr => group_row ff ds m = Some (inr kr)) ms keyed.

(** The first row whose dimensions do not evaluate. *)
Definition group_stop (ds : list expr) (ms : list DataValuer) (out : option value) : Prop :=
  exists pre keyed m post, ms = pre ++ m :: post /\ keyed_rows ds pre keyed
    /\ group_row ff ds m = match out with Some e => Some (inl e) | None => None end.

Lemma group_loop_spec ds wr ms : forall pre done,
  keyed_rows ds pre done ->
  match group_loop ff ds wr ms (grouped wr done) with
  | None => group_stop ds (pre ++ ms) None
  | Some (inl e) => group_stop ds (pre ++ ms) (Some e)
  | Some (inr result) => exists keyed, keyed_rows ds (pre ++ ms) keyed /\ result = grouped wr keyed
  end.
Proof.
  induction ms as [|m ms IH]; intros pre done Hd; cbn.
  { exists done. now rewrite app_nil_r. }
  destruct (group_row ff ds m) as [[e|[k m']]|] eqn:E; [now exists pre, done, m, ms| |now exists pre, done, m, ms].
  rewrite add_group_grouped.
  specialize (IH (pre ++ [m]) (done ++ [(k, m')])). rewrite <- app_assoc in IH. apply IH.
  apply Forall2_app; [exact Hd|]. constructor; [exact E|constructor].
Qed.

(** GROUP BY over a window: the groups, in an unspecified order, are one
    per distinct key of the rows; each holds exactly the rows with its key, in
    window order, and the range of the window; so every row is in exactly one
    group.  The first row whose dimensions fail decides the error. *)
Theorem aggregate_partition {O : MapOrder} ds emitter ts range :
  let rows := map DTuple ts in
  match AggregateOp_Apply ff (Some ds) (SWindow (mkWTS [mkWT emitter ts] range)) with
  | None => group_stop ds rows None
  | Some (SErr e) => group_stop ds rows (Some e)
  | Some SNil => ts = []
  | Some (SGroups gs) =>
      exists keyed, keyed_rows ds rows keyed
        /\ Permutation gs (map (fun k => {| g_Content := rows_of k keyed; g_Range := range |})
                              (new_keys [] keyed))
        /\ NoDup (new_keys [] keyed)
  | _ => False
  end.
Proof.
  cbn. pose proof (group_loop_spec ds range (map DTuple ts) [] [] (Forall2_nil _)) as H.
  change (grouped range []) with (@nil (string * GroupedTuples)) in H.
  unfold group_result. destruct (group_loop ff ds range (map DTuple ts) []) as [[e|res]|]; auto.
  destruct H as (keyed & Hk & Hr). cbn in Hk.
  assert (Hp : Permutation (map snd res)
    (map (fun k => {| g_Content := rows_of k keyed; g_Range := range |}) (new_keys [] keyed))).
  { rewrite Hr. unfold grouped. rewrite map_map. reflexivity. }
  destruct res as [|g res].
  - destruct keyed as [|[k r] keyed]; [|discriminate]. inversion Hk. now destruct ts.
  - exists keyed. split; [exact Hk|]. split; [|apply new_keys_nodup].
    transitivity (map snd (g :: res)); [|exact Hp].
    apply Permutation_map, Permutation_sym, map_range_perm.
Qed.

(** ** HAVING *)

Definition erase_group (g : GroupedTuples) : GroupedTuples :=
  {| g_Content := map erase_row (g_Content g); g_Range := g_Range g |}.

(** What the condition says of a group: keep it (with new aliases) or not, or
    the error; [None] is a panic. *)
Definition group_verdict (c : option expr) (g : GroupedTuples) : option (value + option GroupedTuples) :=
  match g_Content g with
  | [] => None
  | row :: _ =>
      match eval_opt ff c (VaAgg (ADGroup g) 0 row) with
      | None => None
      | Some (VBool true, V) => Some (inr (Some (match V with VaAgg (ADGroup g') _ _ => g' | _ => g end)))
      | Some (VBool false, _) => Some (inr None)
      | Some (VError f a, _) => Some (inl (run_error "Having" (VError f a)))
      | Some (v, _) => Some (inl (non_bool "Having" v))
      end
  end.

Definition group_holds (c : option expr) (g : GroupedTuples) : bool :=
  match group_verdict c g with Some (inr (Some _)) => true | _ => false end.

Definition group_decided (c : option expr) (g : GroupedTuples) : Prop :=
  match group_verdict c g with Some (inr _) => True | _ => False end.

Definition first_group_stop (c : option expr) (gs : GroupedTuplesSet) (out : option value) : Prop :=
  exists pre g post, gs = pre ++ g :: post /\ Forall (group_decided c) pre
    /\ group_verdict c g = match out with Some e => Some (inl e) | None => None end.

Lemma having_groups_cons c g gs :
  having_groups ff c (g :: gs) =
    match group_verdict c g with
    | None => None
    | Some (inl e) => Some (inl e)
    | Some (inr None) => having_groups ff c gs
    | Some (inr (Some g')) =>
        match having_groups ff c gs with Some (inr l) => Some (inr (g' :: l)) | r => r end
    end.
Proof.
  cbn [having_groups]. unfold group_verdict. destruct (g_Content g); [reflexivity|].
  destruct (eval_opt _ _ _) as [[[|[]| | | | | | | | | | | | | | | | | | | | | |] V]|]; reflexivity.
Qed.

Lemma group_verdict_alias c g g' :
  group_verdict c g = Some (inr (Some g')) -> erase_group g' = erase_group g.
Proof.
  unfold group_verdict. destruct (g_Content g) as [|row rows] eqn:Eg; [discriminate|].
  destruct (eval_opt ff c (VaAgg (ADGroup g) 0 row)) as [[v V]|] eqn:E; [|discriminate].
  assert (I0 : in_place (VaAgg (ADGroup g) 0 row)) by (cbn; now rewrite Eg).
  assert (K : alias_only (VaAgg (ADGroup g) 0 row) V).
  { destruct c as [e|]; cbn in E; [|inversion E; subst; now apply alias_only_refl].
    eapply eval_alias_only; eauto. }
  destruct v as [|[]| | | | | | | | | | | | | | | | | | | | | |]; try discriminate.
  intros H. inversion H; subst g'. destruct K as [K _].
  destruct V as [vs|d i r|m]; try discriminate. cbn in K.
  destruct d as [t|w|s|g0]; try reflexivity. cbn in K. unfold erase_group. now inversion K.
Qed.

Lemma first_group_stop_cons c g gs out :
  group_decided c g -> first_group_stop c gs out -> first_group_stop c (g :: gs) out.
Proof. intros Hd (pre & r & post & -> & Hp & Hr). exists (g :: pre), r, post. repeat split; auto. Qed.

Lemma having_groups_spec c gs :
  match having_groups ff c gs with
  | None => first_group_stop c gs None
  | Some (inl e) => first_group_stop c gs (Some e)
  | Some (inr l) => Forall (group_decided c) gs
      /\ map erase_group l = map erase_group (filter (group_holds c) gs)
  end.
Proof.
  induction gs as [|g gs IH]; [split; [constructor|reflexivity]|].
  rewrite having_groups_cons.
  assert (D : (exists o, group_verdict c g = Some (inr o)) -> group_decided c g).
  { intros [o Ho]. unfold group_decided. now rewrite Ho. }
  cbn [filter]. unfold group_holds at 1.
  destruct (group_verdict c g) as [[e|[g'|]]|] eqn:E.
  - exists [], g, gs. repeat split; auto.
  - pose proof (group_verdict_alias _ _ _ E) as Ea.
    destruct (having_groups ff c gs) as [[e|l]|]; try (apply first_group_stop_cons; eauto; fail).
    destruct IH as [IH1 IH2]. split; [constructor; eauto|]. cbn. congruence.
  - destruct (having_groups ff c gs) as [[e|l]|]; try (apply first_group_stop_cons; eauto; fail).
    destruct IH as [IH1 IH2]. split; [constructor; eauto|exact IH2].
  - exists [], g, gs. repeat split; auto.
Qed.

(** HAVING over groups: the groups that satisfy the condition go on, in
    order and unchanged up to the aliases the condition cached; none, and
    nothing is emitted; the first group whose condition fails or is not a
    boolean decides the error. *)
Theorem having_selects_groups c gs :
  match HavingOp_Apply ff c (SGroups gs) with
  | None => first_group_stop c gs None
  | Some (SErr e) => first_group_stop c gs (Some e)
  | Some SNil => Forall (group_decided c) gs /\ filter (group_holds c) gs = []
  | Some (SGroups r) => Forall (group_decided c) gs /\ r <> []
      /\ map erase_group r = map erase_group (filter (group_holds c) gs)
  | _ => False
  end.
Proof.
  cbn. pose proof (having_groups_spec c gs) as H.
  destruct (having_groups ff c gs) as [[e|[|g l]]|]; auto; destruct H as [H1 H2]; split; auto.
  - now destruct (filter (group_holds c) gs).
  - split; [discriminate|exact H2].
Qed.

(** the group key does not separate the dimensions: rows whose first
    columns are [x,y] and [x] and whose second columns are [z] and [y,z] get
    the same key, so GROUP BY puts them in one group. *)
Theorem group_key_collision x y z :
  let row p q := DTuple (mkTuple "demo" [("a", VString p); ("b", VString q)] 0 None None) in
  let ds := [FieldRef "demo" "a" None; FieldRef "demo" "b" None] in
  exists k r1 r2,
    group_row ff ds (row (x ++ "," ++ y)%string z) = Some (inr (k, r1))
    /\ group_row ff ds (row x (y ++ "," ++ z)%string) = Some (inr (k, r2)).
Proof.
  cbv zeta.
  assert (G : forall p q,
    group_row ff [FieldRef "demo" "a" None; FieldRef "demo" "b" None]
      (DTuple (mkTuple "demo" [("a", VString p); ("b", VString q)] 0 None None))
    = Some (inr (("" ++ (p ++ ",")) ++ (q ++ ","),
                 DTuple (mkTuple "demo" [("a", VString p); ("b", VString q)] 0 None None)))%string)
    by reflexivity.
  eexists _, _, _. rewrite !G. split; [reflexivity|].
  now rewrite !sapp_assoc.
Qed.

End OperatorSpecs.

Import Plain.

#[local] Instance in_order : MapOrder :=
  { map_range := fun A m => m; map_range_perm := fun A m => Permutation_refl m }.

(** Two temperatures, grouped by device: two groups of the window. *)
Definition reading (dev : string) (t : Z) : Tuple :=
  mkTuple "demo" [("dev", VString dev); ("temp", VInt t)] t None None.

Lemma aggregate_partition_witness :
  AggregateOp_Apply finder (Some [FieldRef "demo" "dev" None])
    (SWindow (mkWTS [mkWT "demo" [reading "x" 1; reading "y" 2; reading "x" 3]] None))
  = Some (SGroups [ {| g_Content := [DTuple (reading "x" 1); DTuple (reading "x" 3)]; g_Range := None |};
                    {| g_Content := [DTuple (reading "y" 2)]; g_Range := None |} ])
  /\ exists keyed, keyed_rows finder [FieldRef "demo" "dev" None]
        (map DTuple [reading "x" 1; reading "y" 2; reading "x" 3]) keyed.
Proof.
  split; [vm_compute; reflexivity|].
  pose proof (aggregate_partition finder [FieldRef "demo" "dev" None] "demo"
    [reading "x" 1; reading "y" 2; reading "x" 3] None) as H.
  cbv zeta in H.
  replace (AggregateOp_Apply _ _ _) with
    (Some (SGroups [ {| g_Content := [DTuple (reading "x" 1); DTuple (reading "x" 3)]; g_Range := None |};
                    {| g_Content := [DTuple (reading "y" 2)]; g_Range := None |} ])) in H
    by (vm_compute; reflexivity).
  destruct H as (keyed & Hk & _). exists keyed. exact Hk.
Defined.

(** HAVING over joined rows reads the slice it is writing: here the condition
    [c = 2 OR sum(c) = 5] drops the first row ([sum] is 4), and keeps the
    second, which then overwrites the first, so that the third row sees the sum
    of [2, 2, 1]. *)
Definition joined (c : Z) : JoinTuple :=
  mkJT [mkTuple "s" [("c", VInt c)] 0 None None] None.

Definition having_condition : expr :=
  BinaryExpr OR (BinaryExpr EQ (FieldRef "s" "c" None) (IntegerLiteral 2))
    (BinaryExpr EQ (Call "sum" [FieldRef "s" "c" None]) (IntegerLiteral 5)).

(** having over a join overwrites the rows its aggregates read: the rows
    [1], [2], [1] have sum 4, and the condition [c = 2 OR sum(c) = 5] still
    keeps the third row. *)
Theorem having_join_reads_overwritten_rows :
  HavingOp_Apply finder (Some having_condition)
    (SJoin (mkJTS [joined 1; joined 2; joined 1] None))
  = Some (SJoin (mkJTS [joined 2; joined 1] None))
  /\ eval finder (Call "sum" [FieldRef "s" "c" None])
       (VaAgg (ADJoin (mkJTS [joined 1; joined 2; joined 1] None)) 2 (DJoin (joined 1)))
     = Some (VInt 4, VaAgg (ADJoin (mkJTS [joined 1; joined 2; joined 1] None)) 2 (DJoin (joined 1))).
Proof. split; vm_compute; reflexivity. Qed.
