(* ===== verification/Preprocess.v ===== *)
(** What turns the messages of a source into typed tuples
    (src/internal/topo/operator: field_processor.go, preprocessor.go).

    A field is decoded by the type its stream definition gives it.  The calls
    end in an [outcome]: a panic, an error or a result.  [json.Unmarshal] into a
    slice and into a map are the parameters of [JsonDecode]. *)

From S2P Require Import Prelude Token Ast Lexical Strconv Base64 Value Collections AggFuncs Cast TimeFormat Eval Operators.
From Stdlib Require Import ZArith Lia Bool List String Ascii SpecFloat Permutation.
Import ListNotations.

#[local] Open Scope string_scope.
#[local] Open Scope list_scope.
#[local] Open Scope Z_scope.
#[local] Open Scope outcome_scope.

(** A slice is [None] when it is nil; a nil map reads as an empty one. *)
Class JsonDecode : Type := {
  json_array : string -> option (option (list value));
  json_object : string -> option Message
}.

(** ** Fields *)

(** An element of [streamFields]: with or without a type. *)
Inductive stream_field : Type :=
  | TypedField (Name : string) (ft : FieldType)   (* *ast.StreamField *)
  | NamedField (sf : string).                      (* string: schemaless *)

Record defaultFieldProcessor : Type := mkProcessor {
  fp_streamFields : option (list stream_field);
  timestampFormat : string;
  isBinary : bool }.

Definition DefaultField : string := "self".

Definition expect (n ty : string) (t : value) : value :=
  VError ("invalid data type for %s, expect " ++ ty ++ " but found %[2]T(%[2]v)")%string [VString n; t].

Definition expect_elem (i : Z) (ty : string) (t : value) : value :=
  VError ("invalid data type for [%d], expect " ++ ty ++ " but found %[2]T(%[2]v)")%string [VInt i; t].

(** [float64(math.MaxInt64)] is 2^63. *)
Definition f64_MaxInt64 : float64 := f64_of_Z MaxInt64.

Section Fields.
Context {TP : TimeParse} {L : FloatLib} {J : JsonDecode}.
Variable p : defaultFieldProcessor.

Definition parseTime (s : string) : outcome value Z :=
  if String.eqb (timestampFormat p) "" then Some (Parse JSISO s) else ParseTime s (timestampFormat p).

Definition or_error {A} (e : value) (o : option A) : outcome value A :=
  match o with Some a => ok a | None => fails e end.

Definition atoi (s : string) : option Z := let '(i, good) := Atoi s in if good then Some i else None.

(** The basic types in [addRecField]; [None] leaves the field out. *)
Definition basic_field (b : DataType) (n : string) (t : value) : outcome value (option value) :=
  match b with
  | UNKNOWN => fails (VError "invalid data type unknown defined for %s, please check the stream definition" [t])
  | BIGINT =>
      match t with
      | VInt z => ok (Some (VInt z))
      | VFloat64 f =>
          ok (Some (if f64_ltb f64_MaxInt64 f then VUint64 (float_to false 64 f) else VInt (float_to true 64 f)))
      | VString s => let! i := or_error (expect n "bigint" t) (atoi s) in ok (Some (VInt i))
      | VUint64 z => ok (Some (VUint64 z))
      | _ => fails (expect n "bigint" t)
      end
  | FLOAT =>
      match t with
      | VFloat64 f => ok (Some (VFloat64 f))
      | VString s => let! f := or_error (expect n "float" t) (parse_float 64 s) in ok (Some (VFloat64 f))
      | _ => fails (expect n "float" t)
      end
  | STRINGS => match t with VString s => ok (Some (VString s)) | _ => fails (expect n "string" t) end
  | DATETIME =>
      match t with
      | VInt _ => panics   (* t.(int64) *)
      | VFloat64 f => ok (Some (VTime (TimeFromUnixMilli (float_to true 64 f))))
      | VString s =>
          let! z := on_error (fun e => VError "invalid data type for %s, cannot convert to datetime: %s" [VString n; e]) (parseTime s) in
          ok (Some (VTime z))
      | _ => fails (VError "invalid data type for %s, expect datatime but find %[2]T(%[2]v)" [VString n; t])
      end
  | BOOLEAN =>
      match t with
      | VBool x => ok (Some (VBool x))
      | VString s => let! x := or_error (expect n "boolean" t) (ParseBool s) in ok (Some (VBool x))
      | _ => fails (expect n "boolean" t)
      end
  | BYTEA =>
      match t with
      | VString s =>
          let! x := or_error (VError "invalid data type for %s, expect bytea but found %[2]T(%[2]v) which cannot base64 decode" [VString n; t]) (DecodeString s) in
          ok (Some (VBytes x))
      | VBytes x => ok (Some (VBytes x))
      | VSlice _ | VTyped _ _ | VTypedNil (GSlice _) => fails (expect n "bytea" t)
      | _ => ok None
      end
  | ARRAY | STRUCT => fails (VError "invalid data type for %s, it is not supported yet" [])
  end.

(** The loop over the elements of a slice. *)
Fixpoint elements (f : Z -> value -> outcome value (option value)) (i : Z) (l : list value) : outcome value (list value) :=
  match l with
  | [] => ok []
  | t :: l' =>
      let! a := f i t in
      let! r := elements f (i + 1) l' in
      ok (match a with Some v => v :: r | None => r end)
  end.

(** The Go type of the elements of an array of a basic type. *)
Definition elem_type (b : DataType) : gotype :=
  match b with
  | BIGINT => GInt | FLOAT => GFloat64 | STRINGS => GString | DATETIME => GTime | BOOLEAN => GBool | _ => GSlice GUint8
  end.

Definition basic_elem (b : DataType) (i : Z) (t : value) : outcome value (option value) :=
  match b with
  | BIGINT =>
      match t with
      | VFloat64 f => ok (Some (VInt (float_to true 64 f)))
      | VString s => let! v := or_error (expect_elem i "float" t) (atoi s) in ok (Some (VInt v))
      | _ => fails (expect_elem i "float" t)
      end
  | FLOAT =>
      match t with
      | VFloat64 f => ok (Some (VFloat64 f))
      | VString s => let! f := or_error (expect_elem i "float" t) (parse_float 64 s) in ok (Some (VFloat64 f))
      | _ => fails (expect_elem i "float" t)
      end
  | STRINGS => match t with VString s => ok (Some (VString s)) | _ => fails (expect_elem i "string" t) end
  | DATETIME =>
      match t with
      | VInt _ => panics
      | VFloat64 f => ok (Some (VTime (TimeFromUnixMilli (float_to true 64 f))))
      | VString s =>
          let! z := on_error (fun e => VError "invalid data type for %s, cannot convert to datetime: %[2]T(%[2]v)" [t; e]) (parseTime s) in
          ok (Some (VTime z))
      | _ => fails (expect_elem i "datetime" t)
      end
  | BOOLEAN =>
      match t with
      | VBool x => ok (Some (VBool x))
      | VString s => let! x := or_error (expect_elem i "boolean" t) (ParseBool s) in ok (Some (VBool x))
      | _ => fails (expect_elem i "boolean" t)
      end
  | BYTEA =>
      match t with
      | VString s =>
          let! x := or_error (VError "invalid data type for [%d], expect bytea but found %[2]T(%[2]v) which cannot base64 decode" [VInt i; t]) (DecodeString s) in
          ok (Some (VBytes x))
      | VBytes x => ok (Some (VBytes x))
      | VSlice _ | VTyped _ _ | VTypedNil (GSlice _) => fails (expect_elem i "bytea" t)
      | _ => ok None
      end
  | _ => panics
  end.

(** [addArrayField] for an array of a basic type. *)
Definition basic_array (b : DataType) (srcSlice : option (list value)) : outcome value value :=
  match b with
  | UNKNOWN => fails (VError "invalid data type unknown defined for %s, please checke the stream definition" [])
  | ARRAY | STRUCT => fails (VError "invalid data type for %T" [])
  | _ =>
      match srcSlice with
      | None => ok (VTypedNil (GSlice (elem_type b)))
      | Some l => let! r := elements (basic_elem b) 0 l in ok (VTyped (elem_type b) r)
      end
  end.

(** The slice a value is read as; [t.(\[\]interface{})] panics on any other
    slice. *)
Definition array_source (bad : value) (t : value) : outcome value (option (list value)) :=
  match t with
  | VNil | VTypedNil (GSlice GIface) => ok None
  | VSlice l => ok (Some l)
  | VTyped _ _ | VBytes _ | VTypedNil (GSlice _) => panics
  | VString s => or_error bad (json_array s)
  | _ => fails bad
  end.

(** The map a value is read as; [None] for nil. *)
Definition record_source (bad_map bad : value) (t : value) : outcome value (option Message) :=
  match t with
  | VNil => ok None
  | VMap m => ok (Some m)
  | VTypedNil GMap => ok (Some [])
  | VMessage _ | VTypedNil GMessage => fails bad_map
  | VString s => let! m := or_error bad_map (json_object s) in ok (Some m)
  | _ => fails bad
  end.

(** [reflect.Append] to a slice whose type the first element fixes; [None] is
    the zero [reflect.Value], of which [Interface] panics. *)
Definition append_typed (s : option (gotype * list value)) (v : value) : outcome value (option (gotype * list value)) :=
  match type_of v with
  | None => panics
  | Some t =>
      match s with
      | None => ok (Some (t, [v]))
      | Some (t', l) => if gotype_dec t t' then ok (Some (t', l ++ [v])) else panics
      end
  end.

Definition typed_slice (s : option (gotype * list value)) : outcome value value :=
  match s with Some (t, l) => ok (VTyped t l) | None => panics end.

Fixpoint addRecField (ft : FieldType) (r : Message) (j : Message) (n : string) {struct ft} : outcome value Message :=
  match Message_Value j n with
  | None => fails (VError "invalid data %s, field %s not found" [VMessage j; VString n])
  | Some t =>
      match ft with
      | BasicType b =>
          let! x := basic_field b n t in
          ok (match x with Some v => assoc_set n v r | None => r end)
      | ArrayType b elem =>
          let! s := array_source (expect n "array" t) t in
          let! tempArr := on_error (fun e => VError "fail to parse field %s: %s" [VString n; e])
            (match elem with None => basic_array b s | Some e => addArrayField e s end) in
          ok (assoc_set n tempArr r)
      | RecType fields =>
          let! src := record_source (expect n "map" t) (expect n "struct" t) t in
          match src with
          | None => ok (assoc_set n (VTypedNil GMap) r)
          | Some nextJ =>
              let! nextR :=
                (fix next (fs : list (string * FieldType)) (nextR : Message) : outcome value Message :=
                   match fs with
                   | [] => ok nextR
                   | (nm, nextF) :: fs' => let! nextR' := addRecField nextF nextR nextJ (to_lower nm) in next fs' nextR'
                   end) fields [] in
              ok (assoc_set n (VMap nextR) r)
          end
      | NilType => fails (VError "unsupported type %T" [])
      end
  end
(** [addArrayField] for an array whose elements are of the type [e]. *)
with addArrayField (e : FieldType) (srcSlice : option (list value)) {struct e} : outcome value value :=
  match e with
  | ArrayType b elem =>
      match srcSlice with
      | None => ok (VTypedNil (GSlice (GSlice GIface)))
      | Some l =>
          let! tempSlice :=
            (fix loop (i : Z) (l : list value) (tempSlice : option (gotype * list value)) :=
               match l with
               | [] => ok tempSlice
               | t :: l' =>
                   let! s := array_source (expect_elem i "array" t) t in
                   let! tempArr := match elem with None => basic_array b s | Some e' => addArrayField e' s end in
                   let! tempSlice' := append_typed tempSlice tempArr in
                   loop (i + 1) l' tempSlice'
               end) 0 l None in
          typed_slice tempSlice
      end
  | RecType fields =>
      match srcSlice with
      | None => ok (VTypedNil (GSlice GMap))
      | Some l =>
          let! tempSlice :=
            elements (fun i t =>
              let! src := record_source (expect_elem i "map" t) (expect_elem i "map" t) t in
              match src with
              | None => ok (Some (VTypedNil GMap))
              | Some j =>
                  let! r :=
                    (fix next (fs : list (string * FieldType)) (r : Message) : outcome value Message :=
                       match fs with
                       | [] => ok r
                       | (n, f) :: fs' => let! r' := addRecField f r j n in next fs' r'
                       end) fields [] in
                  ok (Some (VMap r))
              end) 0 l in
          ok (VTyped GMap tempSlice)
      end
  | BasicType _ | NilType => fails (VError "unsupported type %T" [])
  end.

(** ** Messages *)

Definition with_msg (m : Message) (t : Tuple) : Tuple := mkTuple (Emitter t) m (Timestamp t) (Metadata t) (t_alias t).

(** The loop over the stream fields; binary data has one field. *)
Fixpoint process_fields (fs : list stream_field) (t : Tuple) (result : Message) : outcome value (Message * Tuple) :=
  match fs with
  | [] => ok (result, t)
  | TypedField n ft :: fs' =>
      let t := if isBinary p
               then with_msg (assoc_set n (match assoc DefaultField (Msg t) with Some v => v | None => VNil end) (Msg t)) t
               else t in
      let! result' := addRecField ft result (Msg t) n in
      if isBinary p then ok (result', t) else process_fields fs' t result'
  | NamedField sf :: fs' =>
      let result' :=
        if isBinary p then Msg t
        else match Message_Value (Msg t) sf with Some m => assoc_set sf m result | None => result end in
      if isBinary p then ok (result', t) else process_fields fs' t result'
  end.

(** The result and the tuple, whose message binary data extends. *)
Definition processField (t : Tuple) : outcome value (Message * Tuple) :=
  match fp_streamFields p with
  | Some fs => process_fields fs t []
  | None => ok (Msg t, t)
  end.
End Fields.

(** ** Preprocessor *)

Record Preprocessor : Type := mkPreprocessor {
  pp_fields : defaultFieldProcessor;
  allMeta : bool;
  metaFields : option (list string);
  isEventTime : bool;
  timestampField : string }.

Definition NewPreprocessor (fields : option (list stream_field)) (allMeta : bool) (metaFields : option (list string))
    (iet : bool) (timestampField timestampFormat : string) (isBinary : bool) : Preprocessor :=
  mkPreprocessor (mkProcessor fields timestampFormat isBinary) allMeta metaFields iet timestampField.

Section Apply.
Context {TP : TimeParse} {L : FloatLib} {J : JsonDecode}.

(** The metadata a rule reads, under lower-case names. *)
Fixpoint keep_meta (fs : list string) (m newMeta : Message) : Message :=
  match fs with
  | [] => newMeta
  | f :: fs' =>
      keep_meta fs' m (match Message_Value m f with Some v => assoc_set (to_lower f) v newMeta | None => newMeta end)
  end.

Definition event_time (p : Preprocessor) (result : Message) : outcome value Z :=
  match assoc (timestampField p) result with
  | Some t =>
      on_error (fun e => VError "cannot convert timestamp field %s to timestamp with error %v" [VString (timestampField p); e])
        (InterfaceToUnixMilli t (timestampFormat (pp_fields p)))
  | None => fails (VError "cannot find timestamp field %s in tuple %v" [VString (timestampField p); VMessage result])
  end.

Definition preprocess_tuple (p : Preprocessor) (tuple : Tuple) : outcome value Tuple :=
  let! (result, tuple) :=
    on_error (fun e => VError "error in preprocessor: %s" [e]) (processField (pp_fields p) tuple) in
  let! ts := if isEventTime p then event_time p result else ok (Timestamp tuple) in
  let meta :=
    if negb (allMeta p) && match metaFields p with Some (_ :: _) => true | _ => false end
    then Some (keep_meta (match metaFields p with Some fs => fs | None => [] end) (meta_map tuple) [])
    else Metadata tuple in
  ok (mkTuple (Emitter tuple) result ts meta (t_alias tuple)).

Definition emit (r : outcome value Tuple) : option stream_data :=
  match r with
  | Some (inr t) => Some (SRow (DTuple t))
  | Some (inl e) => Some (SErr e)
  | None => None
  end.

Definition Preprocessor_Apply (p : Preprocessor) (data : stream_data) : option stream_data :=
  match data with
  | SRow (DTuple tuple) => emit (preprocess_tuple p tuple)
  | _ => Some (SErr (VError "expect tuple data type" []))
  end.
End Apply.

(** ** Decoded fields have the type of the schema *)

Definition is_bytea (ft : FieldType) : bool := match ft with BasicType BYTEA => true | _ => false end.

Definition of_type (t : gotype) (v : value) : bool :=
  match type_of v with Some t' => if gotype_dec t' t then true else false | None => false end.

Definition basic_typed (b : DataType) (v : value) : bool :=
  match b, v with
  | BIGINT, VInt _ | BIGINT, VUint64 _ | FLOAT, VFloat64 _ | STRINGS, VString _ | DATETIME, VTime _ | BOOLEAN, VBool _
  | BYTEA, VBytes _ => true
  | _, _ => false
  end.

(** The value of a field of the type: a number, a typed slice, a map with
    exactly the fields of the struct.  Nulls are typed nils; a [bytea] field may
    be absent; the fields of a struct have lower-case names, those of the
    structs in an array the names of the definition. *)
Fixpoint has_type (ft : FieldType) (v : value) {struct ft} : bool :=
  match ft with
  | BasicType b => basic_typed b v
  | ArrayType b None =>
      match v with
      | VTyped t l => of_type (elem_type b) (VTypedNil t) && forallb (of_type (elem_type b)) l
      | VTypedNil t => of_type (GSlice (elem_type b)) v
      | _ => false
      end
  | ArrayType _ (Some (RecType fs)) =>
      match v with
      | VTyped GMap l =>
          forallb (fun x =>
            match x with
            | VMap m =>
                forallb (fun kv => existsb (fun f => String.eqb (fst f) (fst kv) && has_type (snd f) (snd kv)) fs) m
                && forallb (fun f => is_bytea (snd f) || mem (fst f) (keys m)) fs
            | _ => of_type GMap x
            end) l
      | _ => of_type (GSlice GMap) v
      end
  | ArrayType _ (Some (ArrayType b e as ft')) =>
      match v with
      | VTyped t l => forallb (fun x => of_type t x && has_type ft' x) l
      | _ => of_type (GSlice (GSlice GIface)) v
      end
  | ArrayType _ (Some _) => false
  | RecType fs =>
      match v with
      | VMap m =>
          forallb (fun kv => existsb (fun f => String.eqb (to_lower (fst f)) (fst kv) && has_type (snd f) (snd kv)) fs) m
          && forallb (fun f => is_bytea (snd f) || mem (to_lower (fst f)) (keys m)) fs
      | _ => of_type GMap v
      end
  | NilType => false
  end.

(** Structural induction that reaches the types of fields and elements. *)
Lemma FieldType_nested_ind (P : FieldType -> Prop) :
  (forall b, P (BasicType b)) -> (forall b, P (ArrayType b None)) -> (forall b e, P e -> P (ArrayType b (Some e))) ->
  (forall fs, Forall (fun f => P (snd f)) fs -> P (RecType fs)) -> P NilType -> forall ft, P ft.
Proof.
  intros HB HN HA HR H0. fix IH 1. intros [b|b [e|]|fs|]; [apply HB|apply HA, IH|apply HN| |exact H0].
  apply HR. induction fs as [|[n f] fs IHfs]; constructor; [apply IH|exact IHfs].
Qed.

Section Types.
Context {TP : TimeParse} {L : FloatLib} {J : JsonDecode}.
Variable p : defaultFieldProcessor.

Lemma basic_field_typed b n t v : basic_field p b n t = ok (Some v) -> basic_typed b v = true.
Proof.
  intros H. destruct b, t; cbn [basic_field] in H; try discriminate H; run_ok; subst; try reflexivity.
  - destruct (f64_ltb _ _); reflexivity.
  - destruct t; discriminate H.
Qed.

Lemma basic_field_absent b n t : basic_field p b n t = ok None -> b = BYTEA.
Proof. intros H. destruct b; [.. |reflexivity| | | | ]; destruct t; cbn [basic_field] in H; try discriminate H; run_ok; congruence. Qed.

Lemma of_type_eq t v : type_of v = Some t -> of_type t v = true.
Proof. unfold of_type. intros ->. destruct (gotype_dec t t); congruence. Qed.

Lemma elements_all (Q : value -> Prop) f l : (forall i t v, f i t = ok (Some v) -> Q v) ->
  forall i r, elements f i l = ok r -> Forall Q r.
Proof.
  intros Hf. induction l as [|t l IH]; intros i r H; cbn [elements] in H; run_ok; subst; [constructor|].
  destruct x as [v|]; [constructor|]; eauto.
Qed.

Lemma basic_elem_typed b i t v : basic_elem p b i t = ok (Some v) -> of_type (elem_type b) v = true.
Proof.
  intros H. apply of_type_eq.
  destruct b, t; cbn [basic_elem] in H; try discriminate H; run_ok; subst; try reflexivity.
  destruct t; discriminate H.
Qed.

Lemma basic_array_typed b s v : basic_array p b s = ok v -> has_type (ArrayType b None) v = true.
Proof.
  intros H. assert (N : of_type (GSlice (elem_type b)) (VTypedNil (GSlice (elem_type b))) = true) by now apply of_type_eq.
  destruct b; try discriminate H; (destruct s as [l|]; cbn [basic_array] in H; run_ok; subst; [|exact N]);
    cbn [has_type]; apply andb_true_intro; (split; [now apply of_type_eq|]);
    apply forallb_forall, Forall_forall; eapply elements_all; eauto; intros; eapply basic_elem_typed; eauto.
Qed.
(** What decoding one field of type [ft] may do to the record. *)
Definition sets_typed (ft : FieldType) (n : string) (r r' : Message) : Prop :=
  (r' = r /\ is_bytea ft = true) \/ (exists v, r' = assoc_set n v r /\ has_type ft v = true).

Definition field_ok (ft : FieldType) : Prop :=
  (forall r j n r', addRecField p ft r j n = ok r' -> sets_typed ft n r r')
  /\ (forall b s v, addArrayField p ft s = ok v -> has_type (ArrayType b (Some ft)) v = true).

(** The loop over the fields of a struct. *)
Definition next_fields (key : string -> string) (j : Message) :=
  fix next (fs : list (string * FieldType)) (r : Message) : outcome value Message :=
    match fs with
    | [] => ok r
    | (n, f) :: fs' => let! r' := addRecField p f r j (key n) in next fs' r'
    end.

Definition entries_typed (key : string -> string) (fs : list (string * FieldType)) (m : Message) : bool :=
  forallb (fun kv => existsb (fun f => String.eqb (key (fst f)) (fst kv) && has_type (snd f) (snd kv)) fs) m.

Definition fields_present (key : string -> string) (fs : list (string * FieldType)) (m : Message) : bool :=
  forallb (fun f => is_bytea (snd f) || mem (key (fst f)) (keys m)) fs.

Lemma entries_set key fs m n ft v :
  In (n, ft) fs -> has_type ft v = true -> entries_typed key fs m = true ->
  entries_typed key fs (assoc_set (key n) v m) = true.
Proof.
  intros Hin Hv. unfold entries_typed. assert (N : existsb (fun f => String.eqb (key (fst f)) (key n) && has_type (snd f) v) fs = true).
  { apply existsb_exists. exists (n, ft). cbn. now rewrite String.eqb_refl, Hv. }
  induction m as [|[k x] m IH]; cbn [assoc_set forallb]; intros H; cbn [fst snd] in *; [now rewrite N|].
  apply andb_prop in H as [H1 H2].
  destruct (String.eqb_spec k (key n)) as [->|]; cbn [forallb fst snd]; [now rewrite N|]. now rewrite H1, IH.
Qed.

Lemma keys_set_in k v (m : Message) x : In x (keys (assoc_set k v m)) <-> x = k \/ In x (keys m).
Proof.
  induction m as [|[k' y] m IH]; cbn; [intuition|]. destruct (String.eqb_spec k' k) as [->|]; cbn; [|rewrite IH]; intuition.
Qed.

Lemma next_fields_typed key j all fs : Forall (fun f => field_ok (snd f)) fs -> incl fs all -> forall m m',
  entries_typed key all m = true -> next_fields key j fs m = ok m' ->
  entries_typed key all m' = true /\ fields_present key fs m' = true /\ incl (keys m) (keys m').
Proof.
  induction 1 as [|[n f] fs [Hf _] _ IH]; intros Hi m m' Hm H; cbn [next_fields] in H.
  - run_ok. subst. split; [exact Hm|]. split; [reflexivity|apply incl_refl].
  - apply obind_ok in H as (r' & H1 & H2). apply Hf in H1. cbn [snd] in *.
    assert (In (n, f) all) by (apply Hi; now left). assert (Hi' : incl fs all) by (intros x Hx; apply Hi; now right).
    destruct H1 as [[-> B]|(v & -> & T)].
    + destruct (IH Hi' _ _ Hm H2) as (E & P & I). split; [exact E|]. split; [|exact I]. cbn. now rewrite B.
    + destruct (IH Hi' _ _ (entries_set key all m n f v H T Hm) H2) as (E & P & I). split; [exact E|].
      split; [|intros x Hx; apply I, keys_set_in; now right]. unfold fields_present in *. cbn [forallb fst snd]. rewrite P, andb_true_r.
      apply orb_true_intro. right. apply mem_In, I, keys_set_in. now left.
Qed.

Lemma record_typed key j fs m' : Forall (fun f => field_ok (snd f)) fs -> next_fields key j fs [] = ok m' ->
  entries_typed key fs m' && fields_present key fs m' = true.
Proof.
  intros Hf H. destruct (next_fields_typed key j fs fs Hf (incl_refl _) [] m' eq_refl H) as (-> & -> & _). reflexivity.
Qed.

(** The slice built by [reflect.Append]. *)
Definition slice_typed (ft : FieldType) (s : option (gotype * list value)) : Prop :=
  match s with Some (t, l) => forallb (fun x => of_type t x && has_type ft x) l = true | None => True end.

Lemma append_typed_ok ft s v s' : has_type ft v = true -> slice_typed ft s -> append_typed s v = ok s' -> slice_typed ft s'.
Proof.
  intros Hv Hs H. unfold append_typed in H. destruct (type_of v) as [t|] eqn:T; [|discriminate].
  destruct s as [[t' l]|].
  - destruct (gotype_dec t t') as [->|]; [|discriminate]. run_ok. subst. cbn [slice_typed] in *.
    rewrite forallb_app, Hs. cbn. now rewrite (of_type_eq _ _ T), Hv.
  - run_ok. subst. cbn. now rewrite (of_type_eq _ _ T), Hv.
Qed.

Definition inner_array (b : DataType) (elem : option FieldType) (s : option (list value)) : outcome value value :=
  match elem with None => basic_array p b s | Some e => addArrayField p e s end.

Definition array_loop (b : DataType) (elem : option FieldType) :=
  fix loop (i : Z) (l : list value) (tempSlice : option (gotype * list value)) :=
    match l with
    | [] => ok tempSlice
    | t :: l' =>
        let! s := array_source (expect_elem i "array" t) t in
        let! tempArr := match elem with None => basic_array p b s | Some e' => addArrayField p e' s end in
        let! tempSlice' := append_typed tempSlice tempArr in
        loop (i + 1) l' tempSlice'
    end.

Lemma array_loop_typed b elem l : (forall s v, inner_array b elem s = ok v -> has_type (ArrayType b elem) v = true) ->
  forall i s s', slice_typed (ArrayType b elem) s -> array_loop b elem i l s = ok s' -> slice_typed (ArrayType b elem) s'.
Proof.
  intros HI. induction l as [|t l IH]; intros i s s' Hs H; cbn [array_loop] in H.
  - run_ok. now subst.
  - apply obind_ok in H as (src & _ & H). apply obind_ok in H as (a & Ha & H). apply obind_ok in H as (s1 & H1 & H).
    eapply IH; [|exact H]. eapply append_typed_ok; [|exact Hs|exact H1]. eapply HI. exact Ha.
Qed.

Lemma array_of_arrays b b' elem s v : (forall s v, inner_array b' elem s = ok v -> has_type (ArrayType b' elem) v = true) ->
  addArrayField p (ArrayType b' elem) s = ok v -> has_type (ArrayType b (Some (ArrayType b' elem))) v = true.
Proof.
  intros HI H. destruct s as [l|]; cbn [addArrayField] in H; [|run_ok; subst; now apply of_type_eq].
  apply obind_ok in H as (ts & H1 & H2). apply (array_loop_typed b' elem l HI 0 None ts I) in H1.
  destruct ts as [[t r]|]; cbn [typed_slice] in H2; run_ok; subst. exact H1.
Qed.

Lemma array_of_records b fs s v : Forall (fun f => field_ok (snd f)) fs ->
  addArrayField p (RecType fs) s = ok v -> has_type (ArrayType b (Some (RecType fs))) v = true.
Proof.
  intros Hf H. destruct s as [l|]; cbn [addArrayField] in H; [|run_ok; subst; now apply of_type_eq].
  apply obind_ok in H as (r & H1 & H2). run_ok. subst. cbn [has_type].
  apply forallb_forall, Forall_forall. eapply elements_all; [|exact H1]. intros i t v H.
  apply obind_ok in H as (src & _ & H). destruct src as [j|]; [|run_ok; subst; now apply of_type_eq].
  apply obind_ok in H as (m & Hm & H). run_ok. subst. exact (record_typed (fun n => n) j fs m Hf Hm).
Qed.

Lemma field_all_ok ft : field_ok ft.
Proof.
  induction ft as [b|b|b e IH|fs IH|] using FieldType_nested_ind; split;
    try (intros b' s v H; discriminate H);
    try (intros r j n r' H; cbn [addRecField] in H; destruct (Message_Value j n) as [t|]; [|discriminate H]).
  - apply obind_ok in H as (x & H1 & H2). run_ok. subst. destruct x as [v|].
    + right. exists v. split; [reflexivity|]. now apply basic_field_typed in H1.
    + left. split; [reflexivity|]. now rewrite (basic_field_absent _ _ _ H1).
  - apply obind_ok in H as (s & _ & H). apply obind_ok in H as (a & Ha & H). run_ok. subst. right. exists a.
    split; [reflexivity|]. now apply basic_array_typed in Ha.
  - intros b' s v H. apply (array_of_arrays b' b None s v); [apply basic_array_typed|exact H].
  - apply obind_ok in H as (s & _ & H). apply obind_ok in H as (a & Ha & H). run_ok. subst. right. exists a.
    split; [reflexivity|]. now apply (proj2 IH b) in Ha.
  - intros b' s v H. apply (array_of_arrays b' b (Some e) s v); [intros s' v'; apply (proj2 IH b)|exact H].
  - apply obind_ok in H as (src & _ & H). right. destruct src as [nextJ|]; [|run_ok; subst; eexists; split; [reflexivity|now apply of_type_eq]].
    apply obind_ok in H as (m & Hm & H). run_ok. subst. exists (VMap m). split; [reflexivity|]. exact (record_typed to_lower nextJ fs m IH Hm).
  - intros b s v. now apply array_of_records.
  - discriminate H.
Qed.

Definition typed_fields (sch : list (string * FieldType)) : list stream_field :=
  map (fun f => TypedField (fst f) (snd f)) sch.

Definition same_name (n : string) : string := n.

Lemma process_typed_fields sch t : isBinary p = false -> forall r,
  process_fields p (typed_fields sch) t r =
  (let! m := next_fields same_name (Msg t) sch r in ok (m, t)).
Proof.
  intros B. induction sch as [|[n f] sch IH]; intros r; cbn [typed_fields map process_fields next_fields fst snd]; [reflexivity|].
  rewrite B. unfold same_name at 1. destruct (addRecField p f r (Msg t) n) as [[e|r']|]; cbn [obind]; [reflexivity| |reflexivity].
  apply IH.
Qed.

(** C6: the messages of a stream with a schema are well typed: whatever a
    source delivers, the decoded message has exactly fields of the schema, each
    of the Go type the schema gives it (arrays and structs included, to any
    depth), and no field but a [bytea] one is missing. *)
Theorem fields_have_schema_types sch t m t' :
  fp_streamFields p = Some (typed_fields sch) -> isBinary p = false -> processField p t = ok (m, t') ->
  t' = t /\ entries_typed same_name sch m = true /\ fields_present same_name sch m = true.
Proof.
  intros S B H. unfold processField in H. rewrite S, process_typed_fields in H by exact B.
  apply obind_ok in H as (m1 & H1 & H2). run_ok. subst. split; [reflexivity|].
  apply record_typed, andb_prop in H1; [exact H1|]. apply Forall_forall. intros f _. apply field_all_ok.
Qed.
End Types.

(** A message with the keys of another one in any case, and its decoding. *)
Section Examples.
#[local] Instance no_time : TimeParse := { time_parse := fun _ _ => None }.
#[local] Instance no_floats : FloatLib :=
  { parse_float := fun _ _ => None; format_float := fun _ _ => "?"; float_other := fun signed w _ => int_min signed w }.
#[local] Instance no_json : JsonDecode := { json_array := fun _ => None; json_object := fun _ => None }.

Definition device_schema : list (string * FieldType) :=
  [("id", BasicType BIGINT); ("on", BasicType BOOLEAN); ("tags", ArrayType STRINGS None);
   ("pos", RecType [("X", BasicType FLOAT); ("raw", BasicType BYTEA)])].

Definition device_processor : defaultFieldProcessor := mkProcessor (Some (typed_fields device_schema)) "" false.

Definition device_tuple : Tuple :=
  mkTuple "dev" [("ID", VString "12"); ("on", VString "true"); ("tags", VSlice [VString "a"; VString "b"]); ("extra", VNil);
                 ("pos", VMap [("x", VFloat64 f64_zero); ("raw", VInt 3)])] 5 None None.

Definition device_decoded : Message :=
  [("id", VInt 12); ("on", VBool true); ("tags", VTyped GString [VString "a"; VString "b"]); ("pos", VMap [("x", VFloat64 f64_zero)])].

Lemma fields_have_schema_types_witness :
  fp_streamFields device_processor = Some (typed_fields device_schema) /\ isBinary device_processor = false /\
  processField device_processor device_tuple = ok (device_decoded, device_tuple) /\
  device_tuple = device_tuple /\ entries_typed same_name device_schema device_decoded = true /\
  fields_present same_name device_schema device_decoded = true.
Proof.
  assert (E : processField device_processor device_tuple = ok (device_decoded, device_tuple)) by (vm_compute; reflexivity).
  split; [reflexivity|]. split; [reflexivity|]. split; [exact E|].
  exact (fields_have_schema_types device_processor device_schema device_tuple device_decoded device_tuple eq_refl eq_refl E).
Defined.

(** A [datetime] field that holds a Go [int] makes the decoder panic; a [bytea]
    field that holds a number is left out without an error. *)
Lemma datetime_int_panics :
  processField (mkProcessor (Some [TypedField "ts" (BasicType DATETIME)]) "" false) (mkTuple "s" [("ts", VInt 1)] 0 None None) = None /\
  processField (mkProcessor (Some [TypedField "b" (BasicType BYTEA)]) "" false) (mkTuple "s" [("b", VInt 1)] 0 None None)
  = ok ([], mkTuple "s" [("b", VInt 1)] 0 None None).
Proof. split; reflexivity. Qed.

(** An empty array of arrays panics, and so does one with a null next to an
    array of numbers. *)
Lemma nested_arrays_panic :
  let pr := mkProcessor None "" false in
  let ft := ArrayType BIGINT None in
  addArrayField pr ft (Some []) = None /\
  addArrayField pr (ArrayType UNKNOWN (Some ft)) (Some [VSlice [VSlice [VFloat64 f64_zero]]; VNil]) = None.
Proof. split; vm_compute; reflexivity. Qed.

(** 2^63 passes the test for numbers that fit and is converted out of range. *)
Lemma bigint_limit_wraps :
  basic_field (mkProcessor None "" false) BIGINT "n" (VFloat64 (f64_of_Z (2 ^ 63))) = ok (Some (VInt MinInt64)).
Proof. vm_compute. reflexivity. Qed.
End Examples.
