(* ===== verification/Tables.v ===== *)
(** Tables: the batches a table collects and their alignment with streams
    (src/internal/topo/operator/table_processor.go,
    src/internal/topo/node/join_align_node.go). *)

From S2P Require Import Prelude Token Ast Value Collections AggFuncs Cast TimeFormat Eval Operators Preprocess.
From Stdlib Require Import ZArith Lia Bool List String Ascii SpecFloat.
Import ListNotations.

#[local] Open Scope string_scope.
#[local] Open Scope list_scope.
#[local] Open Scope Z_scope.
#[local] Open Scope outcome_scope.

(** ** Tables *)

Record TableProcessor : Type := mkTable {
  tp_fields : defaultFieldProcessor;
  isBatchInput : bool;
  retainSize : Z;
  emitterName : string;
  output : WindowTuples;
  batchEmitted : bool }.

Definition isBatch (t : string) : bool := String.eqb t "file" || String.eqb t "".

Definition NewTableProcessor (name : string) (fields : option (list stream_field)) (options : Options) : TableProcessor :=
  let '(retain, batch) :=
    if o_RETAIN_SIZE options >? 0 then (o_RETAIN_SIZE options, false)
    else if isBatch (o_TYPE options) then (0, true) else (1, false) in
  mkTable (mkProcessor fields (o_TIMESTAMP_FORMAT options) false) batch retain name (mkWT "" []) true.

(** What a table processor receives: a tuple, a tuple without a message, which
    ends a batch, or something else. *)
Inductive table_input : Type := TTuple (t : Tuple) | TEof | TOther.

Section Table.
Context {TP : TimeParse} {L : FloatLib} {J : JsonDecode}.

Definition set_output (p : TableProcessor) (ts : list Tuple) (emitted : bool) : TableProcessor :=
  mkTable (tp_fields p) (isBatchInput p) (retainSize p) (emitterName p) (mkWT (emitterName p) ts) emitted.

(** The copy of the kept tuples: the oldest goes when the buffer is full. *)
Definition copy_tuples (p : TableProcessor) (l : list Tuple) : list Tuple :=
  if (retainSize p >? 0) && (Z.of_nat (List.length l) =? retainSize p) then tl l else l.

Definition TableProcessor_Apply (p : TableProcessor) (d : table_input) : option (TableProcessor * stream_data) :=
  match d with
  | TOther => Some (p, SErr (VError "expect *xsql.Tuple data type" []))
  | _ =>
      let p := if batchEmitted p then set_output p [] false else p in
      match d with
      | TTuple tuple =>
          match processField (tp_fields p) tuple with
          | None => None
          | Some (inl e) => Some (p, SErr (VError "error in table processor: %s" [e]))
          | Some (inr (result, tuple)) =>
              let p := set_output p (copy_tuples p (wt_Tuples (output p)) ++ [with_msg result tuple]) false in
              Some (p, if isBatchInput p then SNil else SBatch (output p))
          end
      | _ =>
          if isBatchInput p
          then Some (mkTable (tp_fields p) (isBatchInput p) (retainSize p) (emitterName p) (output p) true, SBatch (output p))
          else Some (p, SNil)
      end
  end.

Fixpoint table_run (p : TableProcessor) (ds : list table_input) : option (TableProcessor * list stream_data) :=
  match ds with
  | [] => Some (p, [])
  | d :: ds' =>
      match TableProcessor_Apply p d with
      | None => None
      | Some (p', o) =>
          match table_run p' ds' with Some (q, os) => Some (q, o :: os) | None => None end
      end
  end.
End Table.

(** ** Joining streams with tables *)

(** What the state of a checkpoint can hold under [BatchKey]. *)
Inductive batch_state : Type :=
  | NoBatch
  | Content (c : list WindowTuples)       (* \[\]xsql.WindowTuples *)
  | SetPointer (w : WindowTuplesSet).     (* *xsql.WindowTuplesSet *)

Record JoinAlignNode : Type := mkAlign {
  ja_emitters : list (string * nat);
  batch : list WindowTuples;
  saved : batch_state;
  sendError : bool }.

Definition no_tuples : WindowTuples := mkWT "" [].

Fixpoint number_emitters (i : nat) (es : list string) (m : list (string * nat)) : list (string * nat) :=
  match es with [] => m | e :: es' => number_emitters (S i) es' (assoc_set e i m) end.

(** The restored batch and whether the state has a type that is not expected. *)
Definition restore_batch (n : nat) (s : batch_state) : list WindowTuples * bool :=
  match s with
  | Content st => (if Nat.eqb (List.length st) n then st else repeat no_tuples n, false)
  | NoBatch => (repeat no_tuples n, false)
  | SetPointer _ => (repeat no_tuples n, true)
  end.

Definition NewJoinAlignNode (emitters : list string) (sendError : bool) (s : batch_state) : JoinAlignNode :=
  let emap := number_emitters 0 emitters [] in
  mkAlign emap (fst (restore_batch (List.length emap) s)) s sendError.

(** [Broadcast] drops errors unless they are to be sent. *)
Definition Broadcast (sendError : bool) (d : stream_data) : list stream_data :=
  match d with SErr _ => if sendError then [d] else [] | _ => [d] end.

Definition alignBatch (n : JoinAlignNode) (w : WindowTuplesSet) : list stream_data :=
  Broadcast (sendError n) (SWindow (mkWTS (w_Content w ++ batch n) (w_Range w))).

Definition unknown_emitter (d : WindowTuples) : value :=
  VError "run JoinAlignNode error: receive batch input from unknown emitter %[1]T(%[1]v)" [VString (wt_Emitter d)].

(** The handling of a batch: after the error for an unknown emitter the code
    goes on with the index 0 that the failed lookup gives. *)
Definition align_batch_input (n : JoinAlignNode) (d : WindowTuples) : JoinAlignNode * list stream_data :=
  let '(index, out) :=
    match assoc (wt_Emitter d) (ja_emitters n) with
    | Some i => (i, [])
    | None => (O, Broadcast (sendError n) (SErr (unknown_emitter d)))
    end in
  if (index <? List.length (batch n))%nat then
    let c := list_set index d (batch n) in
    (mkAlign (ja_emitters n) c (SetPointer (mkWTS c None)) (sendError n), out)
  else (n, out).

(** One item of the input channel. *)
Definition align_step (n : JoinAlignNode) (item : stream_data) : JoinAlignNode * list stream_data :=
  match item with
  | SErr e => (n, Broadcast (sendError n) (SErr e))
  | SRow (DTuple d) => (n, alignBatch n (AddTuple (mkWTS [] None) d))
  | SWindow d => (n, alignBatch n d)
  | SBatch d => align_batch_input n d
  | _ => (n, Broadcast (sendError n) (SErr (VError "run JoinAlignNode error: invalid input type but got %[1]T(%[1]v)" [])))
  end.

Fixpoint align_run (n : JoinAlignNode) (items : list stream_data) : JoinAlignNode * list stream_data :=
  match items with
  | [] => (n, [])
  | item :: items' =>
      let '(n', out) := align_step n item in
      let '(n'', out') := align_run n' items' in
      (n'', out ++ out')
  end.

(** ** A table as a list

    The specification: a table without batches shows its last [retainSize] rows
    at every new one, a batch table shows the rows since the last end of a batch
    at the next one.  A row that cannot be decoded changes nothing. *)

Section TableSpec.
Context {TP : TimeParse} {L : FloatLib} {J : JsonDecode}.

Definition decoded (p : TableProcessor) (t : Tuple) : outcome value Tuple :=
  let! (result, tuple) := processField (tp_fields p) t in ok (with_msg result tuple).

Definition table_spec (p : TableProcessor) (rows : list Tuple) (d : table_input) : option (list Tuple * stream_data) :=
  match d with
  | TOther => Some (rows, SErr (VError "expect *xsql.Tuple data type" []))
  | TEof => if isBatchInput p then Some ([], SBatch (mkWT (emitterName p) rows)) else Some (rows, SNil)
  | TTuple t =>
      match decoded p t with
      | None => None
      | Some (inl e) => Some (rows, SErr (VError "error in table processor: %s" [e]))
      | Some (inr t') =>
          if isBatchInput p then Some (rows ++ [t'], SNil)
          else
            let rows' := lastn (Z.to_nat (retainSize p)) (rows ++ [t']) in
            Some (rows', SBatch (mkWT (emitterName p) rows'))
      end
  end.

Fixpoint spec_run (p : TableProcessor) (rows : list Tuple) (ds : list table_input) : option (list Tuple * list stream_data) :=
  match ds with
  | [] => Some (rows, [])
  | d :: ds' =>
      match table_spec p rows d with
      | None => None
      | Some (rows', o) => match spec_run p rows' ds' with Some (q, os) => Some (q, o :: os) | None => None end
      end
  end.

(** The processor [q] is the one created as [p], with the rows [rows]. *)
Definition represents (p q : TableProcessor) (rows : list Tuple) : Prop :=
  tp_fields q = tp_fields p /\ isBatchInput q = isBatchInput p /\ retainSize q = retainSize p /\ emitterName q = emitterName p
  /\ (if batchEmitted q then rows = [] else output q = mkWT (emitterName p) rows)
  /\ (isBatchInput p = false -> 0 < retainSize p /\ Z.of_nat (List.length rows) <= retainSize p)
  /\ (isBatchInput p = true -> retainSize p = 0).

Lemma lastn_short {A} n (l : list A) : (List.length l <= n)%nat -> lastn n l = l.
Proof. intros H. unfold lastn. now replace (List.length l - n)%nat with 0%nat by lia. Qed.

Lemma copy_then_append p (rows : list Tuple) t : 0 < retainSize p -> Z.of_nat (List.length rows) <= retainSize p ->
  copy_tuples p rows ++ [t] = lastn (Z.to_nat (retainSize p)) (rows ++ [t])
  /\ Z.of_nat (List.length (copy_tuples p rows ++ [t])) <= retainSize p.
Proof.
  intros H1 H2. unfold copy_tuples. destruct (Z.gtb_spec (retainSize p) 0); [|lia]. cbn [andb].
  destruct (Z.eqb_spec (Z.of_nat (List.length rows)) (retainSize p)) as [E|E].
  - destruct rows as [|r rows]; [cbn in E; lia|]. cbn [tl]. unfold lastn. rewrite !length_app. cbn [List.length app] in *.
    replace (S (List.length rows) + 1 - Z.to_nat (retainSize p))%nat with 1%nat by lia. split; [reflexivity|lia].
  - rewrite lastn_short; rewrite !length_app; cbn [List.length]; [split; [reflexivity|]; lia|lia].
Qed.

Lemma table_step p q rows d : represents p q rows ->
  match TableProcessor_Apply q d, table_spec p rows d with
  | None, None => True
  | Some (q', o), Some (rows', o') => o = o' /\ represents p q' rows'
  | _, _ => False
  end.
Proof.
  intros (Hf & Hb & Hr & He & Ho & Hn & Hz).
  assert (R : forall b, represents p (set_output q rows b) (if b then [] else rows)).
  { intros b. repeat split; cbn; auto; try (intros; apply Hn; assumption);
      destruct b; cbn; auto; try (now rewrite He); intros; specialize (Hn H); lia. }
  assert (Q : (if batchEmitted q then set_output q [] false else q) = set_output q rows false).
  { destruct (batchEmitted q) eqn:B; [now subst|]. destruct q. cbn in *. unfold set_output. cbn. congruence. }
  destruct d as [t| |]; cbn [TableProcessor_Apply table_spec].
  - rewrite Q. unfold decoded. cbn [tp_fields set_output]. rewrite Hf.
    destruct (processField (tp_fields p) t) as [[e|[result tuple]]|]; cbn [obind ok]; [split; [reflexivity|apply (R false)]| |exact I].
    cbn [isBatchInput set_output output wt_Tuples]. rewrite Hb. destruct (isBatchInput p) eqn:B.
    + split; [reflexivity|]. specialize (Hz eq_refl).
      replace (copy_tuples (set_output q rows false) rows) with rows by (unfold copy_tuples; cbn; now rewrite Hr, Hz).
      repeat split; cbn; auto; congruence.
    + specialize (Hn eq_refl) as [N1 N2].
      destruct (copy_then_append (set_output q rows false) rows (with_msg result tuple)) as [E1 E2]; [cbn; lia|cbn; lia|].
      cbn [retainSize set_output] in E1. rewrite Hr in E1. rewrite <- E1. cbn [emitterName set_output]. rewrite He. split; [reflexivity|].
      repeat split; cbn; auto; try congruence; cbn in E2; lia.
  - rewrite Q. cbn [isBatchInput set_output]. rewrite Hb. destruct (isBatchInput p) eqn:B.
    + cbn [output set_output]. rewrite He. split; [reflexivity|]. repeat split; cbn; auto; try discriminate; congruence.
    + split; [reflexivity|apply (R false)].
  - split; [reflexivity|]. repeat split; auto; apply Hn; assumption.
Qed.

Lemma table_run_spec p ds : forall q rows, represents p q rows ->
  option_map snd (table_run q ds) = option_map snd (spec_run p rows ds).
Proof.
  induction ds as [|d ds IH]; intros q rows H; cbn [table_run spec_run]; [reflexivity|].
  pose proof (table_step p q rows d H) as S.
  destruct (TableProcessor_Apply q d) as [[q' o]|], (table_spec p rows d) as [[rows' o']|]; try contradiction; [|reflexivity].
  destruct S as [<- S]. specialize (IH _ _ S).
  destruct (table_run q' ds) as [[q2 os]|], (spec_run p rows' ds) as [[r2 os']|]; cbn in *; congruence.
Qed.

Lemma new_table_represents name fields options : let p := NewTableProcessor name fields options in represents p p [].
Proof.
  cbn. unfold NewTableProcessor. destruct (Z.gtb_spec (o_RETAIN_SIZE options) 0); [|destruct (isBatch (o_TYPE options))];
    repeat split; cbn; auto; try discriminate; lia.
Qed.

(** a table implements its list: over any sequence of rows and batch ends,
    undecodable rows included, the processor with its emitted flag and its copied
    slices sends what the list specification sends. *)
Theorem table_refines name fields options ds :
  let p := NewTableProcessor name fields options in
  option_map snd (table_run p ds) = option_map snd (spec_run p [] ds).
Proof. apply table_run_spec, new_table_represents. Qed.
End TableSpec.

(** ** Alignment *)

(** The last batch of an emitter among the items received, on top of [b]. *)
Definition newer (e : string) (b : WindowTuples) (item : stream_data) : WindowTuples :=
  match item with SBatch d => if String.eqb (wt_Emitter d) e then d else b | _ => b end.

Definition latest (items : list stream_data) (e : string) : WindowTuples := fold_left (newer e) items no_tuples.

Definition known (emitters : list string) (item : stream_data) : bool :=
  match item with SBatch d => mem (wt_Emitter d) emitters | _ => true end.

Lemma number_emitters_spec es : forall i m, NoDup (keys m ++ es) ->
  (forall e, In e (keys m) -> assoc e (number_emitters i es m) = assoc e m) /\
  (forall j e, nth_error es j = Some e -> assoc e (number_emitters i es m) = Some (i + j)%nat) /\
  List.length (number_emitters i es m) = (List.length m + List.length es)%nat.
Proof.
  induction es as [|x es IH]; intros i m N; cbn [number_emitters].
  - split; [auto|]. split; [|cbn; lia]. intros [|j] e; discriminate.
  - assert (Nx : ~ In x (keys m)) by (apply NoDup_remove in N as [_ N]; intros H; apply N; apply in_app_iff; now left).
    assert (Km : keys (assoc_set x i m) = keys m ++ [x] /\ List.length (assoc_set x i m) = S (List.length m)).
    { clear -Nx. induction m as [|[k v] m IHm]; [split; reflexivity|]. cbn [assoc_set keys map fst] in *.
      destruct (String.eqb_spec k x) as [->|]; [now destruct Nx; left|]. cbn. destruct IHm as [E1 E2]; [intros H; apply Nx; now right|].
      split; [f_equal; exact E1|lia]. }
    destruct Km as [Km Lm]. destruct (IH (S i) (assoc_set x i m)) as (A & B & C); [now rewrite Km, <- app_assoc|].
    assert (Ax : assoc x (number_emitters (S i) es (assoc_set x i m)) = Some i).
    { rewrite A by (rewrite Km; apply in_app_iff; right; now left). apply assoc_set_same. }
    split; [|split].
    + intros e He. rewrite A by (rewrite Km; apply in_app_iff; now left). apply assoc_set_other. intros ->. contradiction.
    + intros [|j] e; cbn [nth_error]; [intros [= <-]; now rewrite Nat.add_0_r|]. intros H. rewrite (B _ _ H). f_equal. lia.
    + rewrite C, Lm. cbn. lia.
Qed.

Lemma table_set_map (f : string -> WindowTuples) x d es : NoDup es -> forall i, nth_error es i = Some x ->
  list_set i d (map f es) = map (fun e => if String.eqb x e then d else f e) es.
Proof.
  induction 1 as [|y es Ny N IH]; intros [|i]; cbn [nth_error]; try discriminate.
  - intros [= ->]. cbn. rewrite String.eqb_refl. f_equal. apply map_ext_in. intros e He.
    destruct (String.eqb_spec x e) as [->|]; [contradiction|reflexivity].
  - intros H. cbn. rewrite (IH _ H). destruct (String.eqb_spec x y) as [->|]; [|reflexivity].
    apply nth_error_In in H. contradiction.
Qed.

Section Align.
Variables (emitters : list string) (Hn : NoDup emitters).

Definition aligned (n : JoinAlignNode) (f : string -> WindowTuples) : Prop :=
  ja_emitters n = number_emitters 0 emitters [] /\ batch n = map f emitters.

Lemma align_step_latest n f item : aligned n f -> known emitters item = true ->
  aligned (fst (align_step n item)) (fun e => newer e (f e) item) /\ sendError (fst (align_step n item)) = sendError n.
Proof.
  intros [He Hb] K. destruct item as [| |[]|d| | | |]; try (split; [split; [exact He|exact Hb]|reflexivity]).
  cbn [known] in K. apply mem_In, In_nth_error in K as [i Hi].
  destruct (number_emitters_spec emitters 0 [] Hn) as (_ & A & _). specialize (A _ _ Hi).
  cbn [align_step]. unfold align_batch_input. rewrite He, A, Hb, length_map. cbn [Nat.add].
  destruct (Nat.ltb_spec i (List.length emitters)) as [H|H].
  - split; [|reflexivity]. split; [reflexivity|]. cbn [fst batch]. rewrite (table_set_map f (wt_Emitter d) d emitters Hn i Hi). reflexivity.
  - apply nth_error_None in H. congruence.
Qed.

Lemma align_run_latest items : forall n f, aligned n f -> forallb (known emitters) items = true ->
  aligned (fst (align_run n items)) (fun e => fold_left (newer e) items (f e)).
Proof.
  induction items as [|x items IH]; intros n f H K; cbn [align_run fold_left forallb] in *; [exact H|].
  apply andb_prop in K as [K1 K2]. destruct (align_step_latest n f x H K1) as [S _].
  destruct (align_step n x) as [n' out]. cbn [fst] in S. specialize (IH n' _ S K2).
  destruct (align_run n' items) as [n'' out']. exact IH.
Qed.
End Align.

Lemma map_repeat_const {A B} (b : B) (l : list A) : map (fun _ => b) l = repeat b (List.length l).
Proof. induction l; cbn; congruence. Qed.

Lemma new_aligned emitters se : NoDup emitters -> aligned emitters (NewJoinAlignNode emitters se NoBatch) (fun _ => no_tuples).
Proof.
  intros N. destruct (number_emitters_spec emitters 0 [] N) as (_ & _ & C). split; [reflexivity|].
  cbn [NewJoinAlignNode batch restore_batch fst]. rewrite C. cbn. symmetry. apply map_repeat_const.
Qed.

(** C19: a window is joined with the newest tables: after any history of
    tuples, windows, errors and table batches a window leaves the node with its
    own content followed by the last batch of every table, in the order of the
    tables, empty for a table that sent none. *)
Theorem window_gets_latest_batches emitters se items w :
  NoDup emitters -> forallb (known emitters) items = true ->
  snd (align_step (fst (align_run (NewJoinAlignNode emitters se NoBatch) items)) (SWindow w))
  = [SWindow (mkWTS (w_Content w ++ map (latest items) emitters) (w_Range w))].
Proof.
  intros N K. destruct (align_run_latest emitters N items _ _ (new_aligned emitters se N) K) as [_ B].
  cbn [align_step snd]. unfold alignBatch. cbn [Broadcast]. now rewrite B.
Qed.

Definition row_of (e : string) (n : Z) : Tuple := mkTuple e [("n", VInt n)] 0 None None.

Lemma window_gets_latest_batches_witness :
  NoDup ["t1"; "t2"] /\
  let items := [SBatch (mkWT "t2" [row_of "t2" 1]); SErr VNil; SBatch (mkWT "t2" [row_of "t2" 2])] in
  forallb (known ["t1"; "t2"]) items = true /\
  snd (align_step (fst (align_run (NewJoinAlignNode ["t1"; "t2"] false NoBatch) items)) (SWindow (mkWTS [mkWT "s" []] None)))
  = [SWindow (mkWTS [mkWT "s" []; no_tuples; mkWT "t2" [row_of "t2" 2]] None)].
Proof.
  assert (N : NoDup ["t1"; "t2"]) by (repeat constructor; cbn; intuition discriminate).
  split; [exact N|]. cbv zeta. split; [reflexivity|].
  exact (window_gets_latest_batches ["t1"; "t2"] false
    [SBatch (mkWT "t2" [row_of "t2" 1]); SErr VNil; SBatch (mkWT "t2" [row_of "t2" 2])] (mkWTS [mkWT "s" []] None) N eq_refl).
Defined.

(** A batch of an unknown emitter replaces the batch of the first table. *)
Lemma unknown_emitter_overwrites d :
  batch (fst (align_step (NewJoinAlignNode ["t1"; "t2"] true NoBatch) (SBatch (mkWT "other" d)))) = [mkWT "other" d; no_tuples].
Proof. reflexivity. Qed.

(** What the node saves it cannot restore: after a restart every table is empty
    and an error is reported. *)
Lemma batches_not_restored emitters se d n : let n' := fst (align_step (NewJoinAlignNode emitters se NoBatch) (SBatch d)) in
  saved n' = NoBatch \/ restore_batch n (saved n') = (repeat no_tuples n, true).
Proof.
  cbn [align_step]. unfold align_batch_input. destruct (assoc _ _); cbn [fst]; destruct (_ <? _)%nat; cbn; auto.
Qed.
