(* ===== verification/Join.v ===== *)
(** The join operator (src/internal/topo/operator/join_operator.go).

    [evalSet] joins the two streams of the first JOIN, [evalJoinSets] joins its
    result with the stream of a further JOIN.  A loop returns [None] for a
    panic, [inl e] for an error and otherwise what it appended.  The copies of
    a row that a loop makes share the alias map of the row if it has one
    ([share]).  Aliases that two rows of a previous join share through one map
    are not tracked: each row of the result has its own copy. *)

From S2P Require Import Prelude Token Ast Value Collections AggFuncs Eval Operators.
From Stdlib Require Import ZArith Lia Bool List String Ascii.
Import ListNotations.

#[local] Open Scope string_scope.
#[local] Open Scope list_scope.
#[local] Open Scope Z_scope.

Definition table_name (name alias : string) : string :=
  if String.eqb alias "" then name else alias.

(** The distinct streams a field reference adds to [srcs]. *)
Definition visit_source (srcs : list StreamName) (n : node) : list StreamName * bool :=
  match n with
  | NExpr (FieldRef sn _ a) =>
      (fold_left (fun l s => if mem s l then l else l ++ [s]) (fr_RefSources sn a) srcs, true)
  | _ => (srcs, true)
  end.

Definition getStreamNames (From : Table) (join : Join) : list string :=
  let srcs := walk_join visit_source join [] in
  if Nat.eqb (List.length srcs) 2 then srcs
  else srcs ++ [table_name (t_Name From) (t_Alias From)] ++ [table_name (j_Name join) (j_Alias join)].

Definition stream_at (l : list string) (i : nat) : string := nth i l "".

Definition is_LFC (t : JoinType) : bool :=
  match t with LEFT_JOIN | FULL_JOIN | CROSS_JOIN => true | _ => false end.

Definition invalid_on (v : value) : value :=
  VError "invalid join condition that returns non-bool value %[1]T(%[1]v)" [v].

Definition no_rest {A} (l : list A) : bool := match l with [] => true | _ => false end.

(** Copies made while the row's map was [Some] share its final content. *)
Definition share (final : AliasMap) (a : AliasMap) : AliasMap :=
  match a with Some _ => final | None => None end.

Section Join.
Context {TP : TimeParse} {F : GoFmt} {P : Plugins} {B : Builtins}.
Variable ff : FuncFinder.

(** [evalOn] and the switch on its result: does the pair join, and the valuer
    afterwards.  Both rows exist, so a missing condition is true. *)
Definition evalOn (join : Join) (V : Valuer) : option (value + (bool * Valuer)) :=
  match match j_Expr join with Some e => eval ff e V | None => Some (VBool true, V) end with
  | None => None
  | Some (VError f a, _) => Some (inl (VError f a))
  | Some (VBool b, V') => Some (inr (b, V'))
  | Some (v, _) => Some (inl (invalid_on v))
  end.

(** The alias map of the joined row a valuer starts with. *)
Definition valuer_alias (V : Valuer) : AliasMap :=
  match V with VaMulti (ValData d :: _) => data_alias d | _ => None end.

(** Is the pair emitted, and is the outer row joined from now on? *)
Definition emit (joined already : bool) (last : bool) (ts : list Tuple) : bool :=
  joined || (negb already && last && negb (no_rest ts)).

(** ** The first join *)

(** One left row against the rights; [leftJoined] is the flag so far. *)
Fixpoint left_loop (join : Join) (left_ : Tuple) (rights : list Tuple) (leftJoined : bool)
    : option (value + (list JoinTuple * bool)) :=
  match rights with
  | [] => Some (inr ([], leftJoined))
  | right_ :: rest =>
      let pre := if is_LFC (j_Type join) then [left_] else [] in
      let step :=
        match j_Type join with
        | CROSS_JOIN => Some (inr (true, leftJoined, mkJT (pre ++ [right_]) None))
        | _ =>
            match evalOn join (VaMulti [ValData (DJoin (mkJT [left_; right_] None)); ValFun]) with
            | None => None
            | Some (inl e) => Some (inl e)
            | Some (inr (true, V)) =>
                Some (inr (true, true,
                  mkJT (match j_Type join with INNER_JOIN => pre ++ [left_; right_] | _ => pre ++ [right_] end)
                    (valuer_alias V)))
            | Some (inr (false, V)) => Some (inr (false, leftJoined, mkJT pre (valuer_alias V)))
            end
        end in
      match step with
      | None => None
      | Some (inl e) => Some (inl e)
      | Some (inr (tupleJoined, lj, merged)) =>
          let out := emit tupleJoined lj (no_rest rest) (jt_Tuples merged) in
          match left_loop join left_ rest (lj || out) with
          | Some (inr (l, lj')) => Some (inr (if out then merged :: l else l, lj'))
          | r => r
          end
      end
  end.

Fixpoint lefts_loop (join : Join) (lefts rights : list Tuple) : option (value + list JoinTuple) :=
  match lefts with
  | [] => Some (inr [])
  | left_ :: lefts' =>
      match left_loop join left_ rights false with
      | None => None
      | Some (inl e) => Some (inl e)
      | Some (inr (l, lj)) =>
          let alone :=
            if negb lj && negb (jt_eqb (j_Type join) INNER_JOIN) then [mkJT [left_] None] else [] in
          match lefts_loop join lefts' rights with
          | Some (inr l') => Some (inr (l ++ alone ++ l'))
          | r => r
          end
      end
  end.

(** One right row against the lefts, in a right join or (with
    [excludeJoint]) to find the rights of a full join that match nothing. *)
Fixpoint right_loop (join : Join) (excludeJoint : bool) (right_ : Tuple) (lefts : list Tuple)
    (isJoint : bool) : option (value + (list JoinTuple * bool)) :=
  match lefts with
  | [] => Some (inr ([], isJoint))
  | left_ :: rest =>
      match evalOn join (VaMulti [ValData (DJoin (mkJT [right_; left_] None)); ValFun]) with
      | None => None
      | Some (inl e) => Some (inl e)
      | Some (inr (b, V)) =>
          let merged := mkJT (right_ :: (if b then [left_] else [])) (valuer_alias V) in
          let ij := isJoint || b in
          let out := negb excludeJoint && emit b ij (no_rest rest) (jt_Tuples merged) in
          match right_loop join excludeJoint right_ rest (ij || out) with
          | Some (inr (l, ij')) => Some (inr (if out then merged :: l else l, ij'))
          | r => r
          end
      end
  end.

Fixpoint rights_loop (join : Join) (excludeJoint : bool) (rights lefts : list Tuple)
    : option (value + list JoinTuple) :=
  match rights with
  | [] => Some (inr [])
  | right_ :: rights' =>
      match right_loop join excludeJoint right_ lefts false with
      | None => None
      | Some (inl e) => Some (inl e)
      | Some (inr (l, ij)) =>
          let alone := if ij then [] else [mkJT [right_] None] in
          match rights_loop join excludeJoint rights' lefts with
          | Some (inr l') => Some (inr (l ++ alone ++ l'))
          | r => r
          end
      end
  end.

Definition evalSetWithRightJoin (From : Table) (input : WindowTuplesSet) (join : Join)
    (excludeJoint : bool) : option (value + list JoinTuple) :=
  let streams := getStreamNames From join in
  rights_loop join excludeJoint (GetBySrc input (stream_at streams 1))
    (GetBySrc input (stream_at streams 0)).

(** The left and right streams of the first join. *)
Definition set_streams (From : Table) (join : Join) : string * string :=
  match j_Type join with
  | CROSS_JOIN => (table_name (t_Name From) (t_Alias From), table_name (j_Name join) (j_Alias join))
  | _ => let s := getStreamNames From join in (stream_at s 0, stream_at s 1)
  end.

Definition evalSet (From : Table) (input : WindowTuplesSet) (join : Join)
    : option (value + list JoinTuple) :=
  let '(leftStream, rightStream) := set_streams From join in
  match j_Type join with
  | RIGHT_JOIN => evalSetWithRightJoin From input join false
  | _ =>
      match lefts_loop join (GetBySrc input leftStream) (GetBySrc input rightStream) with
      | Some (inr l) =>
          match j_Type join with
          | FULL_JOIN =>
              match evalSetWithRightJoin From input join true with
              | Some (inr l') => Some (inr (l ++ l'))
              | r => r
              end
          | _ => Some (inr l)
          end
      | r => r
      end
  end.

(** ** Further joins *)

(** One row of the set against the rights.  The row is a copy whose alias map
    grows while the conditions are evaluated. *)
Fixpoint set_left_loop (join : Join) (left_ : JoinTuple) (rights : list Tuple)
    (leftJoined innerAppend : bool) : option (value + (list JoinTuple * bool * JoinTuple)) :=
  match rights with
  | [] => Some (inr ([], leftJoined, left_))
  | right_ :: rest =>
      let pre := if is_LFC (j_Type join) then jt_Tuples left_ else [] in
      let step :=
        match j_Type join with
        | CROSS_JOIN => Some (inr (true, leftJoined, innerAppend, mkJT (pre ++ [right_]) None, left_))
        | _ =>
            match evalOn join (VaMulti [ValData (DJoin left_); ValData (DTuple right_); ValFun]) with
            | None => None
            | Some (inl e) => Some (inl e)
            | Some (inr (b, V)) =>
                let left_' := mkJT (jt_Tuples left_) (valuer_alias V) in
                let first := b && jt_eqb (j_Type join) INNER_JOIN && negb innerAppend in
                Some (inr (b, leftJoined || b, innerAppend || first,
                  mkJT (pre ++ (if first then jt_Tuples left_ else []) ++ (if b then [right_] else []))
                    (jt_alias left_'), left_'))
            end
        end in
      match step with
      | None => None
      | Some (inl e) => Some (inl e)
      | Some (inr (tupleJoined, lj, ia, merged, left_')) =>
          let out := emit tupleJoined lj (no_rest rest) (jt_Tuples merged) in
          match set_left_loop join left_' rest (lj || out) ia with
          | Some (inr (l, lj', left_'')) =>
              Some (inr (if out then mkJT (jt_Tuples merged) (share (jt_alias left_'') (jt_alias merged)) :: l
                         else l, lj', left_''))
          | r => r
          end
      end
  end.

(** All rows of the set; the second result is the set with the aliases its
    rows hold now. *)
Fixpoint set_lefts_loop (join : Join) (set : list JoinTuple) (rights : list Tuple)
    : option (value + (list JoinTuple * list JoinTuple)) :=
  match set with
  | [] => Some (inr ([], []))
  | left_ :: set' =>
      match set_left_loop join left_ rights false false with
      | None => None
      | Some (inl e) => Some (inl e)
      | Some (inr (l, lj, left_')) =>
          let alone :=
            if negb lj && negb (jt_eqb (j_Type join) INNER_JOIN) then [mkJT (jt_Tuples left_) None] else [] in
          let left1 := mkJT (jt_Tuples left_) (share (jt_alias left_') (jt_alias left_)) in
          match set_lefts_loop join set' rights with
          | Some (inr (l', s)) => Some (inr (l ++ alone ++ l', left1 :: s))
          | r => r
          end
      end
  end.

(** One right row, whose aliases grow, against the rows of the set. *)
Fixpoint set_right_loop (join : Join) (excludeJoint : bool) (right_ : Tuple) (set : list JoinTuple)
    (isJoint : bool) : option (value + (list JoinTuple * bool * Tuple)) :=
  match set with
  | [] => Some (inr ([], isJoint, right_))
  | left_ :: rest =>
      match evalOn join (VaMulti [ValData (DTuple right_); ValData (DJoin left_); ValFun]) with
      | None => None
      | Some (inl e) => Some (inl e)
      | Some (inr (b, V)) =>
          let with_alias a := mkTuple (Emitter right_) (Msg right_) (Timestamp right_) (Metadata right_) a in
          let joined := if b then jt_Tuples left_ else [] in
          let ij := isJoint || b in
          let out := negb excludeJoint && emit b ij (no_rest rest) (right_ :: joined) in
          match set_right_loop join excludeJoint (with_alias (valuer_alias V)) rest (ij || out) with
          | Some (inr (l, ij', right_')) =>
              let merged :=
                mkJT (with_alias (share (t_alias right_') (t_alias right_)) :: joined) (jt_alias left_) in
              Some (inr (if out then merged :: l else l, ij', right_'))
          | r => r
          end
      end
  end.

Fixpoint evalRightJoinSets (join : Join) (excludeJoint : bool) (rights : list Tuple)
    (set : list JoinTuple) : option (value + list JoinTuple) :=
  match rights with
  | [] => Some (inr [])
  | right_ :: rights' =>
      match set_right_loop join excludeJoint right_ set false with
      | None => None
      | Some (inl e) => Some (inl e)
      | Some (inr (l, ij, right_')) =>
          let alone := if ij then [] else [mkJT [right_'] None] in
          match evalRightJoinSets join excludeJoint rights' set with
          | Some (inr l') => Some (inr (l ++ alone ++ l'))
          | r => r
          end
      end
  end.

(** An error of the right part of a full join is dropped here. *)
Definition evalJoinSets (set : list JoinTuple) (input : WindowTuplesSet) (join : Join)
    : option (value + list JoinTuple) :=
  let rights := GetBySrc input (table_name (j_Name join) (j_Alias join)) in
  match j_Type join with
  | RIGHT_JOIN => evalRightJoinSets join false rights set
  | t =>
      match set_lefts_loop join set rights with
      | None => None
      | Some (inl e) => Some (inl e)
      | Some (inr (l, set')) =>
          match t with
          | FULL_JOIN =>
              match evalRightJoinSets join true rights set' with
              | None => None
              | Some (inl _) => Some (inr l)
              | Some (inr l') => Some (inr (l ++ l'))
              end
          | _ => Some (inr l)
          end
      end
  end.

(** ** JoinOp *)

Fixpoint more_joins (input : WindowTuplesSet) (joins : list Join) (set : list JoinTuple)
    : option (value + list JoinTuple) :=
  match joins with
  | [] => Some (inr set)
  | j :: joins' =>
      match evalJoinSets set input j with
      | Some (inr set') => more_joins input joins' set'
      | r => r
      end
  end.

Definition run_joins (From : Table) (joins : list Join) (input : WindowTuplesSet)
    : option (value + list JoinTuple) :=
  match joins with
  | [] => Some (inr [])
  | j :: joins' =>
      match evalSet From input j with
      | Some (inr set) => more_joins input joins' set
      | r => r
      end
  end.

Definition JoinOp_Apply (From : Table) (joins : list Join) (data : stream_data)
    : option stream_data :=
  match data with
  | SErr e => Some (SErr e)
  | SWindow input =>
      match run_joins From joins input with
      | None => None
      | Some (inl e) => Some (SErr (run_error "Join" e))
      | Some (inr []) => Some SNil
      | Some (inr l) => Some (SJoin (mkJTS l (w_Range input)))
      end
  | _ => Some (SErr (VError "run Join error: join is only supported in window" []))
  end.
End Join.

(** ** What the joins compute

    The reference semantics: [p l r] says whether the pair joins. *)

Section Reference.
Context {A C : Type}.
Variable p : A -> C -> bool.

(** The rows of one left row: every match, or [none] if there is none. *)
Definition matches_or {D} (none : list D) (mk : C -> D) (l : A) (rs : list C) : list D :=
  match filter (p l) rs with [] => none | ms => map mk ms end.

Definition matched (l : A) (rs : list C) : bool := existsb (p l) rs.
End Reference.

Definition ref_join (t : JoinType) (p q : Tuple -> Tuple -> bool) (lefts rights : list Tuple)
    : list (list Tuple) :=
  let left_outer := flat_map (fun l => matches_or p [[l]] (fun r => [l; r]) l rights) lefts in
  match t with
  | INNER_JOIN => flat_map (fun l => matches_or p [] (fun r => [l; r]) l rights) lefts
  | LEFT_JOIN => left_outer
  | RIGHT_JOIN => flat_map (fun r => matches_or q [[r]] (fun l => [r; l]) r lefts) rights
  | FULL_JOIN => left_outer ++ map (fun r => [r]) (filter (fun r => negb (matched q r lefts)) rights)
  | CROSS_JOIN =>
      flat_map (fun l => match rights with [] => [[l]] | _ => map (fun r => [l; r]) rights end) lefts
  end.

Section JoinSpecs.
Context {TP : TimeParse} {F : GoFmt} {P : Plugins} {B : Builtins}.
Variable ff : FuncFinder.

(** The condition of the join is boolean on the pair. *)
Definition on_pair (join : Join) (t u : Tuple) (b : bool) : Prop :=
  exists V, evalOn ff join (VaMulti [ValData (DJoin (mkJT [t; u] None)); ValFun]) = Some (inr (b, V)).

Lemma matches_or_cons {D} (p : Tuple -> Tuple -> bool) none (mk : Tuple -> D) l r rs :
  matches_or p none mk l (r :: rs) =
    if p l r then mk r :: matches_or p [] mk l rs else matches_or p none mk l rs.
Proof. unfold matches_or. cbn. destruct (p l r); [|reflexivity]. now destruct (filter (p l) rs). Qed.

Lemma emit_false already last ts : emit false already last ts = negb already && last && negb (no_rest ts).
Proof. reflexivity. Qed.

(** The rows an outer loop emits for one row, whether the row alone is emitted
    by the inner loop (at the last index) or after it. *)
Definition left_alone (t : JoinType) (left_ : Tuple) (lj : bool) : list (list Tuple) :=
  if negb lj && negb (jt_eqb t INNER_JOIN) then [[left_]] else [].

Lemma left_loop_spec join p left_ rights :
  j_Type join <> CROSS_JOIN -> j_Type join <> RIGHT_JOIN ->
  (forall r, In r rights -> on_pair join left_ r (p left_ r)) -> forall lj,
  exists l lj', left_loop ff join left_ rights lj = Some (inr (l, lj'))
    /\ map jt_Tuples l ++ left_alone (j_Type join) left_ lj'
       = matches_or p (left_alone (j_Type join) left_ lj) (fun r => [left_; r]) left_ rights.
Proof.
  intros HC HR. induction rights as [|r rights IH]; intros Hp lj.
  { exists [], lj. split; reflexivity. }
  assert (Hp' : forall r0, In r0 rights -> on_pair join left_ r0 (p left_ r0))
    by (intros; apply Hp; now right).
  destruct (Hp r (or_introl eq_refl)) as [V HV]. rewrite matches_or_cons.
  cbn [left_loop]. rewrite HV. destruct (p left_ r).
  - destruct (IH Hp' true) as (l & lj' & E & H).
    assert (EL : left_alone (j_Type join) left_ true = []) by reflexivity. rewrite EL in H.
    destruct (j_Type join) eqn:Et; try tauto; cbn [emit orb]; rewrite E; eexists _, _;
      (split; [reflexivity|]); cbn [map jt_Tuples app is_LFC]; now rewrite H.
  - destruct (j_Type join) eqn:Et; try tauto; cbn [is_LFC jt_Tuples]; rewrite emit_false; cbn [no_rest].
    2: { rewrite andb_false_r, orb_false_r. destruct (IH Hp' lj) as (l & lj' & E & H).
         rewrite E. eexists _, _. split; [reflexivity|]. exact H. }
    all: rewrite andb_true_r; destruct lj; cbn [negb andb orb].
    all: try (destruct (IH Hp' true) as (l & lj' & E & H); rewrite E; eexists _, _;
              split; [reflexivity|exact H]).
    all: destruct rights as [|r' rights]; cbn [no_rest];
      [eexists _, _; split; reflexivity|].
    all: destruct (IH Hp' false) as (l & lj' & E & H); rewrite E; eexists _, _;
              split; [reflexivity|exact H].
Qed.

Lemma lefts_loop_spec join p rights :
  j_Type join <> CROSS_JOIN -> j_Type join <> RIGHT_JOIN -> forall lefts,
  (forall l r, In l lefts -> In r rights -> on_pair join l r (p l r)) ->
  exists l, lefts_loop ff join lefts rights = Some (inr l)
    /\ map jt_Tuples l
       = flat_map (fun l => matches_or p (left_alone (j_Type join) l false) (fun r => [l; r]) l rights) lefts.
Proof.
  intros HC HR. induction lefts as [|l0 lefts IH]; intros Hp; [exists []; auto|].
  destruct (left_loop_spec join p l0 rights HC HR) with (lj := false) as (l & lj & E & H).
  { intros. apply Hp; auto. now left. }
  destruct IH as (l' & E' & H'). { intros. apply Hp; auto. now right. }
  cbn [lefts_loop flat_map]. rewrite E, E'. eexists. split; [reflexivity|].
  rewrite <- H, !map_app, H', app_assoc. f_equal. f_equal.
  unfold left_alone. now destruct (_ && _).
Qed.

Lemma lefts_loop_cross join rights : j_Type join = CROSS_JOIN -> forall lefts,
  exists l, lefts_loop ff join lefts rights = Some (inr l)
    /\ map jt_Tuples l = ref_join CROSS_JOIN (fun _ _ => true) (fun _ _ => true) lefts rights.
Proof.
  intros HC. induction lefts as [|l0 lefts IH]; [exists []; auto|].
  assert (G : forall rs lj, exists l lj', left_loop ff join l0 rs lj = Some (inr (l, lj'))
    /\ map jt_Tuples l = map (fun r => [l0; r]) rs /\ lj' = (lj || negb (no_rest rs))%bool).
  { clear IH. induction rs as [|r rs IH]; intros lj.
    - exists [], lj. repeat split; auto. now rewrite orb_false_r.
    - destruct (IH true) as (l & lj' & E & H & Hlj). cbn [left_loop]. rewrite HC. cbn [emit orb].
      rewrite orb_true_r, E. eexists _, _. split; [reflexivity|]. cbn. rewrite H.
      split; [reflexivity|]. rewrite Hlj. now destruct lj. }
  destruct (G rights false) as (l & lj & E & H & Hlj). destruct IH as (l' & E' & H').
  cbn [lefts_loop]. rewrite E, E', HC, Hlj. eexists. split; [reflexivity|].
  rewrite !map_app, H'. cbn [ref_join flat_map]. rewrite app_assoc. f_equal. rewrite H.
  destruct rights; cbn; [reflexivity|]. now rewrite app_nil_r.
Qed.

Lemma right_loop_spec join q right_ lefts :
  (forall l, In l lefts -> on_pair join right_ l (q right_ l)) -> forall ij,
  exists l ij', right_loop ff join false right_ lefts ij = Some (inr (l, ij'))
    /\ map jt_Tuples l ++ (if ij' then [] else [[right_]])
       = matches_or q (if ij then [] else [[right_]]) (fun l => [right_; l]) right_ lefts.
Proof.
  induction lefts as [|l0 lefts IH]; intros Hq ij; [exists [], ij; auto|].
  assert (Hq' : forall l1, In l1 lefts -> on_pair join right_ l1 (q right_ l1))
    by (intros; apply Hq; now right).
  destruct (Hq l0 (or_introl eq_refl)) as [V HV]. rewrite matches_or_cons.
  cbn [right_loop]. rewrite HV. destruct (q right_ l0).
  - destruct (IH Hq' true) as (l & ij' & E & H). rewrite orb_true_r. cbn [emit orb negb andb].
    rewrite E. eexists _, _. split; [reflexivity|]. cbn. now rewrite H.
  - rewrite orb_false_r, emit_false. cbn [no_rest jt_Tuples negb andb]. rewrite andb_true_r.
    destruct ij; cbn [negb andb orb].
    + destruct (IH Hq' true) as (l & ij' & E & H). rewrite E. eexists _, _. split; [reflexivity|exact H].
    + destruct lefts as [|l1 lefts]; cbn [no_rest]; [eexists _, _; split; reflexivity|].
      destruct (IH Hq' false) as (l & ij' & E & H). rewrite E. eexists _, _. split; [reflexivity|exact H].
Qed.

Lemma right_loop_exclude join q right_ lefts :
  (forall l, In l lefts -> on_pair join right_ l (q right_ l)) -> forall ij,
  right_loop ff join true right_ lefts ij = Some (inr ([], (ij || matched q right_ lefts)%bool)).
Proof.
  induction lefts as [|l0 lefts IH]; intros Hq ij; cbn; [now rewrite orb_false_r|].
  destruct (Hq l0 (or_introl eq_refl)) as [V HV]. rewrite HV, orb_false_r, IH.
  - now rewrite orb_assoc.
  - intros. apply Hq. now right.
Qed.

Lemma rights_loop_spec join q lefts : forall rights,
  (forall l r, In l lefts -> In r rights -> on_pair join r l (q r l)) ->
  (exists l, rights_loop ff join false rights lefts = Some (inr l)
     /\ map jt_Tuples l = ref_join RIGHT_JOIN q q lefts rights)
  /\ (exists l, rights_loop ff join true rights lefts = Some (inr l)
     /\ map jt_Tuples l = map (fun r => [r]) (filter (fun r => negb (matched q r lefts)) rights)).
Proof.
  induction rights as [|r rights IH]; intros Hq; [split; exists []; auto|].
  destruct IH as [(l1 & E1 & H1) (l2 & E2 & H2)]. { intros. apply Hq; auto. now right. }
  assert (Hr : forall l, In l lefts -> on_pair join r l (q r l)) by (intros; apply Hq; auto; now left).
  split; cbn [rights_loop].
  - destruct (right_loop_spec join q r lefts Hr false) as (l & ij & E & H). rewrite E, E1.
    eexists. split; [reflexivity|]. rewrite !map_app, H1. cbn [ref_join flat_map].
    rewrite app_assoc. f_equal. rewrite <- H. now destruct ij.
  - rewrite right_loop_exclude with (q := q) by exact Hr. rewrite E2. eexists. split; [reflexivity|].
    cbn. rewrite map_app, H2. now destruct (matched q r lefts).
Qed.

(** The condition of a further join is boolean on the pair and computes no
    alias. *)
Definition on_set (join : Join) (l : JoinTuple) (r : Tuple) (b : bool) : Prop :=
  exists V, evalOn ff join (VaMulti [ValData (DJoin l); ValData (DTuple r); ValFun]) = Some (inr (b, V))
    /\ valuer_alias V = jt_alias l.

(** What a further inner join emits for one row of the set. *)
Definition inner_rows (p : JoinTuple -> Tuple -> bool) (ia : bool) (l : JoinTuple) (rs : list Tuple)
    : list (list Tuple) :=
  match filter (p l) rs with
  | [] => []
  | r :: ms => (if ia then [r] else jt_Tuples l ++ [r]) :: map (fun r => [r]) ms
  end.

Lemma inner_rows_cons p ia l r rs :
  inner_rows p ia l (r :: rs) =
    if p l r then (if ia then [r] else jt_Tuples l ++ [r]) :: inner_rows p true l rs
    else inner_rows p ia l rs.
Proof.
  unfold inner_rows. cbn. destruct (p l r); [|reflexivity]. now destruct (filter (p l) rs).
Qed.

Lemma JoinTuple_eta l : mkJT (jt_Tuples l) (jt_alias l) = l.
Proof. now destruct l. Qed.

Lemma set_left_inner join p l rs :
  j_Type join = INNER_JOIN -> (forall r, In r rs -> on_set join l r (p l r)) -> forall lj ia,
  exists rows lj', set_left_loop ff join l rs lj ia = Some (inr (rows, lj', l))
    /\ map jt_Tuples rows = inner_rows p ia l rs.
Proof.
  intros Ht. induction rs as [|r rs IH]; intros Hp lj ia; [exists [], lj; auto|].
  destruct (Hp r (or_introl eq_refl)) as (V & HV & HA). rewrite inner_rows_cons.
  assert (Hp' : forall r0, In r0 rs -> on_set join l r0 (p l r0)) by (intros; apply Hp; now right).
  cbn [set_left_loop]. rewrite HV, HA, Ht, JoinTuple_eta. cbn [is_LFC jt_eqb].
  change (jt_eqb INNER_JOIN INNER_JOIN) with true. destruct (p l r); cbn [andb orb emit].
  - destruct (IH Hp' (lj || true || true)%bool (ia || negb ia)%bool) as (rows & lj' & E & H).
    rewrite E. eexists _, _. split; [reflexivity|]. cbn. rewrite H.
    now destruct ia.
  - cbn [app jt_Tuples no_rest negb]. rewrite !orb_false_r, andb_false_r.
    destruct (IH Hp' (lj || false)%bool ia) as (rows & lj' & E & H). rewrite E. eauto.
Qed.

(** a second or later INNER JOIN keeps the joined columns only for the
    first match: for every row of the previous joins, the first matching right
    row extends it and every further match is emitted on its own. *)
Theorem later_inner_join_spec set input join p :
  let rs := GetBySrc input (table_name (j_Name join) (j_Alias join)) in
  j_Type join = INNER_JOIN ->
  (forall l r, In l set -> In r rs -> on_set join l r (p l r)) ->
  exists rows, evalJoinSets ff set input join = Some (inr rows)
    /\ map jt_Tuples rows = flat_map (fun l => inner_rows p false l rs) set.
Proof.
  cbv zeta. intros Ht Hp. unfold evalJoinSets. rewrite Ht.
  set (rs := GetBySrc input _) in *.
  enough (G : exists rows s, set_lefts_loop ff join set rs = Some (inr (rows, s))
    /\ map jt_Tuples rows = flat_map (fun l => inner_rows p false l rs) set).
  { destruct G as (rows & s & E & H). rewrite E. eauto. }
  induction set as [|l set IH]; [exists [], []; auto|].
  destruct (set_left_inner join p l rs Ht) with (lj := false) (ia := false) as (rows & lj & E & H).
  { intros. apply Hp; auto. now left. }
  destruct IH as (rows' & s & E' & H'). { intros. apply Hp; auto. now right. }
  cbn [set_lefts_loop flat_map]. rewrite E, E', Ht.
  change (jt_eqb INNER_JOIN INNER_JOIN) with true. rewrite andb_false_r.
  eexists _, _. split; [reflexivity|]. cbn [app]. now rewrite map_app, H, H'.
Qed.

(** the sides of the first join follow the order of the streams in its ON
    condition, not the FROM clause: in [a LEFT JOIN b ON b.id = a.id] the rows
    of [a] that match nothing are lost and those of [b] are kept. *)
Theorem on_order_swaps_sides xs ys range :
  let join := mkJoin "b" "" LEFT_JOIN
    (Some (BinaryExpr EQ (FieldRef "b" "id" None) (FieldRef "a" "id" None))) in
  set_streams (mkTable "a" "") join = ("b", "a")
  /\ JoinOp_Apply ff (mkTable "a" "") [join] (SWindow (mkWTS [mkWT "a" xs] range)) = Some SNil
  /\ JoinOp_Apply ff (mkTable "a" "") [join] (SWindow (mkWTS [mkWT "b" ys] range))
     = match ys with
       | [] => Some SNil
       | _ => Some (SJoin (mkJTS (map (fun y => mkJT [y] None) ys) range))
       end.
Proof.
  cbv zeta. split; [reflexivity|]. split; [reflexivity|].
  unfold JoinOp_Apply, run_joins, evalSet.
  change (set_streams _ _) with ("b", "a"). cbn [j_Type].
  change (GetBySrc _ "b") with ys. change (GetBySrc _ "a") with (@nil Tuple).
  enough (E : forall j, j_Type j = LEFT_JOIN ->
    lefts_loop ff j ys [] = Some (inr (map (fun y => mkJT [y] None) ys))).
  { rewrite E by reflexivity. cbn. now destruct ys. }
  intros j Hj. induction ys as [|y l IH]; [reflexivity|]. cbn [lefts_loop left_loop]. rewrite IH, Hj. reflexivity.
Qed.
End JoinSpecs.

Import Plain.

Definition id_row (emitter : string) (id : Z) : Tuple := mkTuple emitter [("id", VInt id)] 0 None None.

Definition on_id (t : JoinType) : Join :=
  mkJoin "b" "" t (Some (BinaryExpr EQ (FieldRef "a" "id" None) (FieldRef "b" "id" None))).

Definition same_id (t u : Tuple) : bool :=
  match assoc "id" (Msg t), assoc "id" (Msg u) with
  | Some (VInt i), Some (VInt j) => i =? j
  | _, _ => false
  end.

Definition two_streams : WindowTuplesSet :=
  mkWTS [mkWT "a" [id_row "a" 1; id_row "a" 2]; mkWT "b" [id_row "b" 2; id_row "b" 3]] None.


(** Row [a1] matches both rows of [b]: the second match loses [a1]. *)
Lemma later_inner_join_spec_witness :
  exists rows, evalJoinSets finder [mkJT [id_row "a" 1] None]
      (mkWTS [mkWT "b" [id_row "b" 1; id_row "b" 1]] None) (on_id INNER_JOIN) = Some (inr rows)
    /\ map jt_Tuples rows = [[id_row "a" 1; id_row "b" 1]; [id_row "b" 1]].
Proof.
  apply (later_inner_join_spec finder [mkJT [id_row "a" 1] None]
    (mkWTS [mkWT "b" [id_row "b" 1; id_row "b" 1]] None) (on_id INNER_JOIN) (fun _ _ => true) eq_refl).
  intros l r Hl Hr. cbn in Hl, Hr. destruct Hl as [<-|[]], Hr as [<-|[<-|[]]];
    (eexists; split; [vm_compute; reflexivity|reflexivity]).
Defined.
