(* ===== verification/Order.v ===== *)
(** ORDER BY (src/internal/xsql/valuer.go, MultiSorter, and
    src/internal/topo/operator/order_operator.go).

    The sorter caches the sort keys of all rows in [values] and [Less] itself
    exchanges two cache entries when it answers true, relying on the sort
    routine to exchange the two rows next.  [sort.Sort] of at most twelve rows
    (Go 1.15) is a Shell pass with gap 6 followed by an insertion sort, and both
    exchange rows exactly when [Less] answered true; it is modelled for those
    sizes.  Rows are lists updated by index; the sort routine stays in range. *)

From S2P Require Import Prelude Token Ast Value Collections AggFuncs Eval Operators.
From Stdlib Require Import ZArith Lia Bool List String Ascii Permutation.
Import ListNotations.

#[local] Open Scope string_scope.
#[local] Open Scope list_scope.
#[local] Open Scope Z_scope.

(** ** Loading and validating the keys *)

Section Keys.
Context {TP : TimeParse}.

Definition numeric_type (t : string) : bool := mem t ["int"; "int64"; "float64"; "uint64"].

Definition incompatible (t vt : string) : value :=
  VError "incompatible types for comparison: %s and %s" [VString t; VString vt].

(** [validate]: [None] is no error. *)
Definition validate (t : string) (v : value) : option value :=
  if is_nil v || String.eqb t "" then None
  else
    let vt := type_name v in
    let err := Some (incompatible t vt) in
    if numeric_type t then (if numeric_type vt then None else err)
    else if String.eqb t "bool" then (if String.eqb vt "bool" then None else err)
    else if String.eqb t "string" then (if String.eqb vt "string" then None else err)
    else if String.eqb t "time.Time" then
      match InterfaceToTime v with Some _ => None | None => err end
    else err.

(** The keys of one row; [types] are the column types seen so far. *)
Fixpoint load_row (fields : list SortField) (types : list string) (d : DataValuer) (row : Message)
    : value + (list string * Message) :=
  match fields, types with
  | f :: fields', t :: types' =>
      let vp := match data_Value d (s_Name f) with Some v => v | None => VNil end in
      if is_error vp then inl vp
      else
        let t' := if String.eqb t "" && negb (is_nil vp) then type_name vp else t in
        match validate t' vp with
        | Some err => inl err
        | None =>
            match load_row fields' types' d (assoc_set (s_Name f) vp row) with
            | inl e => inl e
            | inr (ts, row') => inr (t' :: ts, row')
            end
        end
  | _, _ => inr ([], row)
  end.

Fixpoint load_rows (fields : list SortField) (types : list string) (data : list DataValuer)
    : value + list Message :=
  match data with
  | [] => inr []
  | d :: data' =>
      match load_row fields types d [] with
      | inl e => inl e
      | inr (types', row) =>
          match load_rows fields types' data' with inl e => inl e | inr rows => inr (row :: rows) end
      end
  end.

(** ** Less *)

Definition key_of (p : Message) (n : string) : value :=
  match assoc n p with Some v => v | None => VNil end.

Fixpoint less_keys (fields : list SortField) (p q : Message) : bool :=
  match fields with
  | [] => false
  | f :: fields' =>
      let vp := key_of p (s_Name f) in
      let vq := key_of q (s_Name f) in
      if is_nil vp && negb (is_nil vq) then false
      else if negb (is_nil vp) && is_nil vq then true
      else if is_nil vp && is_nil vq then false
      else if is_true (simpleDataEval false vp vq LT) then s_Ascending f
      else if is_true (simpleDataEval false vq vp LT) then negb (s_Ascending f)
      else less_keys fields' p q
  end.
End Keys.

(** Exchange two entries. *)
Definition swap {A} (i j : nat) (l : list A) : list A :=
  match nth_error l i, nth_error l j with
  | Some x, Some y => list_set i y (list_set j x l)
  | _, _ => l
  end.

Section Sorter.
Context {TP : TimeParse} {A : Type}.
Variable fields : list SortField.

Record MultiSorter : Type := mkSorter { values : list Message; data : list A }.

(** [Less]: the answer, and the cache entries exchanged if it is true. *)
Definition Less (i j : nat) (ms : MultiSorter) : bool * MultiSorter :=
  let r := less_keys fields (nth i (values ms) []) (nth j (values ms) []) in
  (r, if r then mkSorter (swap i j (values ms)) (data ms) else ms).

Definition Swap (i j : nat) (ms : MultiSorter) : MultiSorter :=
  mkSorter (values ms) (swap i j (data ms)).

(** ** [sort.Sort] *)

(** The inner loop of the insertion sort, from position [j] down. *)
Fixpoint sift (j : nat) (ms : MultiSorter) : MultiSorter :=
  match j with
  | O => ms
  | S j' =>
      let (r, ms1) := Less j j' ms in
      if r then sift j' (Swap j j' ms1) else ms1
  end.

Definition insertion_sort (n : nat) (ms : MultiSorter) : MultiSorter :=
  fold_left (fun ms i => sift i ms) (seq 1 (n - 1)) ms.

Definition gap_step (ms : MultiSorter) (i : nat) : MultiSorter :=
  let (r, ms1) := Less i (i - 6) ms in
  if r then Swap i (i - 6) ms1 else ms1.

Definition shell_pass (n : nat) (ms : MultiSorter) : MultiSorter :=
  fold_left gap_step (seq 6 (n - 6)) ms.

(** [sort.Sort] of [n <= 12] entries. *)
Definition sort_small (ms : MultiSorter) : MultiSorter :=
  let n := List.length (data ms) in insertion_sort n (shell_pass n ms).
End Sorter.
Arguments mkSorter {A} _ _.
Arguments values {A} _.
Arguments data {A} _.

Section Order.
Context {TP : TimeParse}.

(** [MultiSorter.Sort] of up to twelve rows. *)
Definition Sort {A} (fields : list SortField) (index : A -> DataValuer) (rows : list A)
    : value + list A :=
  match load_rows fields (repeat "" (List.length fields)) (map index rows) with
  | inl e => inl e
  | inr vs => inr (data (sort_small fields (mkSorter vs rows)))
  end.

Definition group_head (g : GroupedTuples) : DataValuer :=
  match g_Content g with d :: _ => d | [] => DJoin (mkJT [] None) end.

Definition sorted_or {A} (r : value + list A) (k : list A -> stream_data) : stream_data :=
  match r with
  | inl e => SErr (run_error "Order By" e)
  | inr l => k l
  end.

(** [OrderOp.Apply] on sets of at most twelve rows; groups have a row. *)
Definition OrderOp_Apply (fields : list SortField) (d : stream_data) : stream_data :=
  match d with
  | SErr e => SErr e
  | SRow r => SRow r
  | SWindow w =>
      match w_Content w with
      | [] => SWindow w
      | me :: rest =>
          sorted_or (Sort fields DTuple (wt_Tuples me)) (fun l =>
            SWindow (mkWTS (mkWT (wt_Emitter me) l :: rest) (w_Range w)))
      end
  | SJoin s => sorted_or (Sort fields DJoin (js_Content s)) (fun l => SJoin (mkJTS l (js_Range s)))
  | SGroups gs => sorted_or (Sort fields group_head gs) SGroups
  | SNil | SBatch _ | SBytes _ =>
      SErr (VError "run Order By error: expect xsql.Valuer or its array type" [])
  end.
End Order.

(** ** The cache stays in step with the rows *)

Lemma nth_error_list_set_eq {A} i (x : A) l : (i < List.length l)%nat -> nth_error (list_set i x l) i = Some x.
Proof. revert i. induction l; intros [|i] H; cbn in *; try lia; auto. apply IHl. lia. Qed.

Lemma list_set_map {A C} (f : A -> C) i x l : map f (list_set i x l) = list_set i (f x) (map f l).
Proof. revert i. induction l; intros [|i]; cbn; congruence. Qed.

Lemma swap_map {A C} (f : A -> C) i j l : map f (swap i j l) = swap i j (map f l).
Proof.
  unfold swap. rewrite !nth_error_map. destruct (nth_error l i), (nth_error l j); cbn; auto.
  now rewrite !list_set_map.
Qed.

Lemma list_set_split {A} (l1 l2 : list A) x y : list_set (List.length l1) x (l1 ++ y :: l2) = l1 ++ x :: l2.
Proof. induction l1; cbn; congruence. Qed.

(** Exchanging neighbours. *)
Lemma swap_adjacent {A} (l1 l2 : list A) x y :
  swap (S (List.length l1)) (List.length l1) (l1 ++ x :: y :: l2) = l1 ++ y :: x :: l2.
Proof.
  unfold swap. rewrite !nth_error_app2 by lia.
  replace (S (List.length l1) - List.length l1)%nat with 1%nat by lia. rewrite Nat.sub_diag. cbn [nth_error].
  rewrite list_set_split. replace (S (List.length l1)) with (List.length (l1 ++ [y])) by (rewrite length_app; cbn; lia).
  change (l1 ++ y :: y :: l2) with (l1 ++ [y] ++ y :: l2). rewrite app_assoc, list_set_split.
  now rewrite <- app_assoc.
Qed.

Lemma list_set_perm {A} i (x y : A) l :
  nth_error l i = Some y -> Permutation (x :: l) (y :: list_set i x l).
Proof.
  revert i. induction l as [|z l IH]; intros [|i] H; cbn in *; try discriminate.
  - inversion H; subst. apply perm_swap.
  - rewrite perm_swap, (IH i H). apply perm_swap.
Qed.

Lemma nth_error_list_set_ne {A} i j (x : A) l : i <> j -> nth_error (list_set i x l) j = nth_error l j.
Proof. revert i j. induction l; intros [|i] [|j] H; cbn; auto; try lia. Qed.

Lemma swap_perm {A} i j (l : list A) : Permutation l (swap i j l).
Proof.
  unfold swap. destruct (nth_error l i) as [x|] eqn:Ei; auto. destruct (nth_error l j) as [y|] eqn:Ej; auto.
  destruct (Nat.eq_dec i j) as [->|Hij].
  - assert (x = y) by congruence. subst.
    assert (Hj : (j < List.length l)%nat) by (apply nth_error_Some; congruence).
    apply Permutation_cons_inv with (a := y).
    rewrite (list_set_perm j y y l Ej). apply list_set_perm. now apply nth_error_list_set_eq.
  - apply Permutation_cons_inv with (a := x).
    rewrite (list_set_perm j x y l Ej).
    apply list_set_perm. rewrite nth_error_list_set_ne; congruence.
Qed.

Section SorterSpecs.
Context {TP : TimeParse} {A : Type}.
Variable fields : list SortField.
Variable key : A -> Message.

(** The cache holds the keys of the rows. *)
Definition in_step (ms : MultiSorter) : Prop := values ms = map key (data ms).

(** Row [y] must come before row [x]. *)
Definition before (y x : A) : bool := less_keys fields (key y) (key x).

(** A comparison followed, when true, by the exchange of the two rows: what
    both passes of the sort routine do. *)
Lemma compare_exchange i j ms : in_step ms ->
  let (r, ms1) := Less fields i j ms in
  let ms2 := if r then Swap i j ms1 else ms1 in
  in_step ms2 /\ Permutation (data ms) (data ms2).
Proof.
  intros H. unfold Less. destruct (less_keys fields _ _); cbn; [|split; auto].
  unfold in_step in *. cbn. split; [rewrite H; now rewrite swap_map|apply swap_perm].
Qed.

Lemma gap_step_ok ms i : in_step ms -> in_step (gap_step fields ms i)
  /\ Permutation (data ms) (data (gap_step fields ms i)).
Proof.
  intros H. pose proof (compare_exchange i (i - 6) ms H) as G. unfold gap_step.
  destruct (Less fields i (i - 6) ms) as [r ms1]. exact G.
Qed.

Lemma shell_pass_ok n ms : in_step ms -> in_step (shell_pass fields n ms)
  /\ Permutation (data ms) (data (shell_pass fields n ms)).
Proof.
  unfold shell_pass. generalize (seq 6 (n - 6)) as is_. intros is_. revert ms.
  induction is_ as [|i is_ IH]; intros ms H; cbn; [auto|].
  destruct (gap_step_ok ms i H) as [G1 G2]. destruct (IH _ G1) as [G3 G4].
  split; [exact G3|]. now transitivity (data (gap_step fields ms i)).
Qed.

(** Insertion into a prefix kept in reverse. *)
Fixpoint ins_rev (x : A) (rl : list A) : list A :=
  match rl with
  | [] => [x]
  | y :: r => if before x y then y :: ins_rev x r else x :: rl
  end.

Lemma nth_app_len (l1 l2 : list A) x :
  nth (List.length l1) (map key (l1 ++ x :: l2)) [] = key x.
Proof.
  rewrite map_app. rewrite app_nth2; rewrite length_map; [|lia]. now rewrite Nat.sub_diag.
Qed.

Lemma sift_spec x : forall rl l2,
  sift fields (List.length rl) (mkSorter (map key (rev rl ++ x :: l2)) (rev rl ++ x :: l2))
  = let l := rev (ins_rev x rl) ++ l2 in mkSorter (map key l) l.
Proof.
  induction rl as [|y rl IH]; intros l2; [reflexivity|]. cbn [sift List.length rev ins_rev].
  unfold Less. cbn [values data].
  assert (E1 : nth (S (List.length rl)) (map key ((rev rl ++ [y]) ++ x :: l2)) [] = key x).
  { replace (S (List.length rl)) with (List.length (rev rl ++ [y])) by (rewrite length_app, length_rev; cbn; lia).
    apply nth_app_len. }
  assert (E2 : nth (List.length rl) (map key ((rev rl ++ [y]) ++ x :: l2)) [] = key y).
  { rewrite <- app_assoc. rewrite <- (length_rev rl). apply nth_app_len. }
  rewrite E1, E2. fold (before x y). destruct (before x y).
  - unfold Swap. cbn [values data]. rewrite <- swap_map.
    assert (E3 : swap (S (List.length rl)) (List.length rl) ((rev rl ++ [y]) ++ x :: l2)
                 = rev rl ++ x :: y :: l2).
    { rewrite <- app_assoc, <- (length_rev rl). apply swap_adjacent. }
    rewrite E3. rewrite IH. cbn [rev]. now rewrite <- app_assoc.
  - cbn [rev]. rewrite <- !app_assoc. reflexivity.
Qed.

Lemma length_ins_rev x rl : List.length (ins_rev x rl) = S (List.length rl).
Proof. induction rl as [|y rl IH]; cbn; [reflexivity|]. destruct (before x y); cbn; auto. Qed.

Lemma sift_fold l2 : forall rl,
  fold_left (fun ms i => sift fields i ms) (seq (List.length rl) (List.length l2))
    (mkSorter (map key (rev rl ++ l2)) (rev rl ++ l2))
  = let l := rev (fold_left (fun acc x => ins_rev x acc) l2 rl) in mkSorter (map key l) l.
Proof.
  induction l2 as [|x l2 IH]; intros rl; [cbn; now rewrite app_nil_r|].
  cbn [List.length seq fold_left]. rewrite sift_spec. cbv zeta.
  rewrite <- (length_ins_rev x rl). apply IH.
Qed.

Lemma insertion_spec l :
  insertion_sort fields (List.length l) (mkSorter (map key l) l)
  = let s := rev (fold_left (fun acc x => ins_rev x acc) l []) in mkSorter (map key s) s.
Proof.
  destruct l as [|x l]; [reflexivity|]. unfold insertion_sort. cbn [List.length].
  replace (S (List.length l) - 1)%nat with (List.length l) by lia.
  exact (sift_fold l [x]).
Qed.

(** No row precedes its left neighbour. *)
Fixpoint no_inversion (l : list A) : Prop :=
  match l with
  | x :: (y :: _) as l' => before y x = false /\ no_inversion l'
  | _ => True
  end.

(** The same for a reversed prefix. *)
Fixpoint no_inversion_rev (rl : list A) : Prop :=
  match rl with
  | y :: (x :: _) as r => before y x = false /\ no_inversion_rev r
  | _ => True
  end.

Lemma no_inversion_snoc l x y :
  no_inversion (l ++ [x]) -> before y x = false -> no_inversion ((l ++ [x]) ++ [y]).
Proof.
  induction l as [|z l IH]; [cbn; auto|]. cbn [app]. intros H Hy.
  destruct (l ++ [x]) as [|w m] eqn:E; [now destruct l|]. cbn [app] in *.
  destruct H as [H1 H2]. split; [exact H1|]. now apply IH.
Qed.

Lemma no_inversion_of_rev rl : no_inversion_rev rl -> no_inversion (rev rl).
Proof.
  induction rl as [|y rl IH]; [cbn; auto|]. destruct rl as [|x rl]; [cbn; auto|].
  intros [H1 H2]. specialize (IH H2). cbn [rev] in *. now apply no_inversion_snoc.
Qed.

Lemma ins_rev_ok x rl :
  (forall y, In y rl -> before x y = true -> before y x = false) ->
  no_inversion_rev rl -> no_inversion_rev (ins_rev x rl).
Proof.
  induction rl as [|y rl IH]; intros Ha H; [exact I|]. cbn [ins_rev].
  destruct (before x y) eqn:E; [|split; auto].
  assert (Hr : no_inversion_rev rl) by (destruct rl; [exact I|apply H]).
  specialize (IH (fun z Hz => Ha z (or_intror Hz)) Hr).
  assert (Hyx : before y x = false) by (apply Ha; cbn; auto).
  destruct rl as [|z rl]; [cbn; auto|]. destruct H as [H1 _].
  cbn [ins_rev] in *. destruct (before x z); cbn; auto.
Qed.

Lemma ins_rev_perm x rl : Permutation (x :: rl) (ins_rev x rl).
Proof.
  induction rl as [|y rl IH]; cbn; auto. destruct (before x y); auto.
  transitivity (y :: x :: rl); [apply perm_swap|now constructor].
Qed.

Lemma insertion_ok l :
  (forall x y, In x l -> In y l -> before x y = true -> before y x = false) -> forall acc,
  incl acc l -> no_inversion_rev acc -> forall l2, incl l2 l ->
  no_inversion_rev (fold_left (fun acc x => ins_rev x acc) l2 acc)
  /\ Permutation (rev l2 ++ acc) (fold_left (fun acc x => ins_rev x acc) l2 acc).
Proof.
  intros Ha acc Hi Hn l2. revert acc Hi Hn.
  induction l2 as [|x l2 IH]; intros acc Hi Hn Hl; [cbn; auto|].
  cbn [fold_left]. assert (Hx : In x l) by (apply Hl; cbn; auto).
  destruct (IH (ins_rev x acc)) as [G1 G2].
  - intros y Hy. apply (Permutation_in _ (Permutation_sym (ins_rev_perm x acc))) in Hy.
    destruct Hy as [<-|Hy]; auto.
  - apply ins_rev_ok; auto.
  - intros y Hy. apply Hl. cbn. auto.
  - split; [exact G1|]. cbn [rev]. rewrite <- app_assoc. cbn [app].
    etransitivity; [|exact G2]. apply Permutation_app_head, ins_rev_perm.
Qed.

Lemma sort_small_spec ms : in_step ms ->
  (forall x y, In x (data ms) -> In y (data ms) -> before x y = true -> before y x = false) ->
  let out := sort_small fields ms in
  in_step out /\ Permutation (data ms) (data out) /\ no_inversion (data out).
Proof.
  intros Hs Ha. cbv zeta. unfold sort_small.
  destruct (shell_pass_ok (List.length (data ms)) ms Hs) as [S1 S2].
  destruct (shell_pass fields (List.length (data ms)) ms) as [vs l]. unfold in_step in S1. cbn in S1, S2.
  subst vs. rewrite (Permutation_length S2), insertion_spec. cbv zeta.
  assert (Ha' : forall x y, In x l -> In y l -> before x y = true -> before y x = false).
  { intros x y Hx Hy. apply Ha; eapply Permutation_in; [symmetry; exact S2| |symmetry; exact S2|]; auto. }
  destruct (insertion_ok l Ha' [] (incl_nil_l _) I l (incl_refl l)) as [G1 G2].
  rewrite app_nil_r in G2. split; [reflexivity|]. cbn [data]. split.
  - rewrite S2. transitivity (rev l); [apply Permutation_rev|]. rewrite G2. apply Permutation_rev.
  - now apply no_inversion_of_rev.
Qed.
End SorterSpecs.

Section SortTheorem.
Context {TP : TimeParse} {A : Type}.

(** The cached keys of a row: the value of each sort field, and no error. *)
Definition row_key (fields : list SortField) (d : DataValuer) : Message :=
  fold_left (fun row f => assoc_set (s_Name f)
    (match data_Value d (s_Name f) with Some v => v | None => VNil end) row) fields [].

Lemma load_row_keys d : forall fields types row ts row',
  List.length types = List.length fields ->
  load_row fields types d row = inr (ts, row') ->
  row' = fold_left (fun row f => assoc_set (s_Name f)
    (match data_Value d (s_Name f) with Some v => v | None => VNil end) row) fields row
  /\ List.length ts = List.length fields.
Proof.
  induction fields as [|f fields IH]; intros [|t types] row ts row' Hl H; try discriminate Hl.
  - cbn in H. inversion H; auto.
  - cbn [load_row] in H. revert H.
    set (vp := match data_Value d (s_Name f) with Some v => v | None => VNil end).
    destruct (is_error vp); [discriminate|]. destruct (validate _ vp); [discriminate|].
    destruct (load_row fields types d _) as [e|[ts0 row0]] eqn:E; [discriminate|].
    intros H. inversion H; subst. apply IH in E as [E1 E2]; [|cbn in Hl; lia].
    split; [exact E1|]. cbn. lia.
Qed.

Lemma load_rows_keys fields : forall ds types vs,
  List.length types = List.length fields ->
  load_rows fields types ds = inr vs -> vs = map (row_key fields) ds.
Proof.
  induction ds as [|d ds IH]; intros types vs Hl H; cbn [load_rows] in H; [now inversion H|].
  destruct (load_row fields types d []) as [e|[ts row]] eqn:E; [discriminate|].
  destruct (load_rows fields ts ds) as [e|rows] eqn:E2; [discriminate|].
  inversion H; subst. apply load_row_keys in E as [E1 E3]; auto.
  cbn. f_equal; [exact E1|]. now apply (IH ts).
Qed.

(** C29: ORDER BY of at most twelve rows: when the keys load, the result is a
    permutation of the rows in which no row precedes its left neighbour in the
    sort order, the cached keys having followed the rows through the sort;
    provided the order on the keys is asymmetric (as it is on numbers, strings
    and times). *)
Theorem sort_orders_rows (fields : list SortField) (index : A -> DataValuer) rows out :
  let key r := row_key fields (index r) in
  (List.length rows <= 12)%nat ->
  (forall x y, In x rows -> In y rows ->
     less_keys fields (key x) (key y) = true -> less_keys fields (key y) (key x) = false) ->
  Sort fields index rows = inr out ->
  Permutation rows out /\ no_inversion fields key out.
Proof.
  cbv zeta. intros _ Ha H. unfold Sort in H.
  destruct (load_rows _ _ _) as [e|vs] eqn:E; [discriminate|]. inversion H; subst out.
  apply load_rows_keys in E; [|apply repeat_length]. rewrite map_map in E. subst vs.
  destruct (sort_small_spec fields (fun r => row_key fields (index r))
    (mkSorter (map (fun r => row_key fields (index r)) rows) rows) eq_refl Ha) as (_ & G2 & G3).
  split; assumption.
Qed.
End SortTheorem.

Lemma nth_swap_l {A} (d : A) i j l : (i < List.length l)%nat -> (j < List.length l)%nat ->
  nth i (swap i j l) d = nth j l d.
Proof.
  intros Hi Hj. unfold swap.
  destruct (nth_error l i) as [x|] eqn:Ei; [|apply nth_error_None in Ei; lia].
  destruct (nth_error l j) as [y|] eqn:Ej; [|apply nth_error_None in Ej; lia].
  rewrite (nth_error_nth l j d Ej). apply nth_error_nth.
  apply nth_error_list_set_eq. now rewrite length_list_set.
Qed.

Lemma nth_swap_r {A} (d : A) i j l : i <> j -> (i < List.length l)%nat -> (j < List.length l)%nat ->
  nth j (swap i j l) d = nth i l d.
Proof.
  intros Hn Hi Hj. unfold swap.
  destruct (nth_error l i) as [x|] eqn:Ei; [|apply nth_error_None in Ei; lia].
  destruct (nth_error l j) as [y|] eqn:Ej; [|apply nth_error_None in Ej; lia].
  rewrite (nth_error_nth l i d Ei). apply nth_error_nth.
  rewrite nth_error_list_set_ne by exact Hn. now apply nth_error_list_set_eq.
Qed.

(** [Less] is not an order by itself: once it has answered that row [i]
    comes before row [j], and before the rows are exchanged, it answers that row
    [j] comes before row [i].  A sort routine that compares without exchanging
    (Go's, above twelve rows) sees contradicting answers. *)
Theorem less_contradicts_itself {TP : TimeParse} {A} fields i j (ms ms1 : MultiSorter (A := A)) :
  i <> j -> (i < List.length (values ms))%nat -> (j < List.length (values ms))%nat ->
  Less fields i j ms = (true, ms1) ->
  fst (Less fields j i ms1) = true /\ data ms1 = data ms.
Proof.
  intros Hn Hi Hj H. unfold Less in *.
  destruct (less_keys fields (nth i (values ms) []) (nth j (values ms) [])) eqn:E; [|discriminate].
  inversion H; subst ms1. cbn. split; [|reflexivity].
  now rewrite nth_swap_r, nth_swap_l.
Qed.

Section OrderWitnesses.
Import Plain.

Definition by_temp : list SortField := [mkSortField "temp" true].

Lemma less_contradicts_itself_witness :
  let ms := mkSorter [[("temp", VInt 1)]; [("temp", VInt 2)]] [tt; tt] in
  exists ms1, Less by_temp 0 1 ms = (true, ms1) /\ fst (Less by_temp 1 0 ms1) = true.
Proof.
  cbv zeta. eexists. split; [vm_compute; reflexivity|].
  apply (less_contradicts_itself by_temp 0 1 (mkSorter [[("temp", VInt 1)]; [("temp", VInt 2)]] [tt; tt]));
    [discriminate|cbn; lia|cbn; lia|vm_compute; reflexivity].
Defined.

Definition temps (l : list Z) : list Tuple := map (reading "x") l.

Lemma sort_orders_rows_witness :
  Sort by_temp DTuple (temps [3; 1; 2]) = inr (temps [1; 2; 3])
  /\ Permutation (temps [3; 1; 2]) (temps [1; 2; 3]).
Proof.
  split; [vm_compute; reflexivity|].
  apply (sort_orders_rows by_temp DTuple (temps [3; 1; 2]) (temps [1; 2; 3])).
  - cbn. lia.
  - intros x y Hx Hy. cbn in Hx, Hy.
    destruct Hx as [<-|[<-|[<-|[]]]], Hy as [<-|[<-|[<-|[]]]]; vm_compute; intros; congruence.
  - vm_compute. reflexivity.
Defined.
End OrderWitnesses.
