(* ===== verification/Window.v ===== *)
(** The window operator in processing time
    (src/internal/topo/node/window_op.go) and what both kinds of windows share.

    The goroutine is a state machine: its state is [WindowOperator] together
    with the local [inputs], the session timer, and what [PutState] last stored.
    Each event of the select is a step; a step returns the broadcast windows, or
    [None] when it panics.  Timestamps are milliseconds and [int64] additions on
    them do not overflow in practice: they are on [Z].  The time of a tick is an
    argument (the clock is the library's). *)

From S2P Require Import Prelude Token Ast Value Collections AggFuncs Eval.
From Stdlib Require Import ZArith Lia Bool List String Permutation.
Import ListNotations.

#[local] Open Scope string_scope.
#[local] Open Scope list_scope.
#[local] Open Scope Z_scope.

(** ** Data *)

Record WindowConfig : Type := mkConfig { Type_ : WindowType; Length : Z; Interval : Z }.

(** [PutState] keys of the operator. *)
Record Saved : Type := mkSaved { s_inputs : list Tuple; s_trigger : Z; s_count : Z }.

Record WindowOperator : Type := mkOp {
  window : WindowConfig;
  interval : Z;
  isEventTime : bool;
  triggerTime : Z;
  msgCount : Z;
  inputs : list Tuple;
  timer : bool;            (* [timeoutTicker != nil] *)
  saved : Saved }.

Definition set_inputs (l : list Tuple) (o : WindowOperator) : WindowOperator :=
  mkOp (window o) (interval o) (isEventTime o) (triggerTime o) (msgCount o) l (timer o) (saved o).
Definition set_trigger (t : Z) (o : WindowOperator) : WindowOperator :=
  mkOp (window o) (interval o) (isEventTime o) t (msgCount o) (inputs o) (timer o) (saved o).
Definition set_count (n : Z) (o : WindowOperator) : WindowOperator :=
  mkOp (window o) (interval o) (isEventTime o) (triggerTime o) n (inputs o) (timer o) (saved o).
Definition set_timer (b : bool) (o : WindowOperator) : WindowOperator :=
  mkOp (window o) (interval o) (isEventTime o) (triggerTime o) (msgCount o) (inputs o) b (saved o).
Definition set_saved (s : Saved) (o : WindowOperator) : WindowOperator :=
  mkOp (window o) (interval o) (isEventTime o) (triggerTime o) (msgCount o) (inputs o) (timer o) s.

Definition put_inputs (o : WindowOperator) : WindowOperator :=
  set_saved (mkSaved (inputs o) (s_trigger (saved o)) (s_count (saved o))) o.
Definition put_trigger (o : WindowOperator) : WindowOperator :=
  set_saved (mkSaved (s_inputs (saved o)) (triggerTime o) (s_count (saved o))) o.
Definition put_count (o : WindowOperator) : WindowOperator :=
  set_saved (mkSaved (s_inputs (saved o)) (s_trigger (saved o)) (msgCount o)) o.

(** [NewWindowOp]: a count window without interval slides by its length. *)
Definition NewWindowOp (w : WindowConfig) (eventTime : bool) : WindowOperator :=
  let w' := if (Interval w =? 0) && wt_eqb (Type_ w) COUNT_WINDOW
            then mkConfig (Type_ w) (Length w) (Length w) else w in
  mkOp w' 0 eventTime 0 0 [] false (mkSaved [] 0 0).

(** The interval [execProcessingWindow] sets for the window type. *)
Definition processing_interval (w : WindowConfig) : Z :=
  match Type_ w with
  | TUMBLING_WINDOW | SLIDING_WINDOW => Length w
  | HOPPING_WINDOW | SESSION_WINDOW | COUNT_WINDOW => Interval w
  | NOT_WINDOW => 0
  end.

(** ** Scanning *)

Definition is_overlapping (t : WindowType) : bool :=
  match t with HOPPING_WINDOW | SLIDING_WINDOW => true | _ => false end.

Definition calDelta (o : WindowOperator) (trigger : Z) : Z :=
  if triggerTime o <=? 0 then MaxInt16
  else if negb (isEventTime o) && (Interval (window o) >? 0)
       then trigger - triggerTime o - Interval (window o)
       else 0.

Definition scan_delta (o : WindowOperator) (trigger : Z) : Z :=
  if is_overlapping (Type_ (window o)) then calDelta o trigger else 0.

(** The loop of [scan]: the inputs to retain and the window being filled. *)
Fixpoint scan_loop (t : WindowType) (len delta trigger : Z) (l : list Tuple) (results : WindowTuplesSet)
    : list Tuple * WindowTuplesSet :=
  match l with
  | [] => ([], results)
  | tuple :: l' =>
      if is_overlapping t then
        if trigger - Timestamp tuple >? len + delta then scan_loop t len delta trigger l' results
        else
          let results' := if Timestamp tuple <=? trigger then AddTuple results tuple else results in
          let (kept, r) := scan_loop t len delta trigger l' results' in (tuple :: kept, r)
      else
        let results' := if Timestamp tuple <=? trigger then AddTuple results tuple else results in
        let (kept, r) := scan_loop t len delta trigger l' results' in
        (if Timestamp tuple >? trigger then tuple :: kept else kept, r)
  end.

Definition window_start (o : WindowOperator) (trigger : Z) : Z :=
  match Type_ (window o) with
  | TUMBLING_WINDOW | SESSION_WINDOW => triggerTime o
  | HOPPING_WINDOW => triggerTime o - Interval (window o)
  | SLIDING_WINDOW => trigger - Length (window o)
  | NOT_WINDOW | COUNT_WINDOW => 0
  end.

(** [scan]: the operator afterwards (with the retained inputs), the window it
    broadcast if any. *)
Definition scan (o : WindowOperator) (trigger : Z) : WindowOperator * option WindowTuplesSet :=
  let (kept, results) :=
    scan_loop (Type_ (window o)) (Length (window o)) (scan_delta o trigger) trigger (inputs o)
      (empty_set (Some (mkRange 0 trigger))) in
  let o1 := set_inputs kept o in
  match w_Content results with
  | [] => (o1, None)
  | c =>
      let w := mkWTS c (Some (mkRange (window_start o trigger) trigger)) in
      (set_trigger trigger o1, Some (if isEventTime o then WTS_Sort w else w))
  end.

(** ** Count windows *)

Record TupleList : Type := mkTL { tuples : list Tuple; index : Z; size : Z }.

Definition NewTupleList (l : list Tuple) (windowSize : Z) : value + TupleList :=
  if windowSize <=? 0 then inl (VError "Window size should not be less than zero." [])
  else match l with
       | [] => inl (VError "The tuples should not be nil or empty." [])
       | _ => inr (mkTL l 0 windowSize)
       end.

Definition tl_len (tl : TupleList) : Z := Z.of_nat (List.length (tuples tl)).

Definition hasMoreCountWindow (tl : TupleList) : bool :=
  if tl_len tl <? size tl then false else index tl =? 0.

Definition tl_count (tl : TupleList) : Z := if tl_len tl <? size tl then 0 else 1.

(** The set has no range. *)
Definition nextCountWindow (tl : TupleList) : WindowTuplesSet * TupleList :=
  let subT := skipn (Z.to_nat (tl_len tl - size tl)) (tuples tl) in
  (fold_left AddTuple subT (empty_set None), mkTL (tuples tl) (index tl + 1) (size tl)).

Definition getRestTuples (tl : TupleList) : list Tuple :=
  if tl_len tl <? size tl then tuples tl
  else skipn (Z.to_nat (tl_len tl - size tl + 1)) (tuples tl).

(** [for tl.hasMoreCountWindow()]: the index makes it one round at most. *)
Fixpoint count_windows (fuel : nat) (tl : TupleList) : list WindowTuplesSet * TupleList :=
  match fuel with
  | O => ([], tl)
  | S fuel' =>
      if hasMoreCountWindow tl then
        let (w, tl') := nextCountWindow tl in
        let (ws, tl'') := count_windows fuel' tl' in (w :: ws, tl'')
      else ([], tl)
  end.

(** What one step emits: windows on the outputs, errors on the error channel. *)
Inductive emission : Type := EmitWindow (w : WindowTuplesSet) | EmitError (e : value).

Definition emit_opt (w : option WindowTuplesSet) : list emission :=
  match w with Some w => [EmitWindow w] | None => [] end.

(** ** Steps of the processing-time loop *)

(** A tuple of a count window; [continue] skips the rest of the step. *)
Definition count_step (o : WindowOperator) : option (WindowOperator * list emission) :=
  let o1 := set_count (msgCount o + 1) o in
  if Interval (window o) =? 0 then None
  else if negb (go_mod (msgCount o1) (Interval (window o)) =? 0) then Some (o1, [])
  else
    let o2 := set_count 0 o1 in
    match NewTupleList (inputs o2) (Length (window o2)) with
    | inl e => Some (put_count (put_inputs o2), [EmitError e])
    | inr tl =>
        let (ws, tl') := count_windows 2 tl in
        Some (put_count (put_inputs (set_inputs (getRestTuples tl') o2)), map EmitWindow ws)
    end.

(** A tuple arrives. *)
Definition on_tuple (d : Tuple) (o : WindowOperator) : option (WindowOperator * list emission) :=
  let o1 := set_inputs (inputs o ++ [d]) o in
  match Type_ (window o) with
  | COUNT_WINDOW => count_step o1
  | NOT_WINDOW | SLIDING_WINDOW =>
      let (o2, w) := scan o1 (Timestamp d) in Some (put_count (put_inputs o2), emit_opt w)
  | SESSION_WINDOW =>
      let o2 := if timer o1 then o1 else put_trigger (set_trigger (Timestamp d) (set_timer true o1)) in
      Some (put_count (put_inputs o2), [])
  | TUMBLING_WINDOW | HOPPING_WINDOW => Some (put_count (put_inputs o1), [])
  end.

(** The ticker fires at [n]. *)
Definition on_tick (n : Z) (o : WindowOperator) : WindowOperator * list emission :=
  match inputs o with
  | [] => (o, [])
  | first :: _ =>
      if wt_eqb (Type_ (window o)) SESSION_WINDOW && (n - Length (window o) <? Timestamp first) then (o, [])
      else let (o1, w) := scan o n in (put_trigger (put_inputs o1), emit_opt w)
  end.

(** The session timer fires at [n]: all inputs expire. *)
Definition on_timeout (n : Z) (o : WindowOperator) : WindowOperator * list emission :=
  match inputs o with
  | [] => (o, [])
  | _ =>
      let (o1, w) := scan o n in
      (set_timer false (put_trigger (put_inputs (set_inputs [] o1))), emit_opt w)
  end.

(** An item that is not a tuple: errors go through, anything else is one. *)
Definition on_other (item : value) (o : WindowOperator) : WindowOperator * list value :=
  (o, [if is_error item then item
       else VError "run Window error: expect xsql.Tuple type but got %[1]T(%[1]v)" [item]]).

Inductive event : Type := ETuple (d : Tuple) | ETick (n : Z) | ETimeout (n : Z).

Definition step (o : WindowOperator) (e : event) : option (WindowOperator * list emission) :=
  match e with
  | ETuple d => on_tuple d o
  | ETick n => Some (on_tick n o)
  | ETimeout n => Some (on_timeout n o)
  end.

Fixpoint run (o : WindowOperator) (es : list event) : option (WindowOperator * list emission) :=
  match es with
  | [] => Some (o, [])
  | e :: es' =>
      match step o e with
      | None => None
      | Some (o1, out) =>
          match run o1 es' with
          | None => None
          | Some (o2, out') => Some (o2, out ++ out')
          end
      end
  end.

(** ** Resuming saved inputs *)

(** The loop over the ticks that passed while the rule was down, for tumbling
    and hopping windows; [next] is the last tick done. *)
Fixpoint resume_ticks (fuel : nat) (nextTick next : Z) (o : WindowOperator)
    : WindowOperator * list emission :=
  match fuel with
  | O => (o, [])
  | S fuel' =>
      let next' := next + interval o in
      if next' >? nextTick then (o, [])
      else
        let (o1, w) := scan o next' in
        let (o2, out) := resume_ticks fuel' nextTick next' (put_trigger (put_inputs o1)) in
        (o2, emit_opt w ++ out)
  end.

(** The boundary a session search finds first: [p] is the previous timestamp.
    The answer is the boundary and whether the tick decided it. *)
Fixpoint session_boundary (timeout duration et : Z) (p tick : Z) (ticked : bool) (l : list Tuple)
    : option (Z * bool) :=
  match l with
  | [] => None
  | tuple :: l' =>
      let ts := Timestamp tuple in
      let r := if (p >? 0) && (ts - p >? timeout) then p + timeout else MaxInt64 in
      let passed := ts >? tick in
      let by_tick := passed && (tick - duration >? et) && (tick <? r) in
      let r' := if by_tick then tick else r in
      let tick' := if passed then tick + duration else tick in
      let ticked' := ticked || by_tick in
      if r' <? MaxInt64 then Some (r', ticked')
      else session_boundary timeout duration et ts tick' ticked' l'
  end.

(** The tick at or after the first event; [et % duration] panics on 0. *)
Definition session_tick (et duration : Z) : Z :=
  if go_mod et duration =? 0 then et else et + (duration - go_mod et duration).

(** One round of the session resume loop: [None] is a panic; [inl o] stops. *)
Definition resume_session_round (nextTick next : Z) (o : WindowOperator)
    : option (WindowOperator + (Z * WindowOperator * list emission)) :=
  match inputs o with
  | [] => None
  | first :: _ =>
      if Length (window o) =? 0 then None
      else
        let et := Timestamp first in
        let next' :=
          match session_boundary (Interval (window o)) (Length (window o)) et 0
                  (session_tick et (Length (window o))) false (inputs o) with
          | Some (r, _) => r
          | None => next
          end in
        if next' >? nextTick then Some (inl o)
        else
          let (o1, w) := scan o next' in
          Some (inr (next', put_trigger (put_inputs o1), emit_opt w))
  end.

(** [rounds] rounds; the last component says whether the loop has ended. *)
Fixpoint resume_session (rounds : nat) (nextTick next : Z) (o : WindowOperator)
    : option (WindowOperator * list emission * bool) :=
  match rounds with
  | O => Some (o, [], false)
  | S rounds' =>
      match resume_session_round nextTick next o with
      | None => None
      | Some (inl o') => Some (o', [], true)
      | Some (inr (next', o', out)) =>
          match resume_session rounds' nextTick next' o' with
          | Some (o'', out', b) => Some (o'', out ++ out', b)
          | None => None
          end
      end
  end.

(** ** What a scan does *)

(** The tuple is older than the window and its delta. *)
Definition expired (o : WindowOperator) (trigger : Z) (t : Tuple) : bool :=
  trigger - Timestamp t >? Length (window o) + scan_delta o trigger.

(** Tuples a scan retains, and tuples it shows in the window. *)
Definition retained (o : WindowOperator) (trigger : Z) (t : Tuple) : bool :=
  if is_overlapping (Type_ (window o)) then negb (expired o trigger t) else Timestamp t >? trigger.

Definition shown (o : WindowOperator) (trigger : Z) (t : Tuple) : bool :=
  (Timestamp t <=? trigger)
  && (if is_overlapping (Type_ (window o)) then negb (expired o trigger t) else true).

Lemma scan_loop_spec o trigger l : forall results,
  scan_loop (Type_ (window o)) (Length (window o)) (scan_delta o trigger) trigger l results
  = (filter (retained o trigger) l, fold_left AddTuple (filter (shown o trigger) l) results).
Proof.
  induction l as [|t l IH]; intros results; [reflexivity|].
  cbn [scan_loop filter]. unfold retained at 1, shown at 1, expired at 1.
  destruct (is_overlapping (Type_ (window o))) eqn:Ov.
  - unfold expired. destruct (trigger - Timestamp t >? Length (window o) + scan_delta o trigger); cbn [negb].
    + rewrite andb_false_r. apply IH.
    + rewrite andb_true_r, IH. now destruct (Timestamp t <=? trigger).
  - rewrite andb_true_r, IH. now destruct (Timestamp t <=? trigger), (Timestamp t >? trigger).
Qed.

Lemma fold_add_range l w : w_Range (fold_left AddTuple l w) = w_Range w.
Proof. revert w. induction l; intros w; cbn; auto. now rewrite IHl. Qed.

Lemma fold_add_content l w w' :
  w_Content w = w_Content w' -> w_Content (fold_left AddTuple l w) = w_Content (fold_left AddTuple l w').
Proof. revert w w'. induction l; intros w w' H; cbn; auto. apply IHl. cbn. now rewrite H. Qed.

Lemma fold_add_empty l w : w_Content (fold_left AddTuple l w) = [] -> l = [].
Proof.
  destruct l as [|t l]; auto. cbn [fold_left]. intros H. exfalso.
  assert (G : forall l w, w_Content w <> [] -> w_Content (fold_left AddTuple l w) <> []).
  { clear. induction l as [|t l IH]; intros w H; cbn; auto. apply IH. unfold AddTuple. cbn.
    destruct (w_Content w) as [|c cs]; cbn; [discriminate|].
    now destruct (String.eqb (wt_Emitter c) (Emitter t)). }
  revert H. apply G. unfold AddTuple. cbn.
  destruct (w_Content w) as [|c cs]; cbn; [discriminate|].
  now destruct (String.eqb (wt_Emitter c) (Emitter t)).
Qed.

(** The window a scan broadcasts: the tuples, collected, with its range. *)
Definition the_window (o : WindowOperator) (trigger : Z) (l : list Tuple) : WindowTuplesSet :=
  let w := fold_left AddTuple l (empty_set (Some (mkRange (window_start o trigger) trigger))) in
  if isEventTime o then WTS_Sort w else w.

Lemma WTS_eta w r : w_Range w = r -> mkWTS (w_Content w) r = w.
Proof. destruct w. cbn. now intros <-. Qed.

Lemma scan_eq o trigger :
  scan o trigger =
    let o1 := set_inputs (filter (retained o trigger) (inputs o)) o in
    match filter (shown o trigger) (inputs o) with
    | [] => (o1, None)
    | l => (set_trigger trigger o1, Some (the_window o trigger l))
    end.
Proof.
  unfold scan. rewrite scan_loop_spec. cbv zeta.
  destruct (filter (shown o trigger) (inputs o)) as [|t l] eqn:E; [reflexivity|].
  destruct (w_Content (fold_left AddTuple (t :: l) (empty_set (Some (mkRange 0 trigger))))) as [|c cs] eqn:Ec.
  { apply fold_add_empty in Ec. discriminate. }
  unfold the_window. rewrite <- Ec.
  rewrite (fold_add_content (t :: l) _ (empty_set (Some (mkRange (window_start o trigger) trigger)))) by reflexivity.
  rewrite (WTS_eta _ (Some (mkRange (window_start o trigger) trigger))) by apply fold_add_range.
  reflexivity.
Qed.

Lemma the_window_all o trigger l : Permutation (all_tuples (the_window o trigger l)) l.
Proof.
  unfold the_window. transitivity (all_tuples (fold_left AddTuple l
    (empty_set (Some (mkRange (window_start o trigger) trigger))))).
  - destruct (isEventTime o); [|reflexivity]. unfold all_tuples, WTS_Sort. cbn.
    induction (w_Content (fold_left AddTuple l _)) as [|c cs IH]; cbn; [reflexivity|].
    apply Permutation_app; [symmetry; apply stable_sort_perm|exact IH].
  - apply (fold_add_all l (empty_set _)).
Qed.


(** ** Tumbling windows: every tuple once *)

Definition emitted (out : list emission) : list Tuple :=
  flat_map (fun e => match e with EmitWindow w => all_tuples w | EmitError _ => [] end) out.

Definition received (es : list event) : list Tuple :=
  flat_map (fun e => match e with ETuple d => [d] | _ => [] end) es.

Definition no_timeout (e : event) : bool := match e with ETimeout _ => false | _ => true end.

Lemma filter_split_perm {A} (f : A -> bool) l :
  Permutation (filter f l ++ filter (fun x => negb (f x)) l) l.
Proof.
  induction l as [|x l IH]; cbn; auto. destruct (f x); cbn; [now constructor|].
  rewrite <- Permutation_middle. now constructor.
Qed.

Lemma scan_conserves o trigger : is_overlapping (Type_ (window o)) = false ->
  let (o', w) := scan o trigger in
  Permutation (emitted (emit_opt w) ++ inputs o') (inputs o) /\ window o' = window o.
Proof.
  intros Ht. rewrite scan_eq. cbv zeta.
  assert (G : Permutation (filter (shown o trigger) (inputs o) ++ filter (retained o trigger) (inputs o)) (inputs o)).
  { rewrite <- (filter_split_perm (shown o trigger) (inputs o)) at 3. apply Permutation_app_head.
    erewrite filter_ext; [reflexivity|]. intros t. unfold retained, shown. rewrite Ht, andb_true_r.
    destruct (Z.leb_spec (Timestamp t) trigger), (Z.gtb_spec (Timestamp t) trigger); auto; lia. }
  destruct (filter (shown o trigger) (inputs o)) as [|t l]; [auto|].
  cbn [emitted emit_opt flat_map inputs set_trigger set_inputs window]. rewrite app_nil_r.
  split; [|reflexivity]. eapply perm_trans; [|exact G]. apply Permutation_app_tail, the_window_all.
Qed.

(** C7: tumbling windows neither lose nor repeat a tuple: however tuples and
    ticks interleave, the operator goes on, and all tuples of the emitted
    windows together with those still waiting are exactly the tuples received
    (and those waiting at the start). *)
Theorem tumbling_exactly_once es : forall o,
  Type_ (window o) = TUMBLING_WINDOW -> forallb no_timeout es = true ->
  exists o' out, run o es = Some (o', out)
    /\ Permutation (emitted out ++ inputs o') (inputs o ++ received es).
Proof.
  induction es as [|e es IH]; intros o Ht Hes.
  { exists o, []. split; [reflexivity|]. cbn. now rewrite app_nil_r. }
  cbn [forallb] in Hes. apply andb_true_iff in Hes as [He Hes].
  assert (G : exists o1 out, step o e = Some (o1, out) /\ window o1 = window o
    /\ Permutation (emitted out ++ inputs o1) (inputs o ++ received [e])).
  { destruct e as [d|n|n]; cbn [step received flat_map app]; [| |discriminate].
    - unfold on_tuple. rewrite Ht. eexists _, _. split; [reflexivity|]. split; reflexivity.
    - unfold on_tick. rewrite app_nil_r. destruct (inputs o) as [|f l] eqn:Ei.
      + exists o, []. split; [reflexivity|]. cbn. now rewrite Ei.
      + rewrite Ht. change (wt_eqb TUMBLING_WINDOW SESSION_WINDOW) with false. cbn [andb].
        pose proof (scan_conserves o n) as S. rewrite Ht in S. specialize (S eq_refl).
        destruct (scan o n) as [o1 w]. destruct S as [S1 S2]. rewrite Ei in S1.
        eexists _, _. split; [reflexivity|]. split; [exact S2|exact S1]. }
  destruct G as (o1 & out & E & Hw & Hp).
  destruct (IH o1) as (o2 & out2 & E2 & Hp2); [congruence|exact Hes|].
  exists o2, (out ++ out2). cbn [run]. rewrite E, E2. split; [reflexivity|].
  unfold emitted in *. rewrite flat_map_app, <- app_assoc.
  replace (received (e :: es)) with (received [e] ++ received es)
    by (unfold received; cbn; now rewrite app_nil_r).
  rewrite Hp2, app_assoc, Hp, <- app_assoc. reflexivity.
Qed.

(** ** Count windows *)

(** The contract: after every [I]-th tuple, once [L] have arrived, the last [L]
    tuples received, as one window. *)
Fixpoint count_ref (L I : Z) (seen ds : list Tuple) : list (list Tuple) :=
  match ds with
  | [] => []
  | d :: ds' =>
      let seen' := seen ++ [d] in
      let n := Z.of_nat (List.length seen') in
      (if (n mod I =? 0) && (L <=? n) then [lastn (Z.to_nat L) seen'] else []) ++ count_ref L I seen' ds'
  end.

Definition count_window (l : list Tuple) : WindowTuplesSet := fold_left AddTuple l (empty_set None).

(** What the buffer of a count window holds after [seen]. *)
Definition count_inv (L I : Z) (seen : list Tuple) (o : WindowOperator) : Prop :=
  window o = mkConfig COUNT_WINDOW L I
  /\ msgCount o = Z.of_nat (List.length seen) mod I
  /\ exists dropped, seen = dropped ++ inputs o
       /\ (dropped = [] \/ L - 1 <= Z.of_nat (List.length (inputs o))).

Lemma next_count (I n : Z) : 0 < I -> 0 <= n ->
  go_mod (n mod I + 1) I = (n + 1) mod I.
Proof.
  intros HI Hn. pose proof (Z.mod_pos_bound n I HI). unfold go_mod.
  rewrite Z.rem_mod_nonneg by lia. now rewrite Zplus_mod_idemp_l.
Qed.

Lemma mod_succ (I n : Z) : 0 < I -> (n + 1) mod I <> 0 -> n mod I + 1 = (n + 1) mod I.
Proof.
  intros HI H. pose proof (Z.mod_pos_bound n I HI) as B.
  assert (E : (n mod I + 1) mod I = (n + 1) mod I) by (apply Z.add_mod_idemp_l; lia).
  rewrite <- E in *. destruct (Z.eq_dec (n mod I + 1) I) as [Eq|Eq].
  - exfalso. apply H. rewrite Eq. apply Z.mod_same. lia.
  - symmetry. apply Z.mod_small. lia.
Qed.

Lemma count_windows_one tl : index tl = 0 -> tl_len tl >= size tl ->
  count_windows 2 tl = ([fst (nextCountWindow tl)], snd (nextCountWindow tl)).
Proof.
  destruct tl as [ts i sz]. unfold tl_len. cbn [tuples index size]. intros -> Hl.
  cbn [count_windows]. unfold hasMoreCountWindow, nextCountWindow, tl_len. cbn [tuples index size fst snd].
  replace (Z.of_nat (List.length ts) <? sz) with false by (symmetry; apply Z.ltb_ge; lia).
  reflexivity.
Qed.

Lemma count_windows_none tl : tl_len tl < size tl -> count_windows 2 tl = ([], tl).
Proof. intros H. cbn. unfold hasMoreCountWindow. now rewrite (proj2 (Z.ltb_lt _ _) H). Qed.

Lemma skipn_tail_app {A} n (d l : list A) : (n <= List.length l)%nat ->
  exists d', d ++ l = d' ++ skipn n l.
Proof. intros H. exists (d ++ firstn n l). now rewrite <- app_assoc, firstn_skipn. Qed.

Lemma count_step_spec (L I : Z) seen o d :
  0 < L -> 0 < I -> count_inv L I seen o ->
  exists o', step o (ETuple d) = Some (o',
      map (fun l => EmitWindow (count_window l))
        (let seen' := seen ++ [d] in let n := Z.of_nat (List.length seen') in
         if (n mod I =? 0) && (L <=? n) then [lastn (Z.to_nat L) seen'] else []))
    /\ count_inv L I (seen ++ [d]) o'.
Proof.
  intros HL HI (Hw & Hc & dropped & Hs & Hd). cbn [step]. unfold on_tuple. rewrite Hw. cbn [Type_].
  unfold count_step. cbn [window set_inputs set_count msgCount]. rewrite Hw. cbn [Interval Length].
  rewrite (proj2 (Z.eqb_neq I 0)) by lia. rewrite Hc, next_count by lia.
  set (l1 := inputs o ++ [d]).
  assert (Hseen : seen ++ [d] = dropped ++ l1) by (unfold l1; now rewrite Hs, app_assoc).
  assert (Hn : Z.of_nat (List.length (seen ++ [d])) = Z.of_nat (List.length seen) + 1)
    by (rewrite length_app; cbn; lia).
  assert (Hl1 : dropped = [] \/ L <= Z.of_nat (List.length l1)).
  { unfold l1. rewrite length_app. cbn. destruct Hd; [auto|right; lia]. }
  cbv zeta. rewrite Hn. destruct ((Z.of_nat (List.length seen) + 1) mod I =? 0) eqn:Em; cbn [negb andb].
  2: { eexists. split; [reflexivity|]. unfold count_inv. cbn. rewrite Hn. split; [exact Hw|]. split.
       - apply Z.eqb_neq in Em. rewrite ?Hc. now apply mod_succ.
       - exists dropped. fold l1. split; [exact Hseen|]. destruct Hl1; [auto|right; lia]. }
  apply Z.eqb_eq in Em.
  assert (Hne : l1 <> []) by (unfold l1; destruct (inputs o); discriminate).
  unfold NewTupleList. cbn [window set_inputs set_count]. rewrite ?Hw. cbn [Length].
  rewrite (proj2 (Z.leb_gt L 0)) by lia. cbn [inputs set_inputs set_count]. fold l1.
  destruct l1 as [|x l1'] eqn:El1; [congruence|]. rewrite <- El1 in *. clear El1 x l1'.
  destruct (Z.leb_spec L (Z.of_nat (List.length seen) + 1)) as [HLe|HLe].
  - assert (Hlen : L <= Z.of_nat (List.length l1)).
    { destruct Hl1 as [->|]; auto. rewrite Hseen in Hn. cbn in Hn. lia. }
    rewrite count_windows_one by (unfold tl_len; cbn; lia). cbn [fst snd nextCountWindow map].
    eexists. split.
    + do 3 f_equal. unfold count_window, tl_len. cbn [tuples size]. do 2 f_equal. rewrite Hseen.
      rewrite lastn_app_ge by lia. unfold lastn. f_equal. lia.
    + unfold count_inv. cbn. rewrite Hn, Em. split; [exact Hw|]. split; [reflexivity|].
      unfold getRestTuples, tl_len. cbn [tuples size].
      rewrite (proj2 (Z.ltb_ge _ _) Hlen). rewrite Hseen.
      destruct (skipn_tail_app (Z.to_nat (Z.of_nat (List.length l1) - L + 1)) dropped l1) as [d' Hd']; [lia|].
      exists d'. split; [exact Hd'|]. right. rewrite length_skipn. lia.
  - assert (Hlen : Z.of_nat (List.length l1) < L).
    { rewrite Hseen, length_app in Hn. lia. }
    rewrite count_windows_none by (unfold tl_len; cbn; lia). cbn [map].
    eexists. split; [reflexivity|]. unfold count_inv. cbn. rewrite Hn, Em. split; [exact Hw|].
    split; [reflexivity|]. unfold getRestTuples, tl_len. cbn [tuples size].
    rewrite (proj2 (Z.ltb_lt _ _) Hlen). exists dropped. split; [exact Hseen|]. left. destruct Hl1; auto. lia.
Qed.

Lemma count_run_spec (L I : Z) ds : 0 < L -> 0 < I -> forall o seen, count_inv L I seen o ->
  exists o', run o (map ETuple ds)
    = Some (o', map (fun l => EmitWindow (count_window l)) (count_ref L I seen ds)).
Proof.
  intros HL HI. induction ds as [|d ds IH]; intros o seen H; [exists o; reflexivity|].
  destruct (count_step_spec L I seen o d HL HI H) as (o1 & E & H1).
  destruct (IH o1 (seen ++ [d]) H1) as (o2 & E2).
  exists o2. cbn [map run count_ref]. rewrite E, E2, map_app. reflexivity.
Qed.

Lemma count_start (L I : Z) : 0 < I -> count_inv L I [] (NewWindowOp (mkConfig COUNT_WINDOW L I) false).
Proof.
  intros HI. unfold count_inv, NewWindowOp. cbn [Type_ Interval Length].
  rewrite (proj2 (Z.eqb_neq I 0)) by lia. cbn. repeat split. exists []. auto.
Qed.

(** C10: a count window keeps its contract: after every [Interval]-th tuple it emits one window with the
    last [Length] tuples received, provided that many have arrived, and emits
    nothing else; it never panics. *)
Theorem count_window_refines (L I : Z) ds :
  0 < L -> 0 < I ->
  exists o', run (NewWindowOp (mkConfig COUNT_WINDOW L I) false) (map ETuple ds)
    = Some (o', map (fun l => EmitWindow (count_window l)) (count_ref L I [] ds)).
Proof.
  intros HL HI. apply count_run_spec; auto using count_start.
Qed.

Definition at_time (ts : Z) : Tuple := mkTuple "demo" [("v", VInt ts)] ts None None.

Lemma count_window_refines_witness :
  0 < 2 /\ count_ref 2 3 [] (map at_time [1; 2; 3; 4; 5; 6])
    = [map at_time [2; 3]; map at_time [5; 6]] /\
  exists o', run (NewWindowOp (mkConfig COUNT_WINDOW 2 3) false) (map ETuple (map at_time [1; 2; 3; 4; 5; 6]))
    = Some (o', map (fun l => EmitWindow (count_window l)) (count_ref 2 3 [] (map at_time [1; 2; 3; 4; 5; 6]))).
Proof.
  split; [lia|]. split; [reflexivity|]. apply (count_window_refines 2 3); lia.
Defined.

Lemma tumbling_exactly_once_witness :
  exists o' out, run (NewWindowOp (mkConfig TUMBLING_WINDOW 10 0) false)
      [ETuple (at_time 1); ETick 10; ETuple (at_time 12)] = Some (o', out)
    /\ Permutation (emitted out ++ inputs o') [at_time 1; at_time 12].
Proof.
  apply (tumbling_exactly_once [ETuple (at_time 1); ETick 10; ETuple (at_time 12)]
    (NewWindowOp (mkConfig TUMBLING_WINDOW 10 0) false)); reflexivity.
Defined.

(** a count window of length zero, which the parser accepts when both
    arguments are zero, panics on the first tuple. *)
Theorem count_window_zero_panics d ds :
  run (NewWindowOp (mkConfig COUNT_WINDOW 0 0) false) (map ETuple (d :: ds)) = None.
Proof. reflexivity. Qed.

(** the windows of a count window have no range, so a query that asks such
    a window for its start or end panics. *)
Theorem count_window_has_no_bounds {TP : TimeParse} {F : GoFmt} {P : Plugins} {B : Builtins}
    ff L I ds o' w row name :
  0 < L -> 0 < I ->
  run (NewWindowOp (mkConfig COUNT_WINDOW L I) false) (map ETuple ds) = Some (o', [EmitWindow w]) ->
  name = "window_start" \/ name = "window_end" ->
  eval ff (Call name []) (VaAgg (ADWindow w) 0 row) = None.
Proof.
  intros HL HI Hr Hn.
  destruct (count_run_spec L I ds HL HI _ [] (count_start L I HI)) as [o2 E]. rewrite E in Hr. inversion Hr as [[Ho Hw]].
  destruct (count_ref L I [] ds) as [|l ls]; [discriminate|]. cbn [map] in Hw. inversion Hw as [[Hw1 Hw2]].
  assert (Hrange : w_Range (count_window l) = None) by apply fold_add_range.
  destruct Hn as [-> | ->]; cbn; now rewrite Hrange.
Qed.

Lemma count_window_has_no_bounds_witness :
  exists o' w, run (NewWindowOp (mkConfig COUNT_WINDOW 1 1) false) (map ETuple [at_time 7])
      = Some (o', [EmitWindow w])
    /\ eval (TP := Plain.time_none) (F := Plain.fmt_none) (P := Plain.plugins_none)
         (B := Plain.builtins_none) Plain.finder (Call "window_start" [])
         (VaAgg (ADWindow w) 0 (DTuple (at_time 7))) = None.
Proof.
  eexists _, _. split; [reflexivity|].
  eapply (count_window_has_no_bounds (TP := Plain.time_none) (F := Plain.fmt_none)
    (P := Plain.plugins_none) (B := Plain.builtins_none) Plain.finder 1 1 [at_time 7]);
    [lia|lia|reflexivity|left; reflexivity].
Defined.

(** a count window saves its state only when it emits: between two
    emissions the saved inputs and count stay as they were, so a restart loses
    the tuples that arrived since, although the source will not resend them. *)
Theorem count_window_saves_late (L I : Z) o d :
  window o = mkConfig COUNT_WINDOW L I -> I <> 0 ->
  go_mod (msgCount o + 1) I <> 0 ->
  exists o', step o (ETuple d) = Some (o', [])
    /\ inputs o' = inputs o ++ [d] /\ saved o' = saved o.
Proof.
  intros Hw HI Hm. cbn [step]. unfold on_tuple. rewrite Hw. cbn [Type_]. unfold count_step.
  cbn [window set_inputs set_count msgCount]. rewrite Hw. cbn [Interval].
  rewrite (proj2 (Z.eqb_neq I 0)), (proj2 (Z.eqb_neq _ 0) Hm) by exact HI.
  eexists. split; [reflexivity|]. split; reflexivity.
Qed.

Lemma count_window_saves_late_witness :
  exists o', step (NewWindowOp (mkConfig COUNT_WINDOW 3 3) false) (ETuple (at_time 7)) = Some (o', [])
    /\ inputs o' = [at_time 7] /\ s_inputs (saved o') = [].
Proof.
  destruct (count_window_saves_late 3 3 (NewWindowOp (mkConfig COUNT_WINDOW 3 3) false) (at_time 7))
    as (o' & H1 & H2 & H3); [reflexivity|lia|vm_compute; discriminate|].
  exists o'. split; [exact H1|]. split; [exact H2|]. now rewrite H3.
Defined.

(** resuming a session window that was saved while its first tuple waited
    panics: the tuple is emitted at once and the loop then reads the first of no
    inputs. *)
Theorem session_resume_panics o d rounds nextTick :
  Type_ (window o) = SESSION_WINDOW -> 0 < Length (window o) -> inputs o = [d] ->
  triggerTime o = Timestamp d -> Timestamp d <= nextTick ->
  resume_session (S (S rounds)) nextTick (triggerTime o) o = None.
Proof.
  intros Ht HL Hi Htr Hn. cbn [resume_session]. unfold resume_session_round at 1. rewrite Hi.
  rewrite (proj2 (Z.eqb_neq (Length (window o)) 0)) by lia.
  assert (Hb : session_boundary (Interval (window o)) (Length (window o)) (Timestamp d) 0
    (session_tick (Timestamp d) (Length (window o))) false [d] = None).
  { cbn [session_boundary]. change (0 >? 0) with false. cbn [andb].
    assert (Hle : Timestamp d <= session_tick (Timestamp d) (Length (window o))).
    { unfold session_tick, go_mod. destruct (Z.eqb_spec (Z.rem (Timestamp d) (Length (window o))) 0); [lia|].
      pose proof (Z.rem_bound_abs (Timestamp d) (Length (window o))). lia. }
    replace (Timestamp d >? session_tick (Timestamp d) (Length (window o))) with false by
      (symmetry; rewrite Z.gtb_ltb; apply Z.ltb_ge; lia).
    reflexivity. }
  rewrite Hb, Htr, Z.gtb_ltb, (proj2 (Z.ltb_ge nextTick _)) by lia.
  rewrite scan_eq. cbv zeta. rewrite Hi. cbn [filter].
  unfold shown, retained. rewrite Ht. cbn [is_overlapping].
  rewrite (proj2 (Z.leb_le _ _) (Z.le_refl (Timestamp d))), Z.gtb_ltb, Z.ltb_irrefl. cbn [andb].
  reflexivity.
Qed.

Lemma session_resume_panics_witness :
  resume_session 2 100 7 (set_trigger 7 (set_inputs [at_time 7]
    (NewWindowOp (mkConfig SESSION_WINDOW 10 5) false))) = None.
Proof.
  apply (session_resume_panics (set_trigger 7 (set_inputs [at_time 7]
    (NewWindowOp (mkConfig SESSION_WINDOW 10 5) false))) (at_time 7) 0 100);
    cbn; (reflexivity || lia).
Defined.

Lemma scan_config o t : let (o', _) := scan o t in interval o' = interval o /\ window o' = window o.
Proof. rewrite scan_eq. cbv zeta. destruct (filter _ _); split; reflexivity. Qed.

(** The resume loop of tumbling and hopping windows ends: with fuel for the
    milliseconds to catch up, more fuel changes nothing. *)
Lemma resume_ticks_enough f1 : forall f2 nextTick next o, 0 < interval o ->
  (Z.to_nat (nextTick - next) < f1)%nat -> (f1 <= f2)%nat ->
  resume_ticks f2 nextTick next o = resume_ticks f1 nextTick next o.
Proof.
  induction f1 as [|f1 IH]; intros [|f2] nextTick next o Hi Hf Hle; try lia. cbn [resume_ticks].
  rewrite Z.gtb_ltb. destruct (Z.ltb_spec nextTick (next + interval o)); [reflexivity|].
  pose proof (scan_config o (next + interval o)) as C.
  destruct (scan o (next + interval o)) as [o1 w]. destruct C as [C1 _].
  rewrite (IH f2); [reflexivity|cbn; lia|lia|lia].
Qed.

(** resuming saved inputs of a tumbling window terminates and loses
    nothing: with fuel for the milliseconds to catch up the loop has finished
    (more fuel changes nothing), and what it emits together with what it retains
    are the saved inputs. *)
Theorem resume_ticks_conserves fuel nextTick next o :
  is_overlapping (Type_ (window o)) = false -> 0 < interval o ->
  (Z.to_nat (nextTick - next) < fuel)%nat ->
  let (o', out) := resume_ticks fuel nextTick next o in
  Permutation (emitted out ++ inputs o') (inputs o)
  /\ forall fuel', (fuel <= fuel')%nat -> resume_ticks fuel' nextTick next o = (o', out).
Proof.
  intros Ht Hi Hf. destruct (resume_ticks fuel nextTick next o) as [o' out] eqn:E. split.
  - clear Hf. revert next o o' out Ht Hi E. induction fuel as [|fuel IH]; intros next o o' out Ht Hi E;
      cbn [resume_ticks] in E; [inversion E; reflexivity|].
    destruct (next + interval o >? nextTick); [inversion E; reflexivity|].
    pose proof (scan_config o (next + interval o)) as C.
    pose proof (scan_conserves o (next + interval o) Ht) as S0.
    destruct (scan o (next + interval o)) as [o1 w]. destruct C as [C1 C2], S0 as [S0 _].
    destruct (resume_ticks fuel nextTick (next + interval o) (put_trigger (put_inputs o1))) as [o2 out2] eqn:E2.
    inversion E; subst. apply IH in E2; [|cbn; now rewrite C2|cbn; lia]. cbn in E2.
    unfold emitted in *. rewrite flat_map_app, <- app_assoc, E2. exact S0.
  - intros fuel' Hle. rewrite <- E. now apply resume_ticks_enough.
Qed.

Lemma resume_ticks_conserves_witness :
  let o := mkOp (mkConfig TUMBLING_WINDOW 10 0) 10 false 5 0 [at_time 7; at_time 18] false (mkSaved [] 0 0) in
  Permutation (emitted (snd (resume_ticks 31 35 5 o)) ++ inputs (fst (resume_ticks 31 35 5 o)))
    [at_time 7; at_time 18].
Proof.
  cbv zeta. pose proof (resume_ticks_conserves 31 35 5
    (mkOp (mkConfig TUMBLING_WINDOW 10 0) 10 false 5 0 [at_time 7; at_time 18] false (mkSaved [] 0 0))
    eq_refl) as H.
  destruct (resume_ticks 31 35 5 _) as [o' out]. apply H; cbn; lia.
Defined.
