(* ===== verification/InputSlice.v ===== *)
(** The waiting tuples of a window operator in memory
    (src/internal/topo/node/window_op.go).

    [Window] takes the inputs of the operator as a list.  In the code they are a
    Go slice: [append] writes into spare capacity, and [scan] compacts the slice
    in place.  The state that [PutState] saves is the slice itself, not a copy,
    so a snapshot shares its array with the running operator until the
    checkpoint is written.  This file runs the steps of [Window] on slices,
    shows that the operator itself never notices, and says exactly what a
    snapshot holds after the operator went on. *)

From S2P Require Import Prelude Token Ast Value Collections AggFuncs Eval Operators Order Window.
From Stdlib Require Import ZArith Lia Bool List String Permutation.
Import ListNotations.

#[local] Open Scope list_scope.
#[local] Open Scope Z_scope.

(** ** Slices of tuple pointers *)

(** An array is its cells; [None] is a nil pointer. *)
Definition memory : Type := list (list (option Tuple)).

Record slice : Type := mkSlice { arr : nat; off : nat; len : nat }.

Definition array (m : memory) (s : slice) : list (option Tuple) := nth (arr s) m [].

(** The cells a slice spans. *)
Definition region (m : memory) (s : slice) : list (option Tuple) :=
  firstn (len s) (skipn (off s) (array m s)).

Definition get (m : memory) (s : slice) (i : nat) : option Tuple :=
  match nth_error (array m s) (off s + i) with Some c => c | None => None end.

Definition set (m : memory) (s : slice) (i : nat) (x : Tuple) : memory :=
  list_set (arr s) (list_set (off s + i) (Some x) (array m s)) m.

Definition contents (m : memory) (s : slice) : list Tuple :=
  flat_map (fun c => match c with Some x => [x] | None => [] end) (region m s).

Section Slices.
(** The capacity the runtime gives a slice that outgrows its array. *)
Variable grow : nat -> nat.

(** [append(inputs, d)]. *)
Definition append (m : memory) (s : slice) (d : Tuple) : memory * slice :=
  if Nat.ltb (off s + len s) (List.length (array m s))
  then (set m s (len s) d, mkSlice (arr s) (off s) (S (len s)))
  else (m ++ [region m s ++ Some d :: repeat None (grow (len s) - S (len s))],
        mkSlice (List.length m) 0 (S (len s))).

(** The loop of [scan] over the cells: the [r]-th tuple is read, and written
    back to cell [i] if it is retained.  A nil pointer panics. *)
Fixpoint compact (keep : Tuple -> bool) (s : slice) (todo r i : nat) (m : memory) : option (memory * nat) :=
  match todo with
  | O => Some (m, i)
  | S todo' =>
      match get m s r with
      | None => None
      | Some x =>
          if keep x then compact keep s todo' (S r) (S i) (set m s i x)
          else compact keep s todo' (S r) i m
      end
  end.

(** [inputs[:i]] after the loop. *)
Definition scan_slice (keep : Tuple -> bool) (m : memory) (s : slice) : option (memory * slice) :=
  match compact keep s (len s) 0 0 m with
  | Some (m', i) => Some (m', mkSlice (arr s) (off s) i)
  | None => None
  end.

(** ** The steps of the operator on a slice *)

(** What a tuple does to the slice: [tl.getRestTuples] re-slices it. *)
Definition tuple_slice (o : WindowOperator) (d : Tuple) (m : memory) (s : slice) : option (memory * slice) :=
  let (m1, s1) := append m s d in
  match Type_ (window o) with
  | NOT_WINDOW | SLIDING_WINDOW => scan_slice (retained o (Timestamp d)) m1 s1
  | COUNT_WINDOW =>
      let l := Z.of_nat (len s1) in
      let L := Length (window o) in
      if negb (go_mod (msgCount o + 1) (Interval (window o)) =? 0) || (L <=? 0) || (l <? L) then Some (m1, s1)
      else let n := Z.to_nat (l - L + 1) in Some (m1, mkSlice (arr s1) (off s1 + n) (len s1 - n))
  | _ => Some (m1, s1)
  end.

(** A step that only scans if the ticker says so; a timeout makes a new slice. *)
Definition event_slice (o : WindowOperator) (e : event) (m : memory) (s : slice) : option (memory * slice) :=
  match e with
  | ETuple d => tuple_slice o d m s
  | ETick n =>
      match get m s 0 with
      | Some first =>
          if Nat.eqb (len s) 0
             || wt_eqb (Type_ (window o)) SESSION_WINDOW && (n - Length (window o) <? Timestamp first)
          then Some (m, s)
          else scan_slice (retained o n) m s
      | None => Some (m, s)
      end
  | ETimeout n =>
      if Nat.eqb (len s) 0 then Some (m, s)
      else match scan_slice (retained o n) m s with
           | Some (m1, _) => Some (m1 ++ [[]], mkSlice (List.length m1) 0 0)
           | None => None
           end
  end.

(** [Window.step] with the inputs in memory. *)
Definition step_slice (m : memory) (s : slice) (o : WindowOperator) (e : event)
    : option (memory * slice * WindowOperator * list emission) :=
  match step (set_inputs (contents m s) o) e, event_slice o e m s with
  | Some (o', out), Some (m', s') => Some (m', s', o', out)
  | _, _ => None
  end.

Fixpoint run_slice (m : memory) (s : slice) (o : WindowOperator) (es : list event)
    : option (memory * slice * WindowOperator * list emission) :=
  match es with
  | [] => Some (m, s, o, [])
  | e :: es' =>
      match step_slice m s o e with
      | None => None
      | Some (m1, s1, o1, out) =>
          match run_slice m1 s1 o1 es' with
          | None => None
          | Some (m2, s2, o2, out') => Some (m2, s2, o2, out ++ out')
          end
      end
  end.

(** ** Lists with one cell replaced *)

Lemma skipn_list_set {A} o i (x : A) l : skipn o (list_set (o + i) x l) = list_set i x (skipn o l).
Proof. revert l. induction o as [|o IH]; intros [|y l]; cbn; auto. now destruct i. Qed.

Lemma skipn_list_set_after {A} o i (x : A) l : (i < o)%nat -> skipn o (list_set i x l) = skipn o l.
Proof. revert i l. induction o as [|o IH]; intros [|i] [|y l] H; cbn; auto; try lia. apply IH. lia. Qed.

Lemma firstn_list_set {A} n i (x : A) l : (i < n)%nat -> firstn n (list_set i x l) = list_set i x (firstn n l).
Proof. revert i l. induction n as [|n IH]; intros [|i] [|y l] H; cbn; auto; try lia. rewrite IH by lia. reflexivity. Qed.

Lemma firstn_list_set_before {A} n i (x : A) l : (n <= i)%nat -> firstn n (list_set i x l) = firstn n l.
Proof. revert i l. induction n as [|n IH]; intros [|i] [|y l] H; cbn; auto; try lia. rewrite IH by lia. reflexivity. Qed.

Lemma nth_error_region m s i : (i < len s)%nat ->
  nth_error (array m s) (off s + i) = nth_error (region m s) i.
Proof.
  intros H. unfold region. rewrite nth_error_firstn, nth_error_skipn.
  now rewrite (proj2 (Nat.ltb_lt _ _) H).
Qed.

Lemma array_set m s t i x : (arr s < List.length m)%nat ->
  array (set m s i x) t = if Nat.eqb (arr s) (arr t) then list_set (off s + i) (Some x) (array m s) else array m t.
Proof.
  intros H. unfold array, set. rewrite nth_list_set. destruct (Nat.eqb_spec (arr s) (arr t)) as [E|E]; cbn [andb]; auto.
  rewrite <- E. now rewrite (proj2 (Nat.ltb_lt _ _) H).
Qed.

Lemma length_set m s i x : List.length (set m s i x) = List.length m.
Proof. apply length_list_set. Qed.

(** ** The slice reads as a list *)

Definition holds (m : memory) (s : slice) (l : list Tuple) : Prop :=
  (arr s < List.length m)%nat /\ region m s = map Some l /\ List.length l = len s.

Lemma flat_cells (l : list Tuple) :
  flat_map (fun c : option Tuple => match c with Some x => [x] | None => [] end) (map Some l) = l.
Proof. induction l; cbn; congruence. Qed.

Lemma holds_contents m s l : holds m s l -> contents m s = l.
Proof. intros (_ & H & _). unfold contents. rewrite H. apply flat_cells. Qed.

(** *** Compaction *)

(** What the cells hold once [kept] was written over the front of [l]. *)
Definition overwritten (kept l : list Tuple) : list Tuple := kept ++ skipn (List.length kept) l.

Lemma list_set_overwritten kept l x : (List.length kept < List.length l)%nat ->
  list_set (List.length kept) (Some x) (map Some (overwritten kept l)) = map Some (overwritten (kept ++ [x]) l).
Proof.
  intros H. unfold overwritten. rewrite !map_app, length_app. cbn [List.length map].
  destruct (skipn (List.length kept) l) as [|y r] eqn:E.
  { apply (f_equal (@List.length _)) in E. rewrite length_skipn in E. cbn in E. lia. }
  cbn [map]. replace (List.length kept) with (List.length (map (@Some Tuple) kept)) at 1 by apply length_map.
  rewrite list_set_split, <- app_assoc. cbn [app]. do 2 f_equal.
  replace (List.length kept + 1)%nat with (1 + List.length kept)%nat by lia.
  rewrite <- skipn_skipn, E. reflexivity.
Qed.

Lemma nth_overwritten kept l r : (List.length kept <= r)%nat ->
  nth_error (overwritten kept l) r = nth_error l r.
Proof.
  intros H. unfold overwritten. rewrite nth_error_app2 by exact H. rewrite nth_error_skipn. f_equal. lia.
Qed.

Lemma length_filter_le {A} (f : A -> bool) l : (List.length (filter f l) <= List.length l)%nat.
Proof. induction l; cbn; [lia|]. destruct (f a); cbn; lia. Qed.

Lemma compact_spec keep s l2 : forall l1 m,
  let l := l1 ++ l2 in
  (arr s < List.length m)%nat -> List.length l = len s ->
  region m s = map Some (overwritten (filter keep l1) l) ->
  exists m', compact keep s (List.length l2) (List.length l1) (List.length (filter keep l1)) m
      = Some (m', List.length (filter keep l))
    /\ region m' s = map Some (overwritten (filter keep l) l)
    /\ List.length m' = List.length m
    /\ forall t, arr t <> arr s -> array m' t = array m t.
Proof.
  induction l2 as [|x l2 IH]; intros l1 m l Ha Hl Hr; subst l.
  { rewrite app_nil_r in *. exists m. auto. }
  pose proof (length_filter_le keep l1) as Hk. rewrite length_app in Hl. cbn [List.length] in Hl.
  assert (G : get m s (List.length l1) = Some x).
  { unfold get. rewrite nth_error_region by lia. rewrite Hr, nth_error_map, nth_overwritten by lia.
    now rewrite nth_error_app2, Nat.sub_diag by lia. }
  cbn [compact List.length]. rewrite G.
  replace (l1 ++ x :: l2) with ((l1 ++ [x]) ++ l2) in * by now rewrite <- app_assoc.
  replace (S (List.length l1)) with (List.length (l1 ++ [x])) by (rewrite length_app; cbn; lia).
  assert (F : filter keep (l1 ++ [x]) = filter keep l1 ++ (if keep x then [x] else [])).
  { rewrite filter_app. cbn. now destruct (keep x). }
  destruct (keep x).
  - replace (S (List.length (filter keep l1))) with (List.length (filter keep (l1 ++ [x])))
      by (rewrite F, length_app; cbn; lia).
    destruct (IH (l1 ++ [x]) (set m s (List.length (filter keep l1)) x)) as (m' & E & R & L & O).
    + now rewrite length_set.
    + rewrite !length_app. cbn. lia.
    + unfold region. rewrite array_set, Nat.eqb_refl, skipn_list_set, firstn_list_set by lia.
      change (firstn (len s) (skipn (off s) (array m s))) with (region m s).
      rewrite Hr, F, <- list_set_overwritten; [reflexivity|]. rewrite !length_app. cbn. lia.
    + exists m'. split; [exact E|]. split; [exact R|]. rewrite length_set in L. split; [exact L|].
      intros t Ht. rewrite O by exact Ht. rewrite array_set by lia.
      now rewrite (proj2 (Nat.eqb_neq _ _)) by congruence.
  - rewrite app_nil_r in F. rewrite <- F in Hr |- *. apply IH; auto.
    rewrite !length_app. cbn. lia.
Qed.

Lemma scan_slice_spec keep m s l : holds m s l ->
  exists m' n, scan_slice keep m s = Some (m', mkSlice (arr s) (off s) n)
    /\ holds m' (mkSlice (arr s) (off s) n) (filter keep l)
    /\ region m' s = map Some (overwritten (filter keep l) l)
    /\ List.length m' = List.length m
    /\ forall t, arr t <> arr s -> array m' t = array m t.
Proof.
  intros (Ha & Hr & Hl). destruct (compact_spec keep s l [] m Ha Hl Hr) as (m' & E & R & L & O).
  cbn [List.length filter] in E. unfold scan_slice. rewrite <- Hl, E.
  exists m', (List.length (filter keep l)). split; [reflexivity|]. split; [|auto].
  split; [cbn; lia|]. split; [|reflexivity].
  unfold region, array in *. cbn [arr off len] in *.
  pose proof (length_filter_le keep l) as Hk.
  replace (List.length (filter keep l)) with (Nat.min (List.length (filter keep l)) (len s)) at 1 by lia.
  rewrite <- firstn_firstn, R. unfold overwritten. rewrite map_app.
  replace (List.length (filter keep l)) with (List.length (map (@Some Tuple) (filter keep l))) by apply length_map.
  rewrite firstn_app, Nat.sub_diag, firstn_all. cbn. apply app_nil_r.
Qed.

(** *** Appending *)

Lemma firstn_S_list_set {A} n (x : A) l : (n < List.length l)%nat -> firstn (S n) (list_set n x l) = firstn n l ++ [x].
Proof.
  revert l. induction n as [|n IH]; intros [|y l] H; cbn in *; try lia; auto. f_equal. apply IH. lia.
Qed.

(** [t] ends before the cells that appending to [s] writes. *)
Definition older (t s : slice) : Prop := arr t = arr s -> (off t + len t <= off s + len s)%nat.

Lemma append_holds m s l d : holds m s l -> let (m', s') := append m s d in holds m' s' (l ++ [d]).
Proof.
  intros (Ha & Hr & Hl). unfold append. destruct (Nat.ltb_spec (off s + len s) (List.length (array m s))) as [H|H].
  - split; [now rewrite length_set|]. split; [|rewrite length_app; cbn; lia].
    unfold region. cbn [off len]. unfold array at 1. cbn [arr].
    change (nth (arr s) (set m s (len s) d) []) with (array (set m s (len s) d) s).
    rewrite array_set, Nat.eqb_refl by exact Ha. rewrite skipn_list_set, firstn_S_list_set.
    + change (firstn (len s) (skipn (off s) (array m s))) with (region m s). now rewrite Hr, map_app.
    + rewrite length_skipn. lia.
  - split; [rewrite length_app; cbn; lia|]. split; [|rewrite length_app; cbn; lia].
    unfold region at 1, array at 1. cbn [arr off len skipn]. rewrite app_nth2, Nat.sub_diag by lia. cbn [nth].
    rewrite Hr, map_app.
    replace (S (len s)) with (List.length (map (@Some Tuple) l) + 1)%nat at 1 by (rewrite length_map; lia).
    apply firstn_app_2.
Qed.

(** Appending leaves the slices taken before alone. *)
Lemma append_older m s d t lt : (arr s < List.length m)%nat -> older t s -> holds m t lt ->
  let (m', s') := append m s d in holds m' t lt /\ older t s'.
Proof.
  intros Ha Ho (Hta & Htr & Htl). unfold append.
  destruct (Nat.ltb_spec (off s + len s) (List.length (array m s))) as [H|H].
  - split; [|intros E; cbn in *; specialize (Ho E); lia]. split; [now rewrite length_set|]. split; [|exact Htl].
    rewrite <- Htr. unfold region. rewrite array_set by exact Ha.
    destruct (Nat.eqb_spec (arr s) (arr t)) as [E|E]; [|reflexivity].
    specialize (Ho (eq_sym E)). unfold array. rewrite E. fold (array m t).
    destruct (Nat.ltb_spec (off s + len s) (off t)); [now rewrite skipn_list_set_after|].
    replace (off s + len s)%nat with (off t + (off s + len s - off t))%nat by lia.
    rewrite skipn_list_set, firstn_list_set_before by lia. reflexivity.
  - split; [|intros E; cbn in *; lia]. split; [rewrite length_app; lia|]. split; [|exact Htl].
    rewrite <- Htr. unfold region, array. now rewrite app_nth1 by lia.
Qed.

(** ** The operator does not notice *)

Lemma holds_drop m s l n : holds m s l -> (n <= len s)%nat ->
  holds m (mkSlice (arr s) (off s + n) (len s - n)) (skipn n l).
Proof.
  intros (Ha & Hr & Hl) Hn. split; [exact Ha|]. split; [|rewrite length_skipn; cbn; lia].
  unfold region, array in *. cbn [arr off len].
  rewrite <- skipn_map, <- Hr. rewrite Nat.add_comm, <- skipn_skipn, firstn_skipn_comm. do 2 f_equal. lia.
Qed.

Lemma get_first m s l : holds m s l ->
  match l with x :: _ => get m s 0 = Some x /\ Nat.eqb (len s) 0 = false | [] => Nat.eqb (len s) 0 = true end.
Proof.
  intros (Ha & Hr & Hl). destruct l as [|x l]; cbn in Hl; [now rewrite <- Hl|].
  split; [|now rewrite <- Hl]. unfold get. rewrite nth_error_region by lia. now rewrite Hr.
Qed.

Lemma scan_inputs o trigger : inputs (fst (scan o trigger)) = filter (retained o trigger) (inputs o).
Proof. rewrite scan_eq. cbv zeta. now destruct (filter (shown o trigger) (inputs o)). Qed.

Lemma count_step_inputs o o' out : count_step o = Some (o', out) ->
  inputs o' = let l := Z.of_nat (List.length (inputs o)) in
    if negb (go_mod (msgCount o + 1) (Interval (window o)) =? 0) || (Length (window o) <=? 0)
       || (l <? Length (window o))
    then inputs o else skipn (Z.to_nat (l - Length (window o) + 1)) (inputs o).
Proof.
  unfold count_step. cbn [set_count msgCount inputs window]. destruct (Interval (window o) =? 0); [discriminate|].
  destruct (go_mod _ _ =? 0); cbn [negb orb]; [|intros [= <- <-]; reflexivity].
  unfold NewTupleList. destruct (Length (window o) <=? 0); cbn [orb]; [intros [= <- <-]; reflexivity|].
  destruct (inputs o) as [|x l] eqn:E.
  { intros [= <- <-]. cbn. rewrite E. now destruct (0 <? Length (window o)); rewrite ?skipn_nil. }
  rewrite <- E. unfold count_windows, hasMoreCountWindow, nextCountWindow, getRestTuples, tl_len. cbn [tuples size Window.index].
  destruct (Z.of_nat (List.length (inputs o)) <? Length (window o)) eqn:E2; cbn [Z.eqb].
  - intros [= <- <-]. cbn [inputs put_count put_inputs set_inputs set_saved]. now rewrite ?E2.
  - change (0 =? 0) with true. cbv iota zeta. rewrite ?E2. change (0 + 1 =? 0) with false. cbv iota.
    intros [= <- <-]. cbn [inputs put_count put_inputs set_inputs set_saved]. now rewrite ?E2.
Qed.

Lemma tuple_slice_refines m s l o d o' out : holds m s l ->
  on_tuple d (set_inputs l o) = Some (o', out) ->
  exists m' s', tuple_slice o d m s = Some (m', s') /\ holds m' s' (inputs o').
Proof.
  intros H Ho. unfold tuple_slice, on_tuple in *. pose proof (append_holds m s l d H) as Ha.
  destruct (append m s d) as [m1 s1]. cbn [window set_inputs inputs] in Ho.
  assert (K : forall t, (let (o2, w) := scan (set_inputs (l ++ [d]) o) t in Some (put_count (put_inputs o2), emit_opt w)) = Some (o', out) ->
    exists m' s', scan_slice (retained o t) m1 s1 = Some (m', s') /\ holds m' s' (inputs o')).
  { intros t E. pose proof (scan_inputs (set_inputs (l ++ [d]) o) t) as G.
    destruct (scan (set_inputs (l ++ [d]) o) t) as [o2 w]. cbn [fst inputs set_inputs] in G. injection E as <- <-.
    destruct (scan_slice_spec (retained o t) m1 s1 (l ++ [d]) Ha) as (m' & n & E & Hh & _).
    exists m', (mkSlice (arr s1) (off s1) n). split; [exact E|]. cbn. rewrite G. exact Hh. }
  destruct (Type_ (window o)); try (injection Ho as <- <-; exists m1, s1; split; [reflexivity|exact Ha]; fail);
    try (apply K; exact Ho).
  - cbn [timer set_inputs] in Ho. injection Ho as <- <-. exists m1, s1. split; [reflexivity|]. now destruct (timer o).
  - pose proof (count_step_inputs _ _ _ Ho) as G. cbn [inputs set_inputs msgCount window] in G.
    destruct Ha as (Ha1 & Ha2 & Ha3). rewrite Ha3 in G. cbv zeta in G. rewrite G.
    destruct (negb _ || _ || _) eqn:E.
    + exists m1, s1. split; [reflexivity|]. split; auto.
    + eexists _, _. split; [reflexivity|].
      apply orb_false_iff in E as [E1 E2]. apply orb_false_iff in E1 as [_ E1]. bool_to_prop.
      apply holds_drop; [split; auto|lia].
Qed.

Lemma event_slice_refines m s l o e o' out : holds m s l -> step (set_inputs l o) e = Some (o', out) ->
  exists m' s', event_slice o e m s = Some (m', s') /\ holds m' s' (inputs o').
Proof.
  intros H Ho. destruct e as [d|n|n]; cbn [step event_slice] in *; [now apply tuple_slice_refines with l out| |].
  - pose proof (get_first m s l H) as G. unfold on_tick in Ho. cbn [inputs set_inputs window] in Ho.
    destruct l as [|x l]; [injection Ho as <- <-; exists m, s; rewrite G; cbn [orb]; split; [now destruct (get m s 0)|exact H]|].
    destruct G as [-> ->]. cbn [orb].
    destruct (_ && _); [injection Ho as <- <-; exists m, s; auto|].
    pose proof (scan_inputs (set_inputs (x :: l) o) n) as G. destruct (scan (set_inputs (x :: l) o) n) as [o1 w].
    injection Ho as <- <-. destruct (scan_slice_spec (retained o n) m s (x :: l) H) as (m' & k & E & Hh & _).
    eexists _, _. split; [exact E|]. cbn in *. now rewrite G.
  - pose proof (get_first m s l H) as G. unfold on_timeout in Ho. cbn [inputs set_inputs] in Ho.
    destruct l as [|x l]; [injection Ho as <- <-; rewrite G; exists m, s; auto|].
    destruct G as [_ ->]. destruct (scan (set_inputs (x :: l) o) n) as [o1 w]. injection Ho as <- <-.
    destruct (scan_slice_spec (retained o n) m s (x :: l) H) as (m' & k & -> & Hh & _).
    eexists _, _. split; [reflexivity|]. cbn. split; [rewrite length_app; cbn; lia|]. split; [|reflexivity].
    reflexivity.
Qed.

(** C11: the in-place slice implements the list of waiting tuples: whatever
    capacity the runtime picks, every step of the operator on the slice does
    what [Window.step] does on the list, and leaves in the slice the list that
    [Window.step] leaves; over whole runs the two emit the same. *)
Theorem slice_refines_list es : forall m s o o' out, holds m s (inputs o) ->
  run o es = Some (o', out) ->
  exists m' s', run_slice m s o es = Some (m', s', o', out) /\ holds m' s' (inputs o').
Proof.
  induction es as [|e es IH]; intros m s o o' out H Hr; cbn [run run_slice] in *.
  { injection Hr as <- <-. eauto. }
  unfold step_slice. rewrite (holds_contents m s _ H).
  replace (set_inputs (inputs o) o) with o by (now destruct o).
  destruct (step o e) as [[o1 out1]|] eqn:E; [|discriminate].
  destruct (event_slice_refines m s (inputs o) o e o1 out1 H) as (m1 & s1 & -> & H1);
    [now replace (set_inputs (inputs o) o) with o by (now destruct o)|].
  destruct (run o1 es) as [[o2 out2]|] eqn:E2; [|discriminate]. injection Hr as <- <-.
  destruct (IH m1 s1 o1 o2 out2 H1 E2) as (m' & s' & -> & H'). eauto.
Qed.

(** ** What a snapshot holds later *)

(** The live slice [s] of a tumbling window that took tuples since the slice
    [t], reading [l], was put into the state. *)
Record shares_snapshot (m : memory) (t s : slice) (l : list Tuple) : Prop := {
  sh_snapshot : holds m t l;
  sh_older : older t s;
  sh_same : arr s = arr t -> off s = off t }.

Lemma append_shares m t s l lt d : holds m s l -> shares_snapshot m t s lt ->
  let (m', s') := append m s d in shares_snapshot m' t s' lt.
Proof.
  intros (Ha & _) [H1 H2 H3]. pose proof (append_older m s d t lt Ha H2 H1) as G.
  assert (K : arr (snd (append m s d)) = arr t -> off (snd (append m s d)) = off t).
  { unfold append. destruct (Nat.ltb _ _); cbn; [exact H3|]. intros E. destruct H1 as [H1 _]. lia. }
  destruct (append m s d) as [m' s']. destruct G. split; auto.
Qed.

Lemma tuples_share t lt ds : forall m s o, Type_ (window o) = TUMBLING_WINDOW ->
  holds m s (inputs o) -> shares_snapshot m t s lt ->
  exists m' s' o', run_slice m s o (map ETuple ds) = Some (m', s', o', [])
    /\ window o' = window o /\ inputs o' = inputs o ++ ds
    /\ holds m' s' (inputs o') /\ shares_snapshot m' t s' lt.
Proof.
  induction ds as [|d ds IH]; intros m s o Ht H Hs; cbn [map run_slice].
  { exists m, s, o. now rewrite app_nil_r. }
  unfold step_slice. rewrite (holds_contents m s _ H). cbn [step event_slice]. unfold on_tuple, tuple_slice.
  cbn [window set_inputs]. rewrite Ht. pose proof (append_holds m s _ d H) as Ha.
  pose proof (append_shares m t s _ lt d H Hs) as Hs1. destruct (append m s d) as [m1 s1].
  set (o1 := put_count _). destruct (IH m1 s1 o1 Ht Ha Hs1) as (m' & s' & o' & -> & W & I & H1 & H2).
  exists m', s', o'. split; [reflexivity|]. split; [exact W|]. split; [|auto].
  rewrite I. cbn. now rewrite <- app_assoc.
Qed.

Lemma tick_scans m s o n : Type_ (window o) = TUMBLING_WINDOW -> holds m s (inputs o) -> inputs o <> [] ->
  exists m' n' o' out, step_slice m s o (ETick n) = Some (m', mkSlice (arr s) (off s) n', o', out)
    /\ region m' s = map Some (overwritten (filter (fun t => Timestamp t >? n) (inputs o)) (inputs o))
    /\ forall t, arr t <> arr s -> array m' t = array m t.
Proof.
  intros Ht H Hn. unfold step_slice. rewrite (holds_contents m s _ H).
  replace (set_inputs (inputs o) o) with o by (now destruct o). cbn [step event_slice].
  destruct (on_tick n o) as [o' out]. pose proof (get_first m s _ H) as G.
  destruct (inputs o) as [|x l] eqn:E; [congruence|]. destruct G as [-> ->]. cbn [orb].
  rewrite Ht. change (wt_eqb TUMBLING_WINDOW SESSION_WINDOW) with false. cbn [andb].
  destruct (scan_slice_spec (retained o n) m s (x :: l) H) as (m' & k & -> & _ & R & _ & O).
  exists m', k, o', out. split; [reflexivity|]. split; [|exact O]. rewrite R. do 2 f_equal.
  apply filter_ext. intros y. unfold retained. now rewrite Ht.
Qed.

(** a checkpoint that is written late saves other inputs than it
    snapshotted.  Tuples that arrive after the snapshot do not change it, but
    the next window does: if the slice still has its array, the snapshot then
    reads the retained tuples over the front of the old ones, so expired tuples
    are lost and retained ones are saved twice. *)
Theorem snapshot_follows_scan m s o ds n :
  Type_ (window o) = TUMBLING_WINDOW -> holds m s (inputs o) -> inputs o ++ ds <> [] ->
  exists m1 s1 o1, run_slice m s o (map ETuple ds) = Some (m1, s1, o1, []) /\ contents m1 s = inputs o
  /\ exists m2 s2 o2 out, step_slice m1 s1 o1 (ETick n) = Some (m2, s2, o2, out)
  /\ contents m2 s = if Nat.eqb (arr s1) (arr s)
       then firstn (len s) (overwritten (filter (fun t => Timestamp t >? n) (inputs o ++ ds)) (inputs o ++ ds))
       else inputs o.
Proof.
  intros Ht H Hn.
  destruct (tuples_share s (inputs o) ds m s o Ht H) as (m1 & s1 & o1 & E & W & I & H1 & [S1 S2 S3]).
  { split; [exact H|intros _; lia|auto]. }
  exists m1, s1, o1. split; [exact E|]. split; [now apply holds_contents|].
  destruct (tick_scans m1 s1 o1 n) as (m2 & k & o2 & out & E2 & R & O); [congruence|exact H1|congruence|].
  eexists _, _, _, _. split; [exact E2|]. rewrite I in R.
  destruct (Nat.eqb_spec (arr s1) (arr s)) as [Ea|Ea].
  - unfold contents. replace (region m2 s) with (firstn (len s) (region m2 s1)).
    + rewrite R, firstn_map. apply flat_cells.
    + unfold region, array. rewrite Ea, (S3 Ea), firstn_firstn. f_equal. specialize (S2 (eq_sym Ea)).
      rewrite (S3 Ea) in S2. lia.
  - rewrite <- (holds_contents m1 s (inputs o) S1). unfold contents, region. now rewrite O by congruence.
Qed.
End Slices.

(** ** On concrete tuples *)

(** The array of three waiting tuples with room for a fourth. *)
Definition waiting : WindowOperator :=
  set_inputs (map at_time [1; 2; 12]) (NewWindowOp (mkConfig TUMBLING_WINDOW 10 0) false).
Definition waiting_memory : memory := [map Some (map at_time [1; 2; 12]) ++ [None]].
Definition waiting_slice : slice := mkSlice 0 0 3.

Lemma waiting_holds : holds waiting_memory waiting_slice (inputs waiting).
Proof. split; [cbn; lia|]. split; reflexivity. Defined.

Lemma slice_refines_list_witness : exists m' s',
  run_slice (fun n => 2 * n)%nat waiting_memory waiting_slice waiting [ETuple (at_time 14); ETick 10]
  = Some (m', s', fst (on_tick 10 (put_count (put_inputs (set_inputs (map at_time [1; 2; 12; 14]) waiting)))),
      [EmitWindow (mkWTS [mkWT "demo" (map at_time [1; 2])] (Some (mkRange 0 10)))])
  /\ holds m' s' (map at_time [12; 14]).
Proof.
  refine (slice_refines_list (fun n => 2 * n)%nat [ETuple (at_time 14); ETick 10] waiting_memory waiting_slice
    waiting _ _ waiting_holds _). reflexivity.
Defined.

(** The snapshot of [1; 2; 12] reads [12; 14; 12] once the window is closed. *)
Lemma snapshot_follows_scan_witness :
  firstn 3 (overwritten (map at_time [12; 14]) (map at_time [1; 2; 12; 14])) = map at_time [12; 14; 12] /\
  exists m1 s1 o1, run_slice (fun n => 2 * n)%nat waiting_memory waiting_slice waiting [ETuple (at_time 14)]
    = Some (m1, s1, o1, []) /\ contents m1 waiting_slice = map at_time [1; 2; 12]
  /\ exists m2 s2 o2 out, step_slice (fun n => 2 * n)%nat m1 s1 o1 (ETick 10) = Some (m2, s2, o2, out)
  /\ contents m2 waiting_slice = if Nat.eqb (arr s1) 0
       then firstn 3 (overwritten (map at_time [12; 14]) (map at_time [1; 2; 12; 14]))
       else map at_time [1; 2; 12].
Proof.
  split; [reflexivity|].
  refine (snapshot_follows_scan (fun n => 2 * n)%nat waiting_memory waiting_slice waiting [at_time 14] 10
    _ waiting_holds _); [reflexivity|discriminate].
Defined.
