(* ===== verification/Watermark.v ===== *)
(** Event time: the watermark generator and the event-time loop of the window
    operator (src/internal/topo/node/watermark.go).

    [track] follows the latest time of every input topic and raises the
    watermark; the loop closes every window that ends at or before it.  The
    generator sends a watermark to the operator's own input channel without
    waiting, so a full channel drops it: [track] is told whether there is room.
    The loop runs on fuel; [done] tells that it ended by its own condition. *)

From S2P Require Import Prelude Token Ast Value Collections AggFuncs Eval Window.
From Stdlib Require Import ZArith Lia Bool List String Permutation.
Import ListNotations.

#[local] Open Scope string_scope.
#[local] Open Scope list_scope.
#[local] Open Scope Z_scope.

Record WatermarkGenerator : Type := mkWG {
  inputTopics : list string;
  topicToTs : list (string * Z);
  wg_window : WindowConfig;
  lateTolerance : Z;
  wg_interval : Z;
  lastWatermarkTs : Z }.

Definition NewWatermarkGenerator (w : WindowConfig) (l : Z) (s : list string)
    : value + WatermarkGenerator :=
  let mk i := inr (mkWG s [] w l i 0) in
  match Type_ w with
  | NOT_WINDOW => mk 0
  | TUMBLING_WINDOW | SLIDING_WINDOW => mk (Length w)
  | HOPPING_WINDOW | SESSION_WINDOW => mk (Interval w)
  | COUNT_WINDOW => inl (VError "unsupported window type %d" [VInt 5])
  end.

(** The zero value of a missing map entry. *)
Definition topic_ts (w : WatermarkGenerator) (s : string) : Z :=
  match assoc s (topicToTs w) with Some t => t | None => 0 end.

Definition min_topic (w : WatermarkGenerator) (l : list string) (ts : Z) : Z :=
  fold_left (fun ts key => if ts >? topic_ts w key then topic_ts w key else ts) l ts.

Definition computeWatermarkTs (w : WatermarkGenerator) : Z :=
  let ts := if Nat.leb (List.length (inputTopics w)) (List.length (topicToTs w))
            then min_topic w (inputTopics w) MaxInt64 else 0 in
  ts - lateTolerance w.

Definition set_topics (m : list (string * Z)) (w : WatermarkGenerator) : WatermarkGenerator :=
  mkWG (inputTopics w) m (wg_window w) (lateTolerance w) (wg_interval w) (lastWatermarkTs w).

Definition set_last (t : Z) (w : WatermarkGenerator) : WatermarkGenerator :=
  mkWG (inputTopics w) (topicToTs w) (wg_window w) (lateTolerance w) (wg_interval w) t.

(** The generator afterwards and the watermark put into the channel. *)
Definition trigger (room : bool) (w : WatermarkGenerator) : WatermarkGenerator * option Z :=
  let watermark := computeWatermarkTs w in
  if watermark >? lastWatermarkTs w then (set_last watermark w, if room then Some watermark else None)
  else (w, None).

(** [track]: is the event on time? *)
Definition track (room : bool) (s : string) (ts : Z) (w : WatermarkGenerator)
    : bool * WatermarkGenerator * option Z :=
  let w1 := match assoc s (topicToTs w) with
            | Some cur => if ts >? cur then set_topics (assoc_set s ts (topicToTs w)) w else w
            | None => set_topics (assoc_set s ts (topicToTs w)) w
            end in
  if ts >=? lastWatermarkTs w1 then
    let (w2, sent) := trigger room w1 in (true, w2, sent)
  else (false, w1, None).

(** ** Window ends *)

Definition getEarliestEventTs (l : list Tuple) (startTs endTs : Z) : Z :=
  fold_left (fun minTs t =>
    if (Timestamp t >? startTs) && (Timestamp t <=? endTs) && (Timestamp t <? minTs)
    then Timestamp t else minTs) l MaxInt64.

(** [None]: the remainder by a zero interval panics. *)
Definition getNextWindow (w : WatermarkGenerator) (l : list Tuple) (current watermark : Z) (triggered : bool)
    : option Z :=
  match Type_ (wg_window w) with
  | TUMBLING_WINDOW | HOPPING_WINDOW =>
      if triggered then Some (current + wg_interval w)
      else
        let interval := wg_interval w in
        let nextTs := getEarliestEventTs l current watermark in
        if nextTs =? MaxInt64 then Some nextTs
        else if interval =? 0 then None
        else if go_mod nextTs interval =? 0 then Some nextTs
        else Some (nextTs + (interval - go_mod nextTs interval))
  | SLIDING_WINDOW => Some (getEarliestEventTs l current watermark)
  | _ => Some MaxInt64
  end.

(** The inputs come back sorted by time. *)
Definition getNextSessionWindow (w : WatermarkGenerator) (l : list Tuple)
    : option (Z * bool * list Tuple) :=
  match l with
  | [] => Some (MaxInt64, false, [])
  | _ =>
      let sorted := stable_sort Timestamp l in
      match sorted with
      | [] => Some (MaxInt64, false, [])
      | first :: _ =>
          let duration := Length (wg_window w) in
          if duration =? 0 then None
          else
            let et := Timestamp first in
            match session_boundary (Interval (wg_window w)) duration et 0 (session_tick et duration)
                    false sorted with
            | Some (r, ticked) => Some (r, ticked, sorted)
            | None => Some (MaxInt64, false, sorted)
            end
      end
  end.

(** ** The event loop *)

Record EventLoop : Type := mkLoop {
  el_op : WindowOperator;
  el_wg : WatermarkGenerator;
  triggered : bool;
  nextWindowEndTs : Z;
  prevWindowEndTs : Z;
  lastTicked : bool }.

Definition is_session (t : WindowType) : bool := match t with SESSION_WINDOW => true | _ => false end.

(** The next window end from the inputs as they are. *)
Definition next_end (s : EventLoop) (watermark : Z) : option (Z * bool * WindowOperator) :=
  let o := el_op s in
  if is_session (Type_ (window o)) then
    match getNextSessionWindow (el_wg s) (inputs o) with
    | Some (e, ticked, l) => Some (e, ticked, set_inputs l o)
    | None => None
    end
  else
    match getNextWindow (el_wg s) (inputs o) (prevWindowEndTs s) watermark (triggered s) with
    | Some e => Some (e, false, o)
    | None => None
    end.

(** The inner loop: close the windows that end by the watermark. *)
Fixpoint close_windows (fuel : nat) (watermark : Z) (windowEndTs : Z) (ticked : bool) (s : EventLoop)
    : option (EventLoop * list emission * bool) :=
  match fuel with
  | O => Some (s, [], false)
  | S fuel' =>
      if (windowEndTs <=? watermark) && (windowEndTs >=? 0) then
        let o := el_op s in
        let o1 :=
          if is_session (Type_ (window o)) && negb (lastTicked s) then
            match inputs o with
            | first :: _ => Some (set_trigger (Timestamp first) o)
            | [] => None
            end
          else Some o in
        match o1 with
        | None => None
        | Some o1 =>
            let (o2, w) := scan o1 windowEndTs in
            let s1 := mkLoop o2 (el_wg s) (match w with Some _ => true | None => false end)
                        (nextWindowEndTs s) windowEndTs ticked in
            match next_end s1 watermark with
            | None => None
            | Some (e, ticked', o3) =>
                let s2 := mkLoop o3 (el_wg s) (triggered s1) (nextWindowEndTs s) windowEndTs ticked in
                match close_windows fuel' watermark e ticked' s2 with
                | None => None
                | Some (s3, out, d) => Some (s3, emit_opt w ++ out, d)
                end
            end
        end
      else
        Some (mkLoop (el_op s) (el_wg s) (triggered s) windowEndTs (prevWindowEndTs s) (lastTicked s), [], true)
  end.

Definition put_el (s : EventLoop) : EventLoop :=
  mkLoop (put_inputs (el_op s)) (el_wg s) (triggered s) (nextWindowEndTs s) (prevWindowEndTs s) (lastTicked s).

Definition recalculates (t : WindowType) (e : Z) : bool :=
  (e =? MaxInt64) || match t with SESSION_WINDOW | SLIDING_WINDOW => true | _ => false end.

(** A watermark arrives. *)
Definition on_watermark (fuel : nat) (watermark : Z) (s : EventLoop)
    : option (EventLoop * list emission * bool) :=
  let start :=
    if recalculates (Type_ (window (el_op s))) (nextWindowEndTs s) then next_end s watermark
    else Some (nextWindowEndTs s, false, el_op s) in
  match start with
  | None => None
  | Some (e, ticked, o) =>
      let s1 := mkLoop o (el_wg s) (triggered s) (nextWindowEndTs s) (prevWindowEndTs s) (lastTicked s) in
      match close_windows fuel watermark e ticked s1 with
      | None => None
      | Some (s2, out, d) => Some (put_el s2, out, d)
      end
  end.

(** A tuple arrives: late ones are not added.  The second result is the
    watermark the generator put into the channel. *)
Definition on_event (room : bool) (d : Tuple) (s : EventLoop) : EventLoop * option Z :=
  let '(ok, wg, sent) := track room (Emitter d) (Timestamp d) (el_wg s) in
  let o := if ok then set_inputs (inputs (el_op s) ++ [d]) (el_op s) else el_op s in
  (put_el (mkLoop o wg (triggered s) (nextWindowEndTs s) (prevWindowEndTs s) (lastTicked s)), sent).

Definition start_events (o : WindowOperator) (wg : WatermarkGenerator) (savedWatermark : Z) : EventLoop :=
  mkLoop o (set_last savedWatermark wg) false 0 0 false.

(** ** The watermark *)

Lemma min_topic_le w l : forall ts, min_topic w l ts <= ts /\ forall s, In s l -> min_topic w l ts <= topic_ts w s.
Proof.
  unfold min_topic. induction l as [|k l IH]; intros ts; cbn; [split; [lia|tauto]|].
  destruct (Z.gtb_spec ts (topic_ts w k));
    [destruct (IH (topic_ts w k)) as [H1 H2]|destruct (IH ts) as [H1 H2]];
    (split; [lia|intros s [<-|Hs]; [lia|auto]]).
Qed.

Lemma min_topic_attained w l : forall ts, min_topic w l ts = ts \/ exists s, In s l /\ min_topic w l ts = topic_ts w s.
Proof.
  unfold min_topic. induction l as [|k l IH]; intros ts; cbn; [auto|].
  destruct (ts >? topic_ts w k); [destruct (IH (topic_ts w k)) as [->|(s & Hs & E)]|
    destruct (IH ts) as [->|(s & Hs & E)]]; eauto 8.
Qed.

(** the watermark once every input topic has sent an event: it is the
    earliest of the topics' latest times, less the tolerance, so no topic is
    ahead of it by less than the tolerance. *)
Theorem watermark_is_min w :
  (List.length (inputTopics w) <= List.length (topicToTs w))%nat -> inputTopics w <> [] ->
  (forall s, In s (inputTopics w) -> topic_ts w s <= MaxInt64) ->
  (forall s, In s (inputTopics w) -> computeWatermarkTs w + lateTolerance w <= topic_ts w s)
  /\ exists s, In s (inputTopics w) /\ computeWatermarkTs w + lateTolerance w = topic_ts w s.
Proof.
  intros Hl Hn Hm. unfold computeWatermarkTs. rewrite (proj2 (Nat.leb_le _ _) Hl), Z.sub_add.
  destruct (min_topic_le w (inputTopics w) MaxInt64) as [H1 H2]. split; [exact H2|].
  destruct (min_topic_attained w (inputTopics w) MaxInt64) as [E|(s & Hs & E)]; [|eauto].
  destruct (inputTopics w) as [|s l] eqn:El; [congruence|]. exists s.
  assert (Hs : In s (s :: l)) by now left. split; [exact Hs|].
  specialize (H2 s Hs). specialize (Hm s Hs). lia.
Qed.

Lemma track_last w s ts :
  lastWatermarkTs (match assoc s (topicToTs w) with
     | Some cur => if ts >? cur then set_topics (assoc_set s ts (topicToTs w)) w else w
     | None => set_topics (assoc_set s ts (topicToTs w)) w
     end) = lastWatermarkTs w.
Proof. destruct (assoc s (topicToTs w)); [destruct (_ >? _)|]; reflexivity. Qed.

(** the watermark never goes back, an announced watermark is the new and
    higher one, and an event is late exactly when it is older than the watermark
    was when it came. *)
Theorem track_monotone room s ts w :
  let '(ok, w', sent) := track room s ts w in
  lastWatermarkTs w <= lastWatermarkTs w'
  /\ ok = (lastWatermarkTs w <=? ts)
  /\ match sent with
     | Some t => t = lastWatermarkTs w' /\ lastWatermarkTs w < t
     | None => room = true -> lastWatermarkTs w' = lastWatermarkTs w
     end.
Proof.
  unfold track. rewrite track_last, Z.geb_leb.
  set (w1 := match assoc s (topicToTs w) with Some _ => _ | None => _ end).
  pose proof (track_last w s ts : lastWatermarkTs w1 = _) as H1.
  destruct (lastWatermarkTs w <=? ts); [|rewrite H1; repeat split; auto; lia].
  unfold trigger. rewrite H1, Z.gtb_ltb.
  destruct (Z.ltb_spec (lastWatermarkTs w) (computeWatermarkTs w1)); cbn.
  - destruct room; repeat split; try lia; discriminate.
  - rewrite H1. repeat split; lia.
Qed.

(** ** Window ends make progress *)

Lemma earliest_spec l a b : let m := getEarliestEventTs l a b in
  m = MaxInt64 \/ (a < m <= b /\ exists t, In t l /\ Timestamp t = m).
Proof.
  cbv zeta. unfold getEarliestEventTs.
  enough (G : forall m0, (m0 = MaxInt64 \/ (a < m0 <= b /\ exists t, In t l /\ Timestamp t = m0)) ->
    forall l', incl l' l ->
    let m := fold_left (fun minTs t =>
      if (Timestamp t >? a) && (Timestamp t <=? b) && (Timestamp t <? minTs) then Timestamp t else minTs) l' m0 in
    m = MaxInt64 \/ (a < m <= b /\ exists t, In t l /\ Timestamp t = m)).
  { apply (G MaxInt64); [auto|apply incl_refl]. }
  intros m0 H l'. revert m0 H. induction l' as [|t l' IH]; intros m0 H Hi; [exact H|]. cbn [fold_left].
  apply IH; [|intros x Hx; apply Hi; now right].
  destruct (_ && _) eqn:E; [|exact H]. rewrite Z.gtb_ltb in E. bool_to_prop.
  right. split; [lia|]. exists t. split; [apply Hi; now left|reflexivity].
Qed.

(** The least multiple of [I] not below [n]. *)
Definition align_up (I n : Z) : Z := if go_mod n I =? 0 then n else n + (I - go_mod n I).

Lemma align_up_spec I n : 0 < I -> 0 <= n ->
  n <= align_up I n < n + I /\ exists k, align_up I n = k * I.
Proof.
  intros HI Hn. unfold align_up, go_mod. rewrite Z.rem_mod_nonneg by lia.
  pose proof (Z.mod_pos_bound n I HI). pose proof (Z.div_mod n I).
  destruct (Z.eqb_spec (n mod I) 0).
  - split; [lia|]. exists (n / I). lia.
  - split; [lia|]. exists (n / I + 1). lia.
Qed.

(** What the operator's generator must be for tumbling and hopping windows. *)
Definition tumbling_like (s : EventLoop) : Prop :=
  Type_ (window (el_op s)) = Type_ (wg_window (el_wg s))
  /\ (Type_ (window (el_op s)) = TUMBLING_WINDOW \/ Type_ (window (el_op s)) = HOPPING_WINDOW)
  /\ 0 < wg_interval (el_wg s).

Definition aligned (s : EventLoop) (e : Z) : Prop := exists k, e = k * wg_interval (el_wg s).

(** A window end is aligned unless there is none yet, and lies ahead. *)
Definition next_ok (s : EventLoop) (e : Z) : Prop :=
  e = MaxInt64 \/ (aligned s e /\ prevWindowEndTs s < e).

Lemma next_end_ok s watermark :
  tumbling_like s -> 0 <= prevWindowEndTs s -> aligned s (prevWindowEndTs s) ->
  exists e, next_end s watermark = Some (e, false, el_op s) /\ next_ok s e.
Proof.
  intros (Ht & Hk & HI) Hp [k Hk'].
  unfold next_end, getNextWindow. rewrite <- Ht.
  assert (G : exists e, (if triggered s then Some (prevWindowEndTs s + wg_interval (el_wg s))
     else let nextTs := getEarliestEventTs (inputs (el_op s)) (prevWindowEndTs s) watermark in
       if nextTs =? MaxInt64 then Some nextTs
       else if wg_interval (el_wg s) =? 0 then None
       else if go_mod nextTs (wg_interval (el_wg s)) =? 0 then Some nextTs
       else Some (nextTs + (wg_interval (el_wg s) - go_mod nextTs (wg_interval (el_wg s))))) = Some e
     /\ next_ok s e).
  { destruct (triggered s).
    - eexists. split; [reflexivity|]. right. split; [exists (k + 1); lia|lia].
    - cbv zeta. destruct (earliest_spec (inputs (el_op s)) (prevWindowEndTs s) watermark) as [E|(E & _)].
      + rewrite E, Z.eqb_refl. eexists. split; [reflexivity|now left].
      + set (m := getEarliestEventTs _ _ _) in *. destruct (m =? MaxInt64) eqn:Em.
        * eexists. split; [reflexivity|]. left. now apply Z.eqb_eq.
        * rewrite (proj2 (Z.eqb_neq (wg_interval (el_wg s)) 0)) by lia.
          exists (align_up (wg_interval (el_wg s)) m). split; [unfold align_up; destruct (go_mod m (wg_interval (el_wg s)) =? 0); reflexivity|].
          right. destruct (align_up_spec (wg_interval (el_wg s)) m HI) as [A B]; [lia|].
          split; [exact B|lia]. }
  destruct G as (e & G1 & G2). exists e. cbv zeta in G1.
  destruct Hk as [Hk|Hk]; rewrite Hk; cbn [is_session]; rewrite G1; auto.
Qed.

(** The ends of the emitted windows, in order. *)
Definition window_ends (out : list emission) : list Z :=
  flat_map (fun e => match e with
                     | EmitWindow w => match w_Range w with Some r => [WindowEnd r] | None => [] end
                     | EmitError _ => [] end) out.

Fixpoint increasing_from (p : Z) (l : list Z) : Prop :=
  match l with [] => True | x :: l' => p < x /\ increasing_from x l' end.

Lemma increasing_weaken p q l : q <= p -> increasing_from p l -> increasing_from q l.
Proof. destruct l; cbn; auto. intros; split; [lia|tauto]. Qed.

(** Between events: the next end, if known, is aligned and later than [p],
    the last window closed ([-1] at the start). *)
Definition next_from (s : EventLoop) (p e : Z) : Prop := e = MaxInt64 \/ (aligned s e /\ p < e).

Definition loop_inv (p : Z) (s : EventLoop) : Prop :=
  tumbling_like s /\ 0 <= prevWindowEndTs s /\ aligned s (prevWindowEndTs s)
  /\ -1 <= p <= prevWindowEndTs s /\ next_from s p (nextWindowEndTs s).

Lemma start_inv w l topics o sw wg :
  NewWatermarkGenerator w l topics = inr wg -> window o = w ->
  (Type_ w = TUMBLING_WINDOW /\ 0 < Length w \/ Type_ w = HOPPING_WINDOW /\ 0 < Interval w) ->
  loop_inv (-1) (start_events o wg sw).
Proof.
  intros Hg Hw Ht.
  assert (Hwg : wg_window wg = w /\ 0 < wg_interval wg
    /\ (Type_ w = TUMBLING_WINDOW \/ Type_ w = HOPPING_WINDOW)).
  { unfold NewWatermarkGenerator in Hg. destruct Ht as [[E H]|[E H]]; rewrite E in Hg;
      inversion Hg; cbn; auto. }
  destruct Hwg as (H1 & H2 & H3). unfold loop_inv, tumbling_like, aligned, next_from, aligned. cbn.
  rewrite H1, Hw. repeat split; auto; try lia; [exists 0; lia|right; split; [exists 0; lia|lia]].
Qed.

Lemma window_ends_emit o t w : scan o t = (fst (scan o t), Some w) -> window_ends (emit_opt (Some w)) = [t].
Proof.
  rewrite scan_eq. cbv zeta. destruct (filter (shown o t) (inputs o)) as [|x l]; [discriminate|].
  cbn [fst]. intros H. inversion H as [Hw]. cbn.
  assert (E : w_Range (the_window o t (x :: l)) = Some (mkRange (window_start o t) t)).
  { unfold the_window. destruct (isEventTime o); [unfold WTS_Sort; cbn [w_Range]|]; apply fold_add_range. }
  rewrite E. reflexivity.
Qed.

(** One round of the inner loop. *)
Lemma close_one fuel watermark e s : tumbling_like s -> 0 <= e <= watermark -> aligned s e ->
  exists s1 w e1, next_end s1 watermark = Some (e1, false, el_op s1) /\ next_ok s1 e1
    /\ scan (el_op s) e = (el_op s1, w) /\ el_wg s1 = el_wg s
    /\ prevWindowEndTs s1 = e /\ tumbling_like s1
    /\ close_windows (S fuel) watermark e false s =
         match close_windows fuel watermark e1 false s1 with
         | Some (s3, out, d) => Some (s3, emit_opt w ++ out, d)
         | None => None
         end.
Proof.
  intros (Ht & Hk & HI) He Ha. cbn [close_windows].
  rewrite (proj2 (Z.leb_le e watermark)), Z.geb_leb, (proj2 (Z.leb_le 0 e)) by lia. cbn [andb].
  assert (Hs : is_session (Type_ (window (el_op s))) = false) by (destruct Hk as [-> | ->]; reflexivity).
  rewrite Hs. cbn [andb]. pose proof (scan_config (el_op s) e) as C.
  destruct (scan (el_op s) e) as [o2 w]. destruct C as [_ C2].
  set (s1 := mkLoop o2 (el_wg s) (match w with Some _ => true | None => false end)
               (nextWindowEndTs s) e false).
  assert (T1 : tumbling_like s1) by (unfold tumbling_like; cbn; rewrite C2; auto).
  destruct (next_end_ok s1 watermark T1) as (e1 & E1 & N1); [cbn; lia|exact Ha|].
  exists s1, w, e1. fold s1. rewrite E1. do 6 (split; [first [assumption|reflexivity]|]). reflexivity.
Qed.

Lemma close_windows_ok watermark : watermark < MaxInt64 -> forall fuel p e s,
  tumbling_like s -> -1 <= p -> next_from s p e -> (Z.to_nat (watermark - p) < fuel)%nat ->
  aligned s (prevWindowEndTs s) -> p <= prevWindowEndTs s -> 0 <= prevWindowEndTs s ->
  exists p' s' out, close_windows fuel watermark e false s = Some (s', out, true)
    /\ p <= p' /\ loop_inv p' s' /\ watermark < nextWindowEndTs s'
    /\ el_wg s' = el_wg s /\ window (el_op s') = window (el_op s)
    /\ increasing_from p (window_ends out)
    /\ Forall (fun e => aligned s e /\ p < e <= p' /\ e <= watermark) (window_ends out)
    /\ (Type_ (window (el_op s)) = TUMBLING_WINDOW ->
        Permutation (emitted out ++ inputs (el_op s')) (inputs (el_op s))).
Proof.
  intros Hwm. induction fuel as [|fuel IH]; intros p e s Ht Hp He Hf Ha Hpp H0; [lia|].
  destruct (Z.leb_spec e watermark) as [Hle|Hgt].
  2: { exists p, (mkLoop (el_op s) (el_wg s) (triggered s) e (prevWindowEndTs s) (lastTicked s)), [].
       cbn [close_windows]. rewrite (proj2 (Z.leb_gt e watermark)) by lia. cbn [andb].
       split; [reflexivity|]. unfold loop_inv, tumbling_like, aligned, next_from in *. cbn.
       repeat split; auto; try lia; apply Ht. }
  destruct He as [->|[Hal Hpe]]; [lia|].
  destruct (close_one fuel watermark e s Ht) as (s1 & w & e1 & E1 & N1 & S1 & W1 & P1 & T1 & C1); [lia|exact Hal|].
  destruct (IH e e1 s1) as (p' & s' & out & E & Hp' & Hinv & Hn & Hw & Ho & Hinc & Hall & Hperm);
    try (rewrite P1); try lia; auto.
  { unfold next_ok in N1. rewrite P1 in N1. exact N1. }
  { unfold aligned in *. now rewrite W1. }
  rewrite C1, E. exists p', s', (emit_opt w ++ out).
  pose proof (scan_config (el_op s) e) as C. rewrite S1 in C. destruct C as [_ C2].
  assert (Hends : window_ends (emit_opt w ++ out) = (match w with Some _ => [e] | None => [] end) ++ window_ends out).
  { unfold window_ends. rewrite flat_map_app. f_equal. destruct w as [w|]; [|reflexivity].
    apply (window_ends_emit (el_op s)). rewrite S1. reflexivity. }
  rewrite Hends. unfold aligned in *. rewrite W1 in Hall.
  split; [reflexivity|]. split; [lia|]. split; [exact Hinv|]. split; [exact Hn|].
  split; [congruence|]. split; [congruence|]. split; [|split].
  - destruct w; cbn; [split; [lia|exact Hinc]|]. now apply increasing_weaken with (p := e); [lia|].
  - apply Forall_app. split.
    + destruct w; constructor; [|constructor]. split; [exact Hal|lia].
    + eapply Forall_impl; [|exact Hall]. cbn. intros a (A1 & A2 & A3). repeat split; auto; lia.
  - intros Ht0. specialize (Hperm (eq_trans (f_equal Type_ C2) Ht0)).
    pose proof (scan_conserves (el_op s) e) as S2. rewrite S1, Ht0 in S2. destruct (S2 eq_refl) as [S3 _].
    unfold emitted in *. rewrite flat_map_app, <- app_assoc, Hperm. exact S3.
Qed.


Definition event_start : EventLoop :=
  start_events (set_inputs [at_time 3; at_time 14; at_time 25] (NewWindowOp (mkConfig TUMBLING_WINDOW 10 0) true))
    (mkWG ["demo"] [("demo", 25)] (mkConfig TUMBLING_WINDOW 10 0) 0 10 0) 0.


(** ** Session windows *)

Lemma session_boundary_ge timeout duration et l : 0 <= timeout -> 0 < duration ->
  forall p tick ticked r b, Forall (fun t => et <= Timestamp t) l -> (0 < p -> et <= p) ->
  session_boundary timeout duration et p tick ticked l = Some (r, b) -> et <= r /\ r < MaxInt64.
Proof.
  intros Ht Hd. induction l as [|t l IH]; intros p tick ticked r b Hl Hp H; [discriminate|].
  inversion Hl as [|? ? Hts Hl']; subst. cbn [session_boundary] in H. revert H.
  rewrite !Z.gtb_ltb.
  destruct (Z.ltb_spec 0 p), (Z.ltb_spec timeout (Timestamp t - p)), (Z.ltb_spec tick (Timestamp t)),
    (Z.ltb_spec et (tick - duration)); cbn [andb];
    repeat match goal with |- context [?a <? ?b] => destruct (Z.ltb_spec a b); cbn [andb] end;
    intros Hr; try (inversion Hr; subst; lia); try (eapply IH; [exact Hl'| |exact Hr]; lia).
Qed.

Lemma session_next_spec w l : 0 <= Interval (wg_window w) -> 0 < Length (wg_window w) ->
  exists r ticked l', getNextSessionWindow w l = Some (r, ticked, l') /\ Permutation l l'
    /\ (r < MaxInt64 -> exists t rest, l' = t :: rest /\ Timestamp t <= r) /\ r <= MaxInt64.
Proof.
  intros Hi HL. unfold getNextSessionWindow. destruct l as [|x l].
  { exists MaxInt64, false, []. repeat split; auto; lia. }
  pose proof (stable_sort_perm Timestamp (x :: l)) as Hperm.
  pose proof (stable_sort_sorted Timestamp (x :: l)) as Hsort.
  destruct (stable_sort Timestamp (x :: l)) as [|first rest] eqn:E.
  { apply Permutation_sym, Permutation_nil in Hperm. discriminate. }
  rewrite (proj2 (Z.eqb_neq (Length (wg_window w)) 0)) by lia.
  destruct (session_boundary _ _ _ _ _ _ _) as [[r b]|] eqn:Eb.
  - exists r, b, (first :: rest). apply session_boundary_ge in Eb; auto; try lia.
    + repeat split; auto; try lia. intros _. exists first, rest. split; [reflexivity|lia].
    + inversion Hsort as [|? ? _ Hf]; subst. constructor; [lia|].
      eapply Forall_impl; [|exact Hf]. intros t Ht. exact Ht.
  - exists MaxInt64, false, (first :: rest). repeat split; auto; lia.
Qed.

Definition session_ok (s : EventLoop) : Prop :=
  Type_ (window (el_op s)) = SESSION_WINDOW
  /\ 0 <= Interval (wg_window (el_wg s)) /\ 0 < Length (wg_window (el_wg s)).

Lemma session_next_end s watermark : session_ok s ->
  exists e ticked l, next_end s watermark = Some (e, ticked, set_inputs l (el_op s))
    /\ Permutation (inputs (el_op s)) l
    /\ (e < MaxInt64 -> exists t rest, l = t :: rest /\ Timestamp t <= e) /\ e <= MaxInt64.
Proof.
  intros (Ht & Hi & HL). unfold next_end. rewrite Ht. cbn [is_session].
  destruct (session_next_spec (el_wg s) (inputs (el_op s)) Hi HL) as (r & b & l & E & H1 & H2 & H3).
  rewrite E. exists r, b, l. auto.
Qed.

Lemma scan_first_gone o t rest e : Type_ (window o) = SESSION_WINDOW ->
  inputs o = t :: rest -> Timestamp t <= e ->
  (List.length (inputs (fst (scan o e))) < List.length (inputs o))%nat.
Proof.
  intros Ht Hi Hle. rewrite scan_eq. cbv zeta.
  assert (G : inputs (fst (match filter (shown o e) (inputs o) with
     | [] => (set_inputs (filter (retained o e) (inputs o)) o, None)
     | l => (set_trigger e (set_inputs (filter (retained o e) (inputs o)) o), Some (the_window o e l))
     end)) = filter (retained o e) (inputs o)) by now destruct (filter (shown o e) (inputs o)).
  rewrite G, Hi. cbn [filter]. unfold retained at 1. rewrite Ht. cbn [is_overlapping].
  replace (Timestamp t >? e) with false by (symmetry; rewrite Z.gtb_ltb; apply Z.ltb_ge; lia).
  cbn [List.length]. pose proof (filter_length_le (retained o e) rest). lia.
Qed.

Lemma close_sessions watermark : watermark < MaxInt64 -> forall fuel e ticked s,
  session_ok s -> (List.length (inputs (el_op s)) < fuel)%nat ->
  (e < MaxInt64 -> exists t rest, inputs (el_op s) = t :: rest /\ Timestamp t <= e) -> e <= MaxInt64 ->
  exists s' out, close_windows fuel watermark e ticked s = Some (s', out, true)
    /\ session_ok s' /\ Permutation (emitted out ++ inputs (el_op s')) (inputs (el_op s)).
Proof.
  intros Hwm. induction fuel as [|fuel IH]; intros e ticked s Hs Hf He Hm; [lia|].
  cbn [close_windows]. destruct ((e <=? watermark) && (e >=? 0)) eqn:Ec.
  2: { eexists _, []. split; [reflexivity|]. split; [exact Hs|reflexivity]. }
  rewrite Z.geb_leb in Ec. bool_to_prop. destruct He as (t & rest & Hi & Hle); [lia|].
  pose proof Hs as Hs0. destruct Hs as (Ht & HI & HL). rewrite Ht, Hi. cbn [is_session andb].
  assert (G : exists o1, (if negb (lastTicked s) then Some (set_trigger (Timestamp t) (el_op s)) else Some (el_op s))
    = Some o1 /\ inputs o1 = inputs (el_op s) /\ window o1 = window (el_op s)).
  { destruct (negb (lastTicked s)); eauto. }
  destruct G as (o1 & Eo & Ei & Ew). rewrite Eo.
  pose proof (scan_config o1 e) as C. pose proof (scan_conserves o1 e) as P.
  pose proof (scan_first_gone o1 t rest e) as L. rewrite Ew, Ht, Ei in *.
  specialize (P eq_refl). specialize (L eq_refl Hi Hle).
  destruct (scan o1 e) as [o2 w]. destruct C as [_ C2], P as [P _]. cbn [fst] in L.
  set (s1 := mkLoop o2 (el_wg s) (match w with Some _ => true | None => false end) (nextWindowEndTs s) e ticked).
  assert (Hs1 : session_ok s1) by (unfold session_ok; cbn; rewrite C2; auto).
  destruct (session_next_end s1 watermark Hs1) as (e1 & b1 & l1 & E1 & Hp & Hl & Hm1). rewrite E1.
  destruct (IH e1 b1 (mkLoop (set_inputs l1 o2) (el_wg s) (triggered s1) (nextWindowEndTs s) e ticked))
    as (s' & out & E & Hok & Hperm); auto.
  { cbn. cbn in Hp. rewrite <- (Permutation_length Hp). lia. }
  unfold s1 in E |- *. cbn [triggered nextWindowEndTs el_op] in E |- *. rewrite E. exists s', (emit_opt w ++ out). split; [reflexivity|]. split; [exact Hok|].
  unfold emitted in *. rewrite flat_map_app, <- app_assoc, Hperm. cbn.
  cbn in Hp. rewrite <- Hp. rewrite <- Hi. exact P.
Qed.

(** a watermark closes the sessions it passes and terminates: every round
    of the loop removes a tuple, so with fuel for the waiting tuples the loop
    ends by itself without panic, and no tuple is lost or repeated. *)
Theorem watermark_closes_sessions fuel watermark s :
  watermark < MaxInt64 -> session_ok s -> (List.length (inputs (el_op s)) < fuel)%nat ->
  exists s' out, on_watermark fuel watermark s = Some (s', out, true)
    /\ session_ok s' /\ Permutation (emitted out ++ inputs (el_op s')) (inputs (el_op s)).
Proof.
  intros Hwm Hs Hf. unfold on_watermark. pose proof Hs as (Ht & HI & HL).
  replace (recalculates (Type_ (window (el_op s))) (nextWindowEndTs s)) with true
    by (unfold recalculates; rewrite Ht; now rewrite orb_true_r).
  destruct (session_next_end s watermark Hs) as (e & b & l & E & Hp & Hl & Hm). rewrite E.
  destruct (close_sessions watermark Hwm fuel e b
    (mkLoop (set_inputs l (el_op s)) (el_wg s) (triggered s) (nextWindowEndTs s) (prevWindowEndTs s) (lastTicked s)))
    as (s' & out & E' & Hok & Hperm); auto.
  { cbn. rewrite <- (Permutation_length Hp). exact Hf. }
  rewrite E'. exists (put_el s'), out. split; [reflexivity|]. split; [exact Hok|].
  cbn in *. now rewrite Hperm, <- Hp.
Qed.

Definition session_start : EventLoop :=
  start_events (set_inputs [at_time 3; at_time 5; at_time 40] (NewWindowOp (mkConfig SESSION_WINDOW 20 10) true))
    (mkWG ["demo"] [("demo", 40)] (mkConfig SESSION_WINDOW 20 10) 0 10 0) 0.

Lemma watermark_closes_sessions_witness :
  exists s' out, on_watermark 4 40 session_start = Some (s', out, true)
    /\ session_ok s' /\ Permutation (emitted out ++ inputs (el_op s')) [at_time 3; at_time 5; at_time 40].
Proof.
  apply (watermark_closes_sessions 4 40 session_start); [reflexivity| |cbn; lia].
  repeat split; cbn; lia.
Defined.

Lemma watermark_is_min_witness :
  let w := mkWG ["a"; "b"] [("a", 30); ("b", 20)] (mkConfig TUMBLING_WINDOW 10 0) 5 10 0 in
  computeWatermarkTs w = 15 /\ exists s, In s ["a"; "b"] /\ computeWatermarkTs w + 5 = topic_ts w s.
Proof.
  cbv zeta. split; [reflexivity|].
  apply (watermark_is_min (mkWG ["a"; "b"] [("a", 30); ("b", 20)] (mkConfig TUMBLING_WINDOW 10 0) 5 10 0)).
  - cbn. lia.
  - discriminate.
  - intros s [<-|[<-|[]]]; vm_compute; discriminate.
Defined.
