(* ===== verification/Checkpoint.v ===== *)
(** Checkpointing (src/internal/topo/checkpoint and
    src/internal/topo/state/kv_store.go).

    The coordinator starts a checkpoint on every tick; the sources broadcast a
    barrier; an operator that has seen the barrier on all its inputs snapshots
    its state and acknowledges; the checkpoint completes when every task has
    acknowledged.  [Tracker] and [Aligner] are the two barrier handlers,
    [KVStore] the store of the snapshots, [Coordinator] the coordinator's
    goroutine as a state machine over the events its select receives.  Whether
    an external call (the database, a task's context) succeeds is an argument.
    Go maps are [gmap] and [gset]. *)

From S2P Require Import Prelude.
From stdpp Require Import base gmap sets list strings sorting.
From Stdlib Require Import ZArith Lia.

#[local] Open Scope Z_scope.
#[local] Open Scope list_scope.

Record Barrier : Type := mkBarrier { CheckpointId : Z; OpId : string }.

Section Checkpoint.
Context {Item : Type}.

Inductive Payload : Type := PBarrier (b : Barrier) | PItem (i : Item).

Record BufferOrEvent : Type := mkBoe { Data : Payload; Channel : string }.

(** ** The responder of a task *)

Inductive Signal : Type := STOP | ACK (b : Barrier) | DEC (b : Barrier).

Inductive effect : Type := Broadcast (b : Barrier) | Snapshot | SaveState (cid : Z) | Send (s : Signal).

Inductive trigger_error : Type := InvalidContext | SnapshotFailed.

(** [ResponderExecutor.TriggerCheckpoint]: the barrier goes out before the
    snapshot; saving and the signal happen afterwards, in a goroutine. *)
Definition TriggerCheckpoint (name : string) (is_ctx snapshot_ok save_ok : bool) (cid : Z)
    : list effect * option trigger_error :=
  if negb is_ctx then ([], Some InvalidContext)
  else
    let b := mkBarrier cid name in
    if negb snapshot_ok then ([Broadcast b; Snapshot], Some SnapshotFailed)
    else ([Broadcast b; Snapshot; SaveState cid; Send (if save_ok then ACK b else DEC b)], None).

(** ** BarrierTracker: at least once *)

Record BarrierTracker : Type := mkTracker { bt_inputCount : Z; pending : gmap Z Z }.

(** What a barrier handler does with a message: it asks for a checkpoint
    ([Trigger], answered by [ok]) or not. *)
Definition bt_processBarrier (ok : bool) (b : Barrier) (h : BarrierTracker) : BarrierTracker * option Z :=
  let cid := CheckpointId b in
  if bt_inputCount h =? 1 then (h, Some cid)
  else
    match pending h !! cid with
    | Some c =>
        if c + 1 =? bt_inputCount h then
          (if ok then mkTracker (bt_inputCount h)
                        (filter (fun kv => cid <= kv.1) (delete cid (pending h)))
           else h, Some cid)
        else (mkTracker (bt_inputCount h) (<[cid := c + 1]> (pending h)), None)
    | None => (mkTracker (bt_inputCount h) (<[cid := 1]> (pending h)), None)
    end.

(** [Process]: the handler, the checkpoint triggered, and whether the message
    was consumed. *)
Definition bt_Process (ok : bool) (d : BufferOrEvent) (h : BarrierTracker)
    : BarrierTracker * option Z * bool :=
  match Data d with
  | PBarrier b => let (h', t) := bt_processBarrier ok b h in (h', t, true)
  | PItem _ => (h, None, false)
  end.

(** ** BarrierAligner: exactly once *)

Record BarrierAligner : Type := mkAligner {
  inputCount : Z;
  currentCheckpointId : Z;
  blockedChannels : gset string;
  buffer : list BufferOrEvent }.

Definition NewBarrierAligner (n : Z) : BarrierAligner := mkAligner n 0 ∅ [].

Definition onBarrier (name : string) (h : BarrierAligner) : BarrierAligner :=
  mkAligner (inputCount h) (currentCheckpointId h) ({[ name ]} ∪ blockedChannels h) (buffer h).

Definition releaseBlocksAndResetBarriers (h : BarrierAligner) : BarrierAligner :=
  mkAligner (inputCount h) (currentCheckpointId h) ∅ (buffer h).

Definition beginNewAlignment (b : Barrier) (h : BarrierAligner) : BarrierAligner :=
  onBarrier (OpId b) (mkAligner (inputCount h) (CheckpointId b) (blockedChannels h) (buffer h)).

Definition nblocked (h : BarrierAligner) : Z := Z.of_nat (size (blockedChannels h)).

(** The handler, the checkpoint triggered, and the buffer that is sent back to
    the input channel. *)
Definition ba_processBarrier (ok : bool) (b : Barrier) (h : BarrierAligner)
    : BarrierAligner * option Z * list BufferOrEvent :=
  let cid := CheckpointId b in
  if inputCount h =? 1 then
    if cid >? currentCheckpointId h
    then (mkAligner (inputCount h) cid (blockedChannels h) (buffer h), Some cid, [])
    else (h, None, [])
  else
    let h1 :=
      if nblocked h >? 0 then
        if cid =? currentCheckpointId h then Some (onBarrier (OpId b) h)
        else if cid >? currentCheckpointId h
             then Some (beginNewAlignment b (releaseBlocksAndResetBarriers h))
             else None
      else if cid >? currentCheckpointId h then Some (beginNewAlignment b h)
      else None in
    match h1 with
    | None => (h, None, [])
    | Some h1 =>
        if nblocked h1 =? inputCount h1 then
          if ok then
            let h2 := releaseBlocksAndResetBarriers h1 in
            (mkAligner (inputCount h2) (currentCheckpointId h2) (blockedChannels h2) [], Some cid, buffer h2)
          else (h1, Some cid, [])
        else (h1, None, [])
    end.

(** [Process]; an item is consumed if its channel is blocked. *)
Definition ba_Process (ok : bool) (d : BufferOrEvent) (h : BarrierAligner)
    : BarrierAligner * option Z * list BufferOrEvent * bool :=
  match Data d with
  | PBarrier b => let '(h', t, replay) := ba_processBarrier ok b h in (h', t, replay, true)
  | PItem _ =>
      if (inputCount h >? 1) && (nblocked h >? 0) && bool_decide (Channel d ∈ blockedChannels h)
      then (mkAligner (inputCount h) (currentCheckpointId h) (blockedChannels h) (buffer h ++ [d]), None, [], true)
      else (h, None, [], false)
  end.

(** What the operator sees: the items it processes and its snapshots. *)
Inductive action : Type := Deliver (d : BufferOrEvent) | Checkpointed (cid : Z).

(** The messages of the input channel, with every trigger succeeding; the
    replayed buffer is returned, since its place among later messages is a
    race. *)
Fixpoint align (ds : list BufferOrEvent) (h : BarrierAligner)
    : BarrierAligner * list action * list BufferOrEvent :=
  match ds with
  | [] => (h, [], [])
  | d :: ds' =>
      let '(h1, t, replay, consumed) := ba_Process true d h in
      let '(h2, acts, replay') := align ds' h1 in
      (h2, match t with Some cid => [Checkpointed cid] | None => [] end
           ++ (if consumed then [] else [Deliver d]) ++ acts, replay ++ replay')
  end.
End Checkpoint.

(** ** KVStore *)

Section Store.
Context {St : Type}.

Record KVStore : Type := mkStore {
  mapStore : gmap Z (gmap string St);
  ks_checkpoints : list Z;
  max : nat;
  db : gmap Z (gmap string St) }.

Definition kv_SaveState (cid : Z) (opId : string) (state : St) (s : KVStore) : KVStore :=
  let cstore := default ∅ (mapStore s !! cid) in
  mkStore (<[cid := <[opId := state]> cstore]> (mapStore s)) (ks_checkpoints s) (max s) (db s).

(** The loop that drops the oldest checkpoints. *)
Fixpoint drop_old (fuel : nat) (max : nat) (cps : list Z) (m : gmap Z (gmap string St))
    : list Z * gmap Z (gmap string St) :=
  match fuel, cps with
  | S fuel', cp :: cps' =>
      if Nat.ltb max (length cps) then drop_old fuel' max cps' (delete cp m) else (cps, m)
  | _, _ => (cps, m)
  end.

(** [SaveCheckpoint]: [false] is an error; [db_ok] is the database's answer. *)
Definition SaveCheckpoint (db_ok : bool) (cid : Z) (s : KVStore) : KVStore * bool :=
  match mapStore s !! cid with
  | None => (s, false)
  | Some m =>
      let cps := ks_checkpoints s ++ [cid] in
      let (cps', ms) := drop_old (length cps) (max s) cps (mapStore s) in
      (mkStore ms cps' (max s) (if db_ok then <[cid := m]> (db s) else db s), db_ok)
  end.

(** [GetOpState]: the state of the last checkpoint; [None] is the error that the
    checkpoint is not in the store. *)
Definition GetOpState (opId : string) (s : KVStore) : option (option St) :=
  match last (ks_checkpoints s) with
  | None => Some None
  | Some cid =>
      match mapStore s !! cid with
      | Some cstore => Some (cstore !! opId)
      | None => None
      end
  end.

(** [restore]: the last snapshot of the database becomes the only checkpoint. *)
Definition kv_restore (k : Z) (m : gmap string St) (s : KVStore) : KVStore :=
  mkStore (<[k := m]> (mapStore s)) [k] (max s) (db s).

(** [Clean]: [None] is the panic on an empty list of checkpoints, which
    [kv_restore] and [SaveCheckpoint] never leave. *)
Definition Clean (s : KVStore) : option KVStore :=
  match ks_checkpoints s with
  | [] => None
  | c :: _ => Some (mkStore (mapStore s) (ks_checkpoints s) (max s) (filter (fun kv => c <= kv.1) (db s)))
  end.

(** ** Coordinator *)

Record pendingCheckpoint : Type := mkPC { isDiscarded : bool; notYetAckTasks : gset string }.

Definition newPendingCheckpoint (tasks : list string) : pendingCheckpoint :=
  mkPC false (list_to_set tasks).

Definition ack (opId : string) (c : pendingCheckpoint) : pendingCheckpoint :=
  if isDiscarded c then c else mkPC false (notYetAckTasks c ∖ {[ opId ]}).

Definition isFullyAck (c : pendingCheckpoint) : bool := bool_decide (notYetAckTasks c = ∅).

Record checkpointStore : Type := mkCS { maxNum : nat; checkpoints : list Z }.

Definition cs_add (c : Z) (s : checkpointStore) : checkpointStore :=
  let l := checkpoints s ++ [c] in
  mkCS (maxNum s) (if Nat.ltb (maxNum s) (length l) then tail l else l).

Definition getLatest (s : checkpointStore) : option Z := last (checkpoints s).

Record Coordinator : Type := mkCoord {
  tasksToWaitFor : list string;
  pendingCheckpoints : gmap Z pendingCheckpoint;
  completedCheckpoints : checkpointStore;
  cleanThreshold : Z;
  toBeClean : Z;
  running : bool;
  store : KVStore }.

Definition NewCoordinator (tasks : list string) (s : KVStore) : Coordinator :=
  mkCoord tasks ∅ (mkCS 3 []) 100 0 true s.

Definition set_pending (p : gmap Z pendingCheckpoint) (c : Coordinator) : Coordinator :=
  mkCoord (tasksToWaitFor c) p (completedCheckpoints c) (cleanThreshold c) (toBeClean c) (running c) (store c).

Definition set_store (s : KVStore) (c : Coordinator) : Coordinator :=
  mkCoord (tasksToWaitFor c) (pendingCheckpoints c) (completedCheckpoints c) (cleanThreshold c) (toBeClean c)
    (running c) s.

Definition cancel (cid : Z) (c : Coordinator) : Coordinator :=
  set_pending (delete cid (pendingCheckpoints c)) c.

(** [complete]: after the store has saved it, the checkpoint moves to the
    completed ones and all older pending ones are dropped. *)
Definition complete (db_ok : bool) (cid : Z) (c : Coordinator) : Coordinator :=
  match pendingCheckpoints c !! cid with
  | None => c
  | Some _ =>
      let (s, ok) := SaveCheckpoint db_ok cid (store c) in
      if ok then
        mkCoord (tasksToWaitFor c)
          (filter (fun kv => cid <= kv.1) (delete cid (pendingCheckpoints c)))
          (cs_add cid (completedCheckpoints c)) (cleanThreshold c) (toBeClean c) (running c) s
      else set_store s c
  end.

(** What the coordinator reacts to; [CTriggerFailed] is a source that could not
    be triggered, [CState] a task saving its state into the shared store. *)
Inductive coord_event : Type :=
  | CTick (n : Z)
  | CAck (cid : Z) (op : string) (db_ok : bool)
  | CDec (cid : Z) (op : string)
  | CTriggerFailed (cid : Z)
  | CState (cid : Z) (op : string) (st : St)
  | CStop.

(** A tick; every [cleanThreshold] ticks the database is cleaned. *)
Definition on_tick (n : Z) (c : Coordinator) : Coordinator :=
  let tbc := toBeClean c + 1 in
  let clean := tbc >=? cleanThreshold c in
  mkCoord (tasksToWaitFor c) (<[n := newPendingCheckpoint (tasksToWaitFor c)]> (pendingCheckpoints c))
    (completedCheckpoints c) (cleanThreshold c) (if clean then 0 else tbc) (running c)
    (if clean then default (store c) (Clean (store c)) else store c).

Definition on_ack (cid : Z) (op : string) (db_ok : bool) (c : Coordinator) : Coordinator :=
  match pendingCheckpoints c !! cid with
  | None => c
  | Some cp =>
      let cp' := ack op cp in
      let c1 := set_pending (<[cid := cp']> (pendingCheckpoints c)) c in
      if isFullyAck cp' then complete db_ok cid c1 else c1
  end.

Definition coord_step (c : Coordinator) (e : coord_event) : Coordinator :=
  if negb (running c) then
    match e with
    | CState cid op st => set_store (kv_SaveState cid op st (store c)) c
    | CTriggerFailed cid => cancel cid c
    | _ => c
    end
  else
    match e with
    | CTick n => on_tick n c
    | CAck cid op db_ok => on_ack cid op db_ok c
    | CDec cid _ | CTriggerFailed cid => cancel cid c
    | CState cid op st => set_store (kv_SaveState cid op st (store c)) c
    | CStop => mkCoord (tasksToWaitFor c) (pendingCheckpoints c) (completedCheckpoints c) (cleanThreshold c)
                 (toBeClean c) false (store c)
    end.

Definition coord_run (es : list coord_event) (c : Coordinator) : Coordinator := fold_left coord_step es c.
End Store.

(** ** The aligner takes a consistent cut *)

Section Alignment.
Context {Item : Type}.
#[local] Abbreviation boe := (BufferOrEvent (Item := Item)).

(** The operators whose barrier is among the messages. *)
Fixpoint ops (ds : list boe) : gset string :=
  match ds with
  | [] => ∅
  | d :: ds' => match Data d with PBarrier b => {[ OpId b ]} ∪ ops ds' | PItem _ => ops ds' end
  end.

(** Items that come before, and after, the barrier of their channel, when the
    barriers of the channels [B] have already come. *)
Fixpoint before (B : gset string) (ds : list boe) : list boe :=
  match ds with
  | [] => []
  | d :: ds' =>
      match Data d with
      | PBarrier b => before ({[ OpId b ]} ∪ B) ds'
      | PItem _ => if bool_decide (Channel d ∈ B) then before B ds' else d :: before B ds'
      end
  end.

Fixpoint after (B : gset string) (ds : list boe) : list boe :=
  match ds with
  | [] => []
  | d :: ds' =>
      match Data d with
      | PBarrier b => after ({[ OpId b ]} ∪ B) ds'
      | PItem _ => if bool_decide (Channel d ∈ B) then d :: after B ds' else after B ds'
      end
  end.

Definition barriers_of (cid : Z) (ds : list boe) : Prop :=
  Forall (fun d => match Data d with PBarrier b => CheckpointId b = cid | PItem _ => True end) ds.

(** The aligner in the middle of checkpoint [cid]. *)
Definition aligning (cid : Z) (B : gset string) (buf : list boe) (h : BarrierAligner (Item := Item)) : Prop :=
  blockedChannels h = B /\ buffer h = buf
  /\ (if decide (B = ∅) then currentCheckpointId h < cid else currentCheckpointId h = cid).

Lemma nblocked_pos (h : BarrierAligner (Item := Item)) :
  (nblocked h >? 0) = negb (bool_decide (blockedChannels h = ∅)).
Proof.
  unfold nblocked. destruct (bool_decide_reflect (blockedChannels h = ∅)) as [E|E]; cbn.
  - rewrite E, size_empty. reflexivity.
  - assert (size (blockedChannels h) <> 0%nat) by (rewrite size_empty_iff; set_solver).
    rewrite Z.gtb_ltb. apply Z.ltb_lt. lia.
Qed.

(** A barrier that does not complete the alignment. *)
Lemma barrier_step cid B buf h b : aligning cid B buf h -> CheckpointId b = cid -> 1 < inputCount h ->
  exists h1, aligning cid ({[ OpId b ]} ∪ B) buf h1 /\ inputCount h1 = inputCount h
    /\ ba_processBarrier true b h =
       (if Z.of_nat (size ({[ OpId b ]} ∪ B)) =? inputCount h
        then (mkAligner (inputCount h) cid ∅ [], Some cid, buf) else (h1, None, [])).
Proof.
  intros (HB & Hbuf & Hc) Hb Hn. unfold ba_processBarrier. rewrite nblocked_pos, HB.
  rewrite (proj2 (Z.eqb_neq (inputCount h) 1)) by lia. rewrite Hb.
  assert (Hne : {[OpId b]} ∪ B <> ∅) by set_solver.
  exists (mkAligner (inputCount h) cid ({[OpId b]} ∪ B) buf). split; [|split; [reflexivity|]].
  { unfold aligning. cbn. rewrite decide_False by exact Hne. auto. }
  destruct (decide (B = ∅)) as [E|E].
  - rewrite bool_decide_true by exact E. cbn [negb]. rewrite Z.gtb_ltb, (proj2 (Z.ltb_lt _ _) Hc).
    unfold beginNewAlignment, onBarrier, nblocked. cbn. rewrite HB, Hb, Hbuf. reflexivity.
  - rewrite bool_decide_false by exact E. cbn [negb]. rewrite Hc, Z.eqb_refl.
    unfold onBarrier, nblocked. cbn. rewrite HB, Hc, Hbuf. reflexivity.
Qed.

Lemma align_part cid ds : forall B buf h,
  aligning cid B buf h -> barriers_of cid ds -> 1 < inputCount h ->
  Z.of_nat (size (ops ds ∪ B)) < inputCount h ->
  exists h', align ds h = (h', map Deliver (before B ds), [])
    /\ aligning cid (ops ds ∪ B) (buf ++ after B ds) h' /\ inputCount h' = inputCount h.
Proof.
  induction ds as [|d ds IH]; intros B buf h Ha Hb Hn Hs.
  { exists h. cbn. rewrite app_nil_r. replace (∅ ∪ B) with B by set_solver. auto. }
  inversion Hb as [|? ? Hd Hb']; subst. cbn [align before after ops] in *. unfold ba_Process.
  destruct (Data d) as [b|i] eqn:Ed.
  - destruct (barrier_step cid B buf h b Ha Hd Hn) as (h1 & Ha1 & Hn1 & E).
    assert (Hlt : Z.of_nat (size ({[OpId b]} ∪ B)) < inputCount h).
    { eapply Z.le_lt_trans; [|exact Hs]. apply inj_le, subseteq_size. set_solver. }
    rewrite E, (proj2 (Z.eqb_neq _ _)) by lia.
    destruct (IH ({[OpId b]} ∪ B) buf h1 Ha1 Hb') as (h' & E' & Ha' & Hn').
    + lia.
    + rewrite Hn1. replace (ops ds ∪ ({[OpId b]} ∪ B)) with ({[OpId b]} ∪ ops ds ∪ B) by set_solver. exact Hs.
    + rewrite E'. exists h'. cbn. split; [reflexivity|]. split; [|congruence].
      replace ({[OpId b]} ∪ ops ds ∪ B) with (ops ds ∪ ({[OpId b]} ∪ B)) by set_solver. exact Ha'.
  - pose proof Ha as (HB & Hbuf & Hc).
    rewrite nblocked_pos, HB, Z.gtb_ltb, (proj2 (Z.ltb_lt 1 _) Hn). cbn [andb].
    destruct (bool_decide_reflect (Channel d ∈ B)) as [E|E].
    + rewrite bool_decide_false by set_solver. cbn [negb andb].
      destruct (IH B (buf ++ [d]) (mkAligner (inputCount h) (currentCheckpointId h) B (buffer h ++ [d])))
        as (h' & E' & Ha' & Hn'); auto.
      { unfold aligning in *. cbn. rewrite Hbuf. tauto. }
      rewrite E'. exists h'. rewrite <- app_assoc in Ha'. auto.
    + rewrite andb_false_r. destruct (IH B buf h Ha Hb' Hn Hs) as (h' & E' & Ha' & Hn').
      rewrite E'. exists h'. auto.
Qed.

(** C1: alignment is a consistent cut: while the barriers of checkpoint [cid]
    arrive on the inputs in any interleaving with the data, the operator
    processes, before its snapshot, exactly the items that precede the barrier
    of their channel, in order; the items after their barrier are held back, and
    all of them are handed back when the last barrier triggers the checkpoint. *)
Theorem aligned_cut cid ds b (h : BarrierAligner (Item := Item)) :
  1 < inputCount h -> blockedChannels h = ∅ -> buffer h = [] -> currentCheckpointId h < cid ->
  barriers_of cid ds -> CheckpointId b = cid ->
  Z.of_nat (size (ops ds)) < inputCount h ->
  Z.of_nat (size ({[ OpId b ]} ∪ ops ds)) = inputCount h -> forall ch,
  align (ds ++ [mkBoe (PBarrier b) ch]) h
    = (mkAligner (inputCount h) cid ∅ [], map Deliver (before ∅ ds) ++ [Checkpointed cid], after ∅ ds).
Proof.
  intros Hn HB Hbuf Hc Hds Hb Hlt Hall ch.
  assert (Ha : aligning cid ∅ [] h) by (unfold aligning; rewrite decide_True by reflexivity; auto).
  destruct (align_part cid ds ∅ [] h Ha Hds Hn) as (h' & E & Ha' & Hn').
  { replace (ops ds ∪ ∅) with (ops ds) by set_solver. exact Hlt. }
  assert (Happ : forall l l' (h0 : BarrierAligner (Item := Item)), align (l ++ l') h0 =
    let '(h1, a, r) := align l h0 in let '(h2, a', r') := align l' h1 in (h2, a ++ a', r ++ r')).
  { clear. induction l as [|x l IH]; intros l' h0; cbn; [now destruct (align l' h0) as [[? ?] ?]|].
    destruct (ba_Process true x h0) as [[[h1 t] rep] c]. rewrite IH.
    destruct (align l h1) as [[h2 a] r]. destruct (align l' h2) as [[h3 a'] r'].
    now rewrite <- !app_assoc. }
  rewrite Happ, E. cbn [align]. unfold ba_Process. cbn [Data].
  destruct (barrier_step cid (ops ds ∪ ∅) ([] ++ after ∅ ds) h' b Ha' Hb) as (h1 & _ & _ & E1); [lia|].
  rewrite E1. replace (ops ds ∪ ∅) with (ops ds) by set_solver. rewrite Hall, Hn', Z.eqb_refl. cbn.
  rewrite app_nil_r. reflexivity.
Qed.
End Alignment.

Section AlignerFindings.
Definition item (ch : string) (i : Z) : BufferOrEvent (Item := Z) := mkBoe (PItem i) ch.
Definition barrier (op : string) (cid : Z) : BufferOrEvent (Item := Z) := mkBoe (PBarrier (mkBarrier cid op)) op.

Lemma aligned_cut_witness :
  align [item "a" 1; barrier "a" 7; item "a" 2; item "b" 3; barrier "b" 7] (NewBarrierAligner 2)
    = (mkAligner 2 7 ∅ [], [Deliver (item "a" 1); Deliver (item "b" 3); Checkpointed 7], [item "a" 2]).
Proof.
  exact (aligned_cut 7 [item "a" 1; barrier "a" 7; item "a" 2; item "b" 3] (mkBarrier 7 "b")
    (NewBarrierAligner 2) ltac:(cbn; lia) eq_refl eq_refl ltac:(cbn; lia)
    ltac:(repeat constructor) eq_refl ltac:(vm_compute; reflexivity) ltac:(vm_compute; reflexivity) "b").
Defined.

(** abandoning a checkpoint breaks the cut: when a newer barrier overtakes
    an incomplete alignment the blocked channels are released but the items held
    back for them are kept, so an item that its channel sent before the newer
    barrier is processed only after the newer checkpoint. *)
Theorem overtaken_alignment_loses_order :
  align [barrier "a" 1; item "a" 10; barrier "a" 2; barrier "b" 2] (NewBarrierAligner 2)
    = (mkAligner 2 2 ∅ [], [Checkpointed 2], [item "a" 10])
  /\ align [barrier "a" 1; item "a" 10; barrier "b" 2; item "a" 11; barrier "a" 2] (NewBarrierAligner 2)
    = (mkAligner 2 2 ∅ [], [Deliver (item "a" 11); Checkpointed 2], [item "a" 10]).
Proof. split; vm_compute; reflexivity. Qed.

(** a failed trigger blocks the aligned operator: when the snapshot that
    completes an alignment fails, every input stays blocked, and from then on all
    items are held back until a newer barrier arrives. *)
Theorem failed_trigger_stays_blocked (h h1 : BarrierAligner (Item := Z)) b r d i :
  1 < inputCount h -> blockedChannels h <> ∅ -> CheckpointId b = currentCheckpointId h ->
  ba_processBarrier false b h = (h1, Some (CheckpointId b), r) ->
  Data d = PItem i -> Channel d ∈ blockedChannels h1 ->
  exists h2, ba_Process true d h1 = (h2, None, [], true) /\ buffer h2 = buffer h1 ++ [d]
    /\ blockedChannels h2 = blockedChannels h1 /\ size (blockedChannels h1) = Z.to_nat (inputCount h).
Proof.
  intros Hn HB Hc H Hd Hch. unfold ba_processBarrier in H.
  rewrite (proj2 (Z.eqb_neq (inputCount h) 1)), nblocked_pos, bool_decide_false, Hc, Z.eqb_refl in H by (auto; lia).
  cbn [negb] in H.
  destruct (nblocked (onBarrier (OpId b) h) =? inputCount (onBarrier (OpId b) h)) eqn:E; [|discriminate].
  assert (Hh : h1 = onBarrier (OpId b) h) by now inversion H. subst h1.
  unfold ba_Process. rewrite Hd, nblocked_pos.
  rewrite (bool_decide_true (Channel d ∈ _)), bool_decide_false by set_solver. cbn [negb].
  change (inputCount (onBarrier (OpId b) h)) with (inputCount h) in *.
  rewrite Z.gtb_ltb, (proj2 (Z.ltb_lt 1 _) Hn). cbn [andb].
  eexists. split; [reflexivity|]. repeat split. apply Z.eqb_eq in E. unfold nblocked in E. lia.
Qed.

Lemma failed_trigger_stays_blocked_witness :
  exists h2, ba_Process true (item "a" 5)
      (mkAligner 2 7 (list_to_set ["a"; "b"]) []) = (h2, None, [], true) /\ buffer h2 = [item "a" 5].
Proof.
  destruct (failed_trigger_stays_blocked (mkAligner 2 7 (list_to_set ["a"]) []) (mkAligner 2 7 (list_to_set ["a"; "b"]) [])
    (mkBarrier 7 "b") [] (item "a" 5) 5) as (h2 & H1 & H2 & _);
    [cbn; lia|vm_compute; discriminate|reflexivity|vm_compute; reflexivity|reflexivity|vm_compute; reflexivity|].
  exists h2. split; [exact H1|exact H2].
Defined.
End AlignerFindings.

(** ** BarrierTracker *)

Section TrackerSpecs.

(** Every count is that of barriers still missing some input. *)
Definition counts_ok (h : BarrierTracker) : Prop :=
  forall cid c, pending h !! cid = Some c -> 0 < c < bt_inputCount h.

(** at least once: a tracker with several inputs triggers a checkpoint
    exactly when the barrier at hand is the last of its [inputCount] barriers;
    it then forgets that checkpoint and the older ones; and its counts always
    stay below the number of inputs. *)
Theorem tracker_triggers_on_last b h :
  1 < bt_inputCount h -> counts_ok h ->
  let cid := CheckpointId b in
  let (h', t) := bt_processBarrier true b h in
  counts_ok h'
  /\ (t = Some cid <-> pending h !! cid = Some (bt_inputCount h - 1))
  /\ (t = Some cid -> forall k, pending h' !! k = if decide (cid < k) then pending h !! k else None)
  /\ (t = None -> pending h' = <[cid := default 0 (pending h !! cid) + 1]> (pending h)).
Proof.
  intros Hn Hc. cbv zeta. unfold bt_processBarrier.
  rewrite (proj2 (Z.eqb_neq (bt_inputCount h) 1)) by lia.
  assert (Hins : forall v, 0 < v < bt_inputCount h ->
    counts_ok (mkTracker (bt_inputCount h) (<[CheckpointId b := v]> (pending h)))).
  { intros v Hv k c. cbn. rewrite lookup_insert_Some. intros [[_ <-]|[_ H]]; [lia|eauto]. }
  destruct (pending h !! CheckpointId b) as [c|] eqn:E.
  - pose proof (Hc _ _ E). destruct (Z.eqb_spec (c + 1) (bt_inputCount h)) as [Ec|Ec].
    + assert (Hl : forall k, filter (fun kv => CheckpointId b <= kv.1) (delete (CheckpointId b) (pending h)) !! k
        = if decide (CheckpointId b < k) then pending h !! k else None).
      { intros k. rewrite map_lookup_filter. destruct (decide (CheckpointId b = k)) as [<-|Hk].
        - rewrite lookup_delete_eq, decide_False by lia. reflexivity.
        - rewrite lookup_delete_ne by exact Hk. destruct (pending h !! k) as [v|] eqn:Ek; cbn.
          + destruct (decide (CheckpointId b < k)).
            * rewrite option_guard_True by lia. reflexivity.
            * rewrite option_guard_False by lia. reflexivity.
          + now destruct (decide _). }
      split; [|split; [|split]].
      * intros k v. cbn. rewrite Hl. destruct (decide _); [eauto|discriminate].
      * split; [intros _; f_equal; lia|reflexivity].
      * intros _ k. cbn. apply Hl.
      * discriminate.
    + split; [apply Hins; lia|]. split; [|split; [discriminate|]].
      * split; [discriminate|]. intros H'. inversion H'. lia.
      * intros _. reflexivity.
  - split; [apply Hins; lia|]. split; [|split; [discriminate|reflexivity]].
    split; discriminate.
Qed.

Lemma tracker_triggers_on_last_witness :
  let h := mkTracker 3 {[ 7 := 2 ]} in
  snd (bt_processBarrier true (mkBarrier 7 "a") h) = Some 7
  /\ pending (fst (bt_processBarrier true (mkBarrier 7 "a") h)) !! 7 = None.
Proof.
  cbv zeta. split; [vm_compute; reflexivity|].
  pose proof (tracker_triggers_on_last (mkBarrier 7 "a") (mkTracker 3 {[ 7 := 2 ]})) as H.
  cbv zeta in H. destruct H as (_ & _ & H & _).
  - cbn. lia.
  - intros k c. cbn. rewrite lookup_singleton_Some. intros [_ <-]. lia.
  - rewrite H; reflexivity.
Defined.
End TrackerSpecs.

(** ** The store *)

Section StoreSpecs.
Context {St : Type}.
#[local] Abbreviation store_t := (KVStore (St := St)).

Lemma drop_old_spec fuel mx : forall cps (m : gmap Z (gmap string St)),
  (length cps <= fuel)%nat ->
  let (cps', m') := drop_old fuel mx cps m in
  exists dropped, cps = dropped ++ cps' /\ length cps' = Nat.min (length cps) mx
    /\ forall k, k ∉ dropped -> m' !! k = m !! k.
Proof.
  induction fuel as [|fuel IH]; intros cps m Hl.
  { destruct cps; [|cbn in Hl; lia]. exists []. cbn. auto. }
  cbn [drop_old]. destruct cps as [|cp cps]; [exists []; cbn; auto|].
  destruct (Nat.ltb_spec mx (length (cp :: cps))).
  - cbn in Hl. specialize (IH cps (delete cp m)). destruct (drop_old fuel mx cps (delete cp m)) as [cps' m'].
    destruct IH as (dr & -> & Hlen & Hk); [lia|]. exists (cp :: dr). split; [reflexivity|].
    split; [cbn [length app] in *; lia|]. intros k Hin. rewrite not_elem_of_cons in Hin. destruct Hin as [H1 H2].
    rewrite Hk by exact H2. now rewrite lookup_delete_ne.
  - exists []. split; [reflexivity|]. split; [lia|]. auto.
Qed.

(** saving a checkpoint keeps at most [max] of them and makes it the one a
    restart reads: the state an operator saved under it, not dropped or
    overwritten, is the state [GetOpState] returns. *)
Theorem save_then_restore (s : store_t) cid op st db_ok :
  (0 < max s)%nat -> cid ∉ ks_checkpoints s ->
  let (s', ok) := SaveCheckpoint db_ok cid (kv_SaveState cid op st s) in
  ok = db_ok /\ (length (ks_checkpoints s') <= max s)%nat
  /\ GetOpState op s' = Some (Some st)
  /\ (db_ok = true -> exists snap, db s' !! cid = Some snap /\ snap !! op = Some st).
Proof.
  intros Hm Hc. unfold SaveCheckpoint. cbn [mapStore kv_SaveState ks_checkpoints max db].
  rewrite lookup_insert_eq.
  pose proof (drop_old_spec (length (ks_checkpoints s ++ [cid])) (max s) (ks_checkpoints s ++ [cid])
    (<[cid := <[op := st]> (default ∅ (mapStore s !! cid))]> (mapStore s)) (le_n _)) as D.
  destruct (drop_old _ _ _ _) as [cps' ms]. destruct D as (dr & Hd & Hlen & Hk).
  rewrite length_app in Hlen. cbn in Hlen.
  split; [reflexivity|]. cbn [ks_checkpoints GetOpState db mapStore]. split; [lia|].
  assert (Hcps : exists pre, cps' = pre ++ [cid]).
  { destruct cps' as [|x l] using rev_ind; [cbn in Hlen; lia|]. exists l. f_equal.
    rewrite app_assoc in Hd. apply app_inj_tail in Hd as [_ <-]. reflexivity. }
  destruct Hcps as [pre Hpre]. split.
  - unfold GetOpState. cbn [ks_checkpoints mapStore]. rewrite Hpre, last_snoc, Hk.
    + rewrite lookup_insert_eq. now rewrite lookup_insert_eq.
    + intros Hin. apply Hc. rewrite Hpre, app_assoc in Hd. apply app_inj_tail in Hd as [Hd _].
      rewrite Hd. apply elem_of_app. auto.
  - intros ->. eexists. split; [apply lookup_insert_eq|apply lookup_insert_eq].
Qed.
End StoreSpecs.

Lemma save_then_restore_witness :
  let s := mkStore (St := Z) ∅ [1; 2; 3] 3 ∅ in
  GetOpState "op" (fst (SaveCheckpoint true 4 (kv_SaveState 4 "op" 42 s))) = Some (Some 42).
Proof.
  cbv zeta. pose proof (save_then_restore (mkStore (St := Z) ∅ [1; 2; 3] 3 ∅) 4 "op" 42 true) as H.
  destruct (SaveCheckpoint true 4 _) as [s' ok]. apply H; [cbn; lia|].
  cbn. rewrite !not_elem_of_cons. repeat split; try discriminate. apply not_elem_of_nil.
Defined.

(** ** A completed checkpoint was acknowledged by every task *)

Section CoordinatorSpecs.
Context {St : Type}.
#[local] Abbreviation coord := (Coordinator (St := St)).
#[local] Abbreviation cevent := (coord_event (St := St)).

Definition acked (es : list cevent) (cid : Z) (t : string) : Prop := exists db_ok, CAck cid t db_ok ∈ es.

Definition ticks (es : list cevent) : list Z :=
  omap (fun e => match e with CTick n => Some n | _ => None end) es.

(** What the events so far say about the coordinator. *)
Record coord_inv (tasks : list string) (es : list cevent) (c : coord) : Prop := {
  ci_tasks : tasksToWaitFor c = tasks;
  ci_pending : forall cid cp, pendingCheckpoints c !! cid = Some cp ->
    isDiscarded cp = false /\ forall t, t ∈ tasks -> t ∉ notYetAckTasks cp -> acked es cid t;
  ci_done : forall cid, cid ∈ checkpoints (completedCheckpoints c) -> forall t, t ∈ tasks -> acked es cid t;
  ci_max : maxNum (completedCheckpoints c) = 3%nat;
  ci_len : (length (checkpoints (completedCheckpoints c)) <= 3)%nat }.

Lemma acked_weaken es e cid t : acked es cid t -> acked (es ++ [e]) cid t.
Proof. intros [b H]. exists b. apply elem_of_app. auto. Qed.

Lemma inv_weaken tasks es e c : coord_inv tasks es c -> coord_inv tasks (es ++ [e]) c.
Proof.
  intros []. split; auto.
  - intros cid cp H. destruct (ci_pending0 cid cp H) as [H1 H2]. split; auto using acked_weaken.
  - intros. apply acked_weaken. auto.
Qed.

Lemma inv_set_store tasks es c s : coord_inv tasks es c -> coord_inv tasks es (set_store s c).
Proof. intros []. split; auto. Qed.

Lemma inv_cancel tasks es c cid : coord_inv tasks es c -> coord_inv tasks es (cancel cid c).
Proof.
  intros []. split; auto. intros k cp. cbn. rewrite lookup_delete_Some. intros [_ H]. auto.
Qed.

Lemma elem_of_if_tail (b : bool) (x : Z) l : x ∈ (if b then tail l else l) -> x ∈ l.
Proof. destruct b; [|auto]. destruct l; [auto|]. now right. Qed.

Lemma cs_add_elem c s x : x ∈ checkpoints (cs_add c s) -> x = c \/ x ∈ checkpoints s.
Proof.
  unfold cs_add. cbn [checkpoints]. intros H. apply elem_of_if_tail in H.
  apply elem_of_app in H as [H|H]; [auto|]. apply list_elem_of_singleton in H. auto.
Qed.

Lemma cs_add_length c s : (length (checkpoints s) <= maxNum s)%nat ->
  (length (checkpoints (cs_add c s)) <= maxNum s)%nat.
Proof.
  unfold cs_add. cbn [checkpoints]. intros H.
  destruct (Nat.ltb_spec (maxNum s) (length (checkpoints s ++ [c]))) as [Hlt|Hge]; [|exact Hge].
  assert (Hl : length (checkpoints s ++ [c]) = S (length (checkpoints s)))
    by (rewrite length_app; cbn; lia).
  destruct (checkpoints s ++ [c]); cbn [tail length] in *; lia.
Qed.

Lemma inv_complete tasks es c db_ok cid :
  coord_inv tasks es c -> (forall t, t ∈ tasks -> acked es cid t) -> coord_inv tasks es (complete db_ok cid c).
Proof.
  intros I Hall. unfold complete. destruct (pendingCheckpoints c !! cid) eqn:E; [|exact I].
  destruct (SaveCheckpoint db_ok cid (store c)) as [s ok]. destruct ok; [|now apply inv_set_store].
  destruct I. split; cbn; auto.
  - intros k cp H. apply map_lookup_filter_Some in H as [H _].
    apply lookup_delete_Some in H as [_ H]. auto.
  - intros k H. apply cs_add_elem in H as [->|H]; auto.
  - rewrite <- ci_max0. apply cs_add_length. lia.
Qed.

Lemma inv_ack tasks es c cid op db_ok :
  coord_inv tasks es c -> coord_inv tasks (es ++ [CAck cid op db_ok]) (on_ack cid op db_ok c).
Proof.
  intros I. unfold on_ack. destruct (pendingCheckpoints c !! cid) as [cp|] eqn:E; [|now apply inv_weaken].
  destruct (ci_pending _ _ _ I cid cp E) as [Hd Hn].
  assert (Hcp : forall t, t ∈ tasks -> t ∉ notYetAckTasks (ack op cp) -> acked (es ++ [CAck cid op db_ok]) cid t).
  { intros t Ht. unfold ack. rewrite Hd. cbn. intros Hno.
    destruct (decide (t = op)) as [->|Hne].
    - exists db_ok. apply elem_of_app. right. now constructor.
    - apply acked_weaken, Hn; [exact Ht|]. set_solver. }
  assert (I1 : coord_inv tasks (es ++ [CAck cid op db_ok])
    (set_pending (<[cid := ack op cp]> (pendingCheckpoints c)) c)).
  { pose proof (inv_weaken _ _ (CAck cid op db_ok) _ I) as I'. destruct I'. split; cbn; auto.
    intros k cp'. rewrite lookup_insert_Some. intros [[<- <-]|[_ H]]; [|auto].
    split; [unfold ack; now rewrite Hd|exact Hcp]. }
  destruct (isFullyAck (ack op cp)) eqn:Ef; [|exact I1].
  apply inv_complete; [exact I1|]. intros t Ht. apply Hcp; [exact Ht|].
  unfold isFullyAck in Ef. apply bool_decide_eq_true in Ef. rewrite Ef. set_solver.
Qed.

Lemma inv_tick tasks es c n : coord_inv tasks es c -> coord_inv tasks (es ++ [CTick n]) (on_tick n c).
Proof.
  intros I. apply (inv_weaken _ _ (CTick n)) in I. destruct I. split; cbn; auto.
  intros k cp. rewrite lookup_insert_Some. intros [[<- <-]|[_ H]]; [|auto].
  split; [reflexivity|]. intros t Ht Hno. cbn in Hno. rewrite ci_tasks0 in Hno.
  exfalso. apply Hno. now apply elem_of_list_to_set.
Qed.

Lemma coord_step_inv tasks es c e : coord_inv tasks es c -> coord_inv tasks (es ++ [e]) (coord_step c e).
Proof.
  intros I. unfold coord_step.
  destruct (running c); cbn [negb]; destruct e;
    auto using inv_weaken, inv_set_store, inv_cancel, inv_ack, inv_tick.
  apply (inv_weaken _ _ CStop) in I. destruct I. split; auto.
Qed.

Lemma coord_run_inv tasks es' : forall es c,
  coord_inv tasks es c -> coord_inv tasks (es ++ es') (coord_run es' c).
Proof.
  induction es' as [|e es' IH]; intros es c I; [now rewrite app_nil_r|].
  change (e :: es') with ([e] ++ es'). rewrite app_assoc. apply IH. now apply coord_step_inv.
Qed.

(** a checkpoint is complete only when every task has acknowledged it, for
    every order of ticks, acknowledgements, refusals, failures and stops; and at
    most three completed checkpoints are kept. *)
Theorem completed_is_fully_acked tasks s es :
  let c := coord_run es (NewCoordinator tasks s) in
  (forall cid, cid ∈ checkpoints (completedCheckpoints c) -> forall t, t ∈ tasks -> acked es cid t)
  /\ (length (checkpoints (completedCheckpoints c)) <= 3)%nat.
Proof.
  cbv zeta. pose proof (coord_run_inv tasks es [] (NewCoordinator tasks s)) as I.
  destruct I; [|auto]. split; cbn; auto; try lia.
  - intros cid cp H. rewrite lookup_empty in H. discriminate.
  - intros cid H. now apply elem_of_nil in H.
Qed.

(** ** Checkpoints complete in order *)

Record order_inv (now : Z) (c : coord) : Prop := {
  oi_sorted : Sorted Z.lt (checkpoints (completedCheckpoints c));
  oi_now : forall x, x ∈ checkpoints (completedCheckpoints c) -> x <= now;
  oi_pending : forall k cp, pendingCheckpoints c !! k = Some cp ->
    k <= now /\ forall x, x ∈ checkpoints (completedCheckpoints c) -> x < k }.

Lemma sorted_snoc l x : Sorted Z.lt l -> (forall y, y ∈ l -> y < x) -> Sorted Z.lt (l ++ [x]).
Proof.
  induction 1 as [|y l Hs IH Hd]; intros H; cbn; [auto|]. constructor.
  - apply IH. intros z Hz. apply H. now right.
  - destruct l as [|z l]; cbn.
    + constructor. apply H. now left.
    + constructor. now inversion Hd.
Qed.

Lemma order_complete now db_ok cid c : order_inv now c -> order_inv now (complete db_ok cid c).
Proof.
  intros O. unfold complete. destruct (pendingCheckpoints c !! cid) eqn:E; [|exact O].
  destruct (SaveCheckpoint db_ok cid (store c)) as [s []]; destruct O; [|split; auto].
  destruct (oi_pending0 cid _ E) as [Hn Hlt]. split; cbn.
  - pose proof (sorted_snoc _ cid oi_sorted0 Hlt) as Hs. unfold cs_add. cbn [checkpoints].
    case_match; [|exact Hs]. destruct (checkpoints (completedCheckpoints c) ++ [cid]); [auto|].
    now inversion Hs.
  - intros x H. apply cs_add_elem in H as [->|H]; auto.
  - intros k cp H. apply map_lookup_filter_Some in H as [H Hk]. cbn in Hk.
    apply lookup_delete_Some in H as [Hne H]. destruct (oi_pending0 k cp H) as [H1 H2].
    split; [exact H1|]. intros x Hx. apply cs_add_elem in Hx as [->|Hx]; [lia|auto].
Qed.

Lemma order_step now c e :
  order_inv now c -> (forall n, e = CTick n -> now < n) ->
  order_inv (match e with CTick n => n | _ => now end) (coord_step c e).
Proof.
  intros O He. unfold coord_step. destruct (running c); cbn [negb]; destruct e as [n|cid op b| | | |];
    try (destruct O; split; cbn; auto; fail);
    try (destruct O; split; cbn; auto; intros k cp H; apply lookup_delete_Some in H as [_ H]; eauto; fail).
  - specialize (He n eq_refl). destruct O. split; cbn; auto.
    + intros x H. pose proof (oi_now0 x H). lia.
    + intros k cp. rewrite lookup_insert_Some. intros [[<- _]|[_ H]].
      * split; [lia|]. intros x H. pose proof (oi_now0 x H). lia.
      * destruct (oi_pending0 k cp H). split; [lia|auto].
  - unfold on_ack. destruct (pendingCheckpoints c !! cid) as [cp|] eqn:E; [|exact O].
    assert (O1 : order_inv now (set_pending (<[cid := ack op cp]> (pendingCheckpoints c)) c)).
    { destruct O. split; cbn; auto. intros k cp'. rewrite lookup_insert_Some. intros [[<- _]|[_ H]]; eauto. }
    destruct (isFullyAck _); [now apply order_complete|exact O1].
  - specialize (He n eq_refl). destruct O. split; cbn; auto.
    + intros x H. pose proof (oi_now0 x H). lia.
    + intros k cp H. destruct (oi_pending0 k cp H). split; [lia|auto].
Qed.

End CoordinatorSpecs.

Definition sample_events : list (coord_event (St := Z)) :=
  [CTick 10; CState 10 "src" 1; CAck 10 "src" true; CTick 20; CAck 10 "sink" true].

