(* ===== verification/StateContext.v ===== *)
(** The context of an operator (src/internal/topo/context): its state, the
    snapshot a checkpoint takes of it, and the counters.

    [World] is what the contexts of one operator share: the state map (a pointer
    in the code; [None] is nil, after a failed restore) and the checkpoint store
    of the rule.  A [Context] adds what is its own: whether it has the store
    (derived contexts do not) and the snapshot, one slot for all checkpoints.
    A method on a nil pointer panics, which is [None]. *)

From S2P Require Import Prelude Token Ast Value Checkpoint.
From stdpp Require Import base gmap list strings.
From Stdlib Require Import ZArith Lia.

#[local] Open Scope Z_scope.
#[local] Open Scope string_scope.

(** ** Integers of the state: [cast.ToInt] in strict mode *)

(** [int(s)] of an integral float that fits; [isIntegral64]. *)
Definition isIntegral64 (f : float64) : bool := f64_eqb f (f64_of_Z (f64_to_int64 f)).

Definition ToInt_strict (v : value) : option Z :=
  match v with
  | VInt z | VInt64 z | VInt32 z | VInt16 z | VInt8 z => Some z
  | VUint z | VUint64 z => Some (int64 z)
  | VUint32 z | VUint16 z | VUint8 z => Some z
  | VFloat64 f | VFloat32 f => if isIntegral64 f then Some (f64_to_int64 f) else None
  | _ => None
  end.

(** ** The context *)

#[local] Abbreviation State := (gmap string value).

Record World : Type := mkWorld {
  state : option State;
  store : KVStore (St := State) }.

Record Context : Type := mkContext {
  opId : string;
  instanceId : Z;
  has_store : bool;
  snapshot : option State }.   (* [None] is the nil map *)

(** [WithMeta]: the state the store has for the operator; on an error of the
    store the context is left without a state map. *)
Definition WithMeta (op : string) (st : KVStore (St := State)) : Context * World :=
  (mkContext op 0 true None,
   mkWorld (match GetOpState op st with Some s => Some (default ∅ s) | None => None end) st).

Definition WithInstance (id : Z) (c : Context) : Context := mkContext (opId c) id false None.

Definition WithCancel (c : Context) : Context := mkContext (opId c) (instanceId c) false None.

Definition PutState (key : string) (v : value) (w : World) : option World :=
  match state w with Some s => Some (mkWorld (Some (<[key := v]> s)) (store w)) | None => None end.

(** The answer is nil if there is no such key. *)
Definition GetState (key : string) (w : World) : option value :=
  match state w with Some s => Some (default VNil (s !! key)) | None => None end.

Definition DeleteState (key : string) (w : World) : option World :=
  match state w with Some s => Some (mkWorld (Some (delete key s)) (store w)) | None => None end.

(** [false] is the error that the state is no integer. *)
Definition IncrCounter (key : string) (amount : Z) (w : World) : option (World * bool) :=
  match state w with
  | None => None
  | Some s =>
      match s !! key with
      | None => Some (mkWorld (Some (<[key := VInt amount]> s)) (store w), true)
      | Some v =>
          match ToInt_strict v with
          | Some vi => Some (mkWorld (Some (<[key := VInt (int64 (vi + amount))]> s)) (store w), true)
          | None => Some (w, false)
          end
      end
  end.

(** A counter that is not there is stored as 0; [inl] is the error. *)
Definition GetCounter (key : string) (w : World) : option (World * (unit + Z)) :=
  match state w with
  | None => None
  | Some s =>
      match s !! key with
      | None => Some (mkWorld (Some (<[key := VInt 0]> s)) (store w), inr 0)
      | Some v => Some (w, match ToInt_strict v with Some vi => inr vi | None => inl () end)
      end
  end.

(** [Snapshot] copies the bindings. *)
Definition Snapshot (c : Context) (w : World) : option Context :=
  match state w with
  | Some s => Some (mkContext (opId c) (instanceId c) (has_store c) (Some s))
  | None => None
  end.

(** [SaveState] saves whatever the slot holds, and empties it. *)
Definition SaveState (cid : Z) (c : Context) (w : World) : option (Context * World) :=
  if has_store c then
    Some (mkContext (opId c) (instanceId c) true None,
          mkWorld (state w) (kv_SaveState cid (opId c) (default ∅ (snapshot c)) (store w)))
  else None.

(** The state key of a function instance ([DefaultFuncContext]). *)
Definition convertKey (funcId : Z) (key : string) : string := "$$func" +:+ itoa funcId +:+ "_" +:+ key.

(** ** What a restart reads *)

(** The state updates of an operator. *)
Inductive update : Type := Put (k : string) (v : value) | Del (k : string) | Incr (k : string) (n : Z).

Definition do_update (w : World) (u : update) : option World :=
  match u with
  | Put k v => PutState k v w
  | Del k => DeleteState k w
  | Incr k n => match IncrCounter k n w with Some (w', _) => Some w' | None => None end
  end.

Fixpoint do_updates (us : list update) (w : World) : option World :=
  match us with
  | [] => Some w
  | u :: us' => match do_update w u with Some w' => do_updates us' w' | None => None end
  end.

(** The states that tasks save under checkpoints, in order. *)
Definition save_all (l : list (Z * string * State)) (st : KVStore (St := State)) : KVStore (St := State) :=
  fold_left (fun st x => kv_SaveState x.1.1 x.1.2 x.2 st) l st.

(** A restarted process has only what the database holds. *)
Definition restarted (cid : Z) (st : KVStore (St := State)) : option (KVStore (St := State)) :=
  match db st !! cid with
  | Some m => Some (kv_restore cid m (mkStore (St := State) ∅ [] (Checkpoint.max st) (db st)))
  | None => None
  end.

Lemma do_updates_store us : forall w w', do_updates us w = Some w' -> store w' = store w.
Proof.
  induction us as [|u us IH]; intros w w' H; cbn in H; [congruence|].
  destruct (do_update w u) as [w1|] eqn:E; [|discriminate]. rewrite (IH _ _ H). clear -E.
  destruct u; cbn in E; unfold PutState, DeleteState, IncrCounter in E;
    repeat (case_match; simplify_eq); reflexivity.
Qed.

Lemma do_updates_total us : forall w, is_Some (state w) -> exists w', do_updates us w = Some w' /\ is_Some (state w').
Proof.
  induction us as [|u us IH]; intros w [s Hs]; cbn; [eauto|].
  assert (G : exists w1, do_update w u = Some w1 /\ is_Some (state w1)).
  { destruct u as [k v|k|k n]; cbn; unfold PutState, DeleteState, IncrCounter; rewrite Hs; eauto.
    destruct (s !! k); eauto. destruct (ToInt_strict _); eauto. }
  destruct G as (w1 & -> & H1). auto.
Qed.

Lemma save_all_other l : forall (st : KVStore (St := State)) cid op m s,
  (forall x, x ∈ l -> x.1 <> (cid, op)) ->
  mapStore st !! cid = Some m -> m !! op = Some s ->
  exists m', mapStore (save_all l st) !! cid = Some m' /\ m' !! op = Some s.
Proof.
  induction l as [|[[c o] x] l IH]; intros st cid op m s Hl Hm Ho; cbn; [eauto|].
  assert (Hne : (c, o) <> (cid, op)) by (apply (Hl (c, o, x)); now left).
  destruct (decide (c = cid)) as [->|Hc].
  - apply (IH _ cid op (<[o := x]> m)); cbn.
    + intros y Hy. apply Hl. now right.
    + now rewrite Hm, lookup_insert_eq.
    + rewrite lookup_insert_ne by congruence. exact Ho.
  - apply (IH _ cid op m); cbn; [intros y Hy; apply Hl; now right| |exact Ho].
    now rewrite lookup_insert_ne.
Qed.

Lemma SaveCheckpoint_db cid m (st : KVStore (St := State)) : mapStore st !! cid = Some m ->
  db (fst (SaveCheckpoint true cid st)) !! cid = Some m /\ snd (SaveCheckpoint true cid st) = true.
Proof.
  intros H. unfold SaveCheckpoint. rewrite H. destruct (drop_old _ _ _ _). cbn. split; [|reflexivity].
  apply lookup_insert_eq.
Qed.

(** a restart reads the state at the snapshot: an operator snapshots its
    state for a checkpoint, goes on changing it, and saves the snapshot; while
    other tasks save theirs, under this and other checkpoints, the checkpoint
    is written.  After a restart from the database its context has exactly the
    state of the snapshot, none of the later changes. *)
Theorem restart_reads_snapshot c w s us before after cid :
  has_store c = true -> state w = Some s ->
  (forall x, x ∈ after -> x.1 <> (cid, opId c)) ->
  exists c1 w1 c2 w2 st, Snapshot c w = Some c1
    /\ do_updates us (mkWorld (state w) (save_all before (store w))) = Some w1
    /\ SaveState cid c1 w1 = Some (c2, w2)
    /\ SaveCheckpoint true cid (save_all after (store w2)) = (st, true)
    /\ exists st', restarted cid st = Some st' /\ state (WithMeta (opId c) st').2 = Some s.
Proof.
  intros Hc Hs Ha. unfold Snapshot. rewrite Hs.
  destruct (do_updates_total us (mkWorld (Some s) (save_all before (store w)))) as (w1 & E1 & [s1 H1]); [cbn; eauto|].
  set (c1 := mkContext (opId c) (instanceId c) (has_store c) (Some s)).
  set (w2 := mkWorld (state w1) (kv_SaveState cid (opId c) s (store w1))).
  destruct (save_all_other after (store w2) cid (opId c) (<[opId c := s]> (default ∅ (mapStore (store w1) !! cid))) s Ha)
    as (m' & Em & Eo); [cbn; apply lookup_insert_eq|apply lookup_insert_eq|].
  destruct (SaveCheckpoint_db _ _ _ Em) as [D1 D2].
  destruct (SaveCheckpoint true cid (save_all after (store w2))) as [st ok] eqn:E. cbn in D1, D2. subst ok.
  exists c1, w1, (mkContext (opId c) (instanceId c) true None), w2, st.
  split; [reflexivity|]. split; [exact E1|]. split; [unfold SaveState; cbn; now rewrite Hc|]. split; [exact E|].
  unfold restarted. rewrite D1. eexists. split; [reflexivity|].
  cbn. unfold GetOpState. cbn. rewrite lookup_insert_eq. cbn. now rewrite Eo.
Qed.

Definition sample_context : Context := mkContext "op" 0 true None.

Definition sample_world : World := mkWorld (Some {["n" := VInt 1]}) (mkStore ∅ [] 3 ∅).

(** The snapshot has 1 and the state goes on to 6; the restart reads 1. *)
Lemma restart_reads_snapshot_witness :
  (exists w', do_updates [Incr "n" 5] sample_world = Some w' /\ GetState "n" w' = Some (VInt 6))
  /\ exists c1 w1 c2 w2 st, Snapshot sample_context sample_world = Some c1
    /\ do_updates [Incr "n" 5] (mkWorld (state sample_world) (save_all [] (store sample_world))) = Some w1
    /\ SaveState 7 c1 w1 = Some (c2, w2)
    /\ SaveCheckpoint true 7 (save_all [(7, "other", ∅)] (store w2)) = (st, true)
    /\ exists st', restarted 7 st = Some st' /\ state (WithMeta "op" st').2 = Some {["n" := VInt 1]}.
Proof.
  split; [eexists; split; vm_compute; reflexivity|].
  apply (restart_reads_snapshot sample_context sample_world {["n" := VInt 1]} [Incr "n" 5] [] [(7, "other", ∅)] 7);
    try reflexivity.
  intros x Hx. apply list_elem_of_singleton in Hx. subst x. discriminate.
Defined.

(** ** Two checkpoints at once *)

(** overlapping checkpoints: the state is saved in a goroutine after the
    trigger returned, and there is one snapshot slot.  If a second checkpoint is
    triggered before the first one's state is saved, the first is saved with the
    state of the second, and the second with no state at all. *)
Theorem overlapping_checkpoints_lose_state c w s us cid1 cid2 :
  has_store c = true -> state w = Some s -> cid1 <> cid2 ->
  exists c1 w1 s1 c2 c3 w2 c4 w3,
    Snapshot c w = Some c1 /\ do_updates us w = Some w1 /\ state w1 = Some s1
    /\ Snapshot c1 w1 = Some c2
    /\ SaveState cid1 c2 w1 = Some (c3, w2) /\ SaveState cid2 c3 w2 = Some (c4, w3)
    /\ (mapStore (store w3) !! cid1 ≫= lookup (opId c)) = Some s1
    /\ (mapStore (store w3) !! cid2 ≫= lookup (opId c)) = Some ∅.
Proof.
  intros Hc Hs Hne. unfold Snapshot. rewrite Hs.
  destruct (do_updates_total us w) as (w1 & E1 & [s1 H1]); [eauto|].
  do 8 eexists. split; [reflexivity|]. split; [exact E1|]. split; [exact H1|]. rewrite H1.
  split; [reflexivity|]. unfold SaveState. cbn. rewrite Hc. split; [reflexivity|]. cbn. split; [reflexivity|].
  cbn. rewrite lookup_insert_ne, !lookup_insert_eq by congruence. cbn. rewrite !lookup_insert_eq. auto.
Qed.

Lemma overlapping_checkpoints_lose_state_witness :
  exists c1 w1 s1 c2 c3 w2 c4 w3,
    Snapshot sample_context sample_world = Some c1 /\ do_updates [Incr "n" 5] sample_world = Some w1
    /\ state w1 = Some s1 /\ Snapshot c1 w1 = Some c2
    /\ SaveState 7 c2 w1 = Some (c3, w2) /\ SaveState 8 c3 w2 = Some (c4, w3)
    /\ (mapStore (store w3) !! 7 ≫= lookup "op") = Some s1
    /\ (mapStore (store w3) !! 8 ≫= lookup "op") = Some ∅.
Proof.
  apply (overlapping_checkpoints_lose_state sample_context sample_world {["n" := VInt 1]}); [reflexivity..|lia].
Defined.

(** ** The states of functions *)

Fixpoint digits_val (a : Z) (s : string) : Z :=
  match s with
  | EmptyString => a
  | String c s' => digits_val (10 * a + (Z.of_N (Ascii.N_of_ascii c) - 48)) s'
  end.

Definition underscore : Ascii.ascii := Ascii.Ascii true true true true true false true false.

Fixpoint no_underscore (s : string) : bool :=
  match s with
  | EmptyString => true
  | String c s' => negb (Ascii.eqb c underscore) && no_underscore s'
  end.

Lemma digit_char d : 0 <= d < 10 ->
  let c := Ascii.ascii_of_N (Z.to_N (48 + d)) in
  Z.of_N (Ascii.N_of_ascii c) = 48 + d /\ Ascii.eqb c underscore = false.
Proof.
  intros H. cbv zeta. rewrite Ascii.N_ascii_embedding by lia. split; [lia|].
  apply Ascii.eqb_neq. intros E. apply (f_equal Ascii.N_of_ascii) in E.
  rewrite Ascii.N_ascii_embedding in E by lia. cbn in E. lia.
Qed.

Lemma digits_aux_spec f : forall z acc, 0 <= z < 10 ^ Z.of_nat f -> (0 < f)%nat ->
  digits_val 0 (digits_aux f z acc) = digits_val z acc
  /\ (no_underscore acc = true -> no_underscore (digits_aux f z acc) = true).
Proof.
  induction f as [|f IH]; intros z acc Hz Hf; [lia|]. cbn [digits_aux].
  destruct (digit_char (z mod 10)) as [D1 D2]; [apply Z.mod_pos_bound; lia|].
  pose proof (Z.div_mod z 10) as Hdm. destruct (Z.eqb_spec (z / 10) 0) as [E|E].
  - cbn [digits_val no_underscore]. rewrite D1, D2. split; [f_equal; lia|auto].
  - assert (Hq : 0 <= z / 10 < 10 ^ Z.of_nat f).
    { split; [apply Z.div_pos; lia|]. apply Z.div_lt_upper_bound; [lia|].
      replace (10 * 10 ^ Z.of_nat f) with (10 ^ Z.of_nat (S f)); [lia|].
      rewrite Nat2Z.inj_succ, Z.pow_succ_r; lia. }
    destruct f as [|f]; [cbn in Hq; lia|].
    destruct (IH (z / 10) (String (Ascii.ascii_of_N (Z.to_N (48 + z mod 10))) acc)) as [I1 I2]; [exact Hq|lia|].
    split.
    + rewrite I1. cbn [digits_val]. rewrite D1. f_equal. lia.
    + intros H. apply I2. cbn [no_underscore]. now rewrite D2.
Qed.

Lemma app_underscore a : forall b x y, no_underscore a = true -> no_underscore b = true ->
  a +:+ "_" +:+ x = b +:+ "_" +:+ y -> a = b /\ x = y.
Proof.
  induction a as [|c a IH]; intros [|d b] x y Ha Hb H; cbn in *.
  - injection H as H. auto.
  - injection H as Hc _. subst d. discriminate Hb.
  - injection H as Hc _. subst c. discriminate Ha.
  - injection H as Hc H. subst d. apply andb_prop in Ha as [_ Ha], Hb as [_ Hb].
    destruct (IH b x y Ha Hb H). now subst.
Qed.

Lemma convertKey_inj id1 id2 k1 k2 : 0 <= id1 < 2 ^ 63 -> 0 <= id2 < 2 ^ 63 ->
  convertKey id1 k1 = convertKey id2 k2 -> id1 = id2 /\ k1 = k2.
Proof.
  intros H1 H2 E. unfold convertKey in E. cbn in E. injection E as E.
  assert (Hp : 2 ^ 63 < 10 ^ Z.of_nat 40) by (vm_compute; reflexivity).
  unfold itoa in E. rewrite !(proj2 (Z.ltb_ge _ _)) in E by lia. cbn [String.app] in E.
  destruct (digits_aux_spec 40 id1 "") as [V1 U1]; [lia..|].
  destruct (digits_aux_spec 40 id2 "") as [V2 U2]; [lia..|].
  apply app_underscore in E as [E ->]; [|now apply U1|now apply U2].
  split; [|reflexivity]. rewrite E in V1. rewrite V1 in V2. exact V2.
Qed.

(** the functions of an operator have separate states: what a function
    stores under a key it reads back, and no other function of the operator,
    nor another key of it, sees a change. *)
Theorem function_states_separate id1 id2 k1 k2 v w :
  0 <= id1 < 2 ^ 63 -> 0 <= id2 < 2 ^ 63 -> is_Some (state w) -> (id1, k1) <> (id2, k2) ->
  exists w', PutState (convertKey id1 k1) v w = Some w'
    /\ GetState (convertKey id1 k1) w' = Some v
    /\ GetState (convertKey id2 k2) w' = GetState (convertKey id2 k2) w.
Proof.
  intros H1 H2 [s Hs] Hne. unfold PutState, GetState. rewrite Hs. eexists. split; [reflexivity|]. cbn [state].
  rewrite lookup_insert_eq, lookup_insert_ne; [auto|].
  intros E. apply convertKey_inj in E as [-> ->]; auto.
Qed.

Lemma function_states_separate_witness :
  exists w', PutState (convertKey 1 "2_k") (VInt 5) sample_world = Some w'
    /\ GetState (convertKey 1 "2_k") w' = Some (VInt 5)
    /\ GetState (convertKey 12 "k") w' = GetState (convertKey 12 "k") sample_world.
Proof.
  apply (function_states_separate 1 12 "2_k" "k"); [lia|lia|cbn; eauto|congruence].
Defined.

(** ** Counters *)

Lemma do_incr key n w s a : state w = Some s -> s !! key = Some (VInt a) ->
  do_update w (Incr key n) = Some (mkWorld (Some (<[key := VInt (int64 (a + n))]> s)) (store w)).
Proof. intros Hs Hk. cbn. unfold IncrCounter. now rewrite Hs, Hk. Qed.

Lemma incr_all key ns : forall w s a, state w = Some s -> s !! key = Some (VInt a) -> in_int64 a ->
  exists w' s', do_updates (map (Incr key) ns) w = Some w' /\ state w' = Some s'
    /\ s' !! key = Some (VInt (int64 (a + fold_right Z.add 0 ns))).
Proof.
  induction ns as [|n ns IH]; intros w s a Hs Hk Ha; cbn [map do_updates].
  - exists w, s. cbn. now rewrite Z.add_0_r, int64_id.
  - rewrite (do_incr key n w s a Hs Hk).
    destruct (IH (mkWorld (Some (<[key := VInt (int64 (a + n))]> s)) (store w)) _ (int64 (a + n)) eq_refl)
      as (w' & s' & E1 & E2 & E3); [apply lookup_insert_eq|apply int64_range|].
    exists w', s'. split; [exact E1|]. split; [exact E2|]. rewrite E3. do 2 f_equal. cbn [fold_right].
    apply int64_eq_mod. rewrite Z.add_mod, int64_mod, <- Z.add_mod by lia. f_equal. lia.
Qed.

(** a counter counts: after any increments, a counter that was never used
    before reads their sum, wrapped to 64 bits; with no increment, 0. *)
Theorem counter_counts key ns w s :
  state w = Some s -> s !! key = None -> Forall in_int64 ns ->
  exists w' w'', do_updates (map (Incr key) ns) w = Some w'
    /\ GetCounter key w' = Some (w'', inr (int64 (fold_right Z.add 0 ns))).
Proof.
  intros Hs Hk Hr. destruct ns as [|n ns].
  - exists w. eexists. split; [reflexivity|]. unfold GetCounter. now rewrite Hs, Hk.
  - inversion Hr as [|? ? Hn _]; subst. cbn [map do_updates do_update]. unfold IncrCounter. rewrite Hs, Hk.
    destruct (incr_all key ns (mkWorld (Some (<[key := VInt n]> s)) (store w)) _ n eq_refl)
      as (w' & s' & E1 & E2 & E3); [apply lookup_insert_eq|exact Hn|].
    exists w'. eexists. split; [exact E1|]. unfold GetCounter. now rewrite E2, E3.
Qed.

Lemma counter_counts_witness :
  exists w' w'', do_updates (map (Incr "c") [MaxInt64; 3]) sample_world = Some w'
    /\ GetCounter "c" w' = Some (w'', inr (MinInt64 + 2)).
Proof.
  apply (counter_counts "c" [MaxInt64; 3] sample_world {["n" := VInt 1]}); [reflexivity..|].
  repeat apply Forall_cons_2; [unfold in_int64, MinInt64, MaxInt64; lia..|apply Forall_nil_2].
Defined.
