(* ===== verification/SinkNode.v ===== *)
(** The sink side of a rule: the sink cache and the delivery of results
    (src/internal/topo/node/sink_cache.go and sink_node.go), and the unbounded
    source buffer (src/internal/topo/node/dynamic_channel_buffer.go).

    The cache goroutine is a state machine over the events of its select; its
    effects are the tuples it puts on [Out] and the queues it saves.  A saved
    queue is a copy.  Whether the sink accepts a message, and whether the cache
    is ready to hear of it, are the answers of an environment, given as lists.
    JSON and templates are parameters. *)

From S2P Require Import Prelude.
From stdpp Require Import base gmap list strings sorting.
From Stdlib Require Import ZArith Lia.

#[local] Open Scope Z_scope.
#[local] Open Scope list_scope.

Section Cache.
Context {Item : Type}.

Record CacheTuple : Type := mkCT { index : Z; data : Item }.

(** ** LinkedQueue *)

Record LinkedQueue : Type := mkLQ { Data : gmap Z Item; Tail : Z }.

Definition lq_empty : LinkedQueue := mkLQ ∅ 0.
Definition lq_append (item : Item) (l : LinkedQueue) : LinkedQueue :=
  mkLQ (<[Tail l := item]> (Data l)) (Tail l + 1).
Definition lq_delete (i : Z) (l : LinkedQueue) : LinkedQueue := mkLQ (delete i (Data l)) (Tail l).
Definition lq_reset (l : LinkedQueue) : LinkedQueue := mkLQ (Data l) 0.
Definition lq_length (l : LinkedQueue) : Z := Z.of_nat (size (Data l)).

(** ** Cache *)

Record Cache : Type := mkCache { pending : LinkedQueue; changed : bool; tcount : Z }.

Inductive cache_effect : Type := Out (t : CacheTuple) | Save (q : LinkedQueue).

(** The configuration: [Sink.CacheThreshold], [Sink.CacheTriggerCount]. *)
Record SinkConf : Type := mkConf { CacheThreshold : Z; CacheTriggerCount : Z }.

Definition cache_start : Cache := mkCache lq_empty false 0.

(** An item from the input; the same in both kinds of cache. *)
Definition on_in (item : Item) (c : Cache) : Cache * list cache_effect :=
  (mkCache (lq_append item (pending c)) true (tcount c), [Out (mkCT (Tail (pending c)) item)]).

Definition on_complete (i : Z) (c : Cache) : Cache * list cache_effect :=
  (mkCache (lq_delete i (pending c)) true (tcount c), []).

(** The ticker of the time based cache. *)
Definition on_ticker (conf : SinkConf) (c : Cache) : Cache * list cache_effect :=
  let t := tcount c + 1 in
  let l := lq_length (pending c) in
  let p := if l =? 0 then lq_reset (pending c) else pending c in
  let save := (changed c && (l >? CacheThreshold conf)) || ((t =? CacheTriggerCount conf) && changed c) in
  (mkCache p (if save then false else changed c) (if t >=? CacheThreshold conf then 0 else t),
   if save then [Save p] else []).

Inductive cache_event : Type := EIn (item : Item) | EComplete (i : Z) | ETicker.

Definition timebased_step (conf : SinkConf) (c : Cache) (e : cache_event) : Cache * list cache_effect :=
  match e with
  | EIn item => on_in item c
  | EComplete i => on_complete i c
  | ETicker => on_ticker conf c
  end.

Fixpoint timebased_run (conf : SinkConf) (es : list cache_event) (c : Cache) : Cache * list cache_effect :=
  match es with
  | [] => (c, [])
  | e :: es' =>
      let (c1, out) := timebased_step conf c e in
      let (c2, out') := timebased_run conf es' c1 in
      (c2, out ++ out')
  end.

(** The checkpoint based cache: barriers pass without being kept, and a
    checkpoint of the rule saves the queue if it changed. *)
Inductive cp_event : Type := CPBarrier (item : Item) | CPIn (item : Item) | CPComplete (i : Z) | CPSave.

Definition checkpointbased_step (c : Cache) (e : cp_event) : Cache * list cache_effect :=
  match e with
  | CPBarrier item => (c, [Out (mkCT 0 item)])
  | CPIn item => on_in item c
  | CPComplete i => on_complete i c
  | CPSave => (mkCache (pending c) false (tcount c), if changed c then [Save (pending c)] else [])
  end.

(** [loadCache]: the queue becomes the pending one and is replayed by index. *)
Definition loadCache (saved : option LinkedQueue) : Cache * list cache_effect :=
  match saved with
  | None => (cache_start, [])
  | Some q =>
      let ks := merge_sort Z.le (map_to_list (Data q)).*1 in
      (mkCache q true 0, omap (fun k => match Data q !! k with Some x => Some (Out (mkCT k x)) | None => None end) ks)
  end.

(** ** The cache refines a queue in arrival order *)

(** The contract: the items not yet confirmed, oldest first, with their index. *)
Definition spec_step (s : Z * list (Z * Item)) (e : cache_event) : Z * list (Z * Item) :=
  let (tail, l) := s in
  match e with
  | EIn item => (tail + 1, l ++ [(tail, item)])
  | EComplete i => (tail, filter (fun kv => kv.1 <> i) l)
  | ETicker => (match l with [] => 0 | _ => tail end, l)
  end.

Record refines (q : LinkedQueue) (s : Z * list (Z * Item)) : Prop := {
  rf_tail : Tail q = s.1;
  rf_pos : 0 <= s.1;
  rf_below : Forall (fun k => k < s.1) s.2.*1;
  rf_sorted : StronglySorted Z.lt s.2.*1;
  rf_data : Data q = list_to_map s.2 }.

Lemma strongly_sorted_snoc (l : list Z) x : StronglySorted Z.lt l -> Forall (fun k => k < x) l -> StronglySorted Z.lt (l ++ [x]).
Proof.
  induction 1 as [|y l Hs IH Hf]; intros H; cbn; [repeat constructor|].
  inversion H as [|? ? Hy Hl]; subst. constructor; [auto|].
  apply Forall_app. split; [exact Hf|]. now repeat constructor.
Qed.

Lemma sorted_NoDup (l : list Z) : StronglySorted Z.lt l -> NoDup l.
Proof.
  induction 1 as [|y l _ IH Hf]; constructor; [|exact IH].
  intros H. rewrite Forall_forall in Hf. specialize (Hf y H). lia.
Qed.

Lemma list_to_map_snoc_new (l : list (Z * Item)) k x :
  k ∉ l.*1 -> list_to_map (l ++ [(k, x)]) = <[k := x]> (list_to_map l : gmap Z Item).
Proof.
  induction l as [|[k' x'] l IH]; intros H; cbn in *; [reflexivity|].
  rewrite not_elem_of_cons in H. destruct H as [H1 H2]. rewrite IH by exact H2.
  now rewrite insert_insert_ne.
Qed.

Lemma list_to_map_filter (l : list (Z * Item)) i :
  list_to_map (filter (fun kv => kv.1 <> i) l) = delete i (list_to_map l : gmap Z Item).
Proof.
  induction l as [|[k x] l IH]; [now rewrite filter_nil, list_to_map_nil, delete_empty|].
  rewrite filter_cons, list_to_map_cons. case_decide as Hk; cbn [fst] in Hk.
  - now rewrite list_to_map_cons, IH, delete_insert_ne.
  - assert (k = i) as -> by lia. now rewrite IH, delete_insert_eq.
Qed.

(** Dropping entries keeps what holds of all indices, and their order. *)
Lemma filter_Forall_fst (Q : Z -> Prop) (l : list (Z * Item)) i :
  Forall Q l.*1 -> Forall Q (filter (fun kv => kv.1 <> i) l).*1.
Proof.
  induction l as [|[k x] l IH]; intros H; [rewrite filter_nil; constructor|].
  rewrite fmap_cons in H. inversion H; subst. rewrite filter_cons. case_decide; [|auto].
  rewrite fmap_cons. constructor; auto.
Qed.

Lemma filter_sorted (l : list (Z * Item)) i :
  StronglySorted Z.lt l.*1 -> StronglySorted Z.lt (filter (fun kv => kv.1 <> i) l).*1.
Proof.
  induction l as [|[k x] l IH]; intros H; [rewrite filter_nil; constructor|].
  rewrite fmap_cons in H. inversion H; subst. rewrite filter_cons. case_decide; [|auto].
  rewrite fmap_cons. constructor; auto using filter_Forall_fst.
Qed.

Lemma refines_empty_iff q s : refines q s -> (lq_length q =? 0) = match s.2 with [] => true | _ => false end.
Proof.
  intros []. unfold lq_length. rewrite rf_data0. destruct s.2 as [|[k x] l] eqn:E.
  - now rewrite list_to_map_nil, map_size_empty.
  - apply Z.eqb_neq. cbn. rewrite map_size_insert_None; [lia|].
    apply not_elem_of_list_to_map_1. cbn in rf_sorted0. apply sorted_NoDup in rf_sorted0.
    now inversion rf_sorted0.
Qed.

Lemma step_refines conf c s e :
  refines (pending c) s -> refines (pending (fst (timebased_step conf c e))) (spec_step s e).
Proof.
  intros R. destruct s as [tail l]. destruct e as [item|i|]; cbn.
  - destruct R; cbn in *. split; cbn; try lia.
    + rewrite fmap_app. apply Forall_app. split; [|repeat constructor; cbn; lia].
      eapply Forall_impl; [exact rf_below0|]. cbn. lia.
    + rewrite fmap_app. now apply strongly_sorted_snoc.
    + rewrite list_to_map_snoc_new, rf_data0, rf_tail0; [reflexivity|].
      intros H. rewrite Forall_forall in rf_below0. specialize (rf_below0 tail H). lia.
  - destruct R; cbn in *. split; cbn; auto using filter_Forall_fst, filter_sorted.
    now rewrite list_to_map_filter, rf_data0.
  - rewrite (refines_empty_iff _ _ R). cbn. destruct R; cbn in *.
    destruct l as [|kv l]; split; cbn in *; auto; try lia.
Qed.

Lemma run_refines conf es : forall c s,
  refines (pending c) s -> refines (pending (fst (timebased_run conf es c))) (fold_left spec_step es s).
Proof.
  induction es as [|e es IH]; intros c s R; [exact R|]. cbn.
  pose proof (step_refines conf c s e R) as R1.
  destruct (timebased_step conf c e) as [c1 o1]. specialize (IH c1 (spec_step s e) R1).
  destruct (timebased_run conf es c1) as [c2 o2]. exact IH.
Qed.

Lemma load_spec q s : refines q s ->
  snd (loadCache (Some q)) = map (fun kv => Out (mkCT kv.1 kv.2)) s.2.
Proof.
  intros []. cbn [loadCache snd].
  assert (Hnd : NoDup s.2.*1) by now apply sorted_NoDup.
  assert (Hks : merge_sort Z.le (map_to_list (Data q)).*1 = s.2.*1).
  { apply (StronglySorted_unique Z.le).
    - apply (StronglySorted_merge_sort Z.le).
    - clear - rf_sorted0. induction rf_sorted0 as [|x l _ IH Hf]; constructor; auto.
      eapply Forall_impl; [exact Hf|]. intros; cbn in *; lia.
    - rewrite merge_sort_Permutation, rf_data0, map_to_list_to_map by exact Hnd. reflexivity. }
  rewrite Hks, rf_data0. clear - Hnd.
  enough (G : forall l l' : list (Z * Item), NoDup (l' ++ l).*1 ->
    omap (fun k => match (list_to_map (l' ++ l) : gmap Z Item) !! k with
                   | Some x => Some (Out (mkCT k x)) | None => None end) l.*1
    = map (fun kv => Out (mkCT kv.1 kv.2)) l) by exact (G s.2 [] Hnd).
  induction l as [|[k x] l IH]; intros l' H; [reflexivity|]. cbn [map omap fmap list_fmap list_omap].
  rewrite (elem_of_list_to_map_1 _ k x H) by (apply elem_of_app; right; now left).
  cbn. f_equal. specialize (IH (l' ++ [(k, x)])). rewrite <- app_assoc in IH. exact (IH H).
Qed.

(** C40: nothing a sink has not confirmed is lost by a restart: after any
    history of items, confirmations and ticks, loading the saved queue replays
    exactly the items not confirmed, in their order of arrival. *)
Theorem cache_replays_unconfirmed conf es :
  let q := pending (fst (timebased_run conf es cache_start)) in
  snd (loadCache (Some q))
    = map (fun kv => Out (mkCT kv.1 kv.2)) (fold_left spec_step es (0, [])).2.
Proof.
  cbv zeta. apply load_spec. apply run_refines. split; cbn; auto; try lia; constructor.
Qed.

(** with a threshold below the trigger count (the defaults are 10 and 15)
    the count never triggers a save: whatever happens, the ticker saves the queue
    only when it holds more than [CacheThreshold] items. *)
Theorem trigger_count_is_dead conf es :
  0 < CacheThreshold conf < CacheTriggerCount conf ->
  Forall (fun e => match e with Save q => CacheThreshold conf < lq_length q | Out _ => True end)
    (snd (timebased_run conf es cache_start)).
Proof.
  intros Hc.
  enough (G : forall c, 0 <= tcount c < CacheThreshold conf ->
    Forall (fun e => match e with Save q => CacheThreshold conf < lq_length q | Out _ => True end)
      (snd (timebased_run conf es c))) by (apply G; cbn; lia).
  induction es as [|e es IH]; intros c Ht; [constructor|]. cbn.
  assert (S1 : 0 <= tcount (fst (timebased_step conf c e)) < CacheThreshold conf
    /\ Forall (fun e => match e with Save q => CacheThreshold conf < lq_length q | Out _ => True end)
         (snd (timebased_step conf c e))).
  { destruct e; cbn; [split; [lia|repeat constructor]|split; [lia|constructor]|].
    rewrite (proj2 (Z.eqb_neq (tcount c + 1) (CacheTriggerCount conf))) by lia. cbn.
    rewrite orb_false_r, Z.geb_leb, Z.gtb_ltb. split; [destruct (Z.leb_spec (CacheThreshold conf) (tcount c + 1)); lia|].
    destruct (changed c); cbn; [|constructor].
    destruct (Z.ltb_spec (CacheThreshold conf) (lq_length (pending c))) as [Hl|Hl]; [|constructor].
    rewrite (proj2 (Z.eqb_neq (lq_length (pending c)) 0)) by lia. now repeat constructor. }
  destruct (timebased_step conf c e) as [c1 o1]. destruct S1 as [S1 S2].
  specialize (IH c1 S1). destruct (timebased_run conf es c1) as [c2 o2]. cbn in *.
  now apply Forall_app.
Qed.
End Cache.

Lemma trigger_count_is_dead_witness :
  Forall (fun e => match e with Save q => 10 < lq_length q | Out _ => True end)
    (snd (timebased_run (mkConf 10 15) (EIn "x" :: repeat ETicker 100) cache_start)).
Proof. apply (trigger_count_is_dead (mkConf 10 15)). cbn. lia. Defined.

(** ** Delivery of a result *)

Section Delivery.
Context {Msg : Type}.

(** What reaches a sink: the marshalled results, an error, or anything else
    (printed with [%#v]). *)
Inductive sink_item : Type := IBytes (val : string) | IError (msg : string) | IOther (shown : string).

(** A compiled template: executed on all records or on one. *)
Record Template : Type := mkTemplate {
  exec_all : list Msg -> option string;
  exec_one : Msg -> option string }.

Variable Unmarshal : string -> option (list Msg).
Variable Marshal : Msg -> option string.

Definition dquote : string := String (Ascii.ascii_of_nat 34) EmptyString.

(** The loop over single records: the first failure drops everything. *)
Fixpoint out_each (f : Msg -> option string) (j : list Msg) : option (list string) :=
  match j with
  | [] => Some []
  | r :: j' =>
      match f r, out_each f j' with
      | Some s, Some l => Some (s :: l)
      | _, _ => None
      end
  end.

(** One record whose only field is the error. *)
Definition error_json (msg : string) : string :=
  ("[{" ++ dquote ++ "error" ++ dquote ++ ":" ++ dquote ++ msg ++ dquote ++ "}]")%string.

(** [getOutData]; an error (counted as an exception) yields no output. *)
Definition getOutData (omitIfEmpty sendSingle : bool) (tp : option Template) (item : sink_item)
    : list string :=
  match item with
  | IBytes val =>
      if omitIfEmpty && String.eqb val "[{}]" then []
      else
        let j := if sendSingle || (match tp with Some _ => true | None => false end) then Unmarshal val else Some [] in
        match j with
        | None => []
        | Some j =>
            if negb sendSingle then
              match tp with
              | Some t => match exec_all t j with Some s => [s] | None => [] end
              | None => [val]
              end
            else
              default [] (out_each (match tp with Some t => exec_one t | None => Marshal end) j)
        end
  | IError msg => [error_json msg]
  | IOther shown => [error_json ("result is not a string but found " ++ shown)%string]
  end.

(** The answers of the environment to the [n]-th attempt. *)
Variable accepts : nat -> bool.     (* [sink.Collect] succeeds *)
Variable cancelled : nat -> bool.   (* the rule is stopping *)

Inductive sent : Type := Sent | GaveUp | Stopped.

(** The attempts for one message; returns the attempts and retries so far. *)
Fixpoint send_one (mayRetry : bool) (n : nat) (retryCount : nat) : sent * nat * nat :=
  if cancelled n then (Stopped, n, retryCount)
  else if accepts n then (Sent, S n, retryCount)
  else match mayRetry, retryCount with
       | true, S r => send_one mayRetry (S n) r
       | _, _ => (GaveUp, S n, retryCount)
       end.

(** [doCollectCacheTuple]: the messages accepted (one signal for the cache is
    offered for each) and the number of attempts. *)
Fixpoint doCollectCacheTuple (mayRetry : bool) (outdatas : list string) (n retryCount : nat)
    : list string * nat :=
  match outdatas with
  | [] => ([], n)
  | d :: ds =>
      match send_one mayRetry n retryCount with
      | (Stopped, n', _) => ([], n')
      | (Sent, n', r) =>
          let (l, n'') := doCollectCacheTuple mayRetry ds n' r in (d :: l, n'')
      | (GaveUp, n', r) => doCollectCacheTuple mayRetry ds n' r
      end
  end.

Lemma send_one_bound mayRetry : forall r n, let '(_, n', r') := send_one mayRetry n r in
  (n' + r' <= S (n + r))%nat.
Proof.
  induction r as [|r IH]; intros n; cbn; destruct (cancelled n), (accepts n); try lia;
    destruct mayRetry; try lia.
  specialize (IH (S n)). destruct (send_one true (S n) r) as [[? ?] ?]. lia.
Qed.

(** the delivery of a result ends: it makes at most one attempt per message
    plus [retryCount] retries in all, however the sink answers, and the messages
    it reports are a subsequence of the messages of the result. *)
Theorem delivery_bounded mayRetry outdatas : forall n retryCount,
  let (l, n') := doCollectCacheTuple mayRetry outdatas n retryCount in
  (n' <= n + length outdatas + retryCount)%nat /\ l `sublist_of` outdatas.
Proof.
  induction outdatas as [|d ds IH]; intros n r; cbn; [split; [lia|constructor]|].
  pose proof (send_one_bound mayRetry r n) as B.
  destruct (send_one mayRetry n r) as [[res n'] r']. specialize (IH n' r').
  destruct res; [| |split; [lia|apply sublist_nil_l]];
    destruct (doCollectCacheTuple mayRetry ds n' r') as [l n'']; destruct IH as [IH1 IH2];
    (split; [lia|now constructor]).
Qed.

(** an omitted result is never confirmed: with [omitIfEmpty] an empty
    result offers no signal to the cache, which therefore holds it for ever and
    replays it on every restart. *)
Theorem omitted_result_stays_cached {Item} conf (item : Item) es sendSingle tp :
  (forall i, EComplete i ∉ es) ->
  doCollectCacheTuple true (getOutData true sendSingle tp (IBytes "[{}]")) 0 3 = ([], 0%nat)
  /\ (0, item) ∈ (fold_left spec_step es (spec_step (0, []) (EIn item))).2
  /\ Out (mkCT 0 item) ∈ snd (loadCache (Some (pending (fst (timebased_run conf (EIn item :: es) cache_start))))).
Proof.
  intros Hes. split; [reflexivity|].
  assert (G : forall s, (0, item) ∈ s.2 -> (0, item) ∈ (fold_left spec_step es s).2).
  { clear - Hes. induction es as [|e es IH]; intros s H; [exact H|]. cbn.
    apply IH; [intros i Hi; apply (Hes i); now right|]. destruct s as [t l]. cbn in H.
    destruct e as [x|i|]; cbn; [apply elem_of_app; now left| |exact H].
    exfalso. apply (Hes i). now left. }
  assert (H0 : (0, item) ∈ (fold_left spec_step es (spec_step (0, []) (EIn item))).2)
    by (apply G; cbn; now left).
  split; [exact H0|].
  assert (R : refines (pending (@cache_start Item)) (0, []))
    by (split; cbn; auto; try lia; constructor).
  pose proof (load_spec _ _ (run_refines conf (EIn item :: es) cache_start (0, []) R)) as L.
  rewrite L. cbn [fold_left]. apply list_elem_of_In, in_map_iff. exists (0, item).
  split; [reflexivity|]. now apply list_elem_of_In.
Qed.
End Delivery.

Lemma omitted_result_stays_cached_witness :
  Out (mkCT 0 "x") ∈ snd (loadCache (Some (pending (fst
    (timebased_run (mkConf 10 15) [EIn "x"; ETicker; EIn "y"] cache_start))))).
Proof.
  apply (omitted_result_stays_cached (Msg := unit) (fun _ => None) (fun _ => None) (fun _ => true)
    (fun _ => false) (mkConf 10 15) "x" [ETicker; EIn "y"] false None).
  intros i. rewrite !not_elem_of_cons. repeat split; try discriminate. apply not_elem_of_nil.
Defined.

(** ** The source buffer *)

Section DynamicBuffer.
Context {A : Type}.

Record DynamicChannelBuffer : Type := mkBuf { limit : Z; buf : list A }.

Definition NewDynamicChannelBuffer : DynamicChannelBuffer := mkBuf 102400 [].

Definition SetLimit (l : Z) (b : DynamicChannelBuffer) : DynamicChannelBuffer :=
  if l >? 0 then mkBuf l (buf b) else b.

(** The communications the select of one round offers. *)
Definition may_send (b : DynamicChannelBuffer) : bool := Z.of_nat (length (buf b)) >? 0.
Definition may_receive (b : DynamicChannelBuffer) : bool := negb (Z.of_nat (length (buf b)) >=? limit b).

Inductive buf_step : DynamicChannelBuffer -> DynamicChannelBuffer -> list A -> list A -> Prop :=
  | buf_receive b v : may_receive b = true -> buf_step b (mkBuf (limit b) (buf b ++ [v])) [v] []
  | buf_send b x l : buf b = x :: l -> may_send b = true -> buf_step b (mkBuf (limit b) l) [] [x]
  | buf_limit b l : buf_step b (SetLimit l b) [] [].

Inductive buf_run : DynamicChannelBuffer -> DynamicChannelBuffer -> list A -> list A -> Prop :=
  | buf_refl b : buf_run b b [] []
  | buf_trans b1 b2 b3 i1 o1 i2 o2 :
      buf_run b1 b2 i1 o1 -> buf_step b2 b3 i2 o2 -> buf_run b1 b3 (i1 ++ i2) (o1 ++ o2).

(** the source buffer is a queue: in every run what has come out followed
    by what it holds is what went in, in order; a receive never takes it beyond
    its limit; and it is never stuck: it can receive or send. *)
Theorem buffer_is_fifo b ins outs :
  buf_run NewDynamicChannelBuffer b ins outs ->
  ins = outs ++ buf b /\ (may_receive b = true -> Z.of_nat (length (buf b)) + 1 <= limit b)
  /\ (may_receive b = true \/ may_send b = true).
Proof.
  intros H.
  assert (G : ins = outs ++ buf b /\ 0 < limit b).
  { remember NewDynamicChannelBuffer as b0. induction H as [b|b1 b2 b3 i1 o1 i2 o2 _ IH Hs]; subst.
    - cbn. split; [reflexivity|lia].
    - destruct (IH eq_refl) as [IH1 IH2]. destruct Hs as [b v Hm|b x l Hb Hm|b l]; cbn.
      + split; [|exact IH2]. now rewrite IH1, app_nil_r, app_assoc.
      + split; [|exact IH2]. rewrite app_nil_r, IH1, Hb, <- app_assoc. reflexivity.
      + rewrite !app_nil_r. unfold SetLimit. destruct (Z.gtb_spec l 0); cbn; auto. }
  destruct G as [G1 G2]. split; [exact G1|]. unfold may_receive, may_send.
  rewrite Z.geb_leb, Z.gtb_ltb.
  destruct (Z.leb_spec (limit b) (Z.of_nat (length (buf b)))), (Z.ltb_spec 0 (Z.of_nat (length (buf b))));
    cbn; split; try lia; auto; intros; lia || discriminate.
Qed.
End DynamicBuffer.

Lemma buffer_is_fifo_witness :
  buf_run NewDynamicChannelBuffer (mkBuf 102400 [2]) [1; 2] [1] /\ [1; 2] = [1] ++ [2].
Proof.
  assert (R : buf_run NewDynamicChannelBuffer (mkBuf 102400 [2]) [1; 2] [1]).
  { apply (buf_trans _ (mkBuf 102400 [1; 2]) _ [1; 2] [] [] [1]).
    - apply (buf_trans _ (mkBuf 102400 [1]) _ [1] [] [2] []).
      + apply (buf_trans _ NewDynamicChannelBuffer _ [] [] [1] []); [constructor|].
        apply (buf_receive NewDynamicChannelBuffer 1). reflexivity.
      + apply (buf_receive (mkBuf 102400 [1]) 2). reflexivity.
    - apply (buf_send (mkBuf 102400 [1; 2]) 1 [2]); reflexivity. }
  split; [exact R|]. apply (buffer_is_fifo _ _ _ R).
Defined.
