(* ===== verification/Pool.v ===== *)
(** Source nodes and the pool of shared sources
    (src/internal/topo/node/source_pool.go, source_node.go and [getSourceConf] of
    node.go).

    The pool maps a key to the only instance of a shared source, which has an
    output for every rule instance attached to it.  Every method of the pool and
    of an instance is one critical section and is one function here; [None] is a
    call that waits for a lock for ever.  A value is sent to the outputs after
    the lock is released and [broadcast] waits until every rule has taken it;
    here it arrives at once, and rules that never take a value are left out.  [broadcastError] takes its read lock a
    second time where it should release it, so after an error the outputs stay
    locked. *)

From S2P Require Import Prelude Ast Value Cast.
From stdpp Require Import base gmap list strings fin_maps.
From Stdlib Require Import ZArith Lia.

#[local] Open Scope string_scope.

(** ** The pool *)

Section Pool.
Context {V : Type}.

(** An instance: what each output has received, whether its loop runs, whether
    its source is open, and whether its lock is held for ever. *)
Record sourceSingleton : Type := mkSingleton {
  outputs : gmap string (list V);
  looping : bool;
  source_open : bool;
  locked : bool }.

Record sourcePool : Type := mkPool {
  registry : gmap string nat;
  singletons : gmap nat sourceSingleton;
  next_id : nat;
  pool_locked : bool }.

Definition empty_pool : sourcePool := mkPool ∅ ∅ 0 false.

Definition new_singleton : sourceSingleton := mkSingleton ∅ true true false.

Definition with_outputs (o : gmap string (list V)) (s : sourceSingleton) : sourceSingleton :=
  mkSingleton o (looping s) (source_open s) (locked s).

Definition put_singleton (id : nat) (s : sourceSingleton) (p : sourcePool) : sourcePool :=
  mkPool (registry p) (<[id := s]> (singletons p)) (next_id p) (pool_locked p).

Definition load (k : string) (p : sourcePool) : option (option nat) :=
  if pool_locked p then None else Some (registry p !! k).

(** [addInstance]; [started] is whether [start] succeeds. *)
Definition addInstance (k : string) (started : bool) (p : sourcePool) : option (sourcePool * option nat) :=
  if pool_locked p then None
  else
    match registry p !! k with
    | Some id => Some (p, Some id)
    | None =>
        if started then
          let id := next_id p in
          Some (mkPool (<[k := id]> (registry p)) (<[id := new_singleton]> (singletons p)) (S id) (pool_locked p), Some id)
        else Some (p, None)
    end.

(** The outputs with the new one, or the error that the key is there already. *)
Definition attach (instanceKey : string) (s : sourceSingleton) : option (option sourceSingleton) :=
  if locked s then None
  else
    match outputs s !! instanceKey with
    | Some _ => Some None
    | None => Some (Some (with_outputs (<[instanceKey := []]> (outputs s)) s))
    end.

(** Whether the last output has gone; if so the loop is cancelled. *)
Definition detach (instanceKey : string) (s : sourceSingleton) : option (bool * sourceSingleton) :=
  if locked s then None
  else
    let o := delete instanceKey (outputs s) in
    if Nat.eqb (size o) 0 then Some (true, mkSingleton o false (source_open s) (locked s)) else Some (false, with_outputs o s).

Definition close_singleton (s : sourceSingleton) : sourceSingleton := mkSingleton (outputs s) false false (locked s).

(** [deleteInstance] holds the lock of the pool while it waits for the lock of
    the instance: the pool it leaves behind is locked. *)
Definition deleteInstance (k instanceKey : string) (p : sourcePool) : option sourcePool :=
  if pool_locked p then None
  else
    match registry p !! k with
    | None => Some p
    | Some id =>
        match singletons p !! id with
        | None => Some p
        | Some s =>
            match detach instanceKey s with
            | None => Some (mkPool (registry p) (singletons p) (next_id p) true)
            | Some (true, s') =>
                Some (mkPool (delete k (registry p)) (<[id := close_singleton s']> (singletons p)) (next_id p) (pool_locked p))
            | Some (false, s') => Some (put_singleton id s' p)
            end
        end
    end.

(** [getSourceInstance] for a shared source without other steps in between:
    [found] is whether there is such a source, [started] whether it starts.  The
    result is the instance attached to, or an error. *)
Definition attach_to (k instanceKey : string) (id : nat) (p : sourcePool) : option (sourcePool * option nat) :=
  match singletons p !! id with
  | None => Some (p, None)
  | Some s =>
      match attach instanceKey s with
      | None => None
      | Some None => Some (p, None)
      | Some (Some s') => Some (put_singleton id s' p, Some id)
      end
  end.

Definition getSourceInstance (k instanceKey : string) (found started : bool) (p : sourcePool) : option (sourcePool * option nat) :=
  match load k p with
  | None => None
  | Some (Some id) => attach_to k instanceKey id p
  | Some None =>
      if found then
        match addInstance k started p with
        | None => None
        | Some (p', None) => Some (p', None)
        | Some (p', Some id) => attach_to k instanceKey id p'
        end
      else Some (p, None)
  end.

(** [broadcast]: every output gets the value. *)
Definition broadcast (v : V) (s : sourceSingleton) : sourceSingleton :=
  with_outputs ((fun l : list V => (l ++ [v])%list) <$> outputs s) s.

(** A value or an error from the source: the loop of [run]. *)
Definition on_data (id : nat) (v : V) (p : sourcePool) : sourcePool :=
  match singletons p !! id with
  | Some s => if looping s then put_singleton id (broadcast v s) p else p
  | None => p
  end.

Definition on_error (id : nat) (p : sourcePool) : sourcePool :=
  match singletons p !! id with
  | Some s => if looping s then put_singleton id (mkSingleton (outputs s) false (source_open s) true) p else p
  | None => p
  end.

(** ** Runs *)

Inductive action : Type :=
  | Open (k instanceKey : string) (found started : bool)
  | Close (k instanceKey : string)
  | Data (k : string) (v : V).

Definition pool_step (p : sourcePool) (a : action) : option sourcePool :=
  match a with
  | Open k i found started => fst <$> getSourceInstance k i found started p
  | Close k i => deleteInstance k i p
  | Data k v => Some (match registry p !! k with Some id => on_data id v p | None => p end)
  end.

Fixpoint pool_run (p : sourcePool) (l : list action) : option sourcePool :=
  match l with [] => Some p | a :: l' => match pool_step p a with Some p' => pool_run p' l' | None => None end end.
End Pool.
Arguments sourceSingleton V : clear implicits.
Arguments sourcePool V : clear implicits.
Arguments action V : clear implicits.

(** ** Source nodes *)

(** [removeSourceInstance]: one detach per instance of the node. *)
Fixpoint removeSourceInstance {V} (rkey : string) (instanceKey : nat -> string) (i concurrency : nat) (p : sourcePool V)
    : option (sourcePool V) :=
  match concurrency with
  | O => Some p
  | S c => match deleteInstance rkey (instanceKey i) p with
           | Some p' => removeSourceInstance rkey instanceKey (S i) c p'
           | None => None
           end
  end.

Definition source_type (st : StreamType) (type : string) : string :=
  if String.eqb type "" then match st with TypeStream => "mqtt" | TypeTable => "file" end else type.

(** The configuration file of a source: it cannot be read, it is no map, or the
    map of its sections, which are maps or something else. *)
Inductive conf_file : Type := Unreadable | Malformed | Sections (cfg : list (string * value)).

Definition section (key : string) (cfg : list (string * value)) : option (list (string * value)) :=
  match Prelude.assoc key cfg with Some (VMap m) => Some m | Some (VTypedNil Value.GMap) => Some [] | _ => None end.

(** [getSourceConf]: without the default section the one of the stream's key is
    not looked at. *)
Definition getSourceConf (conf : conf_file) (CONF_KEY FORMAT : string) : list (string * value) :=
  let props :=
    match conf with
    | Unreadable | Malformed => []
    | Sections cfg =>
        match Prelude.assoc "default" cfg with
        | None => []
        | Some _ =>
            let def := default [] (section "default" cfg) in
            fold_left (fun props kv => assoc_set (fst kv) (snd kv) props) (default [] (section CONF_KEY cfg)) def
        end
    end in
  assoc_set "format" (VString (to_lower (if String.eqb FORMAT "" then "json" else FORMAT))) props.

Section Config.
Context {L : FloatLib}.

(** A positive integer of the configuration, or the value there was. *)
Definition positive_prop (key : string) (props : list (string * value)) (d : Z) : Z :=
  match Prelude.assoc key props with
  | Some c => match ToInt c STRICT with inr t => if (t <=? 0)%Z then d else t | inl _ => d end
  | None => d
  end.

Definition concurrency_of (props : list (string * value)) : Z := positive_prop "concurrency" props 1.
Definition bufferLength_of (props : list (string * value)) : Z := positive_prop "bufferLength" props 102400.
End Config.

Definition retain_prop (st : StreamType) (RETAIN_SIZE : Z) (props : list (string * value)) : list (string * value) :=
  match st with
  | TypeTable => if (RETAIN_SIZE >? 0)%Z then assoc_set "$retainSize" (VInt RETAIN_SIZE) props else props
  | TypeStream => props
  end.

(** [start]: what happens to a source before it is opened.  [rewind] is what a
    rewindable source answers, [offset] what the state holds under the offset
    key (or the error of reading it).  A shared source is never rewound. *)
Definition start (shared : bool) (configure : option value) (rewind : option (value -> option value))
    (offset : value + option value) : value + option value :=
  match configure with
  | Some err => inl err
  | None =>
      if shared then inr None
      else
        match rewind with
        | None => inr None
        | Some rw =>
            match offset with
            | inl err => inl err
            | inr None => inr None
            | inr (Some o) => match rw o with Some err => inl err | None => inr (Some o) end
            end
        end
  end.

(** ** The pool as a map of queues

    The specification: per key the attached instances with what they received. *)

Section Spec.
Context {V : Type}.

Definition attached (s : gmap string (gmap string (list V))) (k : string) : gmap string (list V) := default ∅ (s !! k).

Definition spec_step (s : gmap string (gmap string (list V))) (a : action V) : gmap string (gmap string (list V)) :=
  match a with
  | Open k i found started =>
      if Nat.eqb (size (attached s k)) 0 then if found && started then <[k := {[i := []]}]> s else s
      else match attached s k !! i with Some _ => s | None => <[k := <[i := []]> (attached s k)]> s end
  | Close k i => <[k := delete i (attached s k)]> s
  | Data k v => <[k := (fun l : list V => (l ++ [v])%list) <$> attached s k]> s
  end.

Definition spec_run (l : list (action V)) : gmap string (gmap string (list V)) := fold_left spec_step l ∅.

(** An instance in use. *)
Definition serving (sg : sourceSingleton V) (o : gmap string (list V)) : Prop :=
  outputs sg = o /\ o <> ∅ /\ looping sg = true /\ source_open sg = true /\ locked sg = false.

Record represents (p : sourcePool V) (s : gmap string (gmap string (list V))) : Prop := {
  rep_unlocked : pool_locked p = false;
  rep_registered : forall k id, registry p !! k = Some id ->
    exists sg, singletons p !! id = Some sg /\ serving sg (attached s k);
  rep_absent : forall k, registry p !! k = None -> attached s k = ∅;
  rep_injective : forall k k' id, registry p !! k = Some id -> registry p !! k' = Some id -> k = k';
  rep_fresh : forall id sg, singletons p !! id = Some sg -> (id < next_id p)%nat;
  rep_closed : forall id sg, singletons p !! id = Some sg -> (exists k, registry p !! k = Some id) \/ source_open sg = false }.

Lemma attached_same s k o : attached (<[k := o]> s) k = o.
Proof. unfold attached. now rewrite lookup_insert_eq. Qed.

Lemma attached_other s k k' o : k <> k' -> attached (<[k := o]> s) k' = attached s k'.
Proof. intros H. unfold attached. now rewrite lookup_insert_ne. Qed.

Lemma size_zero (o : gmap string (list V)) : Nat.eqb (size o) 0 = true <-> o = ∅.
Proof. rewrite Nat.eqb_eq. apply map_size_empty_iff. Qed.

(** Changing the outputs of a registered instance. *)
Lemma represents_put p s k id sg o : represents p s -> registry p !! k = Some id -> singletons p !! id = Some sg ->
  serving sg (attached s k) -> o <> ∅ -> represents (put_singleton id (with_outputs o sg) p) (<[k := o]> s).
Proof.
  intros R Hk Hid (_ & _ & Hl & Ho & Hu) Hn. split; cbn.
  - apply R.
  - intros k' id' H. destruct (decide (k = k')) as [<-|N].
    + assert (id' = id) as -> by congruence. rewrite lookup_insert_eq. eexists. split; [reflexivity|].
      rewrite attached_same. repeat split; auto.
    + destruct (rep_registered _ _ R _ _ H) as (sg' & E & S). rewrite attached_other by exact N.
      rewrite lookup_insert_ne; [eauto|]. intros <-. now apply N, (rep_injective _ _ R _ _ id).
  - intros k' H. destruct (decide (k = k')) as [<-|N]; [congruence|]. rewrite attached_other by exact N. now apply R.
  - apply R.
  - intros id' sg' H. destruct (decide (id = id')) as [<-|N]; [eapply (rep_fresh _ _ R); eauto|].
    rewrite lookup_insert_ne in H by exact N. eapply (rep_fresh _ _ R); eauto.
  - intros id' sg' H. destruct (decide (id = id')) as [<-|N]; [eauto|].
    rewrite lookup_insert_ne in H by exact N. eapply (rep_closed _ _ R); eauto.
Qed.

(** The last detach. *)
Lemma represents_close p s k id sg : represents p s -> registry p !! k = Some id ->
  represents (mkPool (delete k (registry p)) (<[id := close_singleton sg]> (singletons p)) (next_id p) (pool_locked p)) (<[k := ∅]> s).
Proof.
  intros R Hk. destruct (rep_registered _ _ R _ _ Hk) as (sg0 & Hid & _). split; cbn.
  - apply R.
  - intros k' id' H. apply lookup_delete_Some in H as [N H]. rewrite attached_other by exact N.
    destruct (rep_registered _ _ R _ _ H) as (sg' & E & S). rewrite lookup_insert_ne; [eauto|].
    intros <-. now apply N, (rep_injective _ _ R _ _ id).
  - intros k' H. destruct (decide (k = k')) as [<-|N]; [apply attached_same|].
    rewrite lookup_delete_ne in H by exact N. rewrite attached_other by exact N. now apply R.
  - intros k1 k2 id' H1 H2. apply lookup_delete_Some in H1 as [_ H1], H2 as [_ H2]. now apply (rep_injective _ _ R k1 k2 id').
  - intros id' sg' H. destruct (decide (id = id')) as [<-|N]; [eapply (rep_fresh _ _ R); eauto|].
    rewrite lookup_insert_ne in H by exact N. eapply (rep_fresh _ _ R); eauto.
  - intros id' sg' H. destruct (decide (id = id')) as [<-|N].
    + rewrite lookup_insert_eq in H. injection H as <-. now right.
    + rewrite lookup_insert_ne in H by exact N. destruct (rep_closed _ _ R _ _ H) as [[k' E]|E]; [|now right].
      left. exists k'. rewrite lookup_delete_ne; [exact E|]. intros <-. congruence.
Qed.

(** The first attach. *)
Lemma represents_new p s k i : represents p s -> registry p !! k = None ->
  represents (mkPool (<[k := next_id p]> (registry p))
                (<[next_id p := with_outputs {[i := []]} new_singleton]> (singletons p)) (S (next_id p)) (pool_locked p))
    (<[k := {[i := []]}]> s).
Proof.
  intros R Hk.
  assert (F : forall k' id, registry p !! k' = Some id -> id <> next_id p).
  { intros k' id H ->. destruct (rep_registered _ _ R _ _ H) as (sg & E & _). apply (rep_fresh _ _ R) in E. lia. }
  split; cbn.
  - apply R.
  - intros k' id H. destruct (decide (k = k')) as [<-|N].
    + rewrite lookup_insert_eq in H. injection H as <-. rewrite lookup_insert_eq, attached_same. eexists. split; [reflexivity|].
      repeat split; cbn. apply insert_non_empty.
    + rewrite lookup_insert_ne in H by exact N. rewrite attached_other by exact N.
      rewrite lookup_insert_ne; [now apply R|]. intros <-. now apply F in H.
  - intros k' H. destruct (decide (k = k')) as [<-|N]; [now rewrite lookup_insert_eq in H|].
    rewrite lookup_insert_ne in H by exact N. rewrite attached_other by exact N. now apply R.
  - intros k1 k2 id H1 H2. destruct (decide (k = k1)) as [<-|N1], (decide (k = k2)) as [<-|N2]; try reflexivity.
    + rewrite lookup_insert_eq in H1. rewrite lookup_insert_ne in H2 by exact N2. injection H1 as <-. now apply F in H2.
    + rewrite lookup_insert_eq in H2. rewrite lookup_insert_ne in H1 by exact N1. injection H2 as <-. now apply F in H1.
    + rewrite lookup_insert_ne in H1, H2 by assumption. now apply (rep_injective _ _ R k1 k2 id).
  - intros id sg H. destruct (decide (next_id p = id)) as [<-|N]; [lia|]. rewrite lookup_insert_ne in H by exact N.
    apply (rep_fresh _ _ R) in H. lia.
  - intros id sg H. destruct (decide (next_id p = id)) as [<-|N].
    + left. exists k. apply lookup_insert_eq.
    + rewrite lookup_insert_ne in H by exact N. destruct (rep_closed _ _ R _ _ H) as [[k' E]|E]; [|now right].
      left. exists k'. rewrite lookup_insert_ne; [exact E|]. intros <-. congruence.
Qed.

Lemma represents_ext p s s' : (forall k, attached s k = attached s' k) -> represents p s -> represents p s'.
Proof.
  intros E R. split; try apply R.
  - intros k id H. rewrite <- E. now apply R.
  - intros k H. rewrite <- E. now apply R.
Qed.

Lemma attached_insert_id s k k' : attached s k' = attached (<[k := attached s k]> s) k'.
Proof. destruct (decide (k = k')) as [<-|N]; [now rewrite attached_same|now rewrite attached_other]. Qed.

(** The outputs decide whether an instance is registered. *)
Lemma registered_iff p s k : represents p s -> (registry p !! k = None <-> attached s k = ∅).
Proof.
  intros R. split; [apply R|]. intros E. destruct (registry p !! k) as [id|] eqn:H; [|reflexivity].
  destruct (rep_registered _ _ R _ _ H) as (sg & _ & (_ & N & _)). contradiction.
Qed.

Lemma open_represents p s k i found started : represents p s ->
  exists p', pool_step p (Open k i found started) = Some p' /\ represents p' (spec_step s (Open k i found started)).
Proof.
  intros R. cbn. unfold getSourceInstance, load. rewrite (rep_unlocked _ _ R).
  destruct (registry p !! k) as [id|] eqn:H.
  - destruct (rep_registered _ _ R _ _ H) as (sg & E & S). pose proof S as (Ho & Hn & _ & _ & Hu).
    assert (Z : Nat.eqb (size (attached s k)) 0 = false) by (apply not_true_is_false; rewrite size_zero; exact Hn).
    rewrite Z. unfold attach_to, attach. rewrite E, Hu, Ho. destruct (attached s k !! i) eqn:L; cbn; [eauto|].
    eexists. split; [reflexivity|]. apply represents_put; auto. apply insert_non_empty.
  - pose proof (rep_absent _ _ R _ H) as E. rewrite E. change (Nat.eqb (size (∅ : gmap string (list V))) 0) with true.
    destruct found; cbn [andb]; [|eauto]. unfold addInstance. rewrite (rep_unlocked _ _ R), H.
    destruct started; cbn [andb]; [|eauto]. unfold attach_to. cbn [singletons]. rewrite lookup_insert_eq.
    change (attach (V := V) i new_singleton) with (Some (Some (with_outputs {[i := @nil V]} new_singleton))). cbv beta iota.
    unfold put_singleton. cbn [registry singletons next_id pool_locked]. rewrite insert_insert_eq. eexists. split; [reflexivity|].
    pose proof (represents_new p s k i R H) as N. rewrite (rep_unlocked _ _ R) in N. exact N.
Qed.

Lemma close_represents p s k i : represents p s ->
  exists p', pool_step p (Close k i) = Some p' /\ represents p' (spec_step s (Close k i)).
Proof.
  intros R. cbn. unfold deleteInstance. rewrite (rep_unlocked _ _ R). destruct (registry p !! k) as [id|] eqn:H.
  - destruct (rep_registered _ _ R _ _ H) as (sg & E & S). pose proof S as (Ho & _ & Hl & Hs & Hu).
    rewrite E. unfold detach. rewrite Hu, Ho. destruct (Nat.eqb (size (delete i (attached s k))) 0) eqn:Z.
    + apply size_zero in Z. rewrite Z. eexists. split; [reflexivity|].
      pose proof (represents_close p s k id (mkSingleton ∅ false (source_open sg) false) R H) as C.
      now rewrite (rep_unlocked _ _ R) in C.
    + eexists. split; [reflexivity|]. apply represents_put; auto. intros C. apply size_zero in C. congruence.
  - eexists. split; [reflexivity|]. apply (represents_ext p s); [|exact R]. intros k'.
    rewrite (rep_absent _ _ R _ H), delete_empty. rewrite <- (rep_absent _ _ R _ H). apply attached_insert_id.
Qed.

Lemma data_represents p s k v : represents p s ->
  exists p', pool_step p (Data k v) = Some p' /\ represents p' (spec_step s (Data k v)).
Proof.
  intros R. cbn. eexists. split; [reflexivity|]. destruct (registry p !! k) as [id|] eqn:H.
  - destruct (rep_registered _ _ R _ _ H) as (sg & E & S). pose proof S as (Ho & Hn & Hl & _).
    unfold on_data, broadcast. rewrite E, Hl, Ho. apply represents_put; auto. now rewrite fmap_empty_iff.
  - apply (represents_ext p s); [|exact R]. intros k'. rewrite (rep_absent _ _ R _ H), fmap_empty.
    rewrite <- (rep_absent _ _ R _ H). apply attached_insert_id.
Qed.

Lemma step_represents p s a : represents p s -> exists p', pool_step p a = Some p' /\ represents p' (spec_step s a).
Proof. destruct a; auto using open_represents, close_represents, data_represents. Qed.

Lemma run_represents l : forall p s, represents p s ->
  exists p', pool_run p l = Some p' /\ represents p' (fold_left spec_step l s).
Proof.
  induction l as [|a l IH]; intros p s R; cbn; [eauto|]. destruct (step_represents p s a R) as (p' & -> & R'). now apply IH.
Qed.

Lemma empty_represents : represents empty_pool ∅.
Proof.
  split; cbn; try reflexivity; intros; try (rewrite lookup_empty in *; discriminate).
Qed.


End Spec.

Definition pool_history : list (action Z) :=
  [Open "mqtt.demo" "r1.0" true true; Open "mqtt.demo" "r2.0" true true; Data "mqtt.demo" 5%Z; Close "mqtt.demo" "r1.0";
   Close "mqtt.demo" "r2.0"].


(** ** Where it breaks *)

(** A rule that found the instance before another one closed it attaches itself
    to a closed source, which is in no registry. *)
Lemma attach_after_close :
  exists p1 p2 p3, pool_run (V := Z) empty_pool [Open "k" "r1" true true] = Some p1 /\ load "k" p1 = Some (Some 0%nat) /\
    pool_run p1 [Close "k" "r1"] = Some p2 /\ attach_to "k" "r2" 0 p2 = Some (p3, Some 0%nat) /\
    registry p3 = ∅ /\ exists sg, singletons p3 !! 0%nat = Some sg /\ source_open sg = false /\ outputs sg !! "r2" = Some [].
Proof.
  eexists _, _, _. split; [reflexivity|]. split; [reflexivity|]. split; [reflexivity|]. split; [reflexivity|].
  split; [reflexivity|]. eexists. split; [reflexivity|]. split; reflexivity.
Qed.

(** After an error of one source its rules wait for ever when they close it, and
    then every rule that opens any shared source. *)
Lemma error_blocks_pool :
  exists p1 p2, pool_run (V := Z) empty_pool [Open "k" "r1" true true] = Some p1 /\
    attach_to "k" "r2" 0 (on_error 0 p1) = None /\
    deleteInstance "k" "r1" (on_error 0 p1) = Some p2 /\ forall k i f st, getSourceInstance k i f st p2 = None.
Proof. eexists _, _. split; [reflexivity|]. split; [reflexivity|]. split; [reflexivity|]. reflexivity. Qed.

(** Closing a node twice closes it once. *)
Lemma close_again {V} (l : list (action V)) k i p p' : pool_run empty_pool l = Some p -> deleteInstance k i p = Some p' ->
  exists p'', deleteInstance k i p' = Some p'' /\ forall k', attached (spec_run (l ++ [Close k i])) k' = attached (spec_run (l ++ [Close k i; Close k i])) k'.
Proof.
  intros H Hd. destruct (run_represents l empty_pool ∅ empty_represents) as (q & H' & R). assert (q = p) as -> by congruence.
  destruct (close_represents p (spec_run l) k i R) as (p1 & E1 & R1). cbn in E1. assert (p1 = p') as -> by congruence.
  destruct (close_represents p' _ k i R1) as (p2 & E2 & _). exists p2. split; [exact E2|]. intros k'.
  unfold spec_run. rewrite !fold_left_app. cbn. destruct (decide (k = k')) as [<-|N].
  - now rewrite !attached_same, delete_delete_eq.
  - now rewrite !attached_other by exact N.
Qed.

(** Without a default section the section of the stream is not used. *)
Lemma conf_key_needs_default m : getSourceConf (Sections [("k", VMap m)]) "k" "" = [("format", VString "json")].
Proof. reflexivity. Qed.
