(* ===== verification/Planner.v ===== *)
(** The query planner (src/internal/topo/planner): the logical plan of a
    SELECT, column pruning and predicate push-down.

    A plan is the tree of [LogicalPlan]s; the methods that rewrite a plan in
    place return the rewritten plan.  An absent expression is [None].  The
    sources of an expression come from a Go map and have no order; the planner
    only asks how many there are and, of a single one, which. *)

From S2P Require Import Prelude Token Ast Value Collections AggFuncs Eval Operators Join.
From Stdlib Require Import ZArith Lia Bool List String Permutation.
Import ListNotations.

#[local] Open Scope string_scope.
#[local] Open Scope list_scope.
#[local] Open Scope Z_scope.

(** ** util.go *)

Definition add_source (l : list StreamName) (s : StreamName) : list StreamName :=
  if mem s l then l else l ++ [s].

Definition visit_ref (l : list StreamName) (n : node) : list StreamName * bool :=
  match n with
  | NExpr (FieldRef sn _ a) => (fold_left add_source (fr_RefSources sn a) l, false)
  | _ => (l, true)
  end.

Definition ref_sources (e : expr) : list StreamName := walk_expr visit_ref e [].

(** [getRefSources]: the distinct sources and whether the default stream is one. *)
Definition getRefSources (e : option expr) : list StreamName * bool :=
  match e with
  | None => ([], false)
  | Some x => (ref_sources x, mem DefaultStream (ref_sources x))
  end.

Definition combine (l r : option expr) : option expr :=
  match l, r with
  | Some l, Some r => Some (BinaryExpr AND l r)
  | Some l, None => Some l
  | None, r => r
  end.

(** What pruning needs of a statement's parts. *)
Inductive needed : Type :=
  | NeedField (sn : StreamName) (name : string)
  | NeedWildcard
  | NeedMeta (sn : StreamName) (name : string)
  | NeedSort (name : string).

Definition visit_field (l : list needed) (n : node) : list needed * bool :=
  (l ++ match n with
        | NExpr (FieldRef sn name _) => if fr_IsColumn sn then [NeedField sn name] else []
        | NExpr (Wildcard _) => [NeedWildcard]
        | NExpr (MetaRef sn name) => if negb (String.eqb sn "") then [NeedMeta sn name] else []
        | NSort s => [NeedSort (s_Name s)]
        | _ => []
        end, true).

Definition getFields_expr (e : option expr) : list needed := walk_opt_expr visit_field e [].

(** ** Plans *)

Record DataSource : Type := mkDS {
  ds_name : StreamName;
  streamStmt : StreamStmt;
  iet : bool;
  allMeta : bool;
  timestampField : string;
  timestampFormat : string;
  isBinary : bool;
  isWildCard : bool;
  streamFields : option (list string);  (* names of the columns kept; [None] is nil *)
  metaFields : list string }.

Record WindowParams : Type := mkWP {
  wtype : WindowType; wlength : Z; winterval : Z; wp_isEventTime : bool }.

Unset Elimination Schemes.

Inductive LogicalPlan : Type :=
  | DataSourcePlan (d : DataSource)
  | FilterPlan (condition : option expr) (children : list LogicalPlan)
  | WindowPlan (w : WindowParams) (condition : option expr) (children : list LogicalPlan)
  | JoinAlignPlan (Emitters : list string) (children : list LogicalPlan)
  | JoinPlan (from : Table) (joins : list Join) (children : list LogicalPlan)
  | AggregatePlan (dimensions : list expr) (children : list LogicalPlan)
  | HavingPlan (condition : option expr) (children : list LogicalPlan)
  | OrderPlan (sorts : list SortField) (children : list LogicalPlan)
  | ProjectPlan (fields : list Field) (isAggregate : bool) (sendMeta : bool) (children : list LogicalPlan).

Set Elimination Schemes.

Section PlanInd.
Variable P : LogicalPlan -> Prop.
Hypothesis Hds : forall d, P (DataSourcePlan d).
Hypothesis Hf : forall c l, Forall P l -> P (FilterPlan c l).
Hypothesis Hw : forall w c l, Forall P l -> P (WindowPlan w c l).
Hypothesis Ha : forall e l, Forall P l -> P (JoinAlignPlan e l).
Hypothesis Hj : forall f j l, Forall P l -> P (JoinPlan f j l).
Hypothesis Hg : forall d l, Forall P l -> P (AggregatePlan d l).
Hypothesis Hh : forall c l, Forall P l -> P (HavingPlan c l).
Hypothesis Ho : forall s l, Forall P l -> P (OrderPlan s l).
Hypothesis Hp : forall f a m l, Forall P l -> P (ProjectPlan f a m l).

Fixpoint LogicalPlan_ind (p : LogicalPlan) : P p :=
  let fix go (l : list LogicalPlan) : Forall P l :=
    match l with
    | [] => Forall_nil _
    | x :: l' => Forall_cons _ (LogicalPlan_ind x) (go l')
    end in
  match p with
  | DataSourcePlan d => Hds d
  | FilterPlan c l => Hf c l (go l)
  | WindowPlan w c l => Hw w c l (go l)
  | JoinAlignPlan e l => Ha e l (go l)
  | JoinPlan f j l => Hj f j l (go l)
  | AggregatePlan d l => Hg d l (go l)
  | HavingPlan c l => Hh c l (go l)
  | OrderPlan s l => Ho s l (go l)
  | ProjectPlan f a m l => Hp f a m l (go l)
  end.
End PlanInd.

(** ** Predicate push-down *)

(** [DataSourcePlan.extract]: what the source can filter, and the rest. *)
Fixpoint extract (name : StreamName) (e : expr) : option expr * option expr :=
  match ref_sources e with
  | [] => (Some e, None)
  | [s] => if String.eqb s name || String.eqb s DefaultStream then (Some e, None) else (None, Some e)
  | _ =>
      match e with
      | BinaryExpr AND l r =>
          let (ul, pl) := extract name l in
          let (ur, pr) := extract name r in
          (combine ul ur, combine pl pr)
      | _ => (None, Some e)
      end
  end.

Definition extract_opt (name : StreamName) (e : option expr) : option expr * option expr :=
  match e with Some x => extract name x | None => (None, None) end.

(** [DataSourcePlan.PushDownPredicate]. *)
Definition push_source (d : DataSource) (condition : option expr) : option expr * LogicalPlan :=
  let (owned, other) := extract_opt (ds_name d) condition in
  match owned with
  | Some _ => (other, FilterPlan owned [DataSourcePlan d])
  | None => (other, DataSourcePlan d)
  end.

(** [extractCondition]: the part over several sources, and the pushable part. *)
Fixpoint extractCondition_expr (e : expr) : option expr * option expr :=
  let s := ref_sources e in
  let single :=
    match s with
    | [] => true
    | [x] => negb (String.eqb x DefaultStream)
    | _ => false
    end in
  if single then (None, Some e)
  else
    match e with
    | BinaryExpr AND l r =>
        let (ul, pl) := extractCondition_expr l in
        let (ur, pr) := extractCondition_expr r in
        (combine ul ur, combine pl pr)
    | _ => (Some e, None)
    end.

Definition extractCondition (e : option expr) : option expr * option expr :=
  match e with Some x => extractCondition_expr x | None => (None, None) end.

(** What a filter does with the conditions its children left over. *)
Definition settle_filter (old rest : option expr) (children : list LogicalPlan) : LogicalPlan :=
  match rest, children with
  | Some _, _ => FilterPlan rest children
  | None, [child] => child
  | None, _ => FilterPlan old children
  end.

(** A filter directly above a source. *)
Definition push_filtered (c : option expr) (d : DataSource) (condition : option expr)
    : option expr * LogicalPlan :=
  let (rest, child) := push_source d (combine condition c) in
  (None, settle_filter c rest [child]).

Definition is_source (p : LogicalPlan) : bool :=
  match p with DataSourcePlan _ => true | _ => false end.

(** The second pass of [JoinAlignPlan] over a source: if the first pass put a
    filter above it, that filter is asked too. *)
Definition push_again (p : LogicalPlan) (condition : option expr) : option expr * LogicalPlan :=
  match p with
  | FilterPlan c [DataSourcePlan d] => push_filtered c d condition
  | _ => (condition, p)
  end.

(** The first pass of [JoinAlignPlan]: the sources. *)
Fixpoint push_sources (rest : option expr) (l : list LogicalPlan) : option expr * list LogicalPlan :=
  match l with
  | [] => (rest, [])
  | DataSourcePlan d :: l' =>
      let (r, c) := push_source d rest in
      let (r', cs) := push_sources r l' in (r', c :: cs)
  | c :: l' => let (r', cs) := push_sources rest l' in (r', c :: cs)
  end.

Fixpoint PushDownPredicate (p : LogicalPlan) (condition : option expr) {struct p}
    : option expr * LogicalPlan :=
  let fix push_list (rest : option expr) (l : list LogicalPlan) : option expr * list LogicalPlan :=
    match l with
    | [] => (rest, [])
    | c :: l' =>
        let (r, c') := PushDownPredicate c rest in
        let (r', cs) := push_list r l' in (r', c' :: cs)
    end in
  (* the second pass of JoinAlignPlan, over the children as the first left them *)
  let fix push_others (rest : option expr) (l first : list LogicalPlan) : option expr * list LogicalPlan :=
    match l, first with
    | c :: l', c1 :: first' =>
        let (r, c') := if is_source c then push_again c1 rest else PushDownPredicate c rest in
        let (r', cs) := push_others r l' first' in (r', c' :: cs)
    | _, _ => (rest, [])
    end in
  match p with
  | DataSourcePlan d => push_source d condition
  | FilterPlan c [] => (None, FilterPlan (combine condition c) [])
  | FilterPlan c children =>
      let (rest, children') := push_list (combine condition c) children in
      (None, settle_filter c rest children')
  | WindowPlan w c children =>
      if wt_eqb (wtype w) COUNT_WINDOW || wp_isEventTime w then (condition, p)
      else
        let (rest, children') := push_list (combine condition c) children in
        (None, WindowPlan w rest children')
  | JoinAlignPlan e children =>
      let (r1, first) := push_sources condition children in
      let (r2, children') := push_others r1 children first in
      (r2, JoinAlignPlan e children')
  | JoinPlan from joins children =>
      match joins with
      | [] => (condition, p)
      | j :: js =>
          if jt_eqb (j_Type j) INNER_JOIN then
            let (multi, single) := extractCondition (combine condition (j_Expr j)) in
            let (rest, children') := push_list single children in
            (None, JoinPlan from (mkJoin (j_Name j) (j_Alias j) (j_Type j) (combine multi rest) :: js) children')
          else
            let (multi, single) := extractCondition condition in
            let (rest, children') := push_list single children in
            (combine multi rest, JoinPlan from joins children')
      end
  | AggregatePlan d children =>
      let (r, l) := push_list condition children in (r, AggregatePlan d l)
  | HavingPlan c children =>
      let (r, l) := push_list condition children in (r, HavingPlan c l)
  | OrderPlan s children =>
      let (r, l) := push_list condition children in (r, OrderPlan s l)
  | ProjectPlan f a m children =>
      let (r, l) := push_list condition children in (r, ProjectPlan f a m l)
  end.

Lemma push_filtered_eq c d condition :
  PushDownPredicate (FilterPlan c [DataSourcePlan d]) condition = push_filtered c d condition.
Proof. cbn. unfold push_filtered. now destruct (push_source d (combine condition c)). Qed.

(** The push-down over a list of children. *)
Fixpoint push_list (rest : option expr) (l : list LogicalPlan) : option expr * list LogicalPlan :=
  match l with
  | [] => (rest, [])
  | c :: l' =>
      let (r, c') := PushDownPredicate c rest in
      let (r', cs) := push_list r l' in (r', c' :: cs)
  end.

(** The second pass of [JoinAlignPlan]. *)
Fixpoint push_others (rest : option expr) (l first : list LogicalPlan) : option expr * list LogicalPlan :=
  match l, first with
  | c :: l', c1 :: first' =>
      let (r, c') := if is_source c then push_again c1 rest else PushDownPredicate c rest in
      let (r', cs) := push_others r l' first' in (r', c' :: cs)
  | _, _ => (rest, [])
  end.

(** [PushDownPredicate] unfolded once, over the named passes. *)
Definition push_step (p : LogicalPlan) (condition : option expr) : option expr * LogicalPlan :=
  let pass (l : list LogicalPlan) (mk : list LogicalPlan -> LogicalPlan) :=
    let (r, l') := push_list condition l in (r, mk l') in
  match p with
  | DataSourcePlan d => push_source d condition
  | FilterPlan c [] => (None, FilterPlan (combine condition c) [])
  | FilterPlan c (x :: l) =>
      let (rest, children) := push_list (combine condition c) (x :: l) in (None, settle_filter c rest children)
  | WindowPlan w c l =>
      if wt_eqb (wtype w) COUNT_WINDOW || wp_isEventTime w then (condition, p)
      else let (rest, children) := push_list (combine condition c) l in (None, WindowPlan w rest children)
  | JoinAlignPlan e l =>
      let (r1, first) := push_sources condition l in
      let (r2, children) := push_others r1 l first in (r2, JoinAlignPlan e children)
  | JoinPlan from [] l => (condition, p)
  | JoinPlan from (j :: js) l =>
      if jt_eqb (j_Type j) INNER_JOIN then
        let (multi, single) := extractCondition (combine condition (j_Expr j)) in
        let (rest, children) := push_list single l in
        (None, JoinPlan from (mkJoin (j_Name j) (j_Alias j) (j_Type j) (combine multi rest) :: js) children)
      else
        let (multi, single) := extractCondition condition in
        let (rest, children) := push_list single l in (combine multi rest, JoinPlan from (j :: js) children)
  | AggregatePlan d l => pass l (AggregatePlan d)
  | HavingPlan c l => pass l (HavingPlan c)
  | OrderPlan s l => pass l (OrderPlan s)
  | ProjectPlan f a m l => pass l (ProjectPlan f a m)
  end.

Lemma push_eq p c : PushDownPredicate p c = push_step p c.
Proof. destruct p as [|? []| | |? []| | | |]; reflexivity. Qed.

(** ** Column pruning *)

(** The intermediate state of [DataSourcePlan.PruneColumns]. *)
Record pruning : Type := mkPr {
  pr_wild : bool; pr_fields : list string; pr_allMeta : bool; pr_meta : list (string * string) }.

(** [getField]: is the name a column?  Anything is, without a schema. *)
Definition getField (d : DataSource) (name : string) : bool :=
  match ss_StreamFields (streamStmt d) with
  | Some l => existsb (fun f => String.eqb (fst f) name) l
  | None => true
  end.

Definition add_field (name : string) (s : pruning) : pruning :=
  mkPr (pr_wild s) (if mem name (pr_fields s) then pr_fields s else pr_fields s ++ [name])
    (pr_allMeta s) (pr_meta s).

Definition prune_one (d : DataSource) (s : pruning) (n : needed) : pruning :=
  match n with
  | NeedWildcard => mkPr true (pr_fields s) (pr_allMeta s) (pr_meta s)
  | NeedField sn name =>
      if negb (pr_wild s) && (String.eqb sn DefaultStream || String.eqb sn (ds_name d)) && getField d name
      then add_field name s else s
  | NeedMeta sn name =>
      if pr_allMeta s then s
      else if String.eqb sn DefaultStream || String.eqb sn (ds_name d) then
        if String.eqb name "*" then mkPr (pr_wild s) (pr_fields s) true []
        else mkPr (pr_wild s) (pr_fields s) false (assoc_set (to_lower name) name (pr_meta s))
      else s
  | NeedSort name => if negb (pr_wild s) && getField d name then add_field name s else s
  end.

(** [getProps]; the missing TIMESTAMP option is an error that nobody reads. *)
Definition getProps (d : DataSource) : DataSource :=
  let o := ss_Options (streamStmt d) in
  let has := iet d && negb (String.eqb (o_TIMESTAMP o) "") in
  let has_format := has && negb (String.eqb (o_TIMESTAMP_FORMAT o) "") in
  let missing := iet d && String.eqb (o_TIMESTAMP o) "" in
  mkDS (ds_name d) (streamStmt d) (iet d) (allMeta d)
    (if has then o_TIMESTAMP o else timestampField d)
    (if has_format then o_TIMESTAMP_FORMAT o else timestampFormat d)
    (if negb missing && String.eqb (to_lower (o_FORMAT o)) "binary" then true else isBinary d)
    (isWildCard d) (streamFields d) (metaFields d).

Definition prune_start (d : DataSource) : pruning :=
  mkPr (isWildCard d) (if String.eqb (timestampField d) "" then [] else [timestampField d]) (allMeta d) [].

Fixpoint insert_string (x : string) (l : list string) : list string :=
  match l with [] => [x] | y :: l' => if str_leb x y then x :: l else y :: insert_string x l' end.

Definition sort_strings (l : list string) : list string := fold_right insert_string [] l.

(** [getAllFields]. *)
Definition getAllFields (d : DataSource) (s : pruning) : DataSource :=
  mkDS (ds_name d) (streamStmt d) (iet d) (pr_allMeta s) (timestampField d) (timestampFormat d) (isBinary d)
    (pr_wild s)
    (if pr_wild s then option_map (map fst) (ss_StreamFields (streamStmt d)) else Some (pr_fields s))
    (sort_strings (map snd (pr_meta s))).

Definition prune_source (fields : list needed) (d : DataSource) : DataSource :=
  let d1 := getProps d in
  getAllFields d1 (fold_left (prune_one d1) fields (prune_start d1)).

Fixpoint PruneColumns (fields : list needed) (p : LogicalPlan) : LogicalPlan :=
  match p with
  | DataSourcePlan d => DataSourcePlan (prune_source fields d)
  | FilterPlan c l => FilterPlan c (map (PruneColumns (fields ++ getFields_expr c)) l)
  | WindowPlan w c l => WindowPlan w c (map (PruneColumns (fields ++ getFields_expr c)) l)
  | JoinAlignPlan e l => JoinAlignPlan e (map (PruneColumns fields) l)
  | JoinPlan from j l => JoinPlan from j (map (PruneColumns (fields ++ walk_joins visit_field j [])) l)
  | AggregatePlan d l => AggregatePlan d (map (PruneColumns (fields ++ walk_dimensions visit_field d [])) l)
  | HavingPlan c l => HavingPlan c (map (PruneColumns (fields ++ getFields_expr c)) l)
  | OrderPlan s l => OrderPlan s (map (PruneColumns (fields ++ walk_sorts visit_field s [])) l)
  | ProjectPlan f a m l => ProjectPlan f a m (map (PruneColumns (fields ++ walk_fields visit_field f [])) l)
  end.

(** [optimize]: pruning, then push-down; what the root leaves over is dropped. *)
Definition optimize (p : LogicalPlan) : LogicalPlan := snd (PushDownPredicate (PruneColumns [] p) None).

(** ** createLogicalPlan *)

Record RuleOption : Type := mkRuleOption {
  IsEventTime : bool;
  LateTol : Z;
  Concurrency : Z;
  BufferLength : Z;
  SendMetaToSink : bool;
  SendError : bool;
  Qos : Z;
  CheckpointInterval : Z }.

Definition new_source (opt : RuleOption) (s : StreamStmt) : LogicalPlan :=
  DataSourcePlan (mkDS (ss_Name s) s (IsEventTime opt) (SendMetaToSink opt) "" "" false false None []).

Definition is_stream (s : StreamStmt) : bool :=
  match ss_StreamType s with TypeStream => true | TypeTable => false end.

Definition window_plan (opt : RuleOption) (w : expr) (children : list LogicalPlan) : option LogicalPlan :=
  match w with
  | Window wt len itv f =>
      Some (WindowPlan (mkWP wt len
              (match itv with
               | Some i => i
               | None => if wt_eqb wt COUNT_WINDOW then len else 0
               end) (IsEventTime opt)) f children)
  | _ => None
  end.

(** The steps of [createLogicalPlan]: each wraps the children so far. *)
Definition add_window (opt : RuleOption) (stmt : SelectStatement) (children : list LogicalPlan)
    : string + list LogicalPlan :=
  match GetWindow (Dimensions stmt) with
  | None => inr children
  | Some w =>
      match children with
      | [] => inl "cannot run window for TABLE sources"
      | _ => match window_plan opt w children with Some p => inr [p] | None => inr children end
      end
  end.

Definition add_join (stmt : SelectStatement) (tables : list LogicalPlan) (emitters : list string)
    (children : list LogicalPlan) : string + list LogicalPlan :=
  match Joins stmt, Sources stmt with
  | [], _ => inr children
  | _, [] => inl "index out of range"
  | js, from :: _ =>
      match tables with
      | [] =>
          match GetWindow (Dimensions stmt) with
          | None => inl "need to run stream join in windows"
          | Some _ => inr [JoinPlan from js children]
          end
      | _ => inr [JoinPlan from js [JoinAlignPlan emitters (children ++ tables)]]
      end
  end.

Definition add_filter (stmt : SelectStatement) (children : list LogicalPlan) : list LogicalPlan :=
  match Condition stmt with Some c => [FilterPlan (Some c) children] | None => children end.

Definition add_groups (stmt : SelectStatement) (children : list LogicalPlan) : list LogicalPlan :=
  match GetGroups (Dimensions stmt) with [] => children | ds => [AggregatePlan ds children] end.

Definition add_having (stmt : SelectStatement) (children : list LogicalPlan) : list LogicalPlan :=
  match Having stmt with Some c => [HavingPlan (Some c) children] | None => children end.

Definition add_order (stmt : SelectStatement) (children : list LogicalPlan) : list LogicalPlan :=
  match SortFields stmt with [] => children | s => [OrderPlan s children] end.

(** The plan before optimization; the statement has fields. *)
Definition logical_plan (ff : FuncFinder) (stmt : SelectStatement) (streamStmts : list StreamStmt)
    (opt : RuleOption) : string + LogicalPlan :=
  let children := map (new_source opt) (filter is_stream streamStmts) in
  let tables := filter (fun s => negb (is_stream s)) streamStmts in
  match add_window opt stmt children with
  | inl e => inl e
  | inr children1 =>
      match add_join stmt (map (new_source opt) tables) (map ss_Name tables) children1 with
      | inl e => inl e
      | inr children2 =>
          inr (ProjectPlan (Fields stmt) (fst (IsAggStatement ff stmt)) (SendMetaToSink opt)
                 (add_order stmt (add_having stmt (add_groups stmt (add_filter stmt children2)))))
      end
  end.

Definition createLogicalPlan (ff : FuncFinder) (stmt : SelectStatement) (streamStmts : list StreamStmt)
    (opt : RuleOption) : string + LogicalPlan :=
  match logical_plan ff stmt streamStmts opt with
  | inl e => inl e
  | inr p => inr (optimize p)
  end.

(** ** Push-down moves conditions and loses none *)

(** The conjuncts of a condition. *)
Fixpoint conjuncts (e : expr) : list expr :=
  match e with
  | BinaryExpr AND l r => conjuncts l ++ conjuncts r
  | _ => [e]
  end.

Definition conjs (e : option expr) : list expr := match e with Some x => conjuncts x | None => [] end.

(** The conjuncts a plan evaluates: filters, window filters and ON conditions. *)
Fixpoint conditions (p : LogicalPlan) : list expr :=
  match p with
  | DataSourcePlan _ => []
  | FilterPlan c l => conjs c ++ flat_map conditions l
  | WindowPlan _ c l => conjs c ++ flat_map conditions l
  | JoinPlan _ js l => flat_map (fun j => conjs (j_Expr j)) js ++ flat_map conditions l
  | JoinAlignPlan _ l | AggregatePlan _ l | HavingPlan _ l | OrderPlan _ l | ProjectPlan _ _ _ l =>
      flat_map conditions l
  end.

(** Filters have at most one child, and joins have a table: true of the plans
    of statements. *)
Fixpoint one_child (p : LogicalPlan) : Prop :=
  match p with
  | DataSourcePlan _ => True
  | FilterPlan _ l => (List.length l <= 1)%nat /\ fold_right (fun x P => one_child x /\ P) True l
  | WindowPlan _ _ l | JoinPlan _ _ l | JoinAlignPlan _ l | AggregatePlan _ l | HavingPlan _ l
  | OrderPlan _ l | ProjectPlan _ _ _ l => fold_right (fun x P => one_child x /\ P) True l
  end.

Lemma conjs_combine l r : conjs (combine l r) = conjs l ++ conjs r.
Proof. destruct l, r; cbn; now rewrite ?app_nil_r. Qed.

Lemma swap_middle {A} (a b c d : list A) : Permutation ((a ++ b) ++ (c ++ d)) ((a ++ c) ++ (b ++ d)).
Proof.
  rewrite <- !app_assoc. apply Permutation_app_head. rewrite !app_assoc.
  apply Permutation_app_tail, Permutation_app_comm.
Qed.

Lemma extract_conjs name e : let (o, r) := extract name e in Permutation (conjs o ++ conjs r) (conjuncts e).
Proof.
  assert (A : forall e, Permutation (conjs (Some e) ++ conjs None) (conjuncts e))
    by (intros; cbn; now rewrite app_nil_r).
  induction e using expr_ind; cbn [extract];
    try (destruct (ref_sources _) as [|? [|? ?]]; try destruct (_ || _); first [apply A|reflexivity]).
  destruct (ref_sources (BinaryExpr _ _ _)) as [|s [|? ?]]; [apply A|destruct (_ || _); [apply A|reflexivity]|].
  destruct op; try reflexivity.
  destruct (extract name e1) as [ul pl], (extract name e2) as [ur pr].
  rewrite !conjs_combine, swap_middle. cbn [conjuncts]. now rewrite IHe1, IHe2.
Qed.

Lemma extractCondition_conjs e :
  let (o, r) := extractCondition_expr e in Permutation (conjs o ++ conjs r) (conjuncts e).
Proof.
  assert (A : forall e, Permutation (conjs (Some e) ++ conjs None) (conjuncts e))
    by (intros; cbn; now rewrite app_nil_r).
  assert (B : forall e, Permutation (conjs None ++ conjs (Some e)) (conjuncts e)) by reflexivity.
  induction e using expr_ind; cbn [extractCondition_expr];
    try (destruct (match ref_sources _ with [] => _ | _ => _ end); first [apply A|apply B]).
  destruct (match ref_sources (BinaryExpr op e1 e2) with [] => _ | _ => _ end); [apply B|].
  destruct op; try apply A.
  destruct (extractCondition_expr e1) as [ul pl], (extractCondition_expr e2) as [ur pr].
  rewrite !conjs_combine, swap_middle. cbn [conjuncts]. now rewrite IHe1, IHe2.
Qed.

(** [p] with condition [c] pushed into it, as [out], has the same conjuncts. *)
Definition same_conjuncts (c : option expr) (before : list expr) (rest : option expr) (after : list expr) : Prop :=
  Permutation (conjs rest ++ after) (conjs c ++ before).

Definition keeps_conjuncts (p : LogicalPlan) : Prop :=
  one_child p -> forall c, let (r, p') := PushDownPredicate p c in
  same_conjuncts c (conditions p) r (conditions p').

Lemma push_source_keeps d c : let (r, p') := push_source d c in same_conjuncts c [] r (conditions p').
Proof.
  unfold push_source, same_conjuncts, extract_opt. destruct c as [e|]; [|cbn; constructor].
  pose proof (extract_conjs (ds_name d) e) as H. destruct (extract (ds_name d) e) as [o r].
  destruct o as [o|]; cbn [conditions flat_map]; rewrite !app_nil_r; change (conjs (Some e)) with (conjuncts e);
    (eapply perm_trans; [|exact H]); [apply Permutation_app_comm|reflexivity].
Qed.

Lemma settle_filter_conditions old rest l : (List.length l = 1)%nat ->
  conditions (settle_filter old rest l) = conjs rest ++ flat_map conditions l.
Proof.
  destruct l as [|x [|? ?]]; try discriminate. intros _.
  destruct rest; cbn; rewrite ?app_nil_r; reflexivity.
Qed.

Lemma push_filtered_keeps c d cond : let (r, p') := push_filtered c d cond in
  same_conjuncts cond (conditions (FilterPlan c [DataSourcePlan d])) r (conditions p').
Proof.
  unfold push_filtered. pose proof (push_source_keeps d (combine cond c)) as H.
  destruct (push_source d (combine cond c)) as [rest child]. unfold same_conjuncts in *.
  rewrite settle_filter_conditions by reflexivity. cbn [conjs flat_map conditions app].
  rewrite !app_nil_r in *. now rewrite H, conjs_combine.
Qed.

Lemma push_list_keeps l : Forall keeps_conjuncts l -> fold_right (fun x P => one_child x /\ P) True l ->
  forall c, let (r, l') := push_list c l in
  same_conjuncts c (flat_map conditions l) r (flat_map conditions l') /\ List.length l' = List.length l.
Proof.
  unfold same_conjuncts. induction 1 as [|p l Hp _ IH]; intros Ho c; cbn [push_list]; [split; reflexivity|].
  destruct Ho as [Ho1 Ho2]. specialize (Hp Ho1 c). destruct (PushDownPredicate p c) as [r p'].
  specialize (IH Ho2 r). destruct (push_list r l) as [r' l']. destruct IH as [IH IHl].
  unfold same_conjuncts in Hp. cbn [flat_map List.length]. split; [|now rewrite IHl].
  rewrite app_assoc, (Permutation_app_comm (conjs r')), <- app_assoc, IH.
  rewrite (app_assoc (conditions p')), (Permutation_app_comm (conditions p')), Hp, <- app_assoc. reflexivity.
Qed.

(** What the first pass of an aligned join makes of a child. *)
Definition first_of (c c1 : LogicalPlan) : Prop :=
  match c with
  | DataSourcePlan d => c1 = DataSourcePlan d \/ exists o, c1 = FilterPlan o [DataSourcePlan d]
  | _ => c1 = c
  end.

Lemma push_sources_keeps l : forall c, let (r, first) := push_sources c l in
  same_conjuncts c (flat_map conditions l) r (flat_map conditions first) /\ Forall2 first_of l first.
Proof.
  unfold same_conjuncts. induction l as [|p l IH]; intros c; cbn [push_sources]; [split; [reflexivity|constructor]|].
  assert (G : forall q, q = p -> first_of p q -> let (r', cs) := push_sources c l in
    Permutation (conjs r' ++ flat_map conditions (q :: cs)) (conjs c ++ flat_map conditions (p :: l))
    /\ Forall2 first_of (p :: l) (q :: cs)).
  { intros q -> Hq. specialize (IH c). destruct (push_sources c l) as [r' cs]. destruct IH as [IH1 IH2].
    split; [|now constructor]. cbn [flat_map]. rewrite !app_assoc, (Permutation_app_comm (conjs r')),
      <- app_assoc, IH1, !app_assoc. apply Permutation_app_tail, Permutation_app_comm. }
  destruct p as [d| | | | | | | |];
    try (specialize (G _ eq_refl eq_refl); destruct (push_sources c l); exact G).
  pose proof (push_source_keeps d c) as H. unfold push_source in *.
  destruct (extract_opt (ds_name d) c) as [o r].
  assert (F : first_of (DataSourcePlan d) (snd (match o with
     | Some _ => (r, FilterPlan o [DataSourcePlan d]) | None => (r, DataSourcePlan d) end)))
    by (destruct o; cbn; eauto).
  unfold same_conjuncts in H.
  destruct o; cbn [snd] in F; specialize (IH r); destruct (push_sources r l) as [r' cs];
    destruct IH as [IH1 IH2]; (split; [|now constructor]);
    cbn [flat_map conditions] in *; rewrite ?app_nil_r in *; cbn [app] in *.
  - rewrite app_assoc, (Permutation_app_comm (conjs r')), <- app_assoc, IH1, app_assoc.
    apply Permutation_app_tail. now rewrite Permutation_app_comm.
  - rewrite IH1. now apply Permutation_app_tail.
Qed.

Lemma push_again_keeps c1 cond d : first_of (DataSourcePlan d) c1 ->
  let (r, p') := push_again c1 cond in same_conjuncts cond (conditions c1) r (conditions p').
Proof.
  intros [-> | [o ->]]; cbn [push_again]; [unfold same_conjuncts; reflexivity|].
  apply push_filtered_keeps.
Qed.

Lemma push_others_keeps l first : Forall2 first_of l first -> Forall keeps_conjuncts l ->
  fold_right (fun x P => one_child x /\ P) True l -> forall c,
  let (r, l') := push_others c l first in
  same_conjuncts c (flat_map conditions first) r (flat_map conditions l').
Proof.
  unfold same_conjuncts. induction 1 as [|p q l first Hq _ IH]; intros Hk Ho c; cbn [push_others]; [reflexivity|].
  inversion Hk as [|? ? Hk1 Hk2]; subst. destruct Ho as [Ho1 Ho2].
  assert (S1 : let (r, c') := if is_source p then push_again q c else PushDownPredicate p c in
     Permutation (conjs r ++ conditions c') (conjs c ++ conditions q)).
  { destruct p as [d| | | | | | | |]; cbn [is_source];
      [exact (push_again_keeps q c d Hq)|cbn [first_of] in Hq; subst q; exact (Hk1 Ho1 c)..]. }
  destruct (if is_source p then push_again q c else PushDownPredicate p c) as [r c'].
  specialize (IH Hk2 Ho2 r). destruct (push_others r l first) as [r' cs]. cbn [flat_map].
  rewrite app_assoc, (Permutation_app_comm (conjs r')), <- app_assoc, IH.
  rewrite (app_assoc (conditions c')), (Permutation_app_comm (conditions c')), S1, <- app_assoc. reflexivity.
Qed.

(** A plan that passes the condition on to its children. *)
Lemma pass_keeps l c before : Forall keeps_conjuncts l -> fold_right (fun x P => one_child x /\ P) True l ->
  before = flat_map conditions l ->
  let (r, l') := push_list c l in same_conjuncts c before r (flat_map conditions l').
Proof.
  intros H Ho ->. pose proof (push_list_keeps l H Ho c) as G.
  destruct (push_list c l) as [r l']. apply G.
Qed.

Lemma join_keeps from j js l c : Forall keeps_conjuncts l -> fold_right (fun x P => one_child x /\ P) True l ->
  let (r, p') := PushDownPredicate (JoinPlan from (j :: js) l) c in
  same_conjuncts c (conditions (JoinPlan from (j :: js) l)) r (conditions p').
Proof.
  intros H Ho.
  rewrite push_eq; cbn [push_step].
  assert (X : forall e, let (o, r) := extractCondition e in Permutation (conjs o ++ conjs r) (conjs e)).
  { intros [e|]; [apply extractCondition_conjs|cbn; constructor]. }
  unfold same_conjuncts. destruct (jt_eqb (j_Type j) INNER_JOIN).
  - specialize (X (combine c (j_Expr j))). destruct (extractCondition _) as [multi single].
    pose proof (push_list_keeps l H Ho single) as G. destruct (push_list single l) as [rest l'].
    destruct G as [G _]. unfold same_conjuncts in G. cbn [conditions flat_map conjs j_Expr app].
    rewrite conjs_combine in *. set (J := flat_map (fun j0 => conjs (j_Expr j0)) js).
    rewrite <- !app_assoc, (app_assoc (conjs rest)), (Permutation_app_comm (conjs rest)), <- app_assoc, G.
    rewrite (app_assoc (conjs c)), <- X, <- !app_assoc. apply Permutation_app_head.
    rewrite !app_assoc. apply Permutation_app_tail, Permutation_app_comm.
  - specialize (X c). destruct (extractCondition c) as [multi single].
    pose proof (push_list_keeps l H Ho single) as G. destruct (push_list single l) as [rest l'].
    destruct G as [G _]. unfold same_conjuncts in G. cbn [conditions]. rewrite conjs_combine.
    set (J := flat_map (fun j0 => conjs (j_Expr j0)) (j :: js)).
    rewrite <- !app_assoc, (app_assoc (conjs rest)), (Permutation_app_comm (conjs rest)), <- app_assoc, G.
    rewrite <- X, <- !app_assoc. apply Permutation_app_head. rewrite !app_assoc.
    apply Permutation_app_tail, Permutation_app_comm.
Qed.

Lemma pushdown_keeps p : keeps_conjuncts p.
Proof.
  induction p using LogicalPlan_ind; intros Ho cond; try (apply push_source_keeps);
    try (rewrite push_eq; cbn [push_step]; pose proof (pass_keeps l cond _ H Ho eq_refl) as G;
         destruct (push_list cond l); exact G).
  - destruct Ho as [Hlen Ho]. rewrite push_eq. destruct l as [|x l]; cbn [push_step].
    { cbn [conditions flat_map]. unfold same_conjuncts. cbn [conjs].
      rewrite conjs_combine, !app_nil_r. reflexivity. }
    pose proof (push_list_keeps (x :: l) H Ho (combine cond c)) as G.
    destruct (push_list (combine cond c) (x :: l)) as [rest l']. destruct G as [G GL].
    unfold same_conjuncts in *. rewrite settle_filter_conditions; [|cbn in *; lia].
    cbn [conjs app conditions]. rewrite G, conjs_combine, <- app_assoc. reflexivity.
  - rewrite push_eq; cbn [push_step]. destruct (_ || _); [unfold same_conjuncts; reflexivity|].
    pose proof (push_list_keeps l H Ho (combine cond c)) as G.
    destruct (push_list (combine cond c) l) as [rest l']. destruct G as [G _].
    unfold same_conjuncts in *. cbn [conjs app conditions]. now rewrite G, conjs_combine, <- app_assoc.
  - rewrite push_eq; cbn [push_step].
    pose proof (push_sources_keeps l cond) as G1. destruct (push_sources cond l) as [r1 first].
    destruct G1 as [G1 F1]. pose proof (push_others_keeps l first F1 H Ho r1) as G2.
    destruct (push_others r1 l first) as [r2 l']. unfold same_conjuncts in *. cbn [conditions].
    now rewrite G2, G1.
  - destruct j as [|j js]; [cbn; unfold same_conjuncts; cbn; reflexivity|]. now apply join_keeps.
Qed.

(** ** The optimized plan *)

Definition gives_back_nothing (p : LogicalPlan) : Prop := fst (PushDownPredicate p None) = None.

Lemma push_list_none l : Forall gives_back_nothing l -> fst (push_list None l) = None.
Proof.
  induction 1 as [|p l Hp _ IH]; [reflexivity|]. cbn [push_list]. unfold gives_back_nothing in Hp.
  destruct (PushDownPredicate p None) as [r p']. cbn in Hp. subst r.
  destruct (push_list None l) as [r' cs]. exact IH.
Qed.

Lemma push_sources_none l : fst (push_sources None l) = None.
Proof.
  induction l as [|p l IH]; [reflexivity|]. destruct p; cbn [push_sources push_source extract_opt];
    destruct (push_sources None l); exact IH.
Qed.

Lemma push_others_none l : Forall gives_back_nothing l -> forall first, fst (push_others None l first) = None.
Proof.
  induction 1 as [|p l Hp _ IH]; intros [|c1 first]; try reflexivity. cbn [push_others].
  assert (E : fst (if is_source p then push_again c1 None else PushDownPredicate p None) = None).
  { destruct (is_source p); [|exact Hp]. unfold push_again. destruct c1 as [|? [|[] [|]]| | | | | | |]; try reflexivity.
    unfold push_filtered. now destruct (push_source _ _). }
  destruct (if is_source p then _ else _) as [r c']. cbn in E. subst r.
  specialize (IH first). destruct (push_others None l first). exact IH.
Qed.

Lemma pushdown_none p : gives_back_nothing p.
Proof.
  unfold gives_back_nothing. induction p using LogicalPlan_ind; try reflexivity; rewrite push_eq; cbn [push_step];
    try (pose proof (push_list_none l H) as E; destruct (push_list None l); exact E).
  - destruct l as [|x l]; [reflexivity|]. now destruct (push_list _ _).
  - destruct (_ || _); [reflexivity|]. now destruct (push_list _ _).
  - pose proof (push_sources_none l) as E. destruct (push_sources None l) as [r1 first]. cbn in E. subst r1.
    pose proof (push_others_none l H first) as E. destruct (push_others None l first). exact E.
  - destruct j as [|j js]; [reflexivity|]. destruct (jt_eqb _ _).
    + destruct (extractCondition _) as [m s]. now destruct (push_list s l).
    + cbn [extractCondition]. pose proof (push_list_none l H) as E. destruct (push_list None l) as [r l'].
      cbn in *. now subst r.
Qed.

Lemma prune_conditions p : forall n, conditions (PruneColumns n p) = conditions p
  /\ (one_child p -> one_child (PruneColumns n p)).
Proof.
  assert (G : forall l, Forall (fun p => forall n, conditions (PruneColumns n p) = conditions p
      /\ (one_child p -> one_child (PruneColumns n p))) l -> forall n,
    flat_map conditions (map (PruneColumns n) l) = flat_map conditions l
    /\ (fold_right (fun x P => one_child x /\ P) True l ->
        fold_right (fun x P => one_child x /\ P) True (map (PruneColumns n) l))).
  { induction 1 as [|x l Hx _ IH]; intros n; cbn; [auto|]. destruct (Hx n) as [H1 H2], (IH n) as [H3 H4].
    split; [congruence|]. tauto. }
  induction p using LogicalPlan_ind; intros n; cbn [PruneColumns conditions one_child]; [auto|..];
    match goal with H : Forall _ ?l0 |- context [map (PruneColumns ?x) ?l0] => destruct (G l0 H x) as [G1 G2] end;
    rewrite ?length_map, ?G1; split; auto; tauto.
Qed.

Lemma optimize_keeps p : one_child p -> Permutation (conditions (optimize p)) (conditions p).
Proof.
  intros Ho. unfold optimize. destruct (prune_conditions p []) as [H1 H2].
  pose proof (pushdown_keeps (PruneColumns [] p) (H2 Ho) None) as G.
  pose proof (pushdown_none (PruneColumns [] p)) as N. unfold gives_back_nothing in N.
  destruct (PushDownPredicate (PruneColumns [] p) None) as [r p']. cbn in N. subst r.
  unfold same_conjuncts in G. cbn in *. now rewrite G, H1.
Qed.

(** The conjuncts of a statement: WHERE, ON and the filter of the window. *)
Definition stmt_conditions (stmt : SelectStatement) : list expr :=
  conjs (Condition stmt) ++ flat_map (fun j => conjs (j_Expr j)) (Joins stmt)
  ++ match GetWindow (Dimensions stmt) with Some (Window _ _ _ f) => conjs f | _ => [] end.

Definition plain (l : list LogicalPlan) (cs : list expr) : Prop :=
  flat_map conditions l = cs /\ fold_right (fun x P => one_child x /\ P) True l.

Lemma sources_plain opt l : plain (map (new_source opt) l) [].
Proof. unfold plain. induction l; cbn; tauto. Qed.

Lemma GetWindow_is_window d w : GetWindow d = Some w -> is_Window w = true.
Proof. induction d as [|e d IH]; cbn; [discriminate|]. destruct (is_Window e) eqn:E; [congruence|auto]. Qed.

Lemma add_window_plain opt stmt l l' : plain l [] -> add_window opt stmt l = inr l' ->
  plain l' (match GetWindow (Dimensions stmt) with Some (Window _ _ _ f) => conjs f | _ => [] end)
  /\ (GetWindow (Dimensions stmt) <> None -> List.length l' = 1%nat).
Proof.
  intros [P1 P2] H. unfold add_window in H.
  destruct (GetWindow (Dimensions stmt)) as [w|] eqn:E; [|inversion H; subst; split; [split; auto|congruence]].
  apply GetWindow_is_window in E. destruct w; try discriminate. destruct l as [|x l]; [discriminate|].
  cbn [window_plan] in H. inversion H; subst. split; [|reflexivity]. unfold plain. cbn -[conjs flat_map fold_right].
  cbn [flat_map conditions fold_right one_child]. cbn [flat_map fold_right] in P1, P2. rewrite P1, !app_nil_r. auto.
Qed.

Lemma add_join_plain stmt tables em l l' cs : plain l cs -> plain tables [] -> add_join stmt tables em l = inr l' ->
  plain l' (flat_map (fun j => conjs (j_Expr j)) (Joins stmt) ++ cs) /\ (Joins stmt <> [] -> List.length l' = 1%nat)
  /\ (Joins stmt = [] -> l' = l).
Proof.
  intros [P1 P2] [T1 T2] H. unfold add_join in H.
  destruct (Joins stmt) as [|j js] eqn:Ej; [injection H as <-; cbn; repeat split; auto; congruence|].
  destruct (Sources stmt) as [|from srcs]; [discriminate|].
  destruct tables as [|t ts]; [destruct (GetWindow _); [|discriminate]|]; injection H as <-;
    (split; [|split; [reflexivity|discriminate]]); unfold plain; cbn [flat_map conditions fold_right one_child].
  - rewrite P1, app_nil_r. auto.
  - rewrite !flat_map_app, P1. cbn [flat_map] in T1. cbn [flat_map]. rewrite T1, !app_nil_r. split; [reflexivity|].
    repeat split. clear - P2 T2. induction l as [|x l IH]; [exact T2|]. cbn in *. tauto.
Qed.


(** ** The columns a source keeps *)

Fixpoint sources (p : LogicalPlan) : list DataSource :=
  match p with
  | DataSourcePlan d => [d]
  | FilterPlan _ l | WindowPlan _ _ l | JoinPlan _ _ l | JoinAlignPlan _ l | AggregatePlan _ l | HavingPlan _ l
  | OrderPlan _ l | ProjectPlan _ _ _ l => flat_map sources l
  end.

(** The sources of a plan, each with what the plans above it refer to. *)
Fixpoint reads (above : list needed) (p : LogicalPlan) : list (DataSource * list needed) :=
  match p with
  | DataSourcePlan d => [(d, above)]
  | FilterPlan c l | WindowPlan _ c l | HavingPlan c l => flat_map (reads (above ++ getFields_expr c)) l
  | JoinAlignPlan _ l => flat_map (reads above) l
  | JoinPlan _ j l => flat_map (reads (above ++ walk_joins visit_field j [])) l
  | AggregatePlan d l => flat_map (reads (above ++ walk_dimensions visit_field d [])) l
  | OrderPlan s l => flat_map (reads (above ++ walk_sorts visit_field s [])) l
  | ProjectPlan f _ _ l => flat_map (reads (above ++ walk_fields visit_field f [])) l
  end.

Definition prune_read (r : DataSource * list needed) : DataSource := prune_source (snd r) (fst r).

Lemma sources_prune p : forall n, sources (PruneColumns n p) = map prune_read (reads n p).
Proof.
  assert (G : forall l, Forall (fun p => forall n, sources (PruneColumns n p) = map prune_read (reads n p)) l ->
    forall n, flat_map sources (map (PruneColumns n) l) = map prune_read (flat_map (reads n) l)).
  { induction 1 as [|x l Hx _ IH]; intros n; cbn; [reflexivity|]. now rewrite map_app, Hx, IH. }
  induction p using LogicalPlan_ind; intros n; cbn [PruneColumns sources reads]; [reflexivity|now apply G..].
Qed.

Definition same_sources (p : LogicalPlan) : Prop := forall c, sources (snd (PushDownPredicate p c)) = sources p.

Lemma push_source_sources d c : sources (snd (push_source d c)) = [d].
Proof. unfold push_source. destruct (extract_opt (ds_name d) c) as [[o|] r]; reflexivity. Qed.

Lemma settle_filter_sources old rest l : sources (settle_filter old rest l) = flat_map sources l.
Proof. destruct rest; [reflexivity|]. destruct l as [|x [|? ?]]; cbn; rewrite ?app_nil_r; reflexivity. Qed.

Lemma push_list_sources l : Forall same_sources l ->
  forall c, flat_map sources (snd (push_list c l)) = flat_map sources l.
Proof.
  induction 1 as [|x l Hx _ IH]; intros c; cbn [push_list]; [reflexivity|]. specialize (Hx c).
  destruct (PushDownPredicate x c) as [r x']. specialize (IH r). destruct (push_list r l) as [r' l'].
  cbn in *. congruence.
Qed.

Lemma push_sources_first l : forall c, Forall2 first_of l (snd (push_sources c l)).
Proof. intros c. pose proof (push_sources_keeps l c) as H. destruct (push_sources c l). apply H. Qed.

Lemma push_again_sources c1 cond d : first_of (DataSourcePlan d) c1 -> sources (snd (push_again c1 cond)) = [d].
Proof.
  intros [-> | [o ->]]; [reflexivity|]. cbn [push_again]. unfold push_filtered.
  pose proof (push_source_sources d (combine cond o)) as H. destruct (push_source _ _) as [rest child].
  cbn [snd] in *. rewrite settle_filter_sources. cbn [flat_map]. now rewrite app_nil_r.
Qed.

Lemma push_others_sources l first : Forall2 first_of l first -> Forall same_sources l ->
  forall c, flat_map sources (snd (push_others c l first)) = flat_map sources l.
Proof.
  induction 1 as [|p q l first Hq _ IH]; intros Hs c; cbn [push_others]; [reflexivity|].
  inversion Hs as [|? ? Hp Hl]; subst.
  assert (E : sources (snd (if is_source p then push_again q c else PushDownPredicate p c)) = sources p).
  { destruct p as [d| | | | | | | |]; cbn [is_source]; [exact (push_again_sources q c d Hq)|apply Hp..]. }
  destruct (if is_source p then _ else _) as [r x]. specialize (IH Hl r).
  destruct (push_others r l first) as [r' l']. cbn in *. congruence.
Qed.

Lemma pushdown_sources p : same_sources p.
Proof.
  induction p using LogicalPlan_ind; intros cond; try apply push_source_sources; rewrite push_eq; cbn [push_step];
    try (pose proof (push_list_sources l H cond) as G; destruct (push_list cond l); exact G).
  - destruct l as [|x l]; [reflexivity|].
    pose proof (push_list_sources (x :: l) H (combine cond c)) as G.
    destruct (push_list (combine cond c) (x :: l)) as [r l']. cbn [snd]. now rewrite settle_filter_sources.
  - destruct (_ || _); [reflexivity|]. pose proof (push_list_sources l H (combine cond c)) as G.
    destruct (push_list (combine cond c) l). exact G.
  - pose proof (push_sources_first l cond) as F. destruct (push_sources cond l) as [r1 first].
    pose proof (push_others_sources l first F H r1) as G. destruct (push_others r1 l first). exact G.
  - destruct j as [|j js]; [reflexivity|]. destruct (jt_eqb _ _).
    + destruct (extractCondition _) as [m s]. pose proof (push_list_sources l H s) as G.
      destruct (push_list s l). exact G.
    + destruct (extractCondition cond) as [m s]. pose proof (push_list_sources l H s) as G.
      destruct (push_list s l). exact G.
Qed.

Lemma optimize_sources p : sources (optimize p) = map prune_read (reads [] p).
Proof. unfold optimize. now rewrite pushdown_sources, sources_prune. Qed.

(** *** What pruning keeps at a source *)

(** The name is among the columns the source decodes; [None] is everything. *)
Definition decodes (d : DataSource) (name : string) : Prop :=
  match streamFields d with Some l => In name l | None => True end.

Definition belongs (d : DataSource) (sn : StreamName) : Prop := sn = DefaultStream \/ sn = ds_name d.

Definition has_name (s : pruning) (name : string) : Prop := pr_wild s = true \/ In name (pr_fields s).

Lemma add_field_In x name s : In x (pr_fields (add_field name s)) <-> x = name \/ In x (pr_fields s).
Proof.
  unfold add_field. cbn [pr_fields]. destruct (mem name (pr_fields s)) eqn:E.
  - apply mem_In in E. split; [auto|]. intros [->|H]; auto.
  - rewrite in_app_iff. cbn. intuition congruence.
Qed.

Lemma prune_one_mono d s n x : has_name s x -> has_name (prune_one d s n) x.
Proof.
  unfold has_name. intros [H|H]; destruct n; cbn [prune_one];
    repeat match goal with |- context [if ?b then _ else _] => destruct b end;
    cbn [pr_wild add_field pr_fields]; auto;
    right; first [exact H | apply (add_field_In x name s); auto].
Qed.

Lemma prune_fold_mono d l s x : has_name s x -> has_name (fold_left (prune_one d) l s) x.
Proof. revert s. induction l as [|n l IH]; intros s H; cbn; [exact H|]. now apply IH, prune_one_mono. Qed.

Lemma prune_one_adds d s sn name : belongs d sn -> getField d name = true ->
  has_name (prune_one d s (NeedField sn name)) name.
Proof.
  intros B G. unfold has_name. cbn [prune_one]. destruct (pr_wild s) eqn:W; cbn [negb andb]; [auto|].
  replace (String.eqb sn DefaultStream || String.eqb sn (ds_name d)) with true
    by (destruct B as [->| ->]; rewrite String.eqb_refl, ?orb_true_r; reflexivity).
  rewrite G. right. apply add_field_In. auto.
Qed.

Lemma prune_fold_adds d l s sn name : In (NeedField sn name) l -> belongs d sn -> getField d name = true ->
  has_name (fold_left (prune_one d) l s) name.
Proof.
  intros H B G. revert s. induction l as [|n l IH]; intros s; [destruct H|]. destruct H as [->|H]; cbn [fold_left].
  - now apply prune_fold_mono, prune_one_adds.
  - now apply IH.
Qed.

(** Everything pruning adds is in the schema and referred to. *)
Definition need_name (n : needed) : string :=
  match n with NeedField _ x | NeedMeta _ x | NeedSort x => x | NeedWildcard => "*" end.

Lemma prune_fold_only d l s x : In x (pr_fields (fold_left (prune_one d) l s)) ->
  In x (pr_fields s) \/ (getField d x = true /\ In x (map need_name l)).
Proof.
  revert s. induction l as [|n l IH]; intros s H; cbn in *; [auto|]. destruct (IH _ H) as [H1|H1]; [|tauto].
  destruct n as [sn name| |sn name|name]; cbn [prune_one] in H1; cbn [need_name];
    repeat match goal with H : context [if ?b then _ else _] |- _ => destruct b eqn:?E end; auto;
    apply add_field_In in H1; destruct H1 as [->|H1]; auto;
    repeat match goal with H : (_ && _)%bool = true |- _ => apply andb_true_iff in H; destruct H end; auto.
Qed.

Lemma getField_getProps d x : getField (getProps d) x = getField d x.
Proof. reflexivity. Qed.

Lemma schema_has d x : getField d x = true ->
  match ss_StreamFields (streamStmt d) with Some l => In x (map fst l) | None => True end.
Proof.
  unfold getField. destruct (ss_StreamFields (streamStmt d)) as [l|]; [|auto]. intros H.
  apply existsb_exists in H. destruct H as [f [H1 H2]]. apply String.eqb_eq in H2. subst. now apply in_map.
Qed.

Lemma has_name_decodes d s x : has_name s x -> getField d x = true -> decodes (getAllFields d s) x.
Proof.
  unfold decodes, getAllFields, has_name. cbn [streamFields]. intros H G. destruct (pr_wild s).
  - pose proof (schema_has d x G) as S. destruct (ss_StreamFields (streamStmt d)); cbn; auto.
  - destruct H as [H|H]; [discriminate|exact H].
Qed.

Lemma prune_source_decodes l d sn x : In (NeedField sn x) l -> belongs d sn -> getField d x = true ->
  decodes (prune_source l d) x.
Proof. intros H B G. apply has_name_decodes; [|exact G]. now apply (prune_fold_adds (getProps d) l _ sn). Qed.

Lemma prune_source_decodes_time l d : timestampField (prune_source l d) <> "" ->
  getField d (timestampField (prune_source l d)) = true -> decodes (prune_source l d) (timestampField (prune_source l d)).
Proof.
  intros H G. apply has_name_decodes; [|exact G]. apply prune_fold_mono. unfold has_name, prune_start.
  cbn [pr_wild pr_fields]. right. change (timestampField (prune_source l d)) with (timestampField (getProps d)) in *.
  destruct (String.eqb _ "") eqn:E; [apply String.eqb_eq in E; congruence|]. now left.
Qed.

Lemma prune_source_only l d names x : isWildCard (prune_source l d) = false ->
  streamFields (prune_source l d) = Some names -> In x names ->
  x = timestampField (prune_source l d) \/ (getField d x = true /\ In x (map need_name l)).
Proof.
  unfold prune_source, getAllFields. cbn [isWildCard streamFields timestampField]. intros W S H.
  rewrite W in S. injection S as <-. apply prune_fold_only in H. destruct H as [H|H]; [|right; exact H].
  left. unfold prune_start in H. cbn [pr_fields] in H. destruct (String.eqb _ ""); [destruct H|].
  destruct H as [H|[]]. now symmetry.
Qed.

(** *** What the statement needs *)

Definition window_filter (stmt : SelectStatement) : option expr :=
  match GetWindow (Dimensions stmt) with Some (Window _ _ _ f) => f | _ => None end.

(** The references of the clauses evaluated above every source. *)
Definition stmt_needs (stmt : SelectStatement) : list needed :=
  walk_fields visit_field (Fields stmt) [] ++ walk_sorts visit_field (SortFields stmt) []
  ++ getFields_expr (Having stmt) ++ walk_dimensions visit_field (GetGroups (Dimensions stmt)) []
  ++ getFields_expr (Condition stmt) ++ walk_joins visit_field (Joins stmt) [].

Definition R (above : list needed) (l : list LogicalPlan) : list (DataSource * list needed) := flat_map (reads above) l.

Lemma R_single above p : R above [p] = reads above p.
Proof. unfold R. cbn. apply app_nil_r. Qed.

Lemma R_order stmt a l : R a (add_order stmt l) = R (a ++ walk_sorts visit_field (SortFields stmt) []) l.
Proof. unfold add_order. destruct (SortFields stmt); [cbn; now rewrite app_nil_r|apply R_single]. Qed.

Lemma R_having stmt a l : R a (add_having stmt l) = R (a ++ getFields_expr (Having stmt)) l.
Proof. unfold add_having. destruct (Having stmt); [apply R_single|cbn; now rewrite app_nil_r]. Qed.

Lemma R_groups stmt a l :
  R a (add_groups stmt l) = R (a ++ walk_dimensions visit_field (GetGroups (Dimensions stmt)) []) l.
Proof. unfold add_groups. destruct (GetGroups _); [cbn; now rewrite app_nil_r|apply R_single]. Qed.

Lemma R_filter stmt a l : R a (add_filter stmt l) = R (a ++ getFields_expr (Condition stmt)) l.
Proof. unfold add_filter. destruct (Condition stmt); [apply R_single|cbn; now rewrite app_nil_r]. Qed.

Lemma R_join stmt tables em l l' a : add_join stmt tables em l = inr l' ->
  R a l' = R (a ++ walk_joins visit_field (Joins stmt) []) (match Joins stmt with [] => l | _ => l ++ tables end).
Proof.
  unfold add_join. destruct (Joins stmt) as [|j js]; [intros [= <-]; cbn; now rewrite app_nil_r|].
  destruct (Sources stmt); [discriminate|]. destruct tables as [|t0 ts].
  - destruct (GetWindow _); [|discriminate]. intros [= <-]. rewrite R_single, app_nil_r. reflexivity.
  - intros [= <-]. rewrite R_single. cbn [reads flat_map]. now rewrite app_nil_r.
Qed.

Lemma R_window opt stmt l l' a : add_window opt stmt l = inr l' ->
  R a l' = R (a ++ getFields_expr (window_filter stmt)) l.
Proof.
  unfold add_window, window_filter. destruct (GetWindow (Dimensions stmt)) as [w|] eqn:E.
  - apply GetWindow_is_window in E. destruct w; try discriminate. destruct l; [discriminate|].
    cbn [window_plan]. intros [= <-]. apply R_single.
  - intros [= <-]. cbn. now rewrite app_nil_r.
Qed.

Lemma R_sources opt a l : R a (map (new_source opt) l) = map (fun s => (mkDS (ss_Name s) s (IsEventTime opt)
  (SendMetaToSink opt) "" "" false false None [], a)) l.
Proof. unfold R. induction l; cbn; congruence. Qed.

Lemma R_app a l l' : R a (l ++ l') = R a l ++ R a l'.
Proof. apply flat_map_app. Qed.

(** The sources of the final plan, pruned for what the statement needs. *)
Lemma createLogicalPlan_sources ff stmt streams opt p d : createLogicalPlan ff stmt streams opt = inr p ->
  In d (sources p) -> exists s above, In s streams /\ d = prune_source above (mkDS (ss_Name s) s (IsEventTime opt)
     (SendMetaToSink opt) "" "" false false None [])
  /\ incl (stmt_needs stmt) above
  /\ (is_stream s = true -> incl (getFields_expr (window_filter stmt)) above)
  /\ incl above (stmt_needs stmt ++ getFields_expr (window_filter stmt)).
Proof.
  unfold createLogicalPlan, logical_plan.
  destruct (add_window opt stmt _) as [e|l1] eqn:E1; [discriminate|].
  destruct (add_join stmt _ _ l1) as [e|l2] eqn:E2; [discriminate|].
  intros [= <-] H. rewrite optimize_sources in H. cbn [reads] in H.
  change (flat_map (reads ?a) ?l) with (R a l) in H.
  rewrite R_order, R_having, R_groups, R_filter, (R_join _ _ _ _ _ _ E2) in H.
  rewrite <- !app_assoc in H. cbn [app] in H. fold (stmt_needs stmt) in H.
  assert (G : In d (map prune_read (R (stmt_needs stmt) (l1 ++ map (new_source opt)
     (filter (fun s => negb (is_stream s)) streams))))).
  { apply in_map_iff in H. destruct H as [r [<- H]]. apply in_map. rewrite R_app.
    destruct (Joins stmt); [apply in_or_app; now left|]. now rewrite <- R_app. }
  clear H. rewrite R_app, (R_window _ _ _ _ _ E1), !R_sources in G.
  apply in_map_iff in G. destruct G as [r [<- G]]. apply in_app_or in G.
  destruct G as [G|G]; apply in_map_iff in G; destruct G as [s [<- Hs]]; apply filter_In in Hs; destruct Hs as [Hs Ht].
  - exists s, (stmt_needs stmt ++ getFields_expr (window_filter stmt)). repeat split; auto.
    + now apply incl_appl, incl_refl.
    + intros _. now apply incl_appr, incl_refl.
    + apply incl_refl.
  - exists s, (stmt_needs stmt). repeat split; auto.
    + apply incl_refl.
    + intros E. rewrite E in Ht. discriminate.
    + now apply incl_appl, incl_refl.
Qed.


(** ** Plans that filter in the wrong place *)

(** The filters of a plan, each with the sources below it. *)
Fixpoint filters (p : LogicalPlan) : list (expr * list StreamName) :=
  match p with
  | DataSourcePlan _ => []
  | FilterPlan c l =>
      flat_map filters l ++ match c with Some e => [(e, map ds_name (flat_map sources l))] | None => [] end
  | WindowPlan _ _ l | JoinPlan _ _ l | JoinAlignPlan _ l | AggregatePlan _ l | HavingPlan _ l
  | OrderPlan _ l | ProjectPlan _ _ _ l => flat_map filters l
  end.

Definition plan_filters (r : string + LogicalPlan) : option (list (expr * list StreamName)) :=
  match r with inl _ => None | inr p => Some (filters p) end.

Definition stream_of (name : string) (t : StreamType) : StreamStmt :=
  mkStreamStmt name (Some [("id", BasicType BIGINT); ("v", BasicType BIGINT); ("w", BasicType BIGINT)])
    (mkOptions "" "" "json" "" "" false "ts" "" 0 false) t.

Definition col (sn name : string) : expr := FieldRef sn name None.
Definition gt1 (e : expr) : expr := BinaryExpr GT e (IntegerLiteral 1).

Definition a_join_b (jt : JoinType) : Join :=
  mkJoin "b" "" jt (Some (BinaryExpr EQ (col "a" "id") (col "b" "id"))).

(** [SELECT a.id FROM a jt JOIN b ON a.id = b.id WHERE c GROUP BY TUMBLINGWINDOW(ss, 10)] *)
Definition join_stmt (jt : JoinType) (c : expr) : SelectStatement :=
  mkSelect [mkField "id" "" (col "a" "id")] [mkTable "a" ""] [a_join_b jt] (Some c)
    [Window TUMBLING_WINDOW 10 None None] None [].

Section Misplaced.
Import Plain.

Definition plan_option (event_time : bool) : RuleOption := mkRuleOption event_time 1000 1 1024 false true 0 300000.

Definition planned (jt : JoinType) (c : expr) (b : StreamType) (event_time : bool) :=
  plan_filters (createLogicalPlan finder (join_stmt jt c) [stream_of "a" TypeStream; stream_of "b" b]
    (plan_option event_time)).

Definition a_row : Tuple := mkTuple "a" [("id", VInt 1)] 0 None None.
Definition b_row : Tuple := mkTuple "b" [("id", VInt 1); ("v", VInt 0)] 0 None None.
Definition both (l : list Tuple) : stream_data := SWindow (mkWTS (mkWT "a" [a_row] :: match l with [] => [] | _ => [mkWT "b" l] end) None).

(** a WHERE condition on the right side of a LEFT JOIN is evaluated
    before the join, which changes the result: a row that the condition
    should drop comes out unmatched. *)
Theorem left_join_filters_before_joining :
  let c := gt1 (col "b" "v") in
  let join := JoinOp_Apply finder (mkTable "a" "") [a_join_b LEFT_JOIN] in
  planned LEFT_JOIN c TypeStream false = Some [(c, ["b"])]
  /\ FilterOp_Apply finder (Some c) (SRow (DTuple b_row)) = Some SNil
  /\ join (both []) = Some (SJoin (mkJTS [mkJT [a_row] None] None))
  /\ join (both [b_row]) = Some (SJoin (mkJTS [mkJT [a_row; b_row] None] None))
  /\ FilterOp_Apply finder (Some c) (SJoin (mkJTS [mkJT [a_row; b_row] None] None)) = Some SNil.
Proof. vm_compute. repeat split. Qed.

(** two misplaced filters: a condition on metadata has no source, so the first
    stream takes it; and with event time the filter of a table swallows the
    condition of the stream it is joined to. *)
Theorem filters_on_the_wrong_source :
  let m := gt1 (Call "meta" [MetaRef "b" "temp"]) in
  planned INNER_JOIN m TypeStream false = Some [(m, ["a"])]
  /\ planned INNER_JOIN (BinaryExpr AND (gt1 (col "a" "v")) (gt1 (col "b" "w"))) TypeTable true
     = Some [(gt1 (col "b" "w"), ["b"]); (gt1 (col "a" "v"), ["b"])].
Proof. vm_compute. split; reflexivity. Qed.

(** The plan of the left join, for the hypotheses of the theorems above. *)
Definition sample_plan : string + LogicalPlan :=
  createLogicalPlan finder (join_stmt LEFT_JOIN (gt1 (col "b" "v")))
    [stream_of "a" TypeStream; stream_of "b" TypeStream] (plan_option false).

Definition b_pruned : DataSource :=
  prune_source (stmt_needs (join_stmt LEFT_JOIN (gt1 (col "b" "v"))))
    (mkDS "b" (stream_of "b" TypeStream) false false "" "" false false None []).


End Misplaced.
