(* ===== verification/Analyzer.v ===== *)
(** The analyzer (src/internal/topo/planner/analyzer.go): binding the field
    references of a statement to streams and aliases, and validating it.

    The code rewrites the field references in place while it walks the
    statement; [bind_expr] and [bind_stmt] return the rewritten trees and thread
    the fields map and the variable [walkErr] in the order of the walk.  The
    definitions of the streams come from the store ([GetDataSource]).  A range
    over a map with one key is the match on a list with one entry. *)

From S2P Require Import Prelude Token Ast Value Collections AggFuncs Eval Operators Join Planner.
From Stdlib Require Import ZArith Lia Bool List String.
Import ListNotations.

#[local] Open Scope string_scope.
#[local] Open Scope list_scope.
#[local] Open Scope Z_scope.

Inductive analyze_error : Type :=
  | NoStream (name : string)
  | BindError (msg : string)
  | AliasInAlias (name : string) (e : expr)
  | AggregateInWhere
  | NonAggregateInHaving
  | AggregateInGroupBy
  | NestedAggregate (func : string).

(** ** The streams and the alias that share a field name *)

Inductive streamFieldStore : Type :=
  | streamFieldMap (content : list (StreamName * option AliasRef))
  | streamFieldMapSchemaless (content : list (StreamName * option AliasRef)) (defaultStream : StreamName).

Definition newStreamFieldStore (isSchemaless : bool) (defaultStream : StreamName) : streamFieldStore :=
  if negb isSchemaless then streamFieldMap [] else streamFieldMapSchemaless [] defaultStream.

Definition add (k : StreamName) (s : streamFieldStore) : streamFieldStore :=
  match s with
  | streamFieldMap c => streamFieldMap (assoc_set k None c)
  | streamFieldMapSchemaless c d => streamFieldMapSchemaless (assoc_set k None c) d
  end.

(** [ref]; the error is the second component. *)
Definition ref (k : StreamName) (v : option AliasRef) (s : streamFieldStore) : streamFieldStore * option string :=
  match s with
  | streamFieldMap c =>
      if String.eqb k AliasStream then
        match assoc k c with
        | Some _ => (s, Some "duplicate alias ")
        | None => (streamFieldMap (assoc_set k v c), None)
        end
      else if String.eqb k DefaultStream then
        (s, match c with
            | [] => Some "unknow field "
            | [_] => None
            | _ => Some "ambiguous field "
            end)
      else (s, match assoc k c with
               | Some _ => None
               | None => Some ("unknow field " ++ k ++ ".")%string
               end)
  | streamFieldMapSchemaless c d =>
      if String.eqb k AliasStream then
        match assoc k c with
        | Some _ => (s, Some "duplicate alias ")
        | None => (streamFieldMapSchemaless (assoc_set k v c) d, None)
        end
      else if String.eqb k DefaultStream then
        (s, match c with [] => None | _ => Some "ambiguous field " end)
      else
        (match c with
         | [(sk, _)] =>
             if String.eqb sk DefaultStream
             then streamFieldMapSchemaless (filter (fun kv => negb (String.eqb (fst kv) k)) c) d
             else s
         | _ => s
         end, None)
  end.

(** The part of a field reference that binding changes. *)
Definition target : Type := StreamName * option AliasRef.

(** The stream of an unqualified field without a schema. *)
Definition schemaless_key (c : list (StreamName * option AliasRef)) (d sn : StreamName) : StreamName :=
  if String.eqb sn "" || String.eqb sn DefaultStream
  then match c with [(sk, _)] => sk | _ => d end
  else sn.

Definition bindRef (s : streamFieldStore) (sn : StreamName) (a : option AliasRef)
    : streamFieldStore * target * option string :=
  match s with
  | streamFieldMap c =>
      let k := if String.eqb sn "" then DefaultStream else sn in
      if String.eqb k DefaultStream then
        match c with
        | [] => (s, (k, a), Some "unknown field ")
        | [(sk, sv)] => (s, (sk, sv), None)
        | _ =>
            match assoc AliasStream c with
            | Some r => (s, (AliasStream, r), None)
            | None => (s, (k, a), Some "ambiguous field ")
            end
        end
      else
        match assoc k c with
        | Some r => (s, (k, r), None)
        | None => (s, (k, a), Some ("unknown field " ++ k ++ ".")%string)
        end
  | streamFieldMapSchemaless c d =>
      let k := schemaless_key c d sn in
      if String.eqb k DefaultStream then
        match c with
        | [] => (streamFieldMapSchemaless (assoc_set k None c) d, (k, a), None)
        | [(sk, sv)] => (s, (sk, sv), None)
        | _ =>
            match assoc AliasStream c with
            | Some r => (s, (AliasStream, r), None)
            | None => (s, (k, a), Some "ambiguous field ")
            end
        end
      else
        match assoc k c with
        | None => (streamFieldMapSchemaless (assoc_set k None c) d, (k, a), None)
        | Some r => (s, (k, r), None)
        end
  end.

(** ** The fields map *)

Record fieldsMap : Type := mkFieldsMap {
  content : list (string * streamFieldStore);
  isSchemaless : bool;
  defaultStream : StreamName }.

Definition newFieldsMap (schemaless : bool) (d : StreamName) : fieldsMap := mkFieldsMap [] schemaless d.

Definition put_field (n : string) (fm : streamFieldStore) (f : fieldsMap) : fieldsMap :=
  mkFieldsMap (assoc_set (to_lower n) fm (content f)) (isSchemaless f) (defaultStream f).

Definition new_store (f : fieldsMap) : streamFieldStore := newStreamFieldStore (isSchemaless f) (defaultStream f).

Definition reserve (n : string) (sn : StreamName) (f : fieldsMap) : fieldsMap :=
  match assoc (to_lower n) (content f) with
  | Some fm => put_field n (add sn fm) f
  | None => put_field n (add sn (new_store f)) f
  end.

Definition save (n : string) (sn : StreamName) (ar : AliasRef) (f : fieldsMap) : fieldsMap * option string :=
  let go fm :=
    let (fm', err) := ref sn (Some ar) fm in
    (put_field n fm' f, option_map (fun e => e ++ n)%string err) in
  match assoc (to_lower n) (content f) with
  | Some fm => go fm
  | None =>
      if String.eqb sn AliasStream || isSchemaless f then go (new_store f)
      else (f, Some ("unknown field " ++ n)%string)
  end.

Definition bind (f : fieldsMap) (sn : StreamName) (n : string) (a : option AliasRef)
    : fieldsMap * target * option string :=
  let go fm :=
    let '(fm', t, err) := bindRef fm sn a in
    (put_field n fm' f, t, option_map (fun e => e ++ n)%string err) in
  match assoc (to_lower n) (content f) with
  | Some fm => go fm
  | None =>
      if isSchemaless f && negb (String.eqb n "") then go (new_store f)
      else (f, (sn, a), Some ("unknown field " ++ n)%string)
  end.

Definition DEFAULT_FIELD_NAME_PREFIX : string := "kuiper_field_".

Fixpoint default_name (fuel : nat) (i : Z) (f : fieldsMap) : string :=
  match fuel with
  | O => ""
  | S fuel' =>
      let key := (DEFAULT_FIELD_NAME_PREFIX ++ itoa i)%string in
      match assoc key (content f) with
      | None => key
      | Some _ => default_name fuel' (i + 1) f
      end
  end.

Definition getDefaultName (f : fieldsMap) : string := default_name 2048 0 f.

(** ** Binding expressions *)

(** The state of the walk: the fields map and [walkErr]. *)
Definition walk_state : Type := fieldsMap * option analyze_error.

Definition map_st {A B St} (f : A -> St -> B * St) : list A -> St -> list B * St :=
  fix go l st :=
    match l with
    | [] => ([], st)
    | x :: l' =>
        let (y, st1) := f x st in
        let (ys, st2) := go l' st1 in
        (y :: ys, st2)
    end.

Definition opt_st {A St} (f : A -> St -> A * St) (o : option A) (st : St) : option A * St :=
  match o with
  | Some x => let (y, st1) := f x st in (Some y, st1)
  | None => (None, st)
  end.

Section Bind.
(** Whether only SQL fields are bound, as in the scan of the select fields. *)
Variable only_sql : bool.

(** Every binding overwrites [walkErr]. *)
Definition bind_field (sn : StreamName) (n : string) (a : option AliasRef) (st : walk_state) : expr * walk_state :=
  if only_sql && negb (fr_IsSQLField sn) then (FieldRef sn n a, st)
  else
    let '(f, (sn', a'), err) := bind (fst st) sn n a in
    (FieldRef sn' n a', (f, option_map BindError err)).

Fixpoint bind_expr (e : expr) (st : walk_state) : expr * walk_state :=
  match e with
  | FieldRef sn n a => bind_field sn n a st
  | BinaryExpr op l r =>
      let (l', st1) := bind_expr l st in
      let (r', st2) := bind_expr r st1 in
      (BinaryExpr op l' r', st2)
  | ParenExpr x => let (x', st1) := bind_expr x st in (ParenExpr x', st1)
  | Call n args => let (args', st1) := map_st bind_expr args st in (Call n args', st1)
  | CaseExpr v ws el =>
      let (v', st1) := opt_st bind_expr v st in
      let (ws', st2) := map_st (fun (w : expr * expr) (st : walk_state) =>
        let (c, r) := w in
        let (c', s1) := bind_expr c st in
        let (r', s2) := bind_expr r s1 in
        ((c', r'), s2)) ws st1 in
      let (el', st3) := opt_st bind_expr el st2 in
      (CaseExpr v' ws' el', st3)
  | Window wt l i f => let (f', st1) := opt_st bind_expr f st in (Window wt l i f', st1)
  | _ => (e, st)
  end.
End Bind.

(** ** Binding the statement *)

(** The scan of the select fields stops at the first field that ends with an
    error; a field without a name gets one. *)
Fixpoint scan_fields (fs : list Field) (f : fieldsMap) : analyze_error + (list Field * fieldsMap) :=
  match fs with
  | [] => inr ([], f)
  | x :: fs' =>
      match bind_expr true (f_Expr x) (f, None) with
      | (_, (_, Some err)) => inl err
      | (e, (f1, None)) =>
          let n := if String.eqb (f_Name x) "" && String.eqb (f_AName x) "" then getDefaultName f1 else f_Name x in
          match scan_fields fs' f1 with
          | inl err => inl err
          | inr (xs, f2) => inr (mkField n (f_AName x) e :: xs, f2)
          end
      end
  end.

(** [NewAliasRef]; the sources are a set. *)
Definition visit_alias (st : list StreamName * option string) (n : node) : (list StreamName * option string) * bool :=
  match n with
  | NExpr (FieldRef sn name _) =>
      if String.eqb sn AliasStream then ((fst st, Some name), false) else ((add_source (fst st) sn, snd st), true)
  | _ => (st, true)
  end.

Definition NewAliasRef (e : expr) : analyze_error + AliasRef :=
  match walk_expr visit_alias e ([], None) with
  | (_, Some name) => inl (AliasInAlias name e)
  | (rs, None) => inr (mkAlias e rs None)
  end.

(** The loop over the fields with an alias; it does not stop at an error. *)
Definition save_alias (x : Field) (st : walk_state) : Field * walk_state :=
  if String.eqb (f_AName x) "" then (x, st)
  else
    match NewAliasRef (f_Expr x) with
    | inl err => (x, (fst st, Some err))
    | inr ar =>
        let (f, err) := save (f_AName x) AliasStream ar (fst st) in
        (mkField (f_Name x) (f_AName x) (FieldRef AliasStream (f_AName x) (Some ar)), (f, option_map BindError err))
    end.

Definition bind_join (j : Join) (st : walk_state) : Join * walk_state :=
  let (e, st1) := opt_st (bind_expr false) (j_Expr j) st in (mkJoin (j_Name j) (j_Alias j) (j_Type j) e, st1).

(** The walk visits the first window, then the groups; [w] is the bound window. *)
Fixpoint bind_groups (w : option expr) (ds : list expr) (st : walk_state) : list expr * walk_state :=
  match ds with
  | [] => ([], st)
  | d :: ds' =>
      if is_Window d then
        let (ds1, st1) := bind_groups None ds' st in
        (match w with Some w' => w' | None => d end :: ds1, st1)
      else
        let (d1, st1) := bind_expr false d st in
        let (ds1, st2) := bind_groups w ds' st1 in
        (d1 :: ds1, st2)
  end.

Definition bind_dimensions (ds : list expr) (st : walk_state) : list expr * walk_state :=
  let (w, st1) := opt_st (bind_expr false) (GetWindow ds) st in bind_groups w ds st1.

(** The walk over the statement, without the select fields. *)
Definition bind_stmt (s : SelectStatement) (st : walk_state) : SelectStatement * walk_state :=
  let (js, st1) := map_st bind_join (Joins s) st in
  let (c, st2) := opt_st (bind_expr false) (Condition s) st1 in
  let (ds, st3) := bind_dimensions (Dimensions s) st2 in
  let (h, st4) := opt_st (bind_expr false) (Having s) st3 in
  (mkSelect (Fields s) (Sources s) js c ds h (SortFields s), st4).

(** ** Validation *)

Section Validate.
Variable ff : FuncFinder.

(** The verdicts of the finder; caching does not change them ([IsAggFunc_equiv]). *)
Definition aggregate (e : expr) : bool := fst (IsAggregate ff (Some e)).

(** The closure of the code looks at the whole expression on every visit, so a
    visit of a subexpression only repeats the answer. *)
Fixpoint allAggregate (e : expr) : bool :=
  match e with
  | BinaryExpr op l r =>
      match op with
      | SUBSET | ARROW => true
      | _ => allAggregate l && allAggregate r
      end
  | Call _ _ | FieldRef _ _ _ => aggregate e
  | _ => true
  end.

Definition visit_nested (err : option analyze_error) (n : node) : option analyze_error * bool :=
  match n with
  | NExpr (Call name args) =>
      if is_agg ff name && existsb aggregate args then (Some (NestedAggregate name), false) else (err, true)
  | _ => (err, true)
  end.

Definition opt_test (p : expr -> bool) (o : option expr) : bool := match o with Some e => p e | None => false end.

Definition validate (s : SelectStatement) : option analyze_error :=
  if opt_test aggregate (Condition s) then Some AggregateInWhere
  else if opt_test (fun e => negb (allAggregate e)) (Having s) then Some NonAggregateInHaving
  else if existsb aggregate (Dimensions s) then Some AggregateInGroupBy
  else walk_stmt visit_nested s None.

(** ** decorateStmt *)

Definition GetStreams (s : SelectStatement) : list string := map t_Name (Sources s) ++ map j_Name (Joins s).

(** The store and the parser of stream definitions. *)
Variable GetDataSource : string -> option StreamStmt.

Fixpoint get_streams (names : list string) : analyze_error + list StreamStmt :=
  match names with
  | [] => inr []
  | n :: names' =>
      match GetDataSource n with
      | None => inl (NoStream n)
      | Some s => match get_streams names' with inl e => inl e | inr l => inr (s :: l) end
      end
  end.

Definition schemaless (l : list StreamStmt) : bool :=
  existsb (fun s => match ss_StreamFields s with None => true | Some _ => false end) l.

Definition default_stream (l : list StreamStmt) : StreamName :=
  match l with [s] => ss_Name s | _ => DefaultStream end.

(** A range over nil fields does nothing. *)
Definition stream_fields (s : StreamStmt) : StreamFields :=
  match ss_StreamFields s with Some l => l | None => [] end.

Definition reserve_stream (f : fieldsMap) (s : StreamStmt) : fieldsMap :=
  fold_left (fun f fld => reserve (fst fld) (ss_Name s) f) (stream_fields s) f.

Definition init_fields (l : list StreamStmt) : fieldsMap :=
  let f := newFieldsMap (schemaless l) (default_stream l) in
  if negb (schemaless l) then fold_left reserve_stream l f else f.

Definition decorateStmt (s : SelectStatement) : analyze_error + (SelectStatement * list StreamStmt) :=
  match get_streams (GetStreams s) with
  | inl e => inl e
  | inr streams =>
      match scan_fields (Fields s) (init_fields streams) with
      | inl e => inl e
      | inr (fs, f) =>
          let (fs', st) := map_st save_alias fs (f, None) in
          let (s', st') :=
            bind_stmt (mkSelect fs' (Sources s) (Joins s) (Condition s) (Dimensions s) (Having s) (SortFields s)) st in
          match snd st' with
          | Some e => inl e
          | None => match validate s' with Some e => inl e | None => inr (s', streams) end
          end
      end
  end.

(** [createLogicalPlan] of the code: the analyzer, then the plan. *)
Definition plan (s : SelectStatement) (opt : RuleOption) : (analyze_error + string) + LogicalPlan :=
  match decorateStmt s with
  | inl e => inl (inl e)
  | inr (s', streams) => match createLogicalPlan ff s' streams opt with inl e => inl (inr e) | inr p => inr p end
  end.
End Validate.

(** ** The references of an expression *)

Definition reference : Type := StreamName * string * option AliasRef.

(** The field references that the walk visits, in its order. *)
Fixpoint refs (e : expr) : list reference :=
  match e with
  | FieldRef sn n a => [(sn, n, a)]
  | BinaryExpr _ l r => refs l ++ refs r
  | ParenExpr x => refs x
  | Call _ args => flat_map refs args
  | CaseExpr v ws el =>
      match v with Some x => refs x | None => [] end
      ++ flat_map (fun w : expr * expr => let (c, r) := w in refs c ++ refs r) ws
      ++ match el with Some x => refs x | None => [] end
  | Window _ _ _ (Some x) => refs x
  | _ => []
  end.

Definition opt_refs (o : option expr) : list reference := match o with Some x => refs x | None => [] end.

(** Rewriting exactly those references. *)
Fixpoint map_refs (g : StreamName -> string -> option AliasRef -> expr) (e : expr) : expr :=
  match e with
  | FieldRef sn n a => g sn n a
  | BinaryExpr op l r => BinaryExpr op (map_refs g l) (map_refs g r)
  | ParenExpr x => ParenExpr (map_refs g x)
  | Call n args => Call n (map (map_refs g) args)
  | CaseExpr v ws el =>
      CaseExpr (option_map (map_refs g) v)
        (map (fun w : expr * expr => let (c, r) := w in (map_refs g c, map_refs g r)) ws)
        (option_map (map_refs g) el)
  | Window wt l i f => Window wt l i (option_map (map_refs g) f)
  | _ => e
  end.

Lemma map_st_snd {A B St} (f : A -> St -> B * St) l st :
  snd (map_st f l st) = fold_left (fun s x => snd (f x s)) l st.
Proof.
  revert st. induction l as [|x l IH]; intros st; [reflexivity|]. cbn. rewrite <- IH.
  destruct (f x st) as [y st1]. cbn. now destruct (map_st f l st1).
Qed.

Lemma opt_st_snd {A St} (f : A -> St -> A * St) o st :
  snd (opt_st f o st) = match o with Some x => snd (f x st) | None => st end.
Proof. destruct o as [x|]; cbn; [|reflexivity]. now destruct (f x st). Qed.

Lemma opt_st_fst {A St} (f : A -> St -> A * St) o st :
  fst (opt_st f o st) = option_map (fun x => fst (f x st)) o.
Proof. destruct o as [x|]; cbn; [|reflexivity]. now destruct (f x st). Qed.

Lemma fold_left_flat_map {A B C} (f : C -> B -> C) (g : A -> list B) l c :
  fold_left f (flat_map g l) c = fold_left (fun c x => fold_left f (g x) c) l c.
Proof. revert c. induction l as [|x l IH]; intros c; cbn; [reflexivity|]. now rewrite fold_left_app, IH. Qed.

Lemma fold_left_ext_in {A B} (f g : B -> A -> B) l : forall b,
  Forall (fun x => forall b, f b x = g b x) l -> fold_left f l b = fold_left g l b.
Proof. induction l as [|x l IH]; intros b H; [reflexivity|]. inversion H; subst. cbn. rewrite H2. now apply IH. Qed.

Ltac forall_step H := eapply Forall_impl; [|exact H]; cbn.

(** *** The binding walk does at each reference what [bind_field] does *)

Definition step_ref (b : bool) (st : walk_state) (r : reference) : walk_state :=
  snd (bind_field b (fst (fst r)) (snd (fst r)) (snd r) st).

Lemma bind_expr_state b e : forall st, snd (bind_expr b e st) = fold_left (step_ref b) (refs e) st.
Proof.
  induction e using expr_ind; intros st; try reflexivity.
  - cbn [bind_expr refs]. rewrite fold_left_app, <- IHe1, <- IHe2.
    destruct (bind_expr b e1 st) as [l1 st1]. cbn. now destruct (bind_expr b e2 st1).
  - cbn [bind_expr refs]. rewrite <- IHe. now destruct (bind_expr b e st).
  - cbn [bind_expr refs]. rewrite fold_left_flat_map.
    pose proof (map_st_snd (bind_expr b) args st) as E. destruct (map_st (bind_expr b) args st) as [ys st1].
    cbn in *. subst. apply fold_left_ext_in. forall_step H. auto.
  - cbn [bind_expr refs]. rewrite !fold_left_app, fold_left_flat_map.
    pose proof (opt_st_snd (bind_expr b) v st) as E1. destruct (opt_st (bind_expr b) v st) as [v' st1].
    cbn [snd] in E1.
    match goal with |- context [map_st ?f ws st1] =>
      pose proof (map_st_snd f ws st1) as E2; destruct (map_st f ws st1) as [ws' st2] end.
    cbn [snd] in E2.
    pose proof (opt_st_snd (bind_expr b) e st2) as E3. destruct (opt_st (bind_expr b) e st2) as [el' st3].
    cbn [snd] in *. subst.
    replace (fold_left (step_ref b) match v with Some x => refs x | None => [] end st)
      with (match v with Some x => snd (bind_expr b x st) | None => st end)
      by (destruct v; cbn in *; [apply H|reflexivity]).
    set (st1 := match v with Some x => snd (bind_expr b x st) | None => st end).
    assert (E : forall c, fold_left (fun c (x : expr * expr) => fold_left (step_ref b) (let (c0, r) := x in refs c0 ++ refs r) c) ws c
      = fold_left (fun s (x : expr * expr) => snd (let (c, r) := x in
          let (c', s1) := bind_expr b c s in let (r', s2) := bind_expr b r s1 in (c', r', s2))) ws c).
    { intros c0. symmetry. apply fold_left_ext_in. forall_step H0. intros [c r] [Hc Hr] s. cbn in *.
      rewrite fold_left_app, <- Hc, <- Hr. destruct (bind_expr b c s) as [c' s1]. cbn.
      now destruct (bind_expr b r s1). }
    rewrite E. destruct e as [x|]; cbn in *; [apply H1|reflexivity].
  - cbn [bind_expr]. pose proof (opt_st_snd (bind_expr b) f st) as E.
    destruct (opt_st (bind_expr b) f st) as [f' st1]. cbn [snd] in *. subst.
    destruct f; cbn in *; [apply H|reflexivity].
Qed.

(** *** and visits the nodes that [Walk] visits *)

Definition visit_bind (b : bool) (st : walk_state) (n : node) : walk_state * bool :=
  match n with
  | NExpr (FieldRef sn name a) => (snd (bind_field b sn name a st), true)
  | _ => (st, true)
  end.

(** A visitor that only looks at field references folds over them. *)
Lemma walk_refs {St} (visit : St -> node -> St * bool) :
  (forall st n, (forall sn f a, n <> NExpr (FieldRef sn f a)) -> visit st n = (st, true)) ->
  forall e st, walk_expr visit e st
    = fold_left (fun st r => fst (visit st (NExpr (FieldRef (fst (fst r)) (snd (fst r)) (snd r))))) (refs e) st.
Proof.
  intros Hv. set (g := fun st r => _).
  assert (Hx : forall st x, (forall sn f a, x <> FieldRef sn f a) -> visit st (NExpr x) = (st, true))
    by (intros st x Hx; apply Hv; intros sn f a [= E]; now apply (Hx sn f a)).
  induction e using expr_ind; intros st; cbn [walk_expr refs];
    try (rewrite Hx by discriminate; cbn [negb]); try reflexivity.
  - now rewrite fold_left_app, IHe1, IHe2.
  - apply IHe.
  - rewrite fold_left_flat_map. revert st. induction H as [|x l Hl _ IH]; intros st; [reflexivity|].
    cbn. now rewrite Hl, IH.
  - rewrite !fold_left_app, fold_left_flat_map.
    replace (match v with Some x => walk_expr visit x st | None => st end)
      with (fold_left g match v with Some x => refs x | None => [] end st)
      by (destruct v; cbn in *; [now rewrite H|reflexivity]).
    assert (E : forall s, (fix walk_when (l : list (expr * expr)) (s : St) {struct l} : St :=
        match l with
        | [] => s
        | (c, r) :: l' =>
            let '(s0, go') := visit s (NWhen c r) in
            walk_when l' (if go' then walk_expr visit r (walk_expr visit c s0) else s0)
        end) ws s
      = fold_left (fun c (x : expr * expr) => fold_left g (let (c0, r) := x in refs c0 ++ refs r) c) ws s).
    { induction H0 as [|[c r] l [Hc Hr] _ IH]; intros s; [reflexivity|]. cbn in *.
      rewrite Hv by discriminate. rewrite Hr, Hc, IH, fold_left_app. reflexivity. }
    rewrite E. destruct e as [x|]; cbn in *; [apply H1|reflexivity].
  - cbn. subst g. cbn. now destruct (visit st _) as [st0 []].
  - destruct i; cbn; rewrite ?Hx by discriminate; cbn; destruct f; cbn in *; auto.
Qed.

Lemma bind_expr_walks b e st : snd (bind_expr b e st) = walk_expr (visit_bind b) e st.
Proof.
  rewrite bind_expr_state, walk_refs; [reflexivity|].
  intros s n Hn. destruct n as [| | | | | | | | | | |x]; try reflexivity. destruct x; try reflexivity.
  now edestruct Hn.
Qed.

Lemma map_st_fst {A B St} (I : St -> Prop) (h : A -> St -> B * St) (k : A -> B) l : forall st,
  I st -> Forall (fun x => forall st, I st -> fst (h x st) = k x /\ I (snd (h x st))) l ->
  fst (map_st h l st) = map k l /\ I (snd (map_st h l st)).
Proof.
  induction l as [|x l IH]; intros st Hi H; [auto|]. inversion H as [|? ? Hx Hl]; subst.
  destruct (Hx st Hi) as [E1 I1]. cbn. destruct (h x st) as [y st1]. cbn in *.
  destruct (IH st1 I1 Hl) as [E2 I2]. destruct (map_st h l st1). cbn in *. now subst.
Qed.

(** ** When binding does not change the fields map *)

Section Stable.
Variable f : fieldsMap.
Hypothesis stable : forall sn n a, fst (fst (bind f sn n a)) = f.

Definition bound (b : bool) (sn : StreamName) (n : string) (a : option AliasRef) : expr :=
  fst (bind_field b sn n a (f, None)).

Definition ref_error (b : bool) (err : option analyze_error) (r : reference) : option analyze_error :=
  if b && negb (fr_IsSQLField (fst (fst r))) then err
  else option_map BindError (snd (bind f (fst (fst r)) (snd (fst r)) (snd r))).

Lemma bind_field_stable b sn n a err :
  bind_field b sn n a (f, err) = (bound b sn n a, (f, ref_error b err (sn, n, a))).
Proof.
  unfold bound, bind_field, ref_error. cbn [fst snd]. destruct (b && negb (fr_IsSQLField sn)); [reflexivity|].
  pose proof (stable sn n a) as E. destruct (bind f sn n a) as [[f' [sn' a']] e']. cbn in *. now subst.
Qed.

Lemma bind_expr_last b e err : snd (bind_expr b e (f, err)) = (f, fold_left (ref_error b) (refs e) err).
Proof.
  rewrite bind_expr_state. revert err. induction (refs e) as [|[[sn n] a] l IH]; intros err; [reflexivity|].
  cbn [fold_left]. change (step_ref b (f, err) (sn, n, a)) with (snd (bind_field b sn n a (f, err))).
  rewrite bind_field_stable. apply IH.
Qed.

Lemma bind_expr_keeps b e st : fst st = f -> fst (snd (bind_expr b e st)) = f.
Proof. destruct st as [f' err]. cbn. intros ->. now rewrite bind_expr_last. Qed.

Lemma bind_expr_maps b e : forall st, fst st = f -> fst (bind_expr b e st) = map_refs (bound b) e.
Proof.
  induction e using expr_ind; intros st Hst; try reflexivity.
  - cbn. pose proof (bind_expr_keeps b e1 st Hst) as K. specialize (IHe1 st Hst).
    destruct (bind_expr b e1 st) as [l1 st1]. specialize (IHe2 st1 K).
    destruct (bind_expr b e2 st1). cbn in *. now subst.
  - cbn. specialize (IHe st Hst). destruct (bind_expr b e st). cbn in *. now subst.
  - cbn. destruct (map_st_fst (fun st : walk_state => fst st = f) (bind_expr b) (map_refs (bound b)) args st Hst) as [E _].
    { forall_step H. intros x Hx s Hs. auto using bind_expr_keeps. }
    destruct (map_st (bind_expr b) args st). cbn in *. now subst.
  - cbn. pose proof (opt_st_fst (bind_expr b) v st) as E1. pose proof (opt_st_snd (bind_expr b) v st) as K1.
    destruct (opt_st (bind_expr b) v st) as [v' st1]. cbn [fst snd] in *.
    assert (H1' : fst st1 = f) by (subst; destruct v; auto using bind_expr_keeps).
    match goal with |- context [map_st ?h ws st1] =>
      destruct (map_st_fst (fun st : walk_state => fst st = f) h
        (fun w : expr * expr => let (c, r) := w in (map_refs (bound b) c, map_refs (bound b) r)) ws st1 H1') as [E2 H2] end.
    { forall_step H0. intros [c r] [Hc Hr] s Hs. cbn in *.
      pose proof (bind_expr_keeps b c s Hs) as K. specialize (Hc s Hs). destruct (bind_expr b c s) as [c' s1].
      pose proof (bind_expr_keeps b r s1 K) as K'. specialize (Hr s1 K). destruct (bind_expr b r s1) as [r' s2].
      cbn in *. now subst. }
    match goal with |- context [map_st ?h ws st1] => destruct (map_st h ws st1) as [ws' st2] end. cbn [fst snd] in *.
    pose proof (opt_st_fst (bind_expr b) e st2) as E3.
    destruct (opt_st (bind_expr b) e st2) as [el' st3]. cbn [fst snd] in *. subst.
    f_equal; [destruct v|destruct e]; cbn in *; f_equal; auto.
  - destruct st as [f' err]. cbn in Hst. subst f'. cbn [bind_expr map_refs]. now rewrite bind_field_stable.
  - cbn. pose proof (opt_st_fst (bind_expr b) f0 st) as E. destruct (opt_st (bind_expr b) f0 st). cbn in *. subst.
    f_equal. destruct f0; cbn in *; f_equal; auto.
Qed.

(** The walk over an expression leaves the error of the last reference. *)
Lemma bind_expr_stable b e err :
  bind_expr b e (f, err) = (map_refs (bound b) e, (f, fold_left (ref_error b) (refs e) err)).
Proof.
  pose proof (bind_expr_maps b e (f, err) eq_refl) as E1. pose proof (bind_expr_last b e err) as E2.
  destruct (bind_expr b e (f, err)). cbn in *. now subst.
Qed.

Lemma no_errors b l : Forall (fun r => ref_error b None r = None) l -> fold_left (ref_error b) l None = None.
Proof. induction 1 as [|r l H _ IH]; cbn; [reflexivity|]. now rewrite H. Qed.

(** *** The statement, when every reference binds *)

Definition fine (e : expr) : Prop := Forall (fun r => ref_error false None r = None) (refs e).

Lemma bind_fine e : fine e -> bind_expr false e (f, None) = (map_refs (bound false) e, (f, None)).
Proof. intros H. now rewrite bind_expr_stable, no_errors. Qed.

Lemma opt_fine o : opt_all fine o ->
  opt_st (bind_expr false) o (f, None) = (option_map (map_refs (bound false)) o, (f, None)).
Proof. destruct o as [e|]; cbn; intros H; [now rewrite bind_fine|reflexivity]. Qed.

Definition map_join (g : StreamName -> string -> option AliasRef -> expr) (j : Join) : Join :=
  mkJoin (j_Name j) (j_Alias j) (j_Type j) (option_map (map_refs g) (j_Expr j)).

Lemma joins_fine js : Forall (fun j => opt_all fine (j_Expr j)) js ->
  map_st bind_join js (f, None) = (map (map_join (bound false)) js, (f, None)).
Proof.
  induction 1 as [|j js Hj _ IH]; [reflexivity|]. cbn. unfold bind_join at 1. rewrite opt_fine by exact Hj.
  now rewrite IH.
Qed.

Lemma is_Window_map g e : is_Window (map_refs g e) = is_Window e \/ is_FieldRef e = true.
Proof. destruct e; cbn; auto. Qed.

Lemma groups_fine ds : forall w, Forall fine ds ->
  w = GetWindow ds -> (List.length (filter is_Window ds) <= 1)%nat ->
  bind_groups (option_map (map_refs (bound false)) w) ds (f, None) = (map (map_refs (bound false)) ds, (f, None)).
Proof.
  assert (G : forall ds, Forall fine ds -> filter is_Window ds = [] ->
    forall w, bind_groups w ds (f, None) = (map (map_refs (bound false)) ds, (f, None))).
  { clear ds. induction ds as [|d ds IH]; intros H E w; [reflexivity|]. inversion H; subst. cbn in *.
    destruct (is_Window d); [discriminate|]. rewrite bind_fine by assumption. now rewrite IH. }
  induction ds as [|d ds IH]; intros w H Ew E; [reflexivity|]. inversion H; subst. cbn in *.
  destruct (is_Window d).
  - cbn in *. rewrite G; auto. destruct (filter is_Window ds); [reflexivity|cbn in E; lia].
  - rewrite bind_fine by assumption. now rewrite IH.
Qed.

(** A statement has at most one window. *)
Definition one_window (ds : list expr) : Prop := (List.length (filter is_Window ds) <= 1)%nat.

Lemma GetWindow_fine ds : Forall fine ds -> opt_all fine (GetWindow ds).
Proof. induction 1 as [|d ds Hd _ IH]; cbn; [exact I|]. now destruct (is_Window d). Qed.

Lemma dimensions_fine ds : Forall fine ds -> one_window ds ->
  bind_dimensions ds (f, None) = (map (map_refs (bound false)) ds, (f, None)).
Proof.
  intros H Hw. unfold bind_dimensions. rewrite opt_fine by now apply GetWindow_fine. now apply groups_fine.
Qed.

Definition stmt_fine (s : SelectStatement) : Prop :=
  Forall (fun j => opt_all fine (j_Expr j)) (Joins s) /\ opt_all fine (Condition s)
  /\ Forall fine (Dimensions s) /\ opt_all fine (Having s).

(** Everything but the select fields, rewritten. *)
Definition map_stmt (g : StreamName -> string -> option AliasRef -> expr) (s : SelectStatement) : SelectStatement :=
  mkSelect (Fields s) (Sources s) (map (map_join g) (Joins s)) (option_map (map_refs g) (Condition s))
    (map (map_refs g) (Dimensions s)) (option_map (map_refs g) (Having s)) (SortFields s).

Lemma bind_stmt_fine s : stmt_fine s -> one_window (Dimensions s) ->
  bind_stmt s (f, None) = (map_stmt (bound false) s, (f, None)).
Proof.
  intros (H1 & H2 & H3 & H4) Hw. unfold bind_stmt.
  rewrite joins_fine, opt_fine, dimensions_fine, opt_fine by assumption. reflexivity.
Qed.
End Stable.

(** ** Streams with schemas *)

Lemma assoc_set_id {V} k (v : V) m : assoc k m = Some v -> assoc_set k v m = m.
Proof.
  induction m as [|[k' v'] m IH]; cbn; [discriminate|]. destruct (String.eqb k' k); [now intros [= ->]|].
  intros H. now rewrite IH.
Qed.

Lemma put_field_id n fm f : assoc (to_lower n) (content f) = Some fm -> put_field n fm f = f.
Proof. intros H. unfold put_field. rewrite assoc_set_id by exact H. now destruct f. Qed.

(** The columns of the streams: lower-case name and stream. *)
Definition stream_columns (s : StreamStmt) : list (string * StreamName) :=
  map (fun fld => (to_lower (fst fld), ss_Name s)) (stream_fields s).

Definition columns (l : list StreamStmt) : list (string * StreamName) := flat_map stream_columns l.

(** The streams that have a column. *)
Definition owners (cols : list (string * StreamName)) (n : string) : list StreamName :=
  fold_left add_source (map snd (filter (fun c => String.eqb (fst c) n) cols)) [].

(** What a name stands for: streams in the order of the statement, then the alias. *)
Definition entry (cols : list (string * StreamName)) (al : list (string * AliasRef)) (n : string)
    : list (StreamName * option AliasRef) :=
  map (fun s => (s, None)) (owners cols n)
  ++ match assoc n al with Some ar => [(AliasStream, Some ar)] | None => [] end.

(** The fields map of streams with the columns [cols] and the aliases [al]. *)
Definition represents (f : fieldsMap) (cols : list (string * StreamName)) (al : list (string * AliasRef)) : Prop :=
  isSchemaless f = false
  /\ forall n, assoc (to_lower n) (content f) =
       match entry cols al (to_lower n) with [] => None | c => Some (streamFieldMap c) end.

Lemma assoc_owner (a : option AliasRef) k l : assoc k (map (fun s => (s, a)) l) = if mem k l then Some a else None.
Proof.
  induction l as [|x l IH]; [reflexivity|]. cbn [map assoc]. rewrite mem_cons, IH, String.eqb_sym.
  destruct (String.eqb k x); reflexivity.
Qed.

Lemma assoc_set_app {V} k (v : V) l : assoc k l = None -> assoc_set k v l = l ++ [(k, v)].
Proof.
  induction l as [|[k' v'] l IH]; cbn; [reflexivity|]. destruct (String.eqb k' k); [discriminate|].
  intros H. now rewrite IH.
Qed.

Lemma add_source_set k l : assoc_set k None (map (fun s : StreamName => (s, None : option AliasRef)) l)
  = map (fun s => (s, None)) (add_source l k).
Proof.
  unfold add_source. pose proof (assoc_owner None k l) as E. destruct (mem k l).
  - now apply assoc_set_id.
  - rewrite assoc_set_app by exact E. now rewrite map_app.
Qed.

Lemma owners_snoc cols c k n : owners (cols ++ [(c, k)]) n
  = if String.eqb c n then add_source (owners cols n) k else owners cols n.
Proof.
  unfold owners. rewrite filter_app. cbn. destruct (String.eqb c n); [|now rewrite app_nil_r].
  now rewrite map_app, fold_left_app.
Qed.

Lemma represents_empty d : represents (newFieldsMap false d) [] [].
Proof. split; reflexivity. Qed.

Lemma assoc_put n fm f m :
  assoc m (content (put_field n fm f)) = if String.eqb (to_lower n) m then Some fm else assoc m (content f).
Proof.
  cbn. destruct (String.eqb (to_lower n) m) eqn:E; bool_to_prop.
  - subst. apply assoc_set_same.
  - now apply assoc_set_other.
Qed.

Lemma reserve_represents n sn f cols : represents f cols [] ->
  represents (reserve n sn f) (cols ++ [(to_lower n, sn)]) [].
Proof.
  intros [Hs H]. unfold reserve.
  assert (G : forall fm, (forall c, entry cols [] (to_lower n) = c -> fm = streamFieldMap c) ->
    represents (put_field n (add sn fm) f) (cols ++ [(to_lower n, sn)]) []).
  { intros fm Hfm. rewrite (Hfm _ eq_refl). split; [exact Hs|]. intros m. rewrite assoc_put. unfold entry.
    rewrite owners_snoc. cbn [assoc]. rewrite !app_nil_r. destruct (String.eqb (to_lower n) (to_lower m)) eqn:E.
    - bool_to_prop. rewrite <- E. cbn [add]. rewrite add_source_set.
      unfold add_source. destruct (mem sn _) eqn:M; [|now rewrite map_app; destruct (map _ _)].
      destruct (owners cols (to_lower n)); [discriminate|reflexivity].
    - rewrite H. unfold entry. cbn [assoc]. now rewrite ?app_nil_r. }
  specialize (H n). destruct (entry cols [] (to_lower n)) as [|x l] eqn:E; rewrite H; apply G; intros c <-.
  - unfold new_store. now rewrite Hs.
  - reflexivity.
Qed.

Lemma init_represents l : schemaless l = false -> represents (init_fields l) (columns l) [].
Proof.
  intros Hl. unfold init_fields. rewrite Hl. cbn [negb].
  assert (G : forall l f cols, represents f cols [] ->
    represents (fold_left reserve_stream l f) (cols ++ columns l) []).
  { clear. induction l as [|s l IH]; intros f cols H; cbn; [now rewrite app_nil_r|].
    rewrite app_assoc. apply IH. unfold reserve_stream, stream_columns.
    generalize (stream_fields s). intros flds. revert f cols H.
    induction flds as [|fld flds IHf]; intros f cols H; cbn [fold_left map]; [now rewrite app_nil_r|].
    change ((to_lower (fst fld), ss_Name s) :: map (fun fld => (to_lower (fst fld), ss_Name s)) flds)
      with ([(to_lower (fst fld), ss_Name s)] ++ map (fun fld => (to_lower (fst fld), ss_Name s)) flds).
    rewrite app_assoc. apply IHf. now apply reserve_represents. }
  apply (G l _ []). apply represents_empty.
Qed.

(** No stream is called like the alias stream. *)
Definition no_alias_stream (cols : list (string * StreamName)) : Prop :=
  forall c, In c cols -> snd c <> AliasStream /\ snd c <> DefaultStream /\ snd c <> "".

Lemma In_owners cols n k : mem k (owners cols n) = true -> exists c, In c cols /\ snd c = k.
Proof.
  unfold owners. set (l := filter _ cols). assert (Hl : forall c, In c l -> In c cols) by (intros c Hc; now apply filter_In in Hc).
  assert (G : forall l acc, mem k (fold_left add_source (map snd l) acc) = true ->
    mem k acc = true \/ exists c : string * StreamName, In c l /\ snd c = k).
  { clear. induction l as [|[c s] l IH]; intros acc H; cbn in *; [auto|].
    destruct (IH _ H) as [G|(x & Hx & E)]; [|right; eauto].
    unfold add_source in G. destruct (mem s acc); [auto|]. unfold mem in G. rewrite existsb_app in G. cbn in G.
    rewrite orb_false_r in G. apply orb_prop in G as [G|G]; [auto|]. bool_to_prop. subst. right. exists (c, s). auto. }
  intros H. destruct (G l [] H) as [E|(c & Hc & E)]; [discriminate E|eauto].
Qed.

Lemma owners_special cols n : no_alias_stream cols ->
  mem AliasStream (owners cols n) = false /\ mem DefaultStream (owners cols n) = false /\ mem "" (owners cols n) = false.
Proof.
  intros H. repeat split;
    (match goal with |- ?b = false => destruct b eqn:E; [|reflexivity] end;
     apply In_owners in E as (c & Hc & E); destruct (H c Hc) as (A & B & C); congruence).
Qed.

Lemma assoc_alias cols al n : no_alias_stream cols ->
  assoc AliasStream (entry cols al n) = option_map Some (assoc n al).
Proof.
  intros H. unfold entry. rewrite assoc_app, assoc_owner, (proj1 (owners_special cols n H)).
  now destruct (assoc n al).
Qed.

Lemma entry_snoc cols al n ar m : assoc n al = None -> entry cols (al ++ [(n, ar)]) m
  = entry cols al m ++ if String.eqb n m then [(AliasStream, Some ar)] else [].
Proof.
  intros H. unfold entry. rewrite assoc_app. cbn. destruct (String.eqb n m) eqn:E; bool_to_prop.
  - subst. now rewrite H, <- app_assoc.
  - rewrite app_nil_r. now destruct (assoc m al).
Qed.

Lemma save_represents f cols al n ar : represents f cols al -> no_alias_stream cols ->
  match assoc (to_lower n) al with
  | Some _ => snd (save n AliasStream ar f) = Some ("duplicate alias " ++ n)%string
  | None => snd (save n AliasStream ar f) = None
            /\ represents (fst (save n AliasStream ar f)) cols (al ++ [(to_lower n, ar)])
  end.
Proof.
  intros [Hs H] Hc. pose proof (H n) as Hn. pose proof (assoc_alias cols al (to_lower n) Hc) as Ha.
  assert (G : forall fm, fm = streamFieldMap (entry cols al (to_lower n)) -> assoc (to_lower n) al = None ->
    snd (let (fm', err) := ref AliasStream (Some ar) fm in
         (put_field n fm' f, option_map (fun e => e ++ n)%string err)) = None
    /\ represents (fst (let (fm', err) := ref AliasStream (Some ar) fm in
         (put_field n fm' f, option_map (fun e => e ++ n)%string err))) cols (al ++ [(to_lower n, ar)])).
  { intros fm -> Hal. cbn [ref]. rewrite String.eqb_refl, Ha, Hal. cbn [option_map fst snd]. split; [reflexivity|].
    split; [exact Hs|]. intros m. rewrite assoc_put, entry_snoc by exact Hal.
    destruct (String.eqb (to_lower n) (to_lower m)) eqn:E.
    - bool_to_prop. rewrite <- E, assoc_set_app by now rewrite Ha, Hal.
      now destruct (entry cols al (to_lower n)).
    - rewrite H, app_nil_r. reflexivity. }
  unfold save. destruct (entry cols al (to_lower n)) as [|x l] eqn:E; rewrite Hn.
  - cbn in Ha. destruct (assoc (to_lower n) al); [discriminate|]. rewrite String.eqb_refl. cbn [orb].
    apply G; [unfold new_store; now rewrite Hs|reflexivity].
  - destruct (assoc (to_lower n) al); [|now apply G].
    cbn [ref]. rewrite String.eqb_refl, Ha. reflexivity.
Qed.

(** ** What a reference means *)

(** The meaning of a reference over streams with schemas: an unqualified name is
    the alias of that name, else the column of the only stream that has it; a
    qualified one is the column of that stream. *)
Definition resolve (cols : list (string * StreamName)) (al : list (string * AliasRef)) (sn : StreamName) (n : string)
    : option target :=
  let alias := match assoc (to_lower n) al with Some ar => Some (AliasStream, Some ar) | None => None end in
  if String.eqb sn "" || String.eqb sn DefaultStream then
    match alias with
    | Some t => Some t
    | None => match owners cols (to_lower n) with [s] => Some (s, None) | _ => None end
    end
  else if String.eqb sn AliasStream then alias
  else if mem sn (owners cols (to_lower n)) then Some (sn, None) else None.

(** binding resolves: over streams with schemas the fields map never
    changes, a reference that has a meaning is bound to it, and one that has
    none (no such column, or several streams that have it) is an error. *)
Theorem bind_resolves f cols al sn n a : represents f cols al -> no_alias_stream cols ->
  let '(f', t, err) := bind f sn n a in
  f' = f /\ match resolve cols al sn n with
            | Some t' => t = t' /\ err = None
            | None => err <> None
            end.
Proof.
  intros [Hs H] Hc. pose proof (H n) as Hn. pose proof (assoc_alias cols al (to_lower n) Hc) as Ha.
  destruct (owners_special cols (to_lower n) Hc) as (O1 & O2 & O3).
  unfold bind, resolve. destruct (entry cols al (to_lower n)) as [|x l] eqn:E; rewrite Hn.
  - rewrite Hs. cbn [andb]. split; [reflexivity|]. unfold entry in E.
    destruct (owners cols (to_lower n)); [|discriminate]. destruct (assoc (to_lower n) al); [discriminate|].
    cbn. now destruct (String.eqb sn "" || String.eqb sn DefaultStream), (String.eqb sn AliasStream).
  - cbn [bindRef]. destruct (String.eqb sn "" || String.eqb sn DefaultStream) eqn:Ed.
    + replace (if String.eqb sn "" then DefaultStream else sn) with DefaultStream
        by (destruct (String.eqb sn ""); [reflexivity|cbn in Ed; bool_to_prop; congruence]).
      rewrite String.eqb_refl. unfold entry in E.
      destruct (assoc (to_lower n) al) as [ar|] eqn:Eal.
      * destruct (owners cols (to_lower n)) as [|o os] eqn:Eo; cbn in E.
        -- injection E as <- <-. cbn -[put_field]. rewrite put_field_id by exact Hn. auto.
        -- destruct l as [|y l]; [destruct os; discriminate|]. destruct x as [k v].
           rewrite Ha. cbn -[put_field]. rewrite put_field_id by exact Hn. auto.
      * rewrite app_nil_r in E. destruct (owners cols (to_lower n)) as [|o os] eqn:Eo; cbn in E; [discriminate|].
        injection E as <- <-. destruct os as [|o' os]; cbn [map] in *.
        -- cbn -[put_field]. rewrite put_field_id by exact Hn. auto.
        -- rewrite Ha. cbn -[put_field]. rewrite put_field_id by exact Hn. split; [reflexivity|discriminate].
    + apply orb_false_elim in Ed as [E1 E2]. rewrite E1, E2. rewrite <- E in *.
      replace (assoc sn (entry cols al (to_lower n)))
        with (if String.eqb sn AliasStream then option_map Some (assoc (to_lower n) al)
              else if mem sn (owners cols (to_lower n)) then Some None else None).
      2:{ destruct (String.eqb sn AliasStream) eqn:Es; [bool_to_prop; now subst|].
          unfold entry. rewrite assoc_app, assoc_owner. destruct (mem sn _); [reflexivity|].
          destruct (assoc (to_lower n) al); cbn [assoc]; [|reflexivity]. now rewrite String.eqb_sym, Es. }
      assert (P : put_field n (streamFieldMap (entry cols al (to_lower n))) f = f) by (apply put_field_id, Hn).
      destruct (String.eqb sn AliasStream) eqn:Es; [bool_to_prop; subst sn; destruct (assoc (to_lower n) al)|
        destruct (mem sn (owners cols (to_lower n)))]; cbn -[put_field]; rewrite P; split; auto; discriminate.
Qed.

(** ** decorateStmt over streams with schemas *)

Lemma map_refs_ext g h e : Forall (fun r : reference => g (fst (fst r)) (snd (fst r)) (snd r) = h (fst (fst r)) (snd (fst r)) (snd r))
  (refs e) -> map_refs g e = map_refs h e.
Proof.
  induction e using expr_ind; intros Hr; cbn [refs map_refs] in *; auto;
    repeat match goal with H : Forall _ (_ ++ _) |- _ => apply Forall_app in H as [? ?] end.
  - f_equal; auto.
  - f_equal; auto.
  - f_equal. apply map_ext_in. intros x Hx. rewrite Forall_forall in H. apply H; [exact Hx|].
    rewrite Forall_flat_map in Hr. rewrite Forall_forall in Hr. now apply Hr.
  - f_equal.
    + destruct v; cbn in *; f_equal; auto.
    + apply map_ext_in. intros [c r] Hx. rewrite Forall_forall in H0. destruct (H0 _ Hx) as [Hc Hr'].
      match goal with H : Forall _ (flat_map _ ws) |- _ =>
        rewrite Forall_flat_map, Forall_forall in H; specialize (H _ Hx); cbn in H; apply Forall_app in H as [? ?] end.
      cbn in *. f_equal; auto.
    + destruct e; cbn in *; f_equal; auto.
  - now inversion Hr.
  - f_equal. destruct f; cbn in *; f_equal; auto.
Qed.

Lemma refs_map g e : refs (map_refs g e)
  = flat_map (fun r : reference => refs (g (fst (fst r)) (snd (fst r)) (snd r))) (refs e).
Proof.
  induction e using expr_ind; cbn [refs map_refs]; auto; rewrite ?flat_map_app.
  - now rewrite IHe1, IHe2.
  - induction H as [|x l Hx _ IH]; cbn; [reflexivity|]. now rewrite Hx, IH, flat_map_app.
  - f_equal; [destruct v; cbn in *; auto|]. f_equal; [|destruct e; cbn in *; auto].
    induction H0 as [|[c r] l [Hc Hr] _ IH]; cbn in *; [reflexivity|].
    now rewrite Hc, Hr, IH, !flat_map_app.
  - cbn. now rewrite app_nil_r.
  - destruct f; cbn in *; auto.
Qed.

(** What a reference becomes; one without a meaning stays. *)
Definition resolved (cols : list (string * StreamName)) (al : list (string * AliasRef)) (only_sql : bool)
    (sn : StreamName) (n : string) (a : option AliasRef) : expr :=
  if only_sql && negb (fr_IsSQLField sn) then FieldRef sn n a
  else match resolve cols al sn n with Some (sn', a') => FieldRef sn' n a' | None => FieldRef sn n a end.

Definition has_meaning (cols : list (string * StreamName)) (al : list (string * AliasRef)) (only_sql : bool)
    (r : reference) : bool :=
  only_sql && negb (fr_IsSQLField (fst (fst r)))
  || match resolve cols al (fst (fst r)) (snd (fst r)) with Some _ => true | None => false end.

Definition alias_of (e : expr) : AliasRef := mkAlias e (fst (walk_expr visit_alias e ([], None))) None.

(** The select fields after the scan. *)
Definition scanned (streams : list StreamStmt) (x : Field) : Field :=
  mkField (if String.eqb (f_Name x) "" && String.eqb (f_AName x) "" then getDefaultName (init_fields streams) else f_Name x)
    (f_AName x) (map_refs (resolved (columns streams) [] true) (f_Expr x)).

Definition has_alias (x : Field) : bool := negb (String.eqb (f_AName x) "").

Definition aliases (fs : list Field) : list (string * AliasRef) :=
  map (fun x => (to_lower (f_AName x), alias_of (f_Expr x))) (filter has_alias fs).

Definition alias_field (x : Field) : Field :=
  if has_alias x then mkField (f_Name x) (f_AName x) (FieldRef AliasStream (f_AName x) (Some (alias_of (f_Expr x)))) else x.

Definition bound_fields (streams : list StreamStmt) (s : SelectStatement) : list Field :=
  map (scanned streams) (Fields s).

Definition bound_stmt (streams : list StreamStmt) (s : SelectStatement) : SelectStatement :=
  let fs := bound_fields streams s in
  map_stmt (resolved (columns streams) (aliases fs) false)
    (mkSelect (map alias_field fs) (Sources s) (Joins s) (Condition s) (Dimensions s) (Having s) (SortFields s)).

(** Every reference of an expression has a meaning. *)
Definition meaningful (cols : list (string * StreamName)) (al : list (string * AliasRef)) (only_sql : bool) (e : expr) : bool :=
  forallb (has_meaning cols al only_sql) (refs e).

Definition opt_meaningful cols al (o : option expr) : bool :=
  match o with Some e => meaningful cols al false e | None => true end.

Definition stmt_meaningful (streams : list StreamStmt) (s : SelectStatement) : bool :=
  let cols := columns streams in
  let al := aliases (bound_fields streams s) in
  forallb (fun x => meaningful cols [] true (f_Expr x)) (Fields s)
  && forallb (fun j => opt_meaningful cols al (j_Expr j)) (Joins s)
  && opt_meaningful cols al (Condition s)
  && forallb (meaningful cols al false) (Dimensions s)
  && opt_meaningful cols al (Having s).

Section Resolved.
Variables (f : fieldsMap) (cols : list (string * StreamName)) (al : list (string * AliasRef)).
Hypothesis Hf : represents f cols al.
Hypothesis Hc : no_alias_stream cols.

Lemma schema_stable sn n a : fst (fst (bind f sn n a)) = f.
Proof.
  pose proof (bind_resolves f cols al sn n a Hf Hc) as H. destruct (bind f sn n a) as [[f' t] err]. apply H.
Qed.

Lemma meaning_binds b sn n a : has_meaning cols al b (sn, n, a) = true ->
  bound f b sn n a = resolved cols al b sn n a /\ ref_error f b None (sn, n, a) = None.
Proof.
  unfold has_meaning, bound, bind_field, resolved, ref_error. cbn [fst snd].
  destruct (b && negb (fr_IsSQLField sn)); [auto|]. cbn [orb]. intros H.
  pose proof (bind_resolves f cols al sn n a Hf Hc) as G. destruct (bind f sn n a) as [[f' [sn' a']] err].
  destruct G as [_ G]. destruct (resolve cols al sn n) as [[sn1 a1]|]; [|discriminate].
  destruct G as [[= -> ->] ->]. auto.
Qed.

Lemma meaningful_refs b e : meaningful cols al b e = true ->
  Forall (fun r => ref_error f b None r = None) (refs e)
  /\ map_refs (bound f b) e = map_refs (resolved cols al b) e.
Proof.
  unfold meaningful. rewrite forallb_forall. intros H. split.
  - apply Forall_forall. intros [[sn n] a] Hr. now apply meaning_binds, H.
  - apply map_refs_ext, Forall_forall. intros [[sn n] a] Hr. now apply meaning_binds, H.
Qed.

Lemma meaningful_bind b e : meaningful cols al b e = true ->
  bind_expr b e (f, None) = (map_refs (resolved cols al b) e, (f, None)).
Proof.
  intros H. apply meaningful_refs in H as [H1 H2]. rewrite (bind_expr_stable f schema_stable).
  now rewrite no_errors, H2.
Qed.
End Resolved.

Lemma NewAliasRef_columns e : Forall (fun r : reference => fst (fst r) <> AliasStream) (refs e) ->
  NewAliasRef e = inr (alias_of e).
Proof.
  intros H. unfold NewAliasRef, alias_of. rewrite walk_refs.
  2:{ intros st n Hn. destruct n as [| | | | | | | | | | |x]; try reflexivity. destruct x; try reflexivity. now edestruct Hn. }
  set (g := fun st r => _).
  assert (G : forall l acc, Forall (fun r : reference => fst (fst r) <> AliasStream) l -> snd (fold_left g l (acc, None)) = None).
  { clear. subst g. induction l as [|[[sn n] a] l IH]; intros acc H; [reflexivity|]. inversion H; subst. cbn in *.
    destruct (String.eqb_spec sn AliasStream); [congruence|]. now apply IH. }
  specialize (G (refs e) [] H). destruct (fold_left g (refs e) ([], None)) as [rs err]. cbn in *. now subst.
Qed.

(** In the select fields no reference means an alias yet. *)
Lemma scanned_columns streams e : no_alias_stream (columns streams) ->
  meaningful (columns streams) [] true e = true ->
  Forall (fun r : reference => fst (fst r) <> AliasStream) (refs (map_refs (resolved (columns streams) [] true) e)).
Proof.
  intros Hc H. rewrite refs_map. apply Forall_flat_map, Forall_forall. intros [[sn n] a] Hr.
  unfold meaningful in H. rewrite forallb_forall in H. specialize (H _ Hr).
  unfold has_meaning, resolved in *. cbn [fst snd] in *. destruct (true && negb (fr_IsSQLField sn)) eqn:E.
  - constructor; [|constructor]. cbn in *. unfold fr_IsSQLField in E. rewrite negb_involutive in E. bool_to_prop.
    subst. discriminate.
  - cbn [orb] in H. unfold resolve in *. cbn [assoc] in *.
    assert (Ho : forall s, mem s (owners (columns streams) (to_lower n)) = true -> s <> AliasStream).
    { intros s Hs ->. now rewrite (proj1 (owners_special _ _ Hc)) in Hs. }
    destruct (String.eqb sn "" || String.eqb sn DefaultStream).
    + destruct (owners (columns streams) (to_lower n)) as [|s [|s' l]]; try discriminate.
      constructor; [|constructor]. cbn. apply Ho. now rewrite mem_cons, String.eqb_refl.
    + destruct (String.eqb sn AliasStream); [discriminate|].
      destruct (mem sn _) eqn:M; [|discriminate]. constructor; [|constructor]. cbn. now apply Ho.
Qed.

Lemma scan_meaningful streams fs : schemaless streams = false -> no_alias_stream (columns streams) ->
  forallb (fun x => meaningful (columns streams) [] true (f_Expr x)) fs = true ->
  scan_fields fs (init_fields streams) = inr (map (scanned streams) fs, init_fields streams).
Proof.
  intros Hl Hc. pose proof (init_represents streams Hl) as Hf.
  induction fs as [|x fs IH]; intros H; [reflexivity|]. cbn in H. apply andb_prop in H as [Hx H].
  cbn [scan_fields]. rewrite (meaningful_bind _ _ _ Hf Hc) by exact Hx. rewrite IH by exact H. reflexivity.
Qed.

Lemma aliases_cons x fs : aliases (x :: fs)
  = (if has_alias x then [(to_lower (f_AName x), alias_of (f_Expr x))] else []) ++ aliases fs.
Proof. unfold aliases. cbn. now destruct (has_alias x). Qed.

Lemma save_all_aliases cols fs : no_alias_stream cols -> forall al f,
  represents f cols al -> NoDup (map fst al ++ map fst (aliases fs)) ->
  (forall x, In x fs -> Forall (fun r : reference => fst (fst r) <> AliasStream) (refs (f_Expr x))) ->
  exists f', map_st save_alias fs (f, None) = (map alias_field fs, (f', None)) /\ represents f' cols (al ++ aliases fs).
Proof.
  intros Hc. induction fs as [|x fs IH]; intros al f Hf Hd Hx.
  { exists f. cbn. now rewrite app_nil_r. }
  rewrite aliases_cons in *. cbn [map_st map]. unfold save_alias at 1, alias_field at 1.
  unfold has_alias in *. destruct (String.eqb (f_AName x) ""); cbn [negb app] in *.
  - destruct (IH al f Hf Hd) as (f' & -> & H'); [intros y Hy; apply Hx; now right|]. eauto.
  - rewrite NewAliasRef_columns by (apply Hx; now left).
    pose proof (save_represents f cols al (f_AName x) (alias_of (f_Expr x)) Hf Hc) as G.
    assert (Hn : assoc (to_lower (f_AName x)) al = None).
    { apply assoc_None_keys. intros Hin. apply NoDup_remove_2 in Hd. apply Hd, in_or_app. now left. }
    rewrite Hn in G. cbn [fst]. destruct (save (f_AName x) AliasStream (alias_of (f_Expr x)) f) as [f1 err].
    cbn [fst snd] in G. destruct G as [-> G]. cbn [option_map].
    destruct (IH _ f1 G) as (f' & -> & H').
    + rewrite map_app, <- app_assoc. exact Hd.
    + intros y Hy. apply Hx. now right.
    + exists f'. split; [reflexivity|]. now rewrite <- app_assoc in H'.
Qed.

Lemma stmt_meaningful_fine f cols al s : represents f cols al -> no_alias_stream cols ->
  forallb (fun j => opt_meaningful cols al (j_Expr j)) (Joins s) = true ->
  opt_meaningful cols al (Condition s) = true -> forallb (meaningful cols al false) (Dimensions s) = true ->
  opt_meaningful cols al (Having s) = true ->
  stmt_fine f s /\ map_stmt (bound f false) s = map_stmt (resolved cols al false) s.
Proof.
  intros Hf Hc H1 H2 H3 H4.
  assert (G : forall e, meaningful cols al false e = true ->
    fine f e /\ map_refs (bound f false) e = map_refs (resolved cols al false) e)
    by (intros e He; now apply meaningful_refs).
  assert (Go : forall o, opt_meaningful cols al o = true -> opt_all (fine f) o
    /\ option_map (map_refs (bound f false)) o = option_map (map_refs (resolved cols al false)) o).
  { intros [e|] He; cbn in *; [|auto]. destruct (G e He) as [A B]. now rewrite B. }
  rewrite forallb_forall in H1, H3. split.
  - split; [apply Forall_forall; intros j Hj; now apply Go, H1|]. split; [now apply Go|].
    split; [apply Forall_forall; intros d Hd; now apply G, H3|now apply Go].
  - unfold map_stmt. f_equal; [| now apply Go | | now apply Go].
    + apply map_ext_in. intros j Hj. unfold map_join. f_equal. now apply Go, H1.
    + apply map_ext_in. intros d Hd. now apply G, H3.
Qed.

(** C17: the analyzer resolves a statement: over streams with schemas, if every
    reference of the statement has a meaning and no alias is defined twice, the
    result is the statement in which every reference is replaced by its
    meaning, with the aliases in place of the select expressions, unless the
    validation of that very statement fails. *)
Theorem decorate_resolves ff store s streams :
  get_streams store (GetStreams s) = inr streams -> schemaless streams = false ->
  no_alias_stream (columns streams) -> stmt_meaningful streams s = true ->
  NoDup (map fst (aliases (bound_fields streams s))) -> one_window (Dimensions s) ->
  decorateStmt ff store s =
    match validate ff (bound_stmt streams s) with
    | Some e => inl e
    | None => inr (bound_stmt streams s, streams)
    end.
Proof.
  intros Hs Hl Hc Hm Hd Hw. unfold stmt_meaningful in Hm. repeat (apply andb_prop in Hm as [Hm ?]).
  unfold decorateStmt. rewrite Hs, scan_meaningful by assumption. fold (bound_fields streams s).
  destruct (save_all_aliases (columns streams) (bound_fields streams s) Hc [] (init_fields streams))
    as (f' & -> & Hf); [now apply init_represents|exact Hd| |].
  { intros x Hx. apply in_map_iff in Hx as (y & <- & Hy). cbn [scanned f_Expr]. apply scanned_columns; [exact Hc|].
    rewrite forallb_forall in Hm. now apply Hm. }
  cbn [app] in Hf. set (s1 := mkSelect _ _ _ _ _ _ _).
  destruct (stmt_meaningful_fine f' _ _ s1 Hf Hc) as [F E]; try assumption.
  rewrite (bind_stmt_fine f' (schema_stable f' _ _ Hf Hc) s1 F Hw), E. reflexivity.
Qed.

(** ** On concrete statements *)

Definition opts : Options := mkOptions "" "" "" "" "" false "" "" 0 false.

Definition demo_stream : StreamStmt :=
  mkStreamStmt "demo" (Some [("a", BasicType BIGINT); ("m", RecType [("x", BasicType BIGINT)])]) opts TypeStream.
Definition other_stream : StreamStmt :=
  mkStreamStmt "other" (Some [("A", BasicType BIGINT); ("b", BasicType BIGINT)]) opts TypeStream.
Definition free_stream : StreamStmt := mkStreamStmt "demo" None opts TypeStream.

Definition store_of (l : list StreamStmt) (n : string) : option StreamStmt := find (fun s => String.eqb (ss_Name s) n) l.

Definition no_plugins : FuncFinder := mkFinder [] (fun _ => false).

Definition name (n : string) : expr := FieldRef DefaultStream n None.

Definition select (fs : list Field) (where_ : option expr) (having : option expr) : SelectStatement :=
  mkSelect fs [mkTable "demo" ""] [] where_ [] having [].

Definition analyze (stream : StreamStmt) := decorateStmt no_plugins (store_of [stream]).

Lemma demo_columns : no_alias_stream (columns [demo_stream; other_stream]).
Proof. intros c H. cbn in H. intuition (subst; cbn; discriminate). Defined.

Lemma bind_resolves_witness :
  snd (fst (bind (init_fields [demo_stream; other_stream]) DefaultStream "B" None)) = ("other", None).
Proof.
  pose proof (bind_resolves (init_fields [demo_stream; other_stream]) (columns [demo_stream; other_stream]) []
    DefaultStream "B" None (init_represents [demo_stream; other_stream] eq_refl) demo_columns) as H.
  destruct (bind _ _ _ _) as [[f t] err]. destruct H as [_ H].
  change (resolve (columns [demo_stream; other_stream]) [] DefaultStream "B") with (Some ("other", None : option AliasRef)) in H.
  destruct H as [-> _]. reflexivity.
Defined.

(** [SELECT a + 1 AS c FROM demo WHERE c > 2 AND a = 3]. *)
Definition sample_select : SelectStatement :=
  select [mkField "" "c" (BinaryExpr ADD (name "a") (IntegerLiteral 1))]
    (Some (BinaryExpr AND (BinaryExpr GT (name "C") (IntegerLiteral 2)) (BinaryExpr EQ (name "a") (IntegerLiteral 3)))) None.

Lemma decorate_resolves_witness : decorateStmt no_plugins (store_of [demo_stream]) sample_select
  = inr (bound_stmt [demo_stream] sample_select, [demo_stream]).
Proof.
  refine (decorate_resolves no_plugins (store_of [demo_stream]) sample_select [demo_stream] _ _ _ _ _ _);
    [reflexivity|reflexivity| |reflexivity| |unfold one_window; cbn; lia].
  - intros c H. cbn in H. intuition (subst; cbn; discriminate).
  - cbn. repeat constructor; cbn; tauto.
Defined.

(** *** Where the analyzer is not what it means to be *)

(** [walkErr] is overwritten: [x + a] passes although no stream has [x]. *)
Lemma lost_bind_error :
  analyze demo_stream (select [mkField "x" "" (name "x")] None None) = inl (BindError "unknown field x")
  /\ exists s, analyze demo_stream (select [mkField "" "" (BinaryExpr ADD (name "x") (name "a"))] None None)
       = inr (s, [demo_stream])
     /\ map f_Expr (Fields s) = [BinaryExpr ADD (name "x") (FieldRef "demo" "a" None)].
Proof. split; [reflexivity|]. eexists. split; reflexivity. Qed.

(** So are the errors of aliases: the duplicate is lost if WHERE reads a column. *)
Lemma lost_alias_error :
  analyze demo_stream (select [mkField "" "c" (name "a"); mkField "" "c" (name "m")] None None)
    = inl (BindError "duplicate alias c")
  /\ exists s, analyze demo_stream (select [mkField "" "c" (name "a"); mkField "" "c" (name "m")]
       (Some (BinaryExpr GT (name "a") (IntegerLiteral 1))) None) = inr (s, [demo_stream]).
Proof. split; [reflexivity|]. eexists. reflexivity. Qed.

(** A member of a struct is bound like a column outside of SELECT. *)
Lemma member_in_where_unknown :
  let member := BinaryExpr ARROW (name "m") (FieldRef "" "x" None) in
  (exists s, analyze demo_stream (select [mkField "" "c" member] None None) = inr (s, [demo_stream]))
  /\ analyze demo_stream (select [mkField "a" "" (name "a")] (Some (BinaryExpr GT member (IntegerLiteral 1))) None)
     = inl (BindError "unknown field x")
  /\ exists s, analyze demo_stream (select [mkField "a" "" (name "a")] (Some (BinaryExpr LT (IntegerLiteral 1) (BinaryExpr ADD member (name "a")))) None)
     = inr (s, [demo_stream]).
Proof. cbv zeta. repeat split; try eexists; reflexivity. Qed.

(** Two expressions without a name get the same one, so the projection keeps
    only the first. *)
Lemma default_names_collide :
  exists s, analyze demo_stream (select [mkField "" "" (BinaryExpr ADD (name "a") (IntegerLiteral 1));
                                         mkField "" "" (BinaryExpr ADD (name "a") (IntegerLiteral 2))] None None)
      = inr (s, [demo_stream])
    /\ map f_Name (Fields s) = ["kuiper_field_0"; "kuiper_field_0"].
Proof. eexists. split; reflexivity. Qed.

(** The check of HAVING does not look into parentheses. *)
Lemma having_in_parentheses_unchecked :
  let c := BinaryExpr GT (name "a") (IntegerLiteral 3) in
  let fs := [mkField "count" "" (Call "count" [Wildcard ASTERISK])] in
  analyze demo_stream (select fs None (Some c)) = inl NonAggregateInHaving
  /\ exists s, analyze demo_stream (select fs None (Some (ParenExpr c))) = inr (s, [demo_stream]).
Proof. cbv zeta. split; [reflexivity|]. eexists. reflexivity. Qed.

(** [SELECT a + 1 AS a ... WHERE a > 1]: the alias with a schema, the column
    without one. *)
Lemma schema_decides_alias :
  let s := select [mkField "" "a" (BinaryExpr ADD (name "a") (IntegerLiteral 1))] (Some (name "a")) None in
  (exists r, analyze demo_stream s = inr (r, [demo_stream])
     /\ exists ar, Condition r = Some (FieldRef AliasStream "a" (Some ar)))
  /\ (exists r, analyze free_stream s = inr (r, [free_stream]) /\ Condition r = Some (FieldRef "demo" "a" None)).
Proof. cbv zeta. split; eexists; (split; [reflexivity|]); [eexists|]; reflexivity. Qed.

(** ** What the validation accepts *)

Section Accepts.
Variable ff : FuncFinder.

(** The function calls in an expression. *)
Fixpoint calls (e : expr) : list (string * list expr) :=
  match e with
  | Call n args => (n, args) :: flat_map calls args
  | BinaryExpr _ l r => calls l ++ calls r
  | ParenExpr x => calls x
  | CaseExpr v ws el =>
      match v with Some x => calls x | None => [] end
      ++ flat_map (fun w : expr * expr => let (c, r) := w in calls c ++ calls r) ws
      ++ match el with Some x => calls x | None => [] end
  | Window _ _ _ (Some x) => calls x
  | _ => []
  end.

Definition opt_calls (o : option expr) : list (string * list expr) := match o with Some x => calls x | None => [] end.

Definition field_calls (x : Field) : list (string * list expr) :=
  calls (f_Expr x)
  ++ match f_Expr x with
     | FieldRef sn _ (Some i) => if fr_IsAlias sn then calls (Expression i) else []
     | _ => []
     end.

Definition stmt_calls (s : SelectStatement) : list (string * list expr) :=
  flat_map field_calls (Fields s) ++ flat_map (fun j => opt_calls (j_Expr j)) (Joins s)
  ++ opt_calls (Condition s) ++ opt_calls (GetWindow (Dimensions s)) ++ flat_map calls (GetGroups (Dimensions s))
  ++ opt_calls (Having s).

(** An aggregate call has no aggregate argument. *)
Definition flat (c : string * list expr) : bool := negb (is_agg ff (fst c) && existsb (aggregate ff) (snd c)).

(** The walk finds no error in [l]. *)
Definition clean (st st' : option analyze_error) (l : list (string * list expr)) : Prop :=
  st' = None <-> st = None /\ forallb flat l = true.

Lemma clean_refl st : clean st st [].
Proof. unfold clean. cbn. tauto. Qed.

Lemma clean_app s1 s2 s3 l1 l2 : clean s1 s2 l1 -> clean s2 s3 l2 -> clean s1 s3 (l1 ++ l2).
Proof. unfold clean. intros H1 H2. rewrite forallb_app, andb_true_iff. tauto. Qed.

Lemma clean_fold {A} (step : option analyze_error -> A -> option analyze_error) (k : A -> list (string * list expr)) l :
  (forall x, In x l -> forall st, clean st (step st x) (k x)) ->
  forall st, clean st (fold_left step l st) (flat_map k l).
Proof.
  induction l as [|x l IH]; intros H st; [apply clean_refl|]. cbn.
  eapply clean_app; [apply H; now left|apply IH; intros y Hy; apply H; now right].
Qed.

Lemma walk_nested e : forall st, clean st (walk_expr (visit_nested ff) e st) (calls e).
Proof.
  assert (Ho : forall o, opt_all (fun x => forall st, clean st (walk_expr (visit_nested ff) x st) (calls x)) o ->
    forall st, clean st (match o with Some x => walk_expr (visit_nested ff) x st | None => st end)
      (match o with Some x => calls x | None => [] end))
    by (intros [x|] H st; [apply H|apply clean_refl]).
  induction e using expr_ind; intros st; try apply clean_refl.
  - cbn. eapply clean_app; auto.
  - cbn. auto.
  - assert (G : forall st, clean st ((fix walk_list (l : list expr) (s : option analyze_error) : option analyze_error :=
        match l with [] => s | x :: l' => walk_list l' (walk_expr (visit_nested ff) x s) end) args st) (flat_map calls args)).
    { induction H as [|x l Hx _ IH]; intros s; [apply clean_refl|]. cbn. eapply clean_app; [apply Hx|apply IH]. }
    cbn. destruct (is_agg ff n && existsb (aggregate ff) args) eqn:E; cbn.
    + unfold clean, flat. cbn. rewrite E. cbn. intuition discriminate.
    + unfold clean in *. cbn. unfold flat at 1. cbn. rewrite E. cbn. apply G.
  - cbn. eapply clean_app; [apply (Ho v H)|]. eapply clean_app; [|apply (Ho e H1)].
    generalize (match v with Some x => walk_expr (visit_nested ff) x st | None => st end). clear -H0.
    induction H0 as [|[c r] l [Hc Hr] _ IH]; intros st; [apply clean_refl|]. cbn in *.
    eapply clean_app; [eapply clean_app; [apply Hc|apply Hr]|apply IH].
  - cbn. destruct i; destruct f; cbn in *; auto using clean_refl.
Qed.

Lemma walk_nested_opt o st : clean st (walk_opt_expr (visit_nested ff) o st) (opt_calls o).
Proof. destruct o; [apply walk_nested|apply clean_refl]. Qed.

Lemma walk_nested_stmt s st : clean st (walk_stmt (visit_nested ff) s st) (stmt_calls s).
Proof.
  unfold walk_stmt, stmt_calls. cbn [visit_nested negb].
  assert (Hs : forall st, clean st (walk_slice (visit_nested ff) NFields (walk_field (visit_nested ff)) (Fields s) st)
    (flat_map field_calls (Fields s))).
  { intros st0. unfold walk_slice. destruct (Fields s) as [|x l]; [apply clean_refl|]. cbn [visit_nested].
    apply clean_fold. intros y _ s1. unfold walk_field, field_calls. cbn [visit_nested negb].
    eapply clean_app; [apply walk_nested|]. destruct (f_Expr y) as [| | | | | | | | | | | | | |sn nm [i|]| |]; try apply clean_refl.
    destruct (fr_IsAlias sn); [apply walk_nested|apply clean_refl]. }
  assert (Ht : forall st, walk_sources (visit_nested ff) (Sources s) st = st).
  { unfold walk_sources, walk_slice. destruct (Sources s) as [|t l]; intros st0; [reflexivity|]. cbn [visit_nested].
    revert st0. induction (t :: l) as [|y l' IH]; intros x; [reflexivity|apply IH]. }
  assert (Hj : forall st, clean st (walk_joins (visit_nested ff) (Joins s) st) (flat_map (fun j => opt_calls (j_Expr j)) (Joins s))).
  { intros st0. unfold walk_joins, walk_slice. destruct (Joins s) as [|j l]; [apply clean_refl|]. cbn [visit_nested].
    apply clean_fold. intros y _ s1. unfold walk_join. cbn [visit_nested]. apply walk_nested_opt. }
  assert (Hd : forall st, clean st (walk_dimensions (visit_nested ff) (Dimensions s) st)
    (opt_calls (GetWindow (Dimensions s)) ++ flat_map calls (GetGroups (Dimensions s)))).
  { intros st0. unfold walk_dimensions. destruct (Dimensions s) as [|d l]; [apply clean_refl|]. cbn [visit_nested negb].
    eapply clean_app; [apply walk_nested_opt|]. apply clean_fold. intros y _ s1. apply walk_nested. }
  assert (Hx : forall st, walk_sorts (visit_nested ff) (SortFields s) st = st).
  { unfold walk_sorts, walk_slice. destruct (SortFields s) as [|t l]; intros st0; [reflexivity|]. cbn [visit_nested].
    revert st0. induction (t :: l) as [|y l' IH]; intros x; [reflexivity|apply IH]. }
  rewrite Hx, Ht. eapply clean_app; [apply Hs|]. eapply clean_app; [apply Hj|].
  eapply clean_app; [apply walk_nested_opt|]. rewrite app_assoc. eapply clean_app; [apply Hd|apply walk_nested_opt].
Qed.

(** C18: the validation accepts a bound statement exactly when WHERE and GROUP
    BY are free of aggregates (also through aliases), HAVING passes its check,
    and no aggregate call, anywhere in the statement or in an alias of it, has
    an aggregate argument. *)
Theorem validate_spec s :
  validate ff s = None <->
    opt_test (aggregate ff) (Condition s) = false
    /\ forallb (fun d => negb (aggregate ff d)) (Dimensions s) = true
    /\ opt_test (fun e => negb (allAggregate ff e)) (Having s) = false
    /\ forallb flat (stmt_calls s) = true.
Proof.
  unfold validate. pose proof (walk_nested_stmt s None) as G. unfold clean in G.
  assert (D : forallb (fun d => negb (aggregate ff d)) (Dimensions s) = negb (existsb (aggregate ff) (Dimensions s))).
  { induction (Dimensions s) as [|d l IH]; [reflexivity|]. cbn. rewrite IH. now rewrite negb_orb. }
  rewrite D. destruct (opt_test (aggregate ff) (Condition s)); [intuition discriminate|].
  destruct (opt_test _ (Having s)); [intuition discriminate|].
  destruct (existsb (aggregate ff) (Dimensions s)); [intuition discriminate|]. cbn. tauto.
Qed.
End Accepts.

(** ** A stream without a schema *)

(** The keys of the stores: no field is left without a stream. *)
Definition bound_keys (f : fieldsMap) : Prop :=
  forall n fm, assoc n (content f) = Some fm ->
    exists c, fm = streamFieldMapSchemaless c (defaultStream f)
      /\ forall k, assoc k c <> None -> k <> "" /\ k <> DefaultStream.

Lemma bindRef_schemaless (c : list (StreamName * option AliasRef)) (d sn : StreamName) a :
  let k := schemaless_key c d sn in k <> DefaultStream ->
  bindRef (streamFieldMapSchemaless c d) sn a =
    match assoc k c with
    | None => (streamFieldMapSchemaless (assoc_set k None c) d, (k, a), None)
    | Some r => (streamFieldMapSchemaless c d, (k, r), None)
    end.
Proof. cbv zeta. intros H. unfold bindRef. cbv beta iota zeta. now rewrite (proj2 (String.eqb_neq _ _) H). Qed.

Lemma bindRef_free c d sn a : d <> "" -> d <> DefaultStream ->
  (forall k, assoc k c <> None -> k <> "" /\ k <> DefaultStream) ->
  let k := schemaless_key c d sn in
  k <> "" /\ k <> DefaultStream
  /\ exists c' a', bindRef (streamFieldMapSchemaless c d) sn a = (streamFieldMapSchemaless c' d, (k, a'), None)
    /\ forall k, assoc k c' <> None -> k <> "" /\ k <> DefaultStream.
Proof.
  intros Hd1 Hd2 Hc. cbv zeta. set (k := schemaless_key _ _ _).
  assert (K : k <> "" /\ k <> DefaultStream).
  { subst k. unfold schemaless_key.
    destruct (String.eqb sn "") eqn:E1, (String.eqb sn DefaultStream) eqn:E2; cbn [orb]; bool_to_prop;
      try (now split); (destruct c as [|[sk sv] [|? ?]]; [now split| |now split]);
      apply Hc; cbn; rewrite String.eqb_refl; discriminate. }
  destruct K as [K1 K2]. split; [exact K1|]. split; [exact K2|].
  rewrite (bindRef_schemaless c d sn a K2). fold k. destruct (assoc k c) as [r|] eqn:E; [exists c, r; auto|].
  exists (assoc_set k None c), a. split; [reflexivity|]. intros k' Hk'.
  destruct (String.eqb_spec k k'); [now subst|]. rewrite assoc_set_other in Hk' by assumption. auto.
Qed.

(** over a single stream without a schema binding never fails: every
    reference with a name gets a stream or the alias, whatever was bound
    before it; an unqualified name is the only thing of that name seen so far,
    or else the column. *)
Theorem schemaless_binds f sn n a :
  isSchemaless f = true -> defaultStream f <> "" -> defaultStream f <> DefaultStream -> bound_keys f -> n <> "" ->
  exists f' sn' a', bind f sn n a = (f', (sn', a'), None)
    /\ sn' <> "" /\ sn' <> DefaultStream /\ bound_keys f'
    /\ isSchemaless f' = true /\ defaultStream f' = defaultStream f
    /\ (sn <> "" -> sn <> DefaultStream -> sn' = sn)
    /\ (sn = "" \/ sn = DefaultStream ->
         sn' = match assoc (to_lower n) (content f) with
               | Some (streamFieldMapSchemaless [(sk, _)] _) => sk
               | _ => defaultStream f
               end).
Proof.
  intros Hs Hd1 Hd2 Hk Hn.
  unfold bind. rewrite Hs, (proj2 (String.eqb_neq n "") Hn). cbn [andb negb].
  set (c := match assoc (to_lower n) (content f) with Some (streamFieldMapSchemaless c _) => c | _ => [] end).
  assert (Hc : forall k, assoc k c <> None -> k <> "" /\ k <> DefaultStream).
  { subst c. destruct (assoc (to_lower n) (content f)) eqn:E; [|cbn; congruence].
    destruct (Hk _ _ E) as (c & -> & H). exact H. }
  destruct (bindRef_free c (defaultStream f) sn a Hd1 Hd2 Hc) as (K1 & K2 & c' & a' & E & Hc'). set (k := schemaless_key _ _ _) in *.
  exists (put_field n (streamFieldMapSchemaless c' (defaultStream f)) f), k, a'.
  split.
  { replace (match assoc (to_lower n) (content f) with Some fm => _ | None => _ end)
      with (let '(fm', t, err) := bindRef (streamFieldMapSchemaless c (defaultStream f)) sn a in
            (put_field n fm' f, t, option_map (fun e : string => (e ++ n)%string) err)); [now rewrite E|].
    subst c. destruct (assoc (to_lower n) (content f)) as [fm|] eqn:Ef.
    - now destruct (Hk _ _ Ef) as (c0 & -> & _).
    - unfold new_store. now rewrite Hs. }
  split; [exact K1|]. split; [exact K2|]. split.
  { intros m fm Hm. rewrite assoc_put in Hm. destruct (String.eqb (to_lower n) m); [|now apply Hk in Hm].
    injection Hm as <-. cbn. eauto. }
  split; [exact Hs|]. split; [reflexivity|]. split.
  - intros H1 H2. subst k. unfold schemaless_key. now rewrite (proj2 (String.eqb_neq _ _) H1), (proj2 (String.eqb_neq _ _) H2).
  - intros H. subst k. unfold schemaless_key. replace (String.eqb sn "" || String.eqb sn DefaultStream) with true
      by (destruct H as [-> | ->]; reflexivity).
    subst c. destruct (assoc (to_lower n) (content f)) as [fm|] eqn:Ef; [|reflexivity].
    now destruct (Hk _ _ Ef) as (c0 & -> & _).
Qed.

Lemma schemaless_binds_witness : exists f' sn' a',
  bind (newFieldsMap true "demo") DefaultStream "a" None = (f', (sn', a'), None) /\ sn' = "demo".
Proof.
  destruct (schemaless_binds (newFieldsMap true "demo") DefaultStream "a" None) as (f' & sn' & a' & H & _ & _ & _ & _ & _ & _ & G);
    try reflexivity; try discriminate.
  exists f', sn', a'. split; [exact H|]. apply G. now right.
Defined.
