(* ===== verification/Kv.v ===== *)
(** Key-value stores (src/pkg/kv/kv.go and sqliteKV.go).

    [KeyValue] is the interface of kv.go with what its comments and its users
    rely on; [SqliteKVStore] implements it with SQL statements.  A statement may
    fail ([faults]); Prepare is taken to succeed where Exec is reached.  Two of
    the operations paste the key into the text of a statement, so the interface
    only promises something for keys without quotes. *)

From S2P Require Import Prelude.
From stdpp Require Import base gmap list strings fin_maps.
From Stdlib Require Import Ascii.

#[local] Open Scope string_scope.

Inductive db_error : Type := IoError | AlreadyExists (key : string) | NotFound (key : string).

(** ** The interface *)

(** [healthy] stores have no I/O errors; [plain] keys have no quotes. *)
Class KeyValue (V : Type) : Type := {
  kv : Type;
  Open : kv -> kv * option db_error;
  Setnx : string -> V -> kv -> kv * option db_error;
  Put : string -> V -> kv -> kv * option db_error;
  Get : string -> kv -> kv * option V;
  Delete : string -> kv -> kv * option db_error;
  Keys : kv -> kv * (db_error + list string);
  contents : kv -> gmap string V;
  plain : string -> Prop;
  healthy : kv -> Prop;
  Open_law s : contents (fst (Open s)) = contents s;
  Open_healthy s : healthy s -> healthy (fst (Open s)) /\ snd (Open s) = None;
  Setnx_law k v s :
    match snd (Setnx k v s) with
    | None => contents s !! k = None /\ contents (fst (Setnx k v s)) = <[k := v]> (contents s)
    | Some _ => contents (fst (Setnx k v s)) = contents s
    end;
  Setnx_healthy k v s : healthy s -> healthy (fst (Setnx k v s)) /\
    snd (Setnx k v s) = match contents s !! k with Some _ => Some (AlreadyExists k) | None => None end;
  Put_law k v s :
    match snd (Put k v s) with
    | None => contents (fst (Put k v s)) = <[k := v]> (contents s)
    | Some _ => contents (fst (Put k v s)) = contents s
    end;
  Put_healthy k v s : healthy s -> healthy (fst (Put k v s)) /\ snd (Put k v s) = None;
  Get_law k s : contents (fst (Get k s)) = contents s /\
    (plain k -> forall v, snd (Get k s) = Some v -> contents s !! k = Some v);
  Get_healthy k s : healthy s -> healthy (fst (Get k s)) /\ (plain k -> snd (Get k s) = contents s !! k);
  Delete_law k s : plain k ->
    match snd (Delete k s) with
    | None => is_Some (contents s !! k) /\ contents (fst (Delete k s)) = delete k (contents s)
    | Some _ => contents (fst (Delete k s)) = contents s
    end;
  Delete_healthy k s : healthy s -> healthy (fst (Delete k s)) /\
    (plain k -> k <> "" -> is_Some (contents s !! k) -> snd (Delete k s) = None);
  Keys_law s : contents (fst (Keys s)) = contents s /\
    forall l, snd (Keys s) = inr l -> NoDup l /\ forall k, k ∈ l <-> is_Some (contents s !! k);
  Keys_healthy s : healthy s -> healthy (fst (Keys s)) /\ exists l, snd (Keys s) = inr l }.

(** ** SQLite *)

Definition quote_free (s : string) : bool := negb (existsb (Ascii.eqb "'"%char) (String.list_ascii_of_string s)).

(** What SQLite adds: the keys of the rows that the condition [key='%s'] selects,
    or a syntax error, and the order of a scan. *)
Class Sql (V : Type) : Type := {
  where_key : string -> gmap string V -> option (list string);
  where_plain k m : quote_free k = true ->
    where_key k m = Some (match m !! k with Some _ => [k] | None => [] end);
  scan_order : list string -> list string;
  scan_order_perm l : Permutation (scan_order l) l }.

Section Sqlite.
Context {V : Type} {S : Sql V}.

Record SqliteKVStore : Type := mkSqlite { rows : gmap string V; faults : list bool }.

(** Whether the next statement fails. *)
Definition statement (s : SqliteKVStore) : bool * SqliteKVStore :=
  match faults s with [] => (false, s) | f :: fs => (f, mkSqlite (rows s) fs) end.

Definition with_rows (m : gmap string V) (s : SqliteKVStore) : SqliteKVStore := mkSqlite m (faults s).

(** A statement that changes the table, or an error. *)
Definition exec (r : db_error + gmap string V) (s : SqliteKVStore) : SqliteKVStore * option db_error :=
  let (f, s') := statement s in
  if f then (s', Some IoError)
  else match r with inl e => (s', Some e) | inr m => (with_rows m s', None) end.

Definition sql_Open (s : SqliteKVStore) : SqliteKVStore * option db_error := exec (inr (rows s)) s.

Definition sql_Setnx (key : string) (value : V) (s : SqliteKVStore) : SqliteKVStore * option db_error :=
  exec (match rows s !! key with Some _ => inl (AlreadyExists key) | None => inr (<[key := value]> (rows s)) end) s.

Definition sql_Set (key : string) (value : V) (s : SqliteKVStore) : SqliteKVStore * option db_error :=
  exec (inr (<[key := value]> (rows s))) s.

(** The first row selected; every error is an absent value. *)
Definition sql_Get (key : string) (s : SqliteKVStore) : SqliteKVStore * option V :=
  let (f, s') := statement s in
  (s', if f then None else match where_key key (rows s) with Some (k :: _) => rows s !! k | _ => None end).

Definition sql_Delete (key : string) (s : SqliteKVStore) : SqliteKVStore * option db_error :=
  let (f, s') := statement s in
  match where_key key (rows s) with
  | Some (k :: ks) =>
      if f || String.eqb k "" then (s', Some (NotFound key))
      else exec (inr (foldr delete (rows s) (k :: ks))) s'
  | _ => (s', Some (NotFound key))
  end.

Definition sql_Keys (s : SqliteKVStore) : SqliteKVStore * (db_error + list string) :=
  let (f, s') := statement s in
  (s', if f then inl IoError else inr (scan_order (map_to_list (rows s)).*1)).

Definition sql_Clean (s : SqliteKVStore) : SqliteKVStore * option db_error := exec (inr ∅) s.

(** *** It keeps the promises of the interface *)

Lemma statement_rows s : rows (snd (statement s)) = rows s.
Proof. unfold statement. now destruct (faults s). Qed.

Lemma statement_healthy s : faults s = [] -> statement s = (false, s).
Proof. unfold statement. now intros ->. Qed.

Lemma exec_rows r s : rows (fst (exec r s)) = match snd (exec r s), r with None, inr m => m | _, _ => rows s end.
Proof.
  unfold exec. pose proof (statement_rows s). destruct (statement s) as [[] s']; cbn in *; [easy|]. now destruct r.
Qed.

Lemma exec_healthy r s : faults s = [] -> faults (fst (exec r s)) = [] /\ snd (exec r s) = match r with inl e => Some e | inr _ => None end.
Proof. intros H. unfold exec. rewrite statement_healthy by exact H. destruct r; cbn; auto. Qed.

Ltac stmt s := pose proof (statement_rows s); destruct (statement s) as [[] ?]; cbn in *.

Lemma sql_Get_law k s : rows (fst (sql_Get k s)) = rows s /\
  (quote_free k = true -> forall v, snd (sql_Get k s) = Some v -> rows s !! k = Some v).
Proof.
  unfold sql_Get. stmt s; (split; [assumption|]); [easy|]. intros P v. rewrite where_plain by exact P.
  destruct (rows s !! k) eqn:E; [now rewrite E|easy].
Qed.

Lemma sql_Delete_law k s : quote_free k = true ->
  match snd (sql_Delete k s) with
  | None => is_Some (rows s !! k) /\ rows (fst (sql_Delete k s)) = delete k (rows s)
  | Some _ => rows (fst (sql_Delete k s)) = rows s
  end.
Proof.
  intros P. unfold sql_Delete. rewrite where_plain by exact P. stmt s; destruct (rows s !! k) eqn:E; cbn; auto.
  destruct (String.eqb k ""); cbn; [auto|].
  match goal with |- context [exec ?r ?x] => pose proof (exec_rows r x) as H1; destruct (exec r x) as [s1 [e|]] end; cbn in *;
    [congruence|]. split; [eauto|congruence].
Qed.

Lemma sql_Delete_healthy k s : faults s = [] -> faults (fst (sql_Delete k s)) = [] /\
  (quote_free k = true -> k <> "" -> is_Some (rows s !! k) -> snd (sql_Delete k s) = None).
Proof.
  intros H. unfold sql_Delete. rewrite statement_healthy by exact H. cbn [orb].
  destruct (where_key k (rows s)) as [[|k' ks]|] eqn:E.
  - split; [exact H|]. intros P _ [v Hv]. rewrite where_plain, Hv in E by exact P. discriminate.
  - destruct (String.eqb_spec k' "") as [->|N].
    + split; [exact H|]. intros P N [v Hv]. rewrite where_plain, Hv in E by exact P. injection E as -> _. contradiction.
    + split; [now apply exec_healthy|]. intros _ _ _. now apply exec_healthy.
  - split; [exact H|]. intros P. rewrite where_plain in E by exact P. discriminate.
Qed.

#[export] Instance sqlite : KeyValue V.
Proof.
  refine {| kv := SqliteKVStore; Open := sql_Open; Setnx := sql_Setnx; Put := sql_Set; Get := sql_Get; Delete := sql_Delete;
            Keys := sql_Keys; contents := rows; plain k := quote_free k = true; healthy s := faults s = [] |}.
  - intros s. unfold sql_Open. rewrite exec_rows. now destruct (snd _).
  - intros s H. now apply exec_healthy.
  - intros k v s. unfold sql_Setnx. rewrite exec_rows. destruct (rows s !! k) as [x|] eqn:E.
    + unfold exec. stmt s; auto.
    + destruct (snd _); auto.
  - intros k v s H. unfold sql_Setnx. destruct (exec_healthy (match rows s !! k with Some _ => inl (AlreadyExists k) | None => inr (<[k:=v]> (rows s)) end) s H) as [A B].
    split; [exact A|]. rewrite B. now destruct (rows s !! k).
  - intros k v s. unfold sql_Set. rewrite exec_rows. destruct (snd _); auto.
  - intros k v s H. now apply exec_healthy.
  - exact sql_Get_law.
  - intros k s H. unfold sql_Get. rewrite statement_healthy by exact H. split; [exact H|]. intros P. cbn.
    rewrite where_plain by exact P. destruct (rows s !! k) eqn:E; [now rewrite E|easy].
  - exact sql_Delete_law.
  - exact sql_Delete_healthy.
  - intros s. unfold sql_Keys. stmt s; (split; [assumption|]); [easy|]. intros l [= <-]. split.
    + rewrite scan_order_perm. apply NoDup_fst_map_to_list.
    + intros k. rewrite scan_order_perm, list_elem_of_fmap. split.
      * intros ([k' v] & -> & I). apply elem_of_map_to_list in I. eauto.
      * intros [v I]. exists (k, v). split; [reflexivity|]. now apply elem_of_map_to_list.
  - intros s H. unfold sql_Keys. rewrite statement_healthy by exact H. cbn. eauto.
Defined.
End Sqlite.
Arguments SqliteKVStore V : clear implicits.

(** ** SQL injection *)

(** A platform on which the usual condition selects every row. *)
Definition injection : string := "x' OR '1'='1".

#[local] Instance demo_sql {V} : Sql V.
Proof.
  refine {| where_key k m := if quote_free k then Some (match m !! k with Some _ => [k] | None => [] end)
                             else if String.eqb k injection then Some (map_to_list m).*1 else None;
            scan_order l := l |}.
  - intros k m ->. reflexivity.
  - reflexivity.
Defined.

(** Deleting one key can delete them all. *)
Lemma delete_injection : sql_Delete injection (mkSqlite {["a" := 1; "b" := 2]} []) = (mkSqlite ∅ [], None).
Proof. reflexivity. Qed.

(** A key with a quote can be stored and not be read. *)
Lemma quoted_key_is_lost : exists s, sql_Setnx "it's" 1 (mkSqlite ∅ []) = (s, None) /\ snd (sql_Get "it's" s) = None.
Proof. eexists. split; reflexivity. Qed.
