(* ===== verification/Streams.v ===== *)
(** The processor of stream definitions (src/internal/processor/stream.go) and
    reading them back (src/internal/xsql/stmtx.go).

    A stream or table is stored under its name as the text of its definition
    with its type, in JSON.  The operations return the store after them; an
    error is a [sp_error].  The store is an implementation of [KeyValue]; the
    theorems hold for every implementation, with I/O errors at any point. *)

From S2P Require Import Prelude Token Ast FuncValidator Lexical Utf8 Parser ParserFacts Kv.
From stdpp Require Import base gmap list strings fin_maps.

#[local] Open Scope string_scope.

(** ** Definitions as text *)

Record StreamInfo : Type := mkInfo { si_StreamType : StreamType; si_Statement : string }.

(** A text that is valid UTF-8. *)
Definition valid_text (s : string) : Prop := Lexical.encode (Utf8.decode s) = s.

(** JSON: a definition whose text is valid survives; decoding fills a record. *)
Class InfoJson (V : Type) : Type := {
  marshal_info : StreamInfo -> V;
  unmarshal_info : V -> StreamInfo -> StreamInfo * bool;
  unmarshal_marshal i prev : valid_text (si_Statement i) -> unmarshal_info (marshal_info i) prev = (i, true) }.

Inductive sp_error : Type :=
  | EParse (e : parse_error)
  | EDb (e : db_error)
  | EText (format : string) (args : list string)
  | EWrap (format : string) (args : list string) (e : sp_error).

Definition StreamTypeMap (st : StreamType) : string := match st with TypeStream => "stream" | TypeTable => "table" end.
Definition Title (st : StreamType) : string := match st with TypeStream => "Stream" | TypeTable => "Table" end.

Definition st_eqb (a b : StreamType) : bool :=
  match a, b with TypeStream, TypeStream | TypeTable, TypeTable => true | _, _ => false end.

(** [Language.Parse] on a text; it does not panic, by [parse_text_total]. *)
Definition parse_text (ff : FuncFinder) (rt : Runtime) (text : string) : option (parse_error + option Statement) :=
  let rs := Utf8.decode text in
  match ParseTree_Parse ff rt (parse_fuel rs) (NewParser rs) with
  | Ok s _ => Some (inr s)
  | Fail e => Some (inl e)
  | Panic | NoFuel => None
  end.

(** ** The text of a description *)

Fixpoint printFieldType (ft : FieldType) : string :=
  match ft with
  | BasicType t => dataTypes t
  | ArrayType t elem => "array(" ++ match elem with Some e => printFieldType e | None => dataTypes t end ++ ")"
  | RecType fields =>
      "struct(" ++
      (fix go (first : bool) (l : list (string * FieldType)) : string :=
         match l with
         | [] => ""
         | (n, t) :: l' => (if first then "" else ", ") ++ n ++ " " ++ printFieldType t ++ go false l'
         end) true fields ++ ")"
  | NilType => ""
  end%string.

Definition nl : string := String (Ascii.ascii_of_nat 10) "".
Definition tab : string := String (Ascii.ascii_of_nat 9) "".

Definition print_text (key value : string) : string := if String.eqb value "" then "" else (key ++ ": " ++ value ++ nl)%string.
Definition print_flag (key : string) (value : bool) : string := if value then (key ++ ": true" ++ nl)%string else "".

Definition printOptions (o : Options) : string :=
  (print_text "CONF_KEY" (o_CONF_KEY o) ++ print_text "DATASOURCE" (o_DATASOURCE o) ++ print_text "FORMAT" (o_FORMAT o)
   ++ print_text "KEY" (o_KEY o)
   ++ (if Z.eqb (o_RETAIN_SIZE o) 0 then "" else "RETAIN_SIZE: " ++ itoa (o_RETAIN_SIZE o) ++ nl)
   ++ print_flag "SHARED" (o_SHARED o) ++ print_flag "STRICT_VALIDATION" (o_STRICT_VALIDATION o)
   ++ print_text "TIMESTAMP" (o_TIMESTAMP o) ++ print_text "TIMESTAMP_FORMAT" (o_TIMESTAMP_FORMAT o)
   ++ print_text "TYPE" (o_TYPE o))%string.

Definition describe_text (s : StreamStmt) : string :=
  ("Fields" ++ nl ++ "--------------------------------------------------------------------------------" ++ nl
   ++ foldr (fun f acc => fst f ++ tab ++ printFieldType (snd f) ++ nl ++ acc) "" (default [] (ss_StreamFields s))
   ++ nl ++ printOptions (ss_Options s))%string.

(** ** The processor *)

Section Processor.
Context {V : Type} {KV : KeyValue V} {J : InfoJson V}.
Variable ff : FuncFinder.
Variable rt : Runtime.

#[local] Abbreviation parse_text := (parse_text ff rt).

(** [GetDataSourceStatement]. *)
Definition GetDataSourceStatement (m : kv) (name : string) : kv * (sp_error + StreamInfo) :=
  let (m1, e) := Open m in
  match e with
  | Some e => (m1, inl (EWrap "error when opening db: %v" [] (EDb e)))
  | None =>
      let (m2, v) := Get name m1 in
      (m2, match v with
           | Some v =>
               match unmarshal_info v (mkInfo TypeStream "") with
               | (vs, true) => inr vs
               | (_, false) => inl (EText "error unmarshall %s, the data in db may be corrupted" [name])
               end
           | None => inl (EText "%s is not found" [name])
           end)
  end.

(** [GetDataSource]; [None] is a panic of the parser. *)
Definition GetDataSource (m : kv) (name : string) : kv * option (sp_error + StreamStmt) :=
  let (m1, r) := GetDataSourceStatement m name in
  (m1, match r with
       | inl e => Some (inl e)
       | inr info =>
           match parse_text (si_Statement info) with
           | Some (inr (Some (CreateStmt s))) => Some (inr s)
           | Some _ => Some (inl (EText "Error resolving the stream %s, the data in db may be corrupted." [name]))
           | None => None
           end
       end).

Definition execSave (stmt : StreamStmt) (statement : string) (replace : bool) (p : kv) : kv * option sp_error :=
  let (p1, e) := Open p in
  match e with
  | Some e => (p1, Some (EWrap "error when opening db: %v." [] (EDb e)))
  | None =>
      let s := marshal_info (mkInfo (ss_StreamType stmt) statement) in
      let (p2, e2) := if replace then Put (ss_Name stmt) s p1 else Setnx (ss_Name stmt) s p1 in
      (p2, option_map EDb e2)
  end.

(** The loop of [ShowStream]: [vs] keeps what the previous value left in it. *)
Fixpoint show_loop (st : StreamType) (keys : list string) (vs : StreamInfo) (p : kv) : kv * list string :=
  match keys with
  | [] => (p, [])
  | k :: keys' =>
      let (p1, v) := Get k p in
      match v with
      | None => show_loop st keys' vs p1
      | Some v =>
          let '(vs', ok) := unmarshal_info v vs in
          let '(p2, r) := show_loop st keys' vs' p1 in
          (p2, if ok && st_eqb (si_StreamType vs') st then k :: r else r)
      end
  end.

Definition ShowStream (st : StreamType) (p : kv) : kv * (sp_error + list string) :=
  let (p1, e) := Open p in
  match e with
  | Some e => (p1, inl (EWrap "Show %ss fails, error when opening db: %v." [StreamTypeMap st] (EDb e)))
  | None =>
      let (p2, r) := Keys p1 in
      match r with
      | inl e => (p2, inl (EWrap "Show %ss fails, error when loading data from db: %v." [StreamTypeMap st] (EDb e)))
      | inr keys => let (p3, l) := show_loop st keys (mkInfo TypeStream "") p2 in (p3, inr l)
      end
  end.

(** The keys, or a line that says there are none, and the error. *)
Definition execShow (st : StreamType) (p : kv) : kv * (list string * option sp_error) :=
  let none := ["No " ++ StreamTypeMap st ++ " definitions are found."]%string in
  let (p1, r) := ShowStream st p in
  (p1, match r with inl e => (none, Some e) | inr [] => (none, None) | inr keys => (keys, None) end).

Definition getStream (name : string) (st : StreamType) (p : kv) : kv * (sp_error + string) :=
  let (p1, r) := GetDataSourceStatement p name in
  (p1, match r with
       | inr vs => if st_eqb (si_StreamType vs) st then inr (si_Statement vs) else inl (EText "%s %s is not found" [StreamTypeMap st; name])
       | inl e => inl e
       end).

Definition DescStream (name : string) (st : StreamType) (p : kv) : kv * option (sp_error + option Statement) :=
  let (p1, r) := getStream name st p in
  (p1, match r with
       | inl e => Some (inl (EWrap "Describe %s fails, %s." [StreamTypeMap st] e))
       | inr statement =>
           match parse_text statement with
           | Some (inl e) => Some (inl (EParse e))
           | Some (inr s) => Some (inr s)
           | None => None
           end
       end).

Definition execDescribe (name : string) (st : StreamType) (p : kv) : kv * option (sp_error + string) :=
  let (p1, r) := DescStream name st p in
  (p1, match r with
       | None => None
       | Some (inl e) => Some (inl e)
       | Some (inr (Some (CreateStmt s))) => Some (inr (describe_text s))
       | Some (inr _) => Some (inl (EText "Error resolving the %s %s, the data in db may be corrupted." [StreamTypeMap st; name]))
       end).

Definition execExplain (name : string) (st : StreamType) (p : kv) : kv * (sp_error + string) :=
  let (p1, r) := getStream name st p in
  (p1, match r with
       | inl e => inl (EWrap "Explain %s fails, %s." [StreamTypeMap st] e)
       | inr _ => inr "TO BE SUPPORTED"
       end).

Definition DropStream (name : string) (st : StreamType) (p : kv) : kv * (sp_error + string) :=
  let (p1, r) := getStream name st p in
  match r with
  | inl e => (p1, inl e)
  | inr _ =>
      let (p2, e) := Open p1 in
      match e with
      | Some e => (p2, inl (EWrap "error when opening db: %v" [] (EDb e)))
      | None =>
          let (p3, e3) := Kv.Delete name p2 in
          (p3, match e3 with
               | Some e => inl (EDb e)
               | None => inr (Title st ++ " " ++ name ++ " is dropped.")%string
               end)
      end
  end.

Definition execDrop (name : string) (st : StreamType) (p : kv) : kv * (sp_error + string) :=
  let (p1, r) := DropStream name st p in
  (p1, match r with inl e => inl (EWrap "Drop %s fails: %s." [StreamTypeMap st] e) | inr s => inr s end).

(** A line of output, or an error. *)
Definition one_line (r : kv * (sp_error + string)) : kv * option (sp_error + list string) :=
  (fst r, Some (match snd r with inl e => inl e | inr s => inr [s] end)).

(** [ExecStmt]: what is output without an error. *)
Definition ExecStmt (statement : string) (p : kv) : kv * option (sp_error + list string) :=
  match parse_text statement with
  | None => (p, None)
  | Some (inl e) => (p, Some (inl (EParse e)))
  | Some (inr stmt) =>
      match stmt with
      | Some (CreateStmt s) =>
          let (p1, err) := execSave s statement false p in
          (p1, Some (match err with
                     | Some e => inl (EWrap "Create %s fails: %v." [StreamTypeMap (ss_StreamType s)] e)
                     | None => inr [Title (ss_StreamType s) ++ " " ++ ss_Name s ++ " is created."]%string
                     end))
      | Some ShowStreamsStatement => let (p1, r) := execShow TypeStream p in (p1, Some (match snd r with Some e => inl e | None => inr (fst r) end))
      | Some ShowTablesStatement => let (p1, r) := execShow TypeTable p in (p1, Some (match snd r with Some e => inl e | None => inr (fst r) end))
      | Some (DescribeStreamStatement n) =>
          let (p1, r) := execDescribe n TypeStream p in (p1, match r with None => None | Some r => snd (one_line (p1, r)) end)
      | Some (DescribeTableStatement n) =>
          let (p1, r) := execDescribe n TypeTable p in (p1, match r with None => None | Some r => snd (one_line (p1, r)) end)
      | Some (ExplainStreamStatement n) => one_line (execExplain n TypeStream p)
      | Some (ExplainTableStatement n) => one_line (execExplain n TypeTable p)
      | Some (DropStreamStatement n) => one_line (execDrop n TypeStream p)
      | Some (DropTableStatement n) => one_line (execDrop n TypeTable p)
      | Some (SelectStmt _) | None => (p, Some (inl (EText "Invalid stream statement: %s" [statement])))
      end
  end.

Definition ExecStreamSql (statement : string) (p : kv) : kv * option (sp_error + string) :=
  let (p1, r) := ExecStmt statement p in
  (p1, match r with
       | None => None
       | Some (inl e) => Some (inl e)
       | Some (inr l) => Some (inr (String.concat nl l))
       end).

Definition ExecReplaceStream (statement : string) (st : StreamType) (p : kv) : kv * option (sp_error + string) :=
  match parse_text statement with
  | None => (p, None)
  | Some (inl e) => (p, Some (inl (EParse e)))
  | Some (inr (Some (CreateStmt s))) =>
      if negb (st_eqb (ss_StreamType s) st) then (p, Some (inl (EText "%s %s is not found" [StreamTypeMap st; ss_Name s])))
      else
        let (p1, err) := execSave s statement true p in
        (p1, Some (match err with
                   | Some e => inl (EWrap "Replace %s fails: %v." [StreamTypeMap st] e)
                   | None => inr (Title st ++ " " ++ ss_Name s ++ " is replaced.")%string
                   end))
  | Some (inr _) => (p, Some (inl (EText "Invalid %s statement: %s" [StreamTypeMap st; statement])))
  end.
End Processor.

(** ** The processor keeps a catalogue *)

Lemma parse_text_total ff rt text : parse_text ff rt text <> None.
Proof.
  unfold parse_text. set (rs := Utf8.decode text).
  assert (R : ready (NewParser rs) rs) by (split; [apply reads_start|cbn; lia]).
  pose proof (ParseTree_Parse_post ff rt (parse_fuel rs) (NewParser rs) rs R (Nat.le_refl _)) as H.
  destruct (ParseTree_Parse ff rt (parse_fuel rs) (NewParser rs)); try discriminate; exfalso; apply H.
Qed.

Section Catalogue.
Context {V : Type} {KV : KeyValue V} {J : InfoJson V}.
Variable ff : FuncFinder.
Variable rt : Runtime.

#[local] Abbreviation parse_text := (parse_text ff rt).
#[local] Abbreviation ExecStmt := (ExecStmt ff rt).
#[local] Abbreviation GetDataSource := (GetDataSource ff rt).

(** A definition is the text of a CREATE statement of that name and type. *)
Definition defines (name : string) (i : StreamInfo) (s : StreamStmt) : Prop :=
  parse_text (si_Statement i) = Some (inr (Some (CreateStmt s))) /\ ss_Name s = name /\ ss_StreamType s = si_StreamType i.

Definition definition_ok (name : string) (i : StreamInfo) : Prop :=
  plain name /\ valid_text (si_Statement i) /\ exists s, defines name i s.

(** The store holds the definitions of the catalogue [c]. *)
Record represents (p : kv) (c : gmap string StreamInfo) : Prop := {
  r_contents : contents p = marshal_info <$> c;
  r_ok : map_Forall definition_ok c }.

Definition created (s : StreamStmt) (text : string) : StreamInfo := mkInfo (ss_StreamType s) text.

(** What a command that succeeds does to the catalogue. *)
Definition effect (text : string) (c : gmap string StreamInfo) : gmap string StreamInfo :=
  match parse_text text with
  | Some (inr (Some (CreateStmt s))) => <[ss_Name s := created s text]> c
  | Some (inr (Some (DropStreamStatement n | DropTableStatement n))) => delete n c
  | _ => c
  end.

Definition has (c : gmap string StreamInfo) (n : string) (st : StreamType) : Prop := exists i, c !! n = Some i /\ si_StreamType i = st.

(** When a command can succeed. *)
Definition accepts (text : string) (c : gmap string StreamInfo) : Prop :=
  match parse_text text with
  | Some (inr (Some (CreateStmt s))) => c !! ss_Name s = None
  | Some (inr (Some (DropStreamStatement n | DescribeStreamStatement n | ExplainStreamStatement n))) => has c n TypeStream
  | Some (inr (Some (DropTableStatement n | DescribeTableStatement n | ExplainTableStatement n))) => has c n TypeTable
  | Some (inr (Some (ShowStreamsStatement | ShowTablesStatement))) => True
  | _ => False
  end.

(** The names of a command are not empty and have no quotes. *)
Definition plain_name (n : string) : Prop := plain n /\ n <> "".

Definition plain_names (text : string) : Prop :=
  match parse_text text with
  | Some (inr (Some (CreateStmt s))) => plain_name (ss_Name s)
  | Some (inr (Some (DropStreamStatement n | DescribeStreamStatement n | ExplainStreamStatement n
                    | DropTableStatement n | DescribeTableStatement n | ExplainTableStatement n))) => plain_name n
  | _ => True
  end.

Lemma represents_contents p p' c : represents p c -> contents p' = contents p -> represents p' c.
Proof. intros [H1 H2] E. split; [congruence|exact H2]. Qed.

Lemma st_eqb_eq a b : st_eqb a b = true <-> a = b.
Proof. destruct a, b; split; congruence || easy. Qed.

(** Reading a definition. *)
Lemma GetDataSourceStatement_spec p c n : represents p c -> plain n ->
  let (p', r) := GetDataSourceStatement p n in
  represents p' c /\ (forall i, r = inr i -> c !! n = Some i) /\ (healthy p -> healthy p' /\ forall i, c !! n = Some i -> r = inr i).
Proof.
  intros R P. unfold GetDataSourceStatement. pose proof (Open_law p) as O. pose proof (Open_healthy p) as OH.
  destruct (Open p) as [p1 [e|]]; cbn in O, OH.
  - split; [now apply (represents_contents p)|]. split; [easy|]. intros H. now destruct (OH H).
  - destruct (Get_law n p1) as [G1 G2]. pose proof (Get_healthy n p1) as GH. destruct (Get n p1) as [p2 v]. cbn in *.
    assert (R2 : represents p2 c) by (apply (represents_contents p); [exact R|congruence]).
    assert (L : forall x, v = Some x -> exists i, c !! n = Some i /\ x = marshal_info i /\ valid_text (si_Statement i)).
    { intros x ->. specialize (G2 P x eq_refl). rewrite O, (r_contents _ _ R), lookup_fmap in G2. destruct (c !! n) as [i|] eqn:E; [|discriminate].
      injection G2 as <-. exists i. repeat split; auto. now apply (r_ok _ _ R n i E). }
    split; [exact R2|]. split.
    + intros i E. destruct v as [x|]; [|discriminate]. destruct (L x eq_refl) as (j & C & -> & U).
      rewrite unmarshal_marshal in E by exact U. congruence.
    + intros H. destruct (OH H) as [H1 _]. destruct (GH H1) as [H2 H3]. split; [exact H2|]. intros i E.
      rewrite H3, O, (r_contents _ _ R), lookup_fmap, E by exact P. cbn. rewrite unmarshal_marshal; [reflexivity|]. apply (r_ok _ _ R n i E).
Qed.

Lemma getStream_spec p c n st : represents p c -> plain n ->
  let (p', r) := getStream n st p in
  represents p' c /\ (forall t, r = inr t -> exists i, c !! n = Some i /\ si_StreamType i = st /\ si_Statement i = t)
  /\ (healthy p -> healthy p' /\ forall i, c !! n = Some i -> si_StreamType i = st -> r = inr (si_Statement i)).
Proof.
  intros R P. unfold getStream. pose proof (GetDataSourceStatement_spec p c n R P) as S.
  destruct (GetDataSourceStatement p n) as [p' r]. destruct S as (S1 & S2 & S3). split; [exact S1|]. split.
  - intros t E. destruct r as [e|i]; [discriminate|]. destruct (st_eqb (si_StreamType i) st) eqn:T; [|discriminate].
    injection E as <-. exists i. repeat split; auto. now apply st_eqb_eq.
  - intros H. destruct (S3 H) as [H1 H2]. split; [exact H1|]. intros i E <-. rewrite (H2 i E).
    now rewrite (proj2 (st_eqb_eq _ _) eq_refl).
Qed.

Lemma has_dec_false c n st : ~ has c n st -> forall i, c !! n = Some i -> si_StreamType i <> st.
Proof. intros H i E T. apply H. now exists i. Qed.

(** Saving a definition. *)
Lemma represents_insert p p' c n i : represents p c -> definition_ok n i -> contents p' = <[n := marshal_info i]> (contents p) ->
  represents p' (<[n := i]> c).
Proof.
  intros [H1 H2] D E. split; [now rewrite E, H1, fmap_insert|]. now apply map_Forall_insert_2.
Qed.

Lemma execSave_spec p c text s replace : represents p c -> valid_text text -> plain (ss_Name s) ->
  parse_text text = Some (inr (Some (CreateStmt s))) ->
  let (p', e) := execSave s text replace p in
  (healthy p -> healthy p') /\
  match e with
  | None => (replace = false -> c !! ss_Name s = None) /\ represents p' (<[ss_Name s := created s text]> c)
  | Some _ => represents p' c /\ (healthy p -> replace = false /\ c !! ss_Name s <> None)
  end.
Proof.
  intros R U P T. unfold StreamName in *. assert (D : definition_ok (ss_Name s) (created s text)) by (repeat split; auto; exists s; now repeat split).
  unfold execSave. pose proof (Open_law p) as O. pose proof (Open_healthy p) as OH. destruct (Open p) as [p1 [e|]]; cbn in O, OH.
  { split; [intros H; now destruct (OH H)|]. split; [now apply (represents_contents p)|]. intros H. now destruct (OH H). }
  assert (R1 : represents p1 c) by now apply (represents_contents p). destruct replace.
  - pose proof (Put_law (ss_Name s) (marshal_info (created s text)) p1) as S. pose proof (Put_healthy (ss_Name s) (marshal_info (created s text)) p1) as SH.
    unfold created in *. destruct (Put _ _ p1) as [p2 [e|]]; cbn in *; (split; [intros H; apply SH, OH, H|]).
    + split; [now apply (represents_contents p1)|]. intros H. destruct (SH (proj1 (OH H))) as [_ X]. discriminate.
    + split; [discriminate|]. now apply (represents_insert p1).
  - pose proof (Setnx_law (ss_Name s) (marshal_info (created s text)) p1) as S. pose proof (Setnx_healthy (ss_Name s) (marshal_info (created s text)) p1) as SH.
    unfold created in *. rewrite (r_contents _ _ R1), lookup_fmap in S, SH.
    destruct (Setnx _ _ p1) as [p2 [e|]]; cbn in *; (split; [intros H; apply SH, OH, H|]).
    + split; [apply (represents_contents p1); [exact R1|]; rewrite (r_contents _ _ R1); exact S|].
      intros H. split; [reflexivity|]. destruct (SH (proj1 (OH H))) as [_ X]. intros N. unfold StreamName in *. rewrite N in X. discriminate.
    + destruct S as [S1 S2]. split; [intros _; now apply fmap_None in S1|].
      apply (represents_insert p1); auto. now rewrite (r_contents _ _ R1).
Qed.

Lemma DropStream_spec p c n st : represents p c -> plain n ->
  let (p', r) := DropStream n st p in
  (healthy p -> healthy p') /\
  match r with
  | inr _ => has c n st /\ represents p' (delete n c)
  | inl _ => represents p' c /\ (healthy p -> n <> "" -> ~ has c n st)
  end.
Proof.
  intros R P. unfold DropStream. pose proof (getStream_spec p c n st R P) as S. destruct (getStream n st p) as [p1 r].
  destruct S as (R1 & S2 & S3). destruct r as [e|t].
  { split; [intros H; apply S3, H|]. split; [exact R1|]. intros H _ (i & E & T). destruct (S3 H) as [_ X]. discriminate (X i E T). }
  destruct (S2 t eq_refl) as (i & E & T & _).
  pose proof (Open_law p1) as O. pose proof (Open_healthy p1) as OH. destruct (Open p1) as [p2 [e|]]; cbn in O, OH.
  { split; [intros H; apply OH, S3, H|]. split; [now apply (represents_contents p1)|]. intros H. destruct (OH (proj1 (S3 H))) as [_ X]. discriminate. }
  pose proof (Delete_law n p2 P) as L. pose proof (Delete_healthy n p2) as LH.
  destruct (Kv.Delete n p2) as [p3 [e|]]; cbn in L, LH; (split; [intros H; apply LH, OH, S3, H|]).
  - split; [apply (represents_contents p1); [exact R1|congruence]|]. intros H N.
    destruct (LH (proj1 (OH (proj1 (S3 H))))) as [_ X]. exfalso. rewrite O, (r_contents _ _ R1), lookup_fmap, E in X.
    discriminate (X P N (ex_intro _ _ eq_refl)).
  - destruct L as [_ L]. split; [now exists i|]. split; [now rewrite L, O, (r_contents _ _ R1), fmap_delete|].
    now apply map_Forall_delete, (r_ok _ _ R).
Qed.

(** The description of a definition is that of its statement. *)
Lemma execDescribe_spec p c n st : represents p c -> plain n ->
  let (p', r) := execDescribe ff rt n st p in
  represents p' c /\ (healthy p -> healthy p') /\
  match r with
  | None => False
  | Some (inr t) => exists i s, c !! n = Some i /\ si_StreamType i = st /\ defines n i s /\ t = describe_text s
  | Some (inl _) => healthy p -> ~ has c n st
  end.
Proof.
  intros R P. unfold execDescribe, DescStream. pose proof (getStream_spec p c n st R P) as S. destruct (getStream n st p) as [p1 r].
  destruct S as (R1 & S2 & S3). destruct r as [e|t].
  - split; [exact R1|]. split; [intros H; apply S3, H|]. intros H (i & E & T). destruct (S3 H) as [_ X]. discriminate (X i E T).
  - destruct (S2 t eq_refl) as (i & E & T & <-). destruct (r_ok _ _ R n i E) as (_ & _ & s & D). pose proof D as (X & _ & _).
    rewrite X. split; [exact R1|]. split; [intros H; apply S3, H|]. now exists i, s.
Qed.

Lemma execExplain_spec p c n st : represents p c -> plain n ->
  let (p', r) := execExplain n st p in
  represents p' c /\ (healthy p -> healthy p') /\
  match r with inr _ => has c n st | inl _ => healthy p -> ~ has c n st end.
Proof.
  intros R P. unfold execExplain. pose proof (getStream_spec p c n st R P) as S. destruct (getStream n st p) as [p1 r].
  destruct S as (R1 & S2 & S3). split; [exact R1|]. split; [intros H; apply S3, H|]. destruct r as [e|t].
  - intros H (i & E & T). destruct (S3 H) as [_ X]. discriminate (X i E T).
  - destruct (S2 t eq_refl) as (i & E & T & _). now exists i.
Qed.

(** Listing. *)
Lemma show_loop_spec c st : forall keys p vs, represents p c -> Forall plain keys ->
  let (p', l) := show_loop st keys vs p in
  represents p' c /\ l `sublist_of` keys /\ (forall k, k ∈ l -> has c k st)
  /\ (healthy p -> healthy p' /\ forall k, k ∈ keys -> has c k st -> k ∈ l).
Proof.
  induction keys as [|k keys IH]; intros p vs R P; cbn [show_loop].
  - split; [exact R|]. split; [constructor|]. split; [intros k H; now apply not_elem_of_nil in H|]. intros H. split; [exact H|]. intros k E. now apply not_elem_of_nil in E.
  - inversion P as [|? ? Pk Pks]; subst. destruct (Get_law k p) as [G1 G2]. pose proof (Get_healthy k p) as GH.
    destruct (Get k p) as [p1 v]. cbn in *. assert (R1 : represents p1 c) by now apply (represents_contents p).
    destruct v as [v|].
    + specialize (G2 Pk v eq_refl). rewrite (r_contents _ _ R), lookup_fmap in G2. destruct (c !! k) as [i|] eqn:E; [|discriminate].
      injection G2 as <-. rewrite unmarshal_marshal by apply (r_ok _ _ R k i E). cbn [andb].
      specialize (IH p1 i R1 Pks). destruct (show_loop st keys i p1) as [p2 l]. destruct IH as (R2 & I1 & I2 & I3).
      assert (Hi : has c k st <-> si_StreamType i = st) by (split; [intros (j & Ej & <-); congruence|now exists i]).
      split; [exact R2|]. destruct (st_eqb (si_StreamType i) st) eqn:T.
      * apply st_eqb_eq in T. split; [now constructor|]. split.
        -- intros k' H. apply elem_of_cons in H as [->|H]; [now apply Hi|now apply I2].
        -- intros H. destruct (I3 (proj1 (GH H))) as [H' I]. split; [exact H'|]. intros k' E' A. apply elem_of_cons in E' as [->|E']; [left|].
           right. now apply I.
      * split; [now constructor|]. split; [exact I2|]. intros H. destruct (I3 (proj1 (GH H))) as [H' I]. split; [exact H'|].
        intros k' E' A. apply elem_of_cons in E' as [->|E']; [|now apply I]. apply Hi in A. subst st.
        now rewrite (proj2 (st_eqb_eq _ _) eq_refl) in T.
    + specialize (IH p1 vs R1 Pks). destruct (show_loop st keys vs p1) as [p2 l]. destruct IH as (R2 & I1 & I2 & I3).
      split; [exact R2|]. split; [now constructor|]. split; [exact I2|]. intros H. destruct (GH H) as [H1 X]. destruct (I3 H1) as [H' I].
      split; [exact H'|]. intros k' E' A. apply elem_of_cons in E' as [->|E']; [|now apply I].
      destruct A as (i & A & _). specialize (X Pk). rewrite (r_contents _ _ R), lookup_fmap, A in X. discriminate.
Qed.

(** listing is exact: SHOW STREAMS and SHOW TABLES list names of the
    catalogue of that type without repetition, and all of them when the
    database works. *)
Theorem ShowStream_exact p c st : represents p c ->
  let (p', r) := ShowStream st p in
  represents p' c /\ match r with
    | inr l => NoDup l /\ (forall k, k ∈ l -> has c k st) /\ (healthy p -> forall k, has c k st -> k ∈ l)
    | inl _ => ~ healthy p
    end.
Proof.
  intros R. unfold ShowStream. pose proof (Open_law p) as O. pose proof (Open_healthy p) as OH. destruct (Open p) as [p1 [e|]]; cbn in O, OH.
  { split; [now apply (represents_contents p)|]. intros H. destruct (OH H) as [_ X]. discriminate. }
  destruct (Keys_law p1) as [K1 K2]. pose proof (Keys_healthy p1) as KH. destruct (Keys p1) as [p2 [e|keys]]; cbn in *.
  { split; [apply (represents_contents p); [exact R|congruence]|]. intros H. destruct (KH (proj1 (OH H))) as [_ [l X]]. discriminate. }
  assert (R2 : represents p2 c) by (apply (represents_contents p); [exact R|congruence]).
  destruct (K2 keys eq_refl) as [D M].
  assert (P : Forall plain keys).
  { apply Forall_forall. intros k I. apply M in I. rewrite O, (r_contents _ _ R), lookup_fmap, fmap_is_Some in I.
    destruct I as [i E]. apply (r_ok _ _ R k i E). }
  pose proof (show_loop_spec c st keys p2 (mkInfo TypeStream "") R2 P) as S. destruct (show_loop st keys _ p2) as [p3 l].
  destruct S as (R3 & S1 & S2 & S3). split; [exact R3|]. split; [now apply (sublist_NoDup l keys)|]. split; [exact S2|].
  intros H k A. destruct (S3 (proj1 (KH (proj1 (OH H))))) as [_ I]. apply I; [|exact A].
  apply M. destruct A as (i & E & _). rewrite O, (r_contents _ _ R), lookup_fmap, E. now exists (marshal_info i).
Qed.

Lemma execShow_spec p c st : represents p c ->
  let (p', r) := execShow st p in represents p' c /\ (snd r <> None -> ~ healthy p).
Proof.
  intros R. unfold execShow, ShowStream. pose proof (Open_law p) as O. pose proof (Open_healthy p) as OH. destruct (Open p) as [p1 [e|]]; cbn in O, OH.
  { split; [now apply (represents_contents p)|]. intros _ H. destruct (OH H) as [_ X]. discriminate. }
  destruct (Keys_law p1) as [K1 K2]. pose proof (Keys_healthy p1) as KH. destruct (Keys p1) as [p2 [e|keys]]; cbn in *.
  { split; [apply (represents_contents p); [exact R|congruence]|]. intros _ H. destruct (KH (proj1 (OH H))) as [_ [l X]]. discriminate. }
  assert (C : forall keys vs q, contents q = contents p -> contents (fst (show_loop st keys vs q)) = contents p).
  { clear. induction keys as [|k keys IH]; intros vs q E; cbn [show_loop]; [exact E|]. destruct (Get_law k q) as [G _].
    destruct (Get k q) as [q1 [v|]]; cbn in *; [|apply IH; congruence]. destruct (unmarshal_info v vs) as [vs' ok].
    specialize (IH vs' q1). destruct (show_loop st keys vs' q1) as [q2 r]. cbn in *. apply IH. congruence. }
  specialize (C keys (mkInfo TypeStream "") p2 ltac:(congruence)). destruct (show_loop st keys _ p2) as [p3 l]. cbn in *.
  split; [now apply (represents_contents p)|]. now destruct l.
Qed.

(** stream definitions are a catalogue: a command either succeeds, which
    it only can where the catalogue allows it, and has its effect on the
    catalogue, or it reports an error and changes nothing, whatever fails in
    the database; and in a database without errors every command succeeds that
    can.  No stored definition is ever corrupted. *)
Theorem ExecStmt_refines text p c : represents p c -> valid_text text -> plain_names text ->
  match snd (ExecStmt text p) with
  | None => False
  | Some (inr _) => represents (fst (ExecStmt text p)) (effect text c) /\ accepts text c
  | Some (inl _) => represents (fst (ExecStmt text p)) c /\ (healthy p -> ~ accepts text c)
  end.
Proof.
  intros R U P. unfold Streams.ExecStmt, effect, accepts, plain_names in *. destruct (parse_text text) as [[e|[stmt|]]|] eqn:T.
  - cbn. tauto.
  - assert (A : forall st n, plain_name n -> match execDescribe ff rt n st p with
        | (p1, None) => False
        | (p1, Some r) => match snd (one_line (p1, r)) with None => False | Some (inr _) => represents p1 c /\ has c n st
            | Some (inl _) => represents p1 c /\ (healthy p -> ~ has c n st) end end).
    { intros st n [Pn _]. pose proof (execDescribe_spec p c n st R Pn) as S. destruct (execDescribe ff rt n st p) as [p1 [[e|t]|]].
      - cbn. tauto.
      - destruct S as (R1 & _ & i & s & E & Ty & _). cbn. split; [exact R1|now exists i].
      - tauto. }
    assert (B : forall st n, plain_name n -> match one_line (execDrop n st p) with (p1, r) =>
        match r with None => False | Some (inr _) => represents p1 (delete n c) /\ has c n st
          | Some (inl _) => represents p1 c /\ (healthy p -> ~ has c n st) end end).
    { intros st n [Pn N]. pose proof (DropStream_spec p c n st R Pn) as S. unfold execDrop. destruct (DropStream n st p) as [p1 [e|t]]; cbn; tauto. }
    assert (C : forall st n, plain_name n -> match one_line (execExplain n st p) with (p1, r) =>
        match r with None => False | Some (inr _) => represents p1 c /\ has c n st
          | Some (inl _) => represents p1 c /\ (healthy p -> ~ has c n st) end end).
    { intros st n [Pn N]. pose proof (execExplain_spec p c n st R Pn) as S. destruct (execExplain n st p) as [p1 [e|t]]; cbn; tauto. }
    destruct stmt as [s|s| | |n|n|n|n|n|n]; cbn -[one_line]; try tauto.
    + pose proof (execSave_spec p c text s false R U (proj1 P) T) as S. destruct (execSave s text false p) as [p1 [e|]]; cbn; [|tauto].
      destruct S as (_ & S1 & S2). split; [exact S1|]. intros H. apply (S2 H).
    + pose proof (execShow_spec p c TypeStream R) as S. destruct (execShow TypeStream p) as [p1 [l [e|]]]; cbn in *; [|tauto].
      split; [tauto|]. intros H. exfalso. now apply (proj2 S).
    + pose proof (execShow_spec p c TypeTable R) as S. destruct (execShow TypeTable p) as [p1 [l [e|]]]; cbn in *; [|tauto].
      split; [tauto|]. intros H. exfalso. now apply (proj2 S).
    + specialize (A TypeStream n P). destruct (execDescribe ff rt n TypeStream p) as [p1 [r|]]; [|easy]. cbn in *. now destruct r.
    + specialize (A TypeTable n P). destruct (execDescribe ff rt n TypeTable p) as [p1 [r|]]; [|easy]. cbn in *. now destruct r.
    + specialize (C TypeStream n P). destruct (one_line (execExplain n TypeStream p)) as [p1 [[e|t]|]]; cbn; tauto.
    + specialize (C TypeTable n P). destruct (one_line (execExplain n TypeTable p)) as [p1 [[e|t]|]]; cbn; tauto.
    + specialize (B TypeStream n P). destruct (one_line (execDrop n TypeStream p)) as [p1 [[e|t]|]]; cbn; tauto.
    + specialize (B TypeTable n P). destruct (one_line (execDrop n TypeTable p)) as [p1 [[e|t]|]]; cbn; tauto.
  - cbn. tauto.
  - now apply parse_text_total in T.
Qed.

Lemma GetDataSource_spec p c n : represents p c -> plain n ->
  let (p', r) := GetDataSource p n in
  represents p' c /\ (forall i s, c !! n = Some i -> healthy p -> defines n i s -> r = Some (inr s)).
Proof.
  intros R P. unfold Streams.GetDataSource. pose proof (GetDataSourceStatement_spec p c n R P) as S.
  destruct (GetDataSourceStatement p n) as [p1 r]. destruct S as (R1 & S2 & S3). split; [exact R1|].
  intros i s E H (T & _). rewrite (proj2 (S3 H) i E), T. reflexivity.
Qed.

Lemma exec_create_healthy p c text s : represents p c -> valid_text text -> plain (ss_Name s) ->
  parse_text text = Some (inr (Some (CreateStmt s))) -> healthy p -> c !! ss_Name s = None ->
  represents (fst (ExecStmt text p)) (<[ss_Name s := created s text]> c) /\ healthy (fst (ExecStmt text p)).
Proof.
  intros R U P T H N. unfold Streams.ExecStmt. rewrite T. pose proof (execSave_spec p c text s false R U P T) as S.
  destruct (execSave s text false p) as [p1 [e|]]; cbn; destruct S as [S1 S2]; [|tauto]. destruct S2 as [_ S2]. destruct (S2 H) as [_ X]. contradiction.
Qed.

(** what is created is what is planned: in a database without errors,
    after a CREATE of a name that is not taken the planner reads back exactly
    the definition that the text was parsed to. *)
Theorem create_then_read p c text s : represents p c -> healthy p -> valid_text text -> plain (ss_Name s) ->
  parse_text text = Some (inr (Some (CreateStmt s))) -> c !! ss_Name s = None ->
  snd (GetDataSource (fst (ExecStmt text p)) (ss_Name s)) = Some (inr s).
Proof.
  intros R H U P T N. destruct (exec_create_healthy p c text s R U P T H N) as [R' H'].
  pose proof (GetDataSource_spec _ _ (ss_Name s) R' P) as S. destruct (GetDataSource _ _) as [p' r]. destruct S as [_ S]. cbn.
  apply (S (created s text)); [apply lookup_insert_eq|exact H'|]. now repeat split.
Qed.

(** Replacing a definition asks for its type, not for the type of what is there. *)
Lemma ExecReplaceStream_spec p c text s st : represents p c -> valid_text text -> plain (ss_Name s) ->
  parse_text text = Some (inr (Some (CreateStmt s))) -> ss_StreamType s = st -> healthy p ->
  represents (fst (ExecReplaceStream ff rt text st p)) (<[ss_Name s := created s text]> c).
Proof.
  intros R U P T E H. unfold ExecReplaceStream. rewrite T, (proj2 (st_eqb_eq _ _) E). cbn [negb].
  pose proof (execSave_spec p c text s true R U P T) as S. destruct (execSave s text true p) as [p1 [e|]]; cbn; [|tauto].
  destruct S as (_ & _ & S). destruct (S H) as [X _]. discriminate.
Qed.
End Catalogue.

(** ** Examples *)

Module Sample.
(** JSON as the record itself, SQL without injections. *)
#[export] Instance info_json : InfoJson StreamInfo :=
  {| marshal_info i := i; unmarshal_info i _ := (i, true); unmarshal_marshal i prev _ := eq_refl |}.
#[export] Instance plain_sql {V} : Sql V.
Proof.
  refine {| where_key k m := if quote_free k then Some (match m !! k with Some _ => [k] | None => [] end) else None; scan_order l := l |}.
  - intros k m ->. reflexivity.
  - reflexivity.
Defined.

Definition empty_store : kv (V := StreamInfo) := mkSqlite ∅ [].
Definition quoted (s : string) : string := (String (Ascii.ascii_of_nat 34) s ++ String (Ascii.ascii_of_nat 34) "")%string.
Definition create_demo : string :=
  ("CREATE STREAM demo (temp FLOAT, name STRING) WITH (DATASOURCE=" ++ quoted "demo" ++ ", FORMAT=" ++ quoted "JSON" ++ ")")%string.
Definition create_table : string := ("CREATE TABLE demo () WITH (DATASOURCE=" ++ quoted "lookup.json" ++ ")")%string.
Definition exec (text : string) (p : kv (V := StreamInfo)) := ExecStmt built_ins no_runtime text p.

Definition demo_stmt : StreamStmt :=
  match parse_text built_ins no_runtime create_demo with
  | Some (inr (Some (CreateStmt s))) => s
  | _ => mkStreamStmt "" None (mkOptions "" "" "" "" "" false "" "" 0 false) TypeStream
  end.

Lemma empty_catalogue : represents built_ins no_runtime empty_store ∅.
Proof. split; [reflexivity|]. apply map_Forall_empty. Qed.
End Sample.

Import Sample.

Lemma ShowStream_exact_witness : let (p', r) := ShowStream TypeStream empty_store in
  represents built_ins no_runtime p' ∅ /\ match r with
    | inr l => NoDup l /\ (forall k, k ∈ l -> has ∅ k TypeStream) /\ (healthy empty_store -> forall k, has ∅ k TypeStream -> k ∈ l)
    | inl _ => ~ healthy empty_store end.
Proof. exact (ShowStream_exact built_ins no_runtime empty_store ∅ TypeStream empty_catalogue). Defined.

Lemma ExecStmt_refines_witness :
  snd (exec create_demo empty_store) = Some (inr ["Stream demo is created."]) /\
  match snd (exec create_demo empty_store) with
  | None => False
  | Some (inr _) => represents built_ins no_runtime (fst (exec create_demo empty_store)) (effect built_ins no_runtime create_demo ∅)
      /\ accepts built_ins no_runtime create_demo ∅
  | Some (inl _) => represents built_ins no_runtime (fst (exec create_demo empty_store)) ∅
      /\ (healthy empty_store -> ~ accepts built_ins no_runtime create_demo ∅)
  end.
Proof.
  split; [vm_compute; reflexivity|].
  apply (ExecStmt_refines built_ins no_runtime create_demo empty_store ∅ empty_catalogue); [vm_compute; reflexivity|].
  vm_compute. split; [reflexivity|discriminate].
Defined.

Lemma create_then_read_witness :
  snd (GetDataSource built_ins no_runtime (fst (exec create_demo empty_store)) "demo") = Some (inr demo_stmt).
Proof.
  apply (create_then_read built_ins no_runtime empty_store ∅ create_demo demo_stmt empty_catalogue); vm_compute; reflexivity.
Defined.

(** A table replaces the stream of its name, for both live under one key. *)
Lemma replace_changes_type : exists p r,
  ExecReplaceStream built_ins no_runtime create_table TypeTable (fst (exec create_demo empty_store)) = (p, r)
  /\ r = Some (inr "Table demo is replaced.") /\ snd (exec "SHOW STREAMS" p) = Some (inr ["No stream definitions are found."]).
Proof. eexists _, _. split; [vm_compute; reflexivity|]. split; vm_compute; reflexivity. Qed.
