(* ===== verification/Topo.v ===== *)
(** The graph of nodes of a rule (src/internal/topo/topo.go and [createTopo],
    [buildOps] of src/internal/topo/planner/planner.go).

    Nodes are pointers in the code.  Here a node is its position among the
    sources, operators or sinks of the topology it was added to, and an output
    map goes from names to the nodes whose input channel it holds.  Rules are
    planned without predefined sources and sinks, as [Plan] does.

    The graph realizes the plan: every plan node has an operator that is fed by
    exactly the operators of its children, the graph has nothing else, and a
    barrier handler waits for as many barriers as there are inputs. *)

From S2P Require Import Checkpoint Kv Streams.
From S2P Require Import Prelude Token Ast FuncValidator Lexical Strconv Parser ParserFacts Value Collections AggFuncs Cast Eval Operators Tables Window Watermark Pool Planner Analyzer.
From Stdlib Require Import ZArith Lia Bool List String Ascii Permutation.
Import ListNotations.

#[local] Open Scope string_scope.
#[local] Open Scope list_scope.
#[local] Open Scope Z_scope.

(** ** Nodes *)

(** The operations of unary operators, with what they are made from. *)
Inductive operation : Type :=
  | Preprocessor (d : DataSource)
  | TableOp (d : DataSource)
  | FilterOp (c : option expr)
  | JoinOp (from : Table) (joins : list Join)
  | AggregateOp (dimensions : list expr)
  | HavingOp (c : option expr)
  | OrderOp (sorts : list SortField)
  | ProjectOp (fields : list Field) (isAggregate sendMeta : bool).

Inductive node_kind : Type :=
  | Unary (op : operation)
  | WindowNode (w : WindowConfig) (generator : option WatermarkGenerator)
  | AlignNode (emitters : list (string * nat)).

(** Whose input channel an output is. *)
Inductive target : Type := TOp (i : nat) | TSink (i : nat).

Inductive BarrierHandler : Type := Tracker (inputs : Z) | Aligner (inputs : Z).

Record OpNode : Type := mkOpNode {
  n_name : string;
  n_kind : node_kind;
  n_concurrency : Z;
  n_sendError : bool;
  n_outputs : list (string * target);
  n_inputCount : Z;
  n_qos : Z;
  n_handler : option BarrierHandler }.

Record SrcNode : Type := mkSrcNode {
  sn_name : string;
  sn_streamType : StreamType;
  sn_sourceType : string;
  sn_options : Options;
  sn_outputs : list (string * target);
  sn_qos : Z }.

Record SinkNode : Type := mkSinkNode {
  sk_name : string;
  sk_type : string;
  sk_bufferLength : Z;
  sk_options : list (string * value);
  sk_inputCount : Z;
  sk_qos : Z;
  sk_handler : option BarrierHandler }.

Record PrintableTopo : Type := mkPrintable { p_Sources : list string; p_Edges : list (string * list string) }.

Record Topo : Type := mkTopo {
  t_name : string;
  t_qos : Z;
  t_checkpointInterval : Z;
  t_sources : list SrcNode;
  t_ops : list OpNode;
  t_sinks : list SinkNode;
  t_topo : PrintableTopo }.

Inductive emitter : Type := ESrc (i : nat) | EOp (i : nat).

Definition NewWithNameAndQos (name : string) (qos checkpointInterval : Z) : Topo :=
  mkTopo name qos checkpointInterval [] [] [] (mkPrintable [] []).

Definition set_ops (l : list OpNode) (s : Topo) : Topo :=
  mkTopo (t_name s) (t_qos s) (t_checkpointInterval s) (t_sources s) l (t_sinks s) (t_topo s).
Definition set_sources (l : list SrcNode) (s : Topo) : Topo :=
  mkTopo (t_name s) (t_qos s) (t_checkpointInterval s) l (t_ops s) (t_sinks s) (t_topo s).
Definition set_sinks (l : list SinkNode) (s : Topo) : Topo :=
  mkTopo (t_name s) (t_qos s) (t_checkpointInterval s) (t_sources s) (t_ops s) l (t_topo s).
Definition set_printable (p : PrintableTopo) (s : Topo) : Topo :=
  mkTopo (t_name s) (t_qos s) (t_checkpointInterval s) (t_sources s) (t_ops s) (t_sinks s) p.

(** [AddOutput] refuses a second output of the same name; nobody reads the error. *)
Definition AddOutput (output : target) (name : string) (outputs : list (string * target)) : list (string * target) :=
  match assoc name outputs with None => outputs ++ [(name, output)] | Some _ => outputs end.

Definition op_output (output : target) (name : string) (o : OpNode) : OpNode :=
  mkOpNode (n_name o) (n_kind o) (n_concurrency o) (n_sendError o) (AddOutput output name (n_outputs o))
    (n_inputCount o) (n_qos o) (n_handler o).

Definition src_output (output : target) (name : string) (o : SrcNode) : SrcNode :=
  mkSrcNode (sn_name o) (sn_streamType o) (sn_sourceType o) (sn_options o) (AddOutput output name (sn_outputs o)) (sn_qos o).

(** A change of the node at a position. *)
Fixpoint update {A} (f : A -> A) (i : nat) (l : list A) : list A :=
  match l, i with
  | [], _ => []
  | x :: l', O => f x :: l'
  | x :: l', S i' => x :: update f i' l'
  end.

Definition emit_to (output : target) (name : string) (s : Topo) (e : emitter) : Topo :=
  match e with
  | ESrc i => set_sources (update (src_output output name) i (t_sources s)) s
  | EOp i => set_ops (update (op_output output name) i (t_ops s)) s
  end.

Definition emitter_name (s : Topo) (e : emitter) : option string :=
  match e with
  | ESrc i => option_map sn_name (nth_error (t_sources s) i)
  | EOp i => option_map n_name (nth_error (t_ops s) i)
  end.

Definition addEdge (from : emitter) (to : string) (s : Topo) : Topo :=
  let fromType := match from with ESrc _ => "source" | EOp _ => "op" end in
  match emitter_name s from with
  | None => s
  | Some name =>
      let f := (fromType ++ "_" ++ name)%string in
      let e := match assoc f (p_Edges (t_topo s)) with Some e => e | None => [] end in
      set_printable (mkPrintable (p_Sources (t_topo s)) (assoc_set f (e ++ [to]) (p_Edges (t_topo s)))) s
  end.

Definition AddSrc (src : SrcNode) (s : Topo) : Topo :=
  set_printable (mkPrintable (p_Sources (t_topo s) ++ [("source_" ++ sn_name src)%string]) (p_Edges (t_topo s)))
    (set_sources (t_sources s ++ [src]) s).

(** One round of the loops of [AddOperator] and [AddSink] for a node outside. *)
Definition connect (toType name : string) (output : target) (s : Topo) (input : emitter) : Topo :=
  addEdge input (toType ++ "_" ++ name)%string (emit_to output name s input).

Definition op_inputs (n : Z) (o : OpNode) : OpNode :=
  mkOpNode (n_name o) (n_kind o) (n_concurrency o) (n_sendError o) (n_outputs o) (n_inputCount o + n) (n_qos o) (n_handler o).

Definition AddOperator (inputs : list emitter) (operator : OpNode) (s : Topo) : Topo :=
  let s' := fold_left (connect "op" (n_name operator) (TOp (List.length (t_ops s)))) inputs s in
  set_ops (t_ops s' ++ [op_inputs (Z.of_nat (List.length inputs)) operator]) s'.

Definition sink_inputs (n : Z) (o : SinkNode) : SinkNode :=
  mkSinkNode (sk_name o) (sk_type o) (sk_bufferLength o) (sk_options o) (sk_inputCount o + n) (sk_qos o) (sk_handler o).

Definition AddSink (inputs : list emitter) (snk : SinkNode) (s : Topo) : Topo :=
  let s' := fold_left (connect "sink" (sk_name snk) (TSink (List.length (t_sinks s)))) inputs s in
  set_sinks (t_sinks s' ++ [sink_inputs (Z.of_nat (List.length inputs)) snk]) s'.

(** ** Turning a plan into nodes *)

Definition NewSourceNode (name : string) (st : StreamType) (options : Options) : SrcNode :=
  mkSrcNode name st (source_type st (o_TYPE options)) options [] 0.

Definition SetConcurrency (concurr : Z) (o : OpNode) : OpNode :=
  mkOpNode (n_name o) (n_kind o) (if concurr <? 1 then 1 else concurr) (n_sendError o) (n_outputs o)
    (n_inputCount o) (n_qos o) (n_handler o).

Section Build.
Variable options : RuleOption.
Variable streamsFromStmt : list string.

Definition Transform (op : operation) (name : string) : OpNode :=
  mkOpNode name (Unary op) 1 (SendError options) [] 0 0 None.

Definition named (index : Z) (kind : string) : string := (itoa index ++ "_" ++ kind)%string.

(** What a step of [buildOps] gives: the topology, its emitters and the index. *)
Definition built : Type := value + (Topo * list emitter * Z).

(** The end of [buildOps]: the operator is added behind its inputs. *)
Definition add_op (inputs : list emitter) (op : OpNode) (tp : Topo) (newIndex : Z) : built :=
  let op := match n_kind op with Unary _ => SetConcurrency (Concurrency options) op | _ => op end in
  inr (AddOperator inputs op tp, [EOp (List.length (t_ops tp))], newIndex).

(** The children are built; then the index is increased. *)
Definition after (children : built) (f : Topo -> list emitter -> Z -> built) : built :=
  match children with
  | inl e => inl e
  | inr (tp, inputs, ni) => f tp inputs (ni + 1)
  end.

Definition build_source (d : DataSource) (tp : Topo) (newIndex : Z) : built :=
  let st := ss_StreamType (streamStmt d) in
  let srcNode := NewSourceNode (ds_name d) st (ss_Options (streamStmt d)) in
  let tp1 := AddSrc srcNode tp in
  let op := match st with
            | TypeStream => Transform (Preprocessor d) (named newIndex ("preprocessor_" ++ ds_name d))
            | TypeTable => Transform (TableOp d) (named newIndex ("tableprocessor_" ++ ds_name d))
            end in
  add_op [ESrc (List.length (t_sources tp))] op tp1 newIndex.

(** [NewWindowOp]: with event time there is a watermark generator, which count
    windows do not have. *)
Definition window_kind (w : WindowConfig) : value + node_kind :=
  let o := NewWindowOp w (IsEventTime options) in
  if IsEventTime options then
    match NewWatermarkGenerator (window o) (LateTol options) streamsFromStmt with
    | inl e => inl e
    | inr g => inr (WindowNode (window o) (Some g))
    end
  else inr (WindowNode (window o) None).

Definition window_config (w : WindowParams) : WindowConfig := mkConfig (wtype w) (wlength w) (winterval w).

Definition bare_node (name : string) (k : node_kind) : OpNode := mkOpNode name k 0 (SendError options) [] 0 0 None.

Definition build_window (w : WindowParams) (condition : option expr) (tp : Topo) (inputs : list emitter) (newIndex : Z) : built :=
  let '(tp, inputs) :=
    match condition with
    | Some _ =>
        let wfilterOp := SetConcurrency (Concurrency options) (Transform (FilterOp condition) (named newIndex "windowFilter")) in
        (AddOperator inputs wfilterOp tp, [EOp (List.length (t_ops tp))])
    | None => (tp, inputs)
    end in
  match window_kind (window_config w) with
  | inl e => inl e
  | inr k => add_op inputs (bare_node (named newIndex "window") k) tp newIndex
  end.

Definition NewJoinAlignNode (name : string) (emitters : list string) : OpNode :=
  bare_node name (AlignNode (number_emitters 0 emitters [])).

Definition unary (op : operation) (kind : string) (tp : Topo) (inputs : list emitter) (newIndex : Z) : built :=
  add_op inputs (Transform op (named newIndex kind)) tp newIndex.

Fixpoint buildOps (lp : LogicalPlan) (tp : Topo) (index : Z) : built :=
  let fix children (l : list LogicalPlan) (tp : Topo) (index : Z) : built :=
    match l with
    | [] => inr (tp, [], index)
    | c :: l' =>
        match buildOps c tp index with
        | inl e => inl e
        | inr (tp1, input, ni) =>
            match children l' tp1 ni with
            | inl e => inl e
            | inr (tp2, inputs, ni2) => inr (tp2, input ++ inputs, ni2)
            end
        end
    end in
  match lp with
  | DataSourcePlan d => build_source d tp (index + 1)
  | WindowPlan w c l => after (children l tp index) (build_window w c)
  | JoinAlignPlan es l => after (children l tp index)
      (fun tp inputs ni => add_op inputs (NewJoinAlignNode (named ni "join_aligner") es) tp ni)
  | JoinPlan from joins l => after (children l tp index) (unary (JoinOp from joins) "join")
  | FilterPlan c l => after (children l tp index) (unary (FilterOp c) "filter")
  | AggregatePlan ds l => after (children l tp index) (unary (AggregateOp ds) "aggregate")
  | HavingPlan c l => after (children l tp index) (unary (HavingOp c) "having")
  | OrderPlan s l => after (children l tp index) (unary (OrderOp s) "order")
  | ProjectPlan fs a m l => after (children l tp index) (unary (ProjectOp fs a m) "project")
  end.

(** ** Actions *)

Context {L : FloatLib} {MO : MapOrder}.

Definition NewSinkNode (name sinkType : string) (props : list (string * value)) : SinkNode :=
  mkSinkNode name sinkType (positive_prop "bufferLength" props 1024) props 0 0 None.

(** The type assertion to a map. *)
Definition action_props (action : value) : option (list (string * value)) :=
  match action with VMap props => Some props | VTypedNil Value.GMap => Some [] | _ => None end.

(** One action: its entries in the order of the range over its map. *)
Fixpoint add_action (input : list emitter) (i : Z) (m : list (string * value)) (tp : Topo) : value + Topo :=
  match m with
  | [] => inr tp
  | (name, action) :: m' =>
      match action_props action with
      | Some props => add_action input i m' (AddSink input (NewSinkNode (name ++ "_" ++ itoa i)%string name props) tp)
      | None => inl (VError "expect map[string]interface{} type for the action properties, but found %v" [action])
      end
  end.

Fixpoint add_actions (input : list emitter) (i : Z) (actions : list (list (string * value))) (tp : Topo) : value + Topo :=
  match actions with
  | [] => inr tp
  | m :: ms =>
      match add_action input i (map_range _ m) tp with
      | inl e => inl e
      | inr tp' => add_actions input (i + 1) ms tp'
      end
  end.

Definition createTopo (id : string) (actions : list (list (string * value))) (lp : LogicalPlan) : value + Topo :=
  let tp := NewWithNameAndQos id (Qos options) (CheckpointInterval options) in
  match buildOps lp tp 0 with
  | inl e => inl e
  | inr (tp1, input, _) => add_actions input 0 actions tp1
  end.
End Build.

(** ** From the text of a rule *)

Record Rule : Type := mkRule {
  r_Triggered : bool;
  r_Id : string;
  r_Sql : string;
  r_Actions : list (list (string * value));
  r_Options : option RuleOption }.

Inductive plan_failure : Type :=
  | ParseFailed (e : parse_error)
  | NotSelect
  | MetaOfWindow
  | NotPlanned (e : analyze_error + string)
  | NotBuilt (e : value).

(** [GetStatementFromSql]; [None] is a panic. *)
Definition GetStatementFromSql (ff : FuncFinder) (rt : Runtime) (sql : string) : option (plan_failure + SelectStatement) :=
  match Streams.parse_text ff rt sql with
  | Some (inr (Some (SelectStmt s))) => Some (inr s)
  | Some (inr _) => Some (inl NotSelect)
  | Some (inl e) => Some (inl (ParseFailed e))
  | None => None
  end.

(** [Plan]; [GetDataSource] reads a stream definition from the store. *)
Definition Plan {L : FloatLib} {MO : MapOrder} (ff : FuncFinder) (rt : Runtime) (GetDataSource : string -> option StreamStmt)
    (rule : Rule) : option (plan_failure + Topo) :=
  match GetStatementFromSql ff rt (r_Sql rule), r_Options rule with
  | None, _ => None
  | Some (inl e), _ => Some (inl e)
  | Some (inr _), None => None
  | Some (inr stmt), Some opt =>
      let streamsFromStmt := GetStreams stmt in
      let dimensions := match Dimensions stmt with [] => false | _ => true end in
      if SendMetaToSink opt && (Nat.ltb 1 (List.length streamsFromStmt) || dimensions) then Some (inl MetaOfWindow)
      else
        match plan ff GetDataSource stmt opt with
        | inl e => Some (inl (NotPlanned e))
        | inr lp =>
            match createTopo opt streamsFromStmt (r_Id rule) (r_Actions rule) lp with
            | inl e => Some (inl (NotBuilt e))
            | inr tp => Some (inr tp)
            end
        end
  end.

(** ** Checkpoints *)

Record coordinator_tasks : Type := mkTasks { tasksToTrigger : list string; tasksToWait : list string; baseInterval : Z }.

Definition createBarrierHandler (inputCount qos : Z) : option BarrierHandler :=
  if qos =? 1 then Some (Tracker inputCount) else if qos =? 2 then Some (Aligner inputCount) else None.

Definition src_qos (qos : Z) (o : SrcNode) : SrcNode :=
  mkSrcNode (sn_name o) (sn_streamType o) (sn_sourceType o) (sn_options o) (sn_outputs o) qos.
Definition op_qos (qos : Z) (o : OpNode) : OpNode :=
  mkOpNode (n_name o) (n_kind o) (n_concurrency o) (n_sendError o) (n_outputs o) (n_inputCount o) qos
    (createBarrierHandler (n_inputCount o) qos).
Definition sink_qos (qos : Z) (o : SinkNode) : SinkNode :=
  mkSinkNode (sk_name o) (sk_type o) (sk_bufferLength o) (sk_options o) (sk_inputCount o) qos (Some (Tracker (sk_inputCount o))).

(** [enableCheckpoint] with [NewCoordinator]; the state of the coordinator is
    that of [Checkpoint.NewCoordinator] for [tasksToWait]. *)
Definition enableCheckpoint (s : Topo) : Topo * option coordinator_tasks :=
  if t_qos s >=? 1 then
    let s' := mkTopo (t_name s) (t_qos s) (t_checkpointInterval s) (map (src_qos (t_qos s)) (t_sources s))
                (map (op_qos (t_qos s)) (t_ops s)) (map (sink_qos (t_qos s)) (t_sinks s)) (t_topo s) in
    (s', Some (mkTasks (map sn_name (t_sources s))
           (map sn_name (t_sources s) ++ map n_name (t_ops s) ++ map sk_name (t_sinks s))
           (if t_checkpointInterval s <=? 0 then 300000 else t_checkpointInterval s)))
  else (s, None).

(** ** Facts about positions *)

Lemma nth_error_update {A} (f : A -> A) : forall l i j,
  nth_error (update f i l) j = if Nat.eqb i j then option_map f (nth_error l j) else nth_error l j.
Proof.
  induction l as [|x l IH]; intros [|i] [|j]; cbn; auto; now destruct (Nat.eqb i j).
Qed.

Lemma map_update {A B} (g : A -> B) (f : A -> A) : (forall x, g (f x) = g x) -> forall l i, map g (update f i l) = map g l.
Proof. intros H. induction l as [|x l IH]; intros [|i]; cbn; [easy|easy|now rewrite H|now rewrite IH]. Qed.

Lemma emitter_dec (x y : emitter) : {x = y} + {x <> y}.
Proof. decide equality; apply Nat.eq_dec. Qed.

(** ** What does not change when outputs are added *)

Definition op_static (o : OpNode) : string * node_kind * Z * Z := (n_name o, n_kind o, n_concurrency o, n_inputCount o).
Definition src_static (o : SrcNode) : string * StreamType * string * Options := (sn_name o, sn_streamType o, sn_sourceType o, sn_options o).

Definition op_facts (s : Topo) : list (string * node_kind * Z * Z) := map op_static (t_ops s).
Definition src_facts (s : Topo) : list (string * StreamType * string * Options) := map src_static (t_sources s).

(** What only [AddSink] changes, and nothing. *)
Definition conf (s : Topo) : string * Z * Z := (t_name s, t_qos s, t_checkpointInterval s).
Definition rest (s : Topo) : string * Z * Z * list SinkNode := (conf s, t_sinks s).

Definition outs (s : Topo) (e : emitter) : list (string * target) :=
  match e with
  | ESrc i => match nth_error (t_sources s) i with Some o => sn_outputs o | None => [] end
  | EOp i => match nth_error (t_ops s) i with Some o => n_outputs o | None => [] end
  end.

Definition valid (s : Topo) (e : emitter) : Prop :=
  match e with ESrc i => (i < List.length (src_facts s))%nat | EOp i => (i < List.length (op_facts s))%nat end.

(** [e] sends what it emits to [t]. *)
Definition feeds (s : Topo) (e : emitter) (t : target) : Prop := In t (map snd (outs s e)).

Lemma length_facts s : List.length (op_facts s) = List.length (t_ops s).
Proof. apply length_map. Qed.

Lemma length_src_facts s : List.length (src_facts s) = List.length (t_sources s).
Proof. apply length_map. Qed.

Lemma connect_facts ty nm out s e : op_facts (connect ty nm out s e) = op_facts s
  /\ src_facts (connect ty nm out s e) = src_facts s /\ rest (connect ty nm out s e) = rest s.
Proof.
  unfold connect, addEdge. destruct (emitter_name _ e); destruct e; unfold op_facts, src_facts; cbn; rewrite ?map_update; auto.
Qed.

Lemma outs_connect ty nm out s e x : valid s e ->
  outs (connect ty nm out s e) x = if emitter_dec e x then AddOutput out nm (outs s x) else outs s x.
Proof.
  assert (A : forall s', outs (addEdge e (ty ++ "_" ++ nm)%string s') x = outs s' x).
  { intros s'. unfold addEdge. destruct (emitter_name s' e); destruct x; reflexivity. }
  unfold connect. rewrite A. destruct (emitter_dec e x) as [<-|N]; destruct e as [i|i]; cbn [valid].
  - rewrite length_src_facts. intros H. cbn. rewrite nth_error_update, Nat.eqb_refl.
    destruct (nth_error (t_sources s) i) eqn:E; [reflexivity|apply nth_error_None in E; lia].
  - rewrite length_facts. intros H. cbn. rewrite nth_error_update, Nat.eqb_refl.
    destruct (nth_error (t_ops s) i) eqn:E; [reflexivity|apply nth_error_None in E; lia].
  - intros _. destruct x as [j|j]; cbn; [|reflexivity]. rewrite nth_error_update.
    destruct (Nat.eqb_spec i j) as [->|_]; [congruence|reflexivity].
  - intros _. destruct x as [j|j]; cbn; [reflexivity|]. rewrite nth_error_update.
    destruct (Nat.eqb_spec i j) as [->|_]; [congruence|reflexivity].
Qed.

(** Emitters that nothing was connected to yet. *)
Definition open_inputs (s : Topo) (es : list emitter) : Prop := NoDup es /\ forall e, In e es -> valid s e /\ outs s e = [].

Lemma valid_facts s s' : op_facts s' = op_facts s -> src_facts s' = src_facts s -> forall e, valid s' e <-> valid s e.
Proof. intros H1 H2 [i|i]; cbn; rewrite ?H1, ?H2; reflexivity. Qed.

Lemma connect_all ty nm out es : forall s, open_inputs s es ->
  let s' := fold_left (connect ty nm out) es s in
  op_facts s' = op_facts s /\ src_facts s' = src_facts s /\ rest s' = rest s
  /\ (forall x, In x es -> outs s' x = [(nm, out)]) /\ forall x, ~ In x es -> outs s' x = outs s x.
Proof.
  induction es as [|e es IH]; intros s [Hn Ho]; cbn; [repeat split; auto; tauto|].
  destruct (connect_facts ty nm out s e) as (F1 & F2 & F3). destruct (Ho e (or_introl eq_refl)) as [V O].
  inversion Hn as [|e' l He Hl]; subst.
  assert (N : forall x, e <> x -> outs (connect ty nm out s e) x = outs s x).
  { intros x H. rewrite outs_connect by exact V. destruct (emitter_dec e x); [congruence|reflexivity]. }
  destruct (IH (connect ty nm out s e)) as (G1 & G2 & G3 & G4 & G5).
  { split; [exact Hl|]. intros x H. rewrite (valid_facts _ _ F1 F2), N by (intros ->; now apply He). apply Ho. now right. }
  rewrite G1, G2, G3. repeat split; auto; intros x.
  - intros [<-|H]; [|now apply G4]. rewrite G5 by exact He. rewrite outs_connect by exact V.
    destruct (emitter_dec e e); [|congruence]. now rewrite O.
  - intros H. rewrite G5 by tauto. apply N. tauto.
Qed.

(** What [AddOperator] does to open inputs. *)
Lemma AddOperator_facts es op s : open_inputs s es -> n_outputs op = [] -> n_inputCount op = 0 ->
  let s' := AddOperator es op s in
  let n := List.length (op_facts s) in
  op_facts s' = op_facts s ++ [(n_name op, n_kind op, n_concurrency op, Z.of_nat (List.length es))]
  /\ src_facts s' = src_facts s /\ rest s' = rest s
  /\ (forall x, In x es -> outs s' x = [(n_name op, TOp n)]) /\ outs s' (EOp n) = []
  /\ forall x, ~ In x es -> outs s' x = outs s x.
Proof.
  intros Ho Hz Hc. cbv zeta. unfold AddOperator. rewrite length_facts.
  destruct (connect_all "op" (n_name op) (TOp (List.length (t_ops s))) es s Ho) as (F1 & F2 & F3 & F4 & F5).
  set (s' := fold_left _ es s) in *. assert (Hl : List.length (t_ops s') = List.length (t_ops s)) by (rewrite <- !length_facts; now rewrite F1).
  assert (N : forall o x, x <> EOp (List.length (t_ops s)) -> outs (set_ops (t_ops s' ++ [o]) s') x = outs s' x).
  { intros o [i|i] H; cbn; [reflexivity|]. destruct (Nat.lt_trichotomy i (List.length (t_ops s'))) as [H'|[H'|H']].
    - now rewrite nth_error_app1.
    - rewrite Hl in H'. congruence.
    - assert (L : (List.length (t_ops s' ++ [o]) <= i)%nat) by (rewrite length_app; cbn; lia).
      apply nth_error_None in L. rewrite L. apply Nat.lt_le_incl, nth_error_None in H'. now rewrite H'. }
  assert (V : forall x, In x es -> x <> EOp (List.length (t_ops s))).
  { intros x H ->. apply Ho in H as [H _]. cbn in H. rewrite length_facts in H. lia. }
  assert (E : outs (set_ops (t_ops s' ++ [op_inputs (Z.of_nat (List.length es)) op]) s') (EOp (List.length (t_ops s))) = []).
  { cbn. rewrite <- Hl, nth_error_app2, Nat.sub_diag by lia. exact Hz. }
  repeat split; auto.
  - unfold op_facts in *. cbn. rewrite map_app, F1. cbn. unfold op_static. cbn. now rewrite Hc.
  - intros x H. rewrite N by auto. now apply F4.
  - intros x H. destruct (emitter_dec x (EOp (List.length (t_ops s)))) as [->|D].
    + rewrite E. cbn. symmetry. destruct (nth_error (t_ops s) (List.length (t_ops s))) eqn:C; [|reflexivity].
      assert (nth_error (t_ops s) (List.length (t_ops s)) <> None) as C' by congruence. apply nth_error_Some in C'. lia.
    + rewrite N by exact D. now apply F5.
Qed.

Lemma AddSrc_facts src s : sn_outputs src = [] ->
  let s' := AddSrc src s in
  op_facts s' = op_facts s /\ src_facts s' = src_facts s ++ [src_static src] /\ rest s' = rest s
  /\ forall x, outs s' x = outs s x.
Proof.
  intros H. cbv zeta. unfold src_facts. cbn. rewrite map_app. repeat split; auto. intros [i|i]; [|reflexivity]. cbn.
  destruct (Nat.lt_trichotomy i (List.length (t_sources s))) as [L|[->|L]].
  - now rewrite nth_error_app1.
  - rewrite nth_error_app2, Nat.sub_diag by lia. cbn. rewrite H.
    assert (E : nth_error (t_sources s) (List.length (t_sources s)) = None) by (apply nth_error_None; lia). now rewrite E.
  - assert (E : nth_error (t_sources s) i = None) by (apply nth_error_None; lia). rewrite E.
    assert (E' : nth_error (t_sources s ++ [src]) i = None) by (apply nth_error_None; rewrite length_app; cbn; lia). now rewrite E'.
Qed.

(** ** Growing a graph *)

Definition nops (s : Topo) : nat := List.length (op_facts s).

(** Nothing is sent to nodes that are not there yet. *)
Definition closed (s : Topo) : Prop := forall x k, feeds s x (TOp k) -> (k < nops s)%nat.

(** [s'] adds nodes to [s] that feed one another only. *)
Record grows (s s' : Topo) : Prop := {
  g_ops : exists l, op_facts s' = op_facts s ++ l;
  g_srcs : exists l, src_facts s' = src_facts s ++ l;
  g_sinks : rest s' = rest s;
  g_outs : forall x, valid s x -> outs s' x = outs s x;
  g_new : forall x t, ~ valid s x -> feeds s' x t -> exists k, t = TOp k /\ (nops s <= k < nops s')%nat }.

(** [s'] has the nodes of [s] and they have the same inputs. *)
Record keeps (s s' : Topo) : Prop := {
  k_ops : exists l, op_facts s' = op_facts s ++ l;
  k_srcs : exists l, src_facts s' = src_facts s ++ l;
  k_feeds : forall x i, (i < nops s)%nat -> feeds s' x (TOp i) <-> feeds s x (TOp i) }.

Lemma outs_invalid s x : ~ valid s x -> outs s x = [].
Proof.
  destruct x as [i|i]; cbn; rewrite ?length_facts, ?length_src_facts; intros H.
  - assert (E : nth_error (t_sources s) i = None) by (apply nth_error_None; lia). now rewrite E.
  - assert (E : nth_error (t_ops s) i = None) by (apply nth_error_None; lia). now rewrite E.
Qed.

Lemma feeds_outs s s' x t : outs s x = outs s' x -> feeds s x t <-> feeds s' x t.
Proof. unfold feeds. now intros ->. Qed.

Lemma valid_dec s x : {valid s x} + {~ valid s x}.
Proof. destruct x; apply lt_dec. Qed.

Lemma valid_app s s' : (exists l, op_facts s' = op_facts s ++ l) -> (exists l, src_facts s' = src_facts s ++ l) ->
  (nops s <= nops s')%nat /\ forall x, valid s x -> valid s' x.
Proof.
  intros [l1 H1] [l2 H2]. unfold nops. split; [rewrite H1, length_app; lia|].
  intros [i|i]; cbn; rewrite ?H1, ?H2, length_app; lia.
Qed.

Lemma app_trans {A} (a b c : list A) : (exists l, b = a ++ l) -> (exists l, c = b ++ l) -> exists l, c = a ++ l.
Proof. intros [l ->] [l' ->]. exists (l ++ l'). now rewrite app_assoc. Qed.

Lemma grows_refl s : grows s s.
Proof.
  split; auto; try (exists []; now rewrite app_nil_r). intros x t H F. unfold feeds in F.
  rewrite outs_invalid in F by exact H. easy.
Qed.

Lemma grows_trans s1 s2 s3 : grows s1 s2 -> grows s2 s3 -> grows s1 s3.
Proof.
  intros [O1 S1 K1 U1 N1] [O2 S2 K2 U2 N2]. destruct (valid_app _ _ O1 S1) as [L1 V1]. destruct (valid_app _ _ O2 S2) as [L2 V2].
  split; eauto using app_trans; [congruence| |].
  - intros x H. rewrite U2 by auto. auto.
  - intros x t H F. destruct (valid_dec s2 x) as [V|V].
    + apply (feeds_outs s3 s2) in F; [|now apply U2]. destruct (N1 x t H F) as (k & -> & Hk). exists k. split; [reflexivity|lia].
    + destruct (N2 x t V F) as (k & -> & Hk). exists k. split; [reflexivity|lia].
Qed.

Lemma grows_closed s s' : grows s s' -> closed s -> closed s'.
Proof.
  intros [O S K U N] C x k F. destruct (valid_app _ _ O S) as [L _]. destruct (valid_dec s x) as [V|V].
  - apply (feeds_outs s' s) in F; [|now apply U]. apply C in F. lia.
  - destruct (N x _ V F) as (k' & E & H). injection E as ->. lia.
Qed.

Lemma grows_keeps s s' : grows s s' -> keeps s s'.
Proof.
  intros [O S K U N]. split; auto. intros x i H. destruct (valid_dec s x) as [V|V]; [apply feeds_outs; auto|].
  split; intros F.
  - destruct (N x _ V F) as (k & E & Hk). injection E as ->. lia.
  - unfold feeds in F. rewrite outs_invalid in F by exact V. easy.
Qed.

Lemma keeps_trans s1 s2 s3 : keeps s1 s2 -> keeps s2 s3 -> keeps s1 s3.
Proof.
  intros [O1 S1 F1] [O2 S2 F2]. destruct (valid_app _ _ O1 S1) as [L _]. split; eauto using app_trans.
  intros x i H. rewrite F2 by lia. now apply F1.
Qed.

(** ** Inputs of an operator *)

(** The inputs of the operator at a position are exactly [es]. *)
Definition inputs_are (s : Topo) (i : nat) (es : list emitter) : Prop := forall x, feeds s x (TOp i) <-> In x es.

Definition runs (s : Topo) (i : nat) (k : node_kind) (es : list emitter) : Prop :=
  (exists name c n, nth_error (op_facts s) i = Some (name, k, c, n)) /\ inputs_are s i es.

(** Inputs that barriers of different names come from. *)
Definition separate (es : list emitter) : Prop := (exists j, es = [ESrc j]) \/ forall x, In x es -> exists j, x = EOp j.

Definition counted (s : Topo) (i : nat) : Prop :=
  exists name k c es, nth_error (op_facts s) i = Some (name, k, c, Z.of_nat (List.length es))
    /\ NoDup es /\ separate es /\ inputs_are s i es.

Lemma keeps_fact s s' i p : keeps s s' -> nth_error (op_facts s) i = Some p -> nth_error (op_facts s') i = Some p.
Proof.
  intros [[l ->] _ _] H. rewrite nth_error_app1; [exact H|]. apply nth_error_Some. congruence.
Qed.

Lemma keeps_inputs s s' i es p : keeps s s' -> nth_error (op_facts s) i = Some p -> inputs_are s i es -> inputs_are s' i es.
Proof.
  intros K H I x. rewrite (k_feeds _ _ K); [apply I|]. apply nth_error_Some. unfold nops. congruence.
Qed.

Lemma keeps_runs s s' i k es : keeps s s' -> runs s i k es -> runs s' i k es.
Proof.
  intros K [(name & c & n & H) I]. split; [|eauto using keeps_inputs]. exists name, c, n. eauto using keeps_fact.
Qed.

Lemma keeps_counted s s' i : keeps s s' -> counted s i -> counted s' i.
Proof.
  intros K (name & k & c & es & H & D & S & I). exists name, k, c, es.
  repeat split; eauto using keeps_fact; now apply (keeps_inputs s s' i es _ K H I).
Qed.

(** ** Parts of a graph that are ready to be connected *)

(** [s'] adds to [s] nodes of which exactly [es] are not connected yet; every
    other one feeds one later operator. *)
Record frontier (s s' : Topo) (es : list emitter) : Prop := {
  f_grows : grows s s';
  f_nodup : NoDup es;
  f_valid : forall x, In x es -> valid s' x /\ ~ valid s x;
  f_open : forall x, In x es -> outs s' x = [];
  f_single : forall x, valid s' x -> ~ valid s x -> In x es \/
    exists nm k, outs s' x = [(nm, TOp k)] /\ forall i, x = EOp i -> (i < k)%nat;
  f_counted : forall i, (nops s <= i < nops s')%nat -> counted s' i }.

Lemma frontier_open s s' es : frontier s s' es -> open_inputs s' es.
Proof. intros F. split; [apply F|]. intros e H. split; now apply F. Qed.

Lemma frontier_nil s : frontier s s [].
Proof. split; [apply grows_refl|constructor|easy|easy|tauto|lia]. Qed.

Lemma frontier_app s s1 s2 es es' : frontier s s1 es -> frontier s1 s2 es' -> frontier s s2 (es ++ es').
Proof.
  intros F1 F2. pose proof (f_grows _ _ _ F1) as G1. pose proof (f_grows _ _ _ F2) as G2.
  destruct (valid_app _ _ (g_ops _ _ G1) (g_srcs _ _ G1)) as [L1 V1]. destruct (valid_app _ _ (g_ops _ _ G2) (g_srcs _ _ G2)) as [L2 V2].
  split.
  - eauto using grows_trans.
  - apply NoDup_app; [apply F1|apply F2|]. intros x H H'. apply (f_valid _ _ _ F2) in H'. apply (f_valid _ _ _ F1) in H. tauto.
  - intros x H. apply in_app_or in H as [H|H].
    + apply (f_valid _ _ _ F1) in H as [? ?]. auto.
    + apply (f_valid _ _ _ F2) in H as [? ?]. auto.
  - intros x H. apply in_app_or in H as [H|H]; [|now apply F2].
    rewrite (g_outs _ _ G2) by now apply (f_valid _ _ _ F1). now apply F1.
  - intros x V N. destruct (valid_dec s1 x) as [V'|V'].
    + rewrite (g_outs _ _ G2) by exact V'. destruct (f_single _ _ _ F1 x V' N) as [?|?]; [left; apply in_or_app; tauto|tauto].
    + destruct (f_single _ _ _ F2 x V V') as [?|?]; [left; apply in_or_app; tauto|tauto].
  - intros i H. destruct (Nat.lt_ge_cases i (nops s1)).
    + apply (keeps_counted s1); [now apply grows_keeps|]. apply F1. lia.
    + apply F2. lia.
Qed.

Lemma frontier_source s src : sn_outputs src = [] -> frontier s (AddSrc src s) [ESrc (List.length (src_facts s))].
Proof.
  intros H. destruct (AddSrc_facts src s H) as (F1 & F2 & F3 & F4). set (s' := AddSrc src s) in *. clearbody s'.
  assert (I : forall x, ~ valid s x -> valid s' x -> x = ESrc (List.length (src_facts s))).
  { intros [i|i]; unfold valid; rewrite ?F1, ?F2, ?length_app; cbn [List.length]; intros; [f_equal; lia|contradiction]. }
  split.
  - split; auto; [exists []; now rewrite app_nil_r|eauto|]. intros x t N F. unfold feeds in F. rewrite F4, outs_invalid in F by exact N. easy.
  - repeat constructor. easy.
  - intros x [<-|[]]. unfold valid. rewrite F2, length_app. cbn [List.length]. lia.
  - intros x [<-|[]]. rewrite F4. apply outs_invalid. unfold valid. lia.
  - intros x V N. left. left. symmetry. now apply I.
  - unfold nops. rewrite F1. lia.
Qed.

(** An operator behind the whole frontier. *)
Lemma frontier_operator s s' es op : frontier s s' es -> closed s' -> separate es -> n_outputs op = [] -> n_inputCount op = 0 ->
  let s2 := AddOperator es op s' in
  frontier s s2 [EOp (nops s')] /\ keeps s' s2 /\ runs s2 (nops s') (n_kind op) es.
Proof.
  intros F C Sep Ho Hc. cbv zeta. destruct (AddOperator_facts es op s' (frontier_open _ _ _ F) Ho Hc) as (A1 & A2 & A3 & A4 & A5 & A6).
  fold (nops s') in *. set (s2 := AddOperator es op s') in *. clearbody s2. pose proof (f_grows _ _ _ F) as G.
  destruct (valid_app _ _ (g_ops _ _ G) (g_srcs _ _ G)) as [L V].
  assert (L2 : nops s2 = S (nops s')) by (unfold nops; rewrite A1, length_app; cbn; lia).
  assert (N : ~ In (EOp (nops s')) es) by (intros H; apply (f_valid _ _ _ F) in H as [H _]; cbn in H; unfold nops in H; lia).
  assert (K : keeps s' s2).
  { split; [eauto|exists []; now rewrite app_nil_r|]. intros x i Hi. destruct (in_dec emitter_dec x es) as [I|I].
    - unfold feeds. rewrite A4, (f_open _ _ _ F) by exact I. cbn. split; [intros [E|[]]; injection E; lia|easy].
    - apply feeds_outs. now apply A6. }
  assert (I : inputs_are s2 (nops s') es).
  { intros x. destruct (in_dec emitter_dec x es) as [I|I]; unfold feeds.
    - rewrite A4 by exact I. cbn. tauto.
    - rewrite A6 by exact I. split; [|tauto]. intros E. apply (C x) in E. lia. }
  assert (R : nth_error (op_facts s2) (nops s') = Some (n_name op, n_kind op, n_concurrency op, Z.of_nat (List.length es))).
  { unfold nops. now rewrite A1, nth_error_app2, Nat.sub_diag by lia. }
  split; [|split; [exact K|split; [eauto|exact I]]]. split.
  - destruct (g_ops _ _ G) as [l E]. split.
    + exists (l ++ [(n_name op, n_kind op, n_concurrency op, Z.of_nat (List.length es))]). now rewrite A1, E, app_assoc.
    + destruct (g_srcs _ _ G) as [l' E']. exists l'. congruence.
    + rewrite A3. apply G.
    + intros x H. rewrite A6; [now apply G|]. intros H'. apply (f_valid _ _ _ F) in H'. tauto.
    + intros x t H. unfold feeds. destruct (in_dec emitter_dec x es) as [H'|H'].
      * rewrite A4 by exact H'. cbn. intros [<-|[]]. exists (nops s'). split; [reflexivity|lia].
      * rewrite A6 by exact H'. intros H2. destruct (g_new _ _ G x t H H2) as (k & -> & Hk). exists k. split; [reflexivity|lia].
  - repeat constructor. easy.
  - intros x [<-|[]]. unfold valid. rewrite A1, length_app. cbn [List.length]. unfold nops in *. lia.
  - intros x [<-|[]]. exact A5.
  - intros x V' N'. destruct (in_dec emitter_dec x es) as [H|H].
    + right. exists (n_name op), (nops s'). rewrite A4 by exact H. split; [reflexivity|]. intros i ->.
      apply (f_valid _ _ _ F) in H as [H _]. exact H.
    + rewrite A6 by exact H. destruct (valid_dec s' x) as [W|W].
      * destruct (f_single _ _ _ F x W N') as [?|?]; [contradiction|tauto].
      * left. left. destruct x as [i|i]; unfold valid in *; rewrite ?A2 in *; [contradiction|]. f_equal.
        rewrite A1, length_app in V'. cbn [List.length] in V'. unfold nops. lia.
  - intros i Hi. destruct (Nat.lt_ge_cases i (nops s')) as [H|H].
    + apply (keeps_counted s'); [exact K|]. apply F. lia.
    + assert (i = nops s') as -> by lia. eexists _, _, _, es. split; [exact R|]. split; [apply F|auto].
Qed.

(** ** Names *)

Lemma digits_then a b s t : all_digits a = true -> all_digits b = true ->
  (a ++ String "_"%char s)%string = (b ++ String "_"%char t)%string -> a = b /\ s = t.
Proof.
  revert b. induction a as [|c a IH]; intros [|d b] Ha Hb E; cbn in *; injection E.
  - auto.
  - intros _ <-. now apply andb_prop in Hb as [Hb _].
  - intros _ ->. now apply andb_prop in Ha as [Ha _].
  - intros E' ->. apply andb_prop in Ha as [_ Ha], Hb as [_ Hb]. destruct (IH b Ha Hb E') as [-> ->]. auto.
Qed.

Lemma named_inj i j s t : natural i -> natural j -> named i s = named j t -> i = j /\ s = t.
Proof.
  intros Hi Hj E. destruct (itoa_spec i Hi) as (A & B & _). destruct (itoa_spec j Hj) as (C & D & _).
  destruct (digits_then _ _ _ _ A C E) as [H ->]. split; congruence.
Qed.

Lemma digits_end a b s t : all_digits s = true -> all_digits t = true ->
  (a ++ String "_"%char s)%string = (b ++ String "_"%char t)%string -> a = b /\ s = t.
Proof.
  assert (N : forall b' t', all_digits (b' ++ String "_"%char t') = false).
  { intros b' t'. rewrite all_digits_app. cbn. apply andb_false_r. }
  intros Hs Ht. revert b. induction a as [|c a IH]; intros [|d b] E; cbn in *; injection E.
  - auto.
  - intros -> _. now rewrite N in Hs.
  - intros <- _. now rewrite N in Ht.
  - intros E' ->. destruct (IH b E') as [-> ->]. auto.
Qed.

Definition op_names (s : Topo) : list string := map n_name (t_ops s).

Lemma op_names_facts s : op_names s = map (fun p => fst (fst (fst p))) (op_facts s).
Proof. unfold op_names, op_facts. now rewrite map_map. Qed.

(** The operators of [s'] are those of [s] and others with names of the indices
    after [i] up to [j]. *)
Definition adds_names (i j : Z) (s s' : Topo) : Prop := exists ps : list (Z * string),
  op_names s' = op_names s ++ map (fun p => named (fst p) (snd p)) ps /\ NoDup ps /\ forall p, In p ps -> i < fst p <= j.

Lemma adds_names_refl i s : adds_names i i s s.
Proof. exists []. rewrite app_nil_r. split; [reflexivity|split; [constructor|easy]]. Qed.

Lemma adds_names_trans i j k s1 s2 s3 : i <= j <= k -> adds_names i j s1 s2 -> adds_names j k s2 s3 -> adds_names i k s1 s3.
Proof.
  intros H (ps & E & D & B) (qs & E' & D' & B'). exists (ps ++ qs). rewrite E', E, map_app, app_assoc. split; [reflexivity|]. split.
  - apply NoDup_app; auto. intros p Hp Hq. apply B in Hp. apply B' in Hq. lia.
  - intros p Hp. apply in_app_or in Hp as [Hp|Hp]; [apply B in Hp|apply B' in Hp]; lia.
Qed.

Lemma adds_names_keys i j s s' k c n kind : op_facts s' = op_facts s ++ [(named (i + 1) kind, k, c, n)] -> j = i + 1 ->
  adds_names i j s s'.
Proof.
  intros E ->. exists [(i + 1, kind)]. rewrite !op_names_facts, E, map_app. split; [reflexivity|]. split; [repeat constructor; easy|].
  intros p [<-|[]]. cbn. lia.
Qed.

(** ** The graph of a plan *)

Definition source_op (d : DataSource) : operation :=
  match ss_StreamType (streamStmt d) with TypeStream => Preprocessor d | TypeTable => TableOp d end.

Definition source_at (s : Topo) (j : nat) (d : DataSource) : Prop :=
  nth_error (src_facts s) j = Some (src_static (NewSourceNode (ds_name d) (ss_StreamType (streamStmt d)) (ss_Options (streamStmt d)))).

Section Realizes.
Variable options : RuleOption.
Variable streamsFromStmt : list string.

#[local] Abbreviation window_kind := (window_kind options streamsFromStmt).
#[local] Abbreviation buildOps := (buildOps options streamsFromStmt).

(** What the node of a plan runs, and the children of the plan. *)
Definition node_of (p : LogicalPlan) : option (node_kind * list LogicalPlan) :=
  match p with
  | DataSourcePlan _ | WindowPlan _ (Some _) _ => None
  | WindowPlan w None l => match window_kind (window_config w) with inr k => Some (k, l) | inl _ => None end
  | JoinAlignPlan es l => Some (AlignNode (number_emitters 0 es []), l)
  | JoinPlan from joins l => Some (Unary (JoinOp from joins), l)
  | FilterPlan c l => Some (Unary (FilterOp c), l)
  | AggregatePlan ds l => Some (Unary (AggregateOp ds), l)
  | HavingPlan c l => Some (Unary (HavingOp c), l)
  | OrderPlan s l => Some (Unary (OrderOp s), l)
  | ProjectPlan fs a m l => Some (Unary (ProjectOp fs a m), l)
  end.

Definition children (p : LogicalPlan) : list LogicalPlan :=
  match p with
  | DataSourcePlan _ => []
  | FilterPlan _ l | WindowPlan _ _ l | JoinAlignPlan _ l | JoinPlan _ _ l | AggregatePlan _ l | HavingPlan _ l
  | OrderPlan _ l | ProjectPlan _ _ _ l => l
  end.

Lemma plan_ind (P : LogicalPlan -> Prop) : (forall p, Forall P (children p) -> P p) -> forall p, P p.
Proof. intros H. induction p using LogicalPlan_ind; apply H; cbn; auto. Qed.

Lemma node_of_children p k l : node_of p = Some (k, l) -> children p = l.
Proof.
  destruct p as [| |w [c|] l'| | | | | |]; cbn; try (intros [= _ <-]; reflexivity); try discriminate.
  destruct (window_kind _); [discriminate|now intros [= _ <-]].
Qed.

(** The emitter gives what the plan computes: its operator runs what the plan
    says and is fed by exactly the operators of the plan's children. *)
Inductive realizes (s : Topo) : LogicalPlan -> emitter -> Prop :=
  | realizes_source d i j : runs s i (Unary (source_op d)) [ESrc j] -> source_at s j d -> realizes s (DataSourcePlan d) (EOp i)
  | realizes_filtered w c l es i j k : Forall2 (realizes s) l es -> runs s j (Unary (FilterOp (Some c))) es ->
      window_kind (window_config w) = inr k -> runs s i k [EOp j] -> realizes s (WindowPlan w (Some c) l) (EOp i)
  | realizes_node p k l es i : node_of p = Some (k, l) -> Forall2 (realizes s) l es -> runs s i k es -> realizes s p (EOp i).

Lemma keeps_realizes s s' : keeps s s' -> forall p e, realizes s p e -> realizes s' p e.
Proof.
  intros K.
  assert (A : forall l, Forall (fun p => forall e, realizes s p e -> realizes s' p e) l ->
    forall es, Forall2 (realizes s) l es -> Forall2 (realizes s') l es).
  { induction 1 as [|p l Hp Hl IH]; intros es H; inversion H; subst; constructor; auto. }
  assert (B : forall j d, source_at s j d -> source_at s' j d).
  { intros j d. unfold source_at. destruct (k_srcs _ _ K) as [l' E]. rewrite E. intros H.
    rewrite nth_error_app1; [exact H|]. apply nth_error_Some. congruence. }
  induction p as [p IH] using plan_ind. intros e H. destruct H as [d i j R S|w c l es i j k F R W R'|p k l es i N F R].
  - eapply realizes_source; eauto using keeps_runs.
  - eapply realizes_filtered; eauto using keeps_runs.
  - eapply realizes_node; eauto using keeps_runs. apply A; [|exact F]. now rewrite <- (node_of_children _ _ _ N).
Qed.

(** ** [buildOps] builds the plan's graph *)

Fixpoint build_children (l : list LogicalPlan) (tp : Topo) (index : Z) : built :=
  match l with
  | [] => inr (tp, [], index)
  | c :: l' =>
      match buildOps c tp index with
      | inl e => inl e
      | inr (tp1, input, ni) =>
          match build_children l' tp1 ni with
          | inl e => inl e
          | inr (tp2, inputs, ni2) => inr (tp2, input ++ inputs, ni2)
          end
      end
  end.

Definition label (p : LogicalPlan) : string :=
  match p with
  | DataSourcePlan d => match ss_StreamType (streamStmt d) with
                        | TypeStream => "preprocessor_" ++ ds_name d
                        | TypeTable => "tableprocessor_" ++ ds_name d
                        end
  | FilterPlan _ _ => "filter"
  | WindowPlan _ _ _ => "window"
  | JoinAlignPlan _ _ => "join_aligner"
  | JoinPlan _ _ _ => "join"
  | AggregatePlan _ _ => "aggregate"
  | HavingPlan _ _ => "having"
  | OrderPlan _ _ => "order"
  | ProjectPlan _ _ _ _ => "project"
  end%string.

(** The operator that is added for a plan. *)
Definition node_op (k : node_kind) (name : string) : OpNode :=
  match k with
  | Unary op => SetConcurrency (Concurrency options) (Transform options op name)
  | _ => bare_node options name k
  end.

Lemma node_op_facts k name : n_name (node_op k name) = name /\ n_kind (node_op k name) = k
  /\ n_outputs (node_op k name) = [] /\ n_inputCount (node_op k name) = 0.
Proof. destruct k; repeat split. Qed.

Definition add_node (k : node_kind) (name : string) (tp : Topo) (es : list emitter) (ni : Z) : built :=
  inr (AddOperator es (node_op k name) tp, [EOp (List.length (t_ops tp))], ni).

Lemma add_node_inv k name tp es ni tp' es' j : add_node k name tp es ni = inr (tp', es', j) ->
  tp' = AddOperator es (node_op k name) tp /\ es' = [EOp (List.length (t_ops tp))] /\ j = ni.
Proof. unfold add_node. generalize (AddOperator es (node_op k name) tp). intros t H. injection H. auto. Qed.

Lemma window_kind_window w k : window_kind w = inr k -> exists w' g, k = WindowNode w' g.
Proof.
  unfold Topo.window_kind. destruct (IsEventTime options); [destruct (NewWatermarkGenerator _ _ _)|]; intros [= <-]; eauto.
Qed.

Lemma buildOps_node p k l tp i : node_of p = Some (k, l) ->
  buildOps p tp i = after (build_children l tp i) (fun tp es ni => add_node k (named ni (label p)) tp es ni).
Proof.
  destruct p as [|c l'|w [c|] l'|es l'|f j l'|ds l'|c l'|s l'|fs a m l']; cbn [node_of]; try discriminate; try (intros [= <- <-]; reflexivity).
  destruct (window_kind (window_config w)) as [e|k'] eqn:E; [discriminate|]. intros [= <- <-].
  change (buildOps (WindowPlan w None l') tp i) with (after (build_children l' tp i) (build_window options streamsFromStmt w None)).
  unfold after. destruct (build_children l' tp i) as [e|[[tp1 es] ni]]; [reflexivity|]. unfold build_window. rewrite E.
  destruct (window_kind_window _ _ E) as (w' & g & ->). reflexivity.
Qed.

Lemma buildOps_source d tp i : buildOps (DataSourcePlan d) tp i =
  add_node (Unary (source_op d)) (named (i + 1) (label (DataSourcePlan d)))
    (AddSrc (NewSourceNode (ds_name d) (ss_StreamType (streamStmt d)) (ss_Options (streamStmt d))) tp)
    [ESrc (List.length (src_facts tp))] (i + 1).
Proof. cbn. unfold build_source, source_op. rewrite length_src_facts. now destruct (ss_StreamType (streamStmt d)). Qed.

Lemma buildOps_filtered w c l tp i : buildOps (WindowPlan w (Some c) l) tp i =
  after (build_children l tp i) (fun tp es ni =>
    let tp' := AddOperator es (node_op (Unary (FilterOp (Some c))) (named ni "windowFilter")) tp in
    match window_kind (window_config w) with
    | inl e => inl e
    | inr k => add_node k (named ni "window") tp' [EOp (List.length (t_ops tp))] ni
    end).
Proof.
  change (buildOps (WindowPlan w (Some c) l) tp i) with (after (build_children l tp i) (build_window options streamsFromStmt w (Some c))).
  unfold after. destruct (build_children l tp i) as [e|[[tp1 es] ni]]; [reflexivity|]. unfold build_window.
  destruct (window_kind (window_config w)) as [e|k] eqn:E; [reflexivity|].
  destruct (window_kind_window _ _ E) as (w' & g & ->). reflexivity.
Qed.

Fixpoint plan_size (p : LogicalPlan) : Z :=
  let fix go (l : list LogicalPlan) : Z := match l with [] => 0 | c :: l' => plan_size c + go l' end in
  match p with
  | DataSourcePlan _ => 1
  | FilterPlan _ l | WindowPlan _ _ l | JoinAlignPlan _ l | JoinPlan _ _ l | AggregatePlan _ l | HavingPlan _ l
  | OrderPlan _ l | ProjectPlan _ _ _ l => go l + 1
  end.

Fixpoint plans_size (l : list LogicalPlan) : Z := match l with [] => 0 | c :: l' => plan_size c + plans_size l' end.

Lemma plan_size_children p : plan_size p = plans_size (children p) + 1.
Proof. now destruct p. Qed.

Lemma plans_size_nonneg p : 0 <= plan_size p.
Proof.
  induction p as [p IH] using plan_ind. rewrite plan_size_children. enough (0 <= plans_size (children p)) by lia.
  induction IH; cbn [plans_size]; lia.
Qed.

Lemma plans_sizes_nonneg l : 0 <= plans_size l.
Proof. induction l as [|q l IH]; cbn [plans_size]; [lia|pose proof (plans_size_nonneg q); lia]. Qed.

Definition is_op (e : emitter) : Prop := exists i, e = EOp i.

(** What building one plan gives. *)
Definition builds (p : LogicalPlan) : Prop := forall tp i tp' es j, closed tp -> buildOps p tp i = inr (tp', es, j) ->
  exists e, es = [e] /\ is_op e /\ frontier tp tp' [e] /\ realizes tp' p e /\ adds_names i j tp tp' /\ j = i + plan_size p.

Lemma frontier_closed s s' es : frontier s s' es -> closed s -> closed s'.
Proof. intros F. apply grows_closed, F. Qed.

Lemma Forall2_keeps s s' l es : keeps s s' -> Forall2 (realizes s) l es -> Forall2 (realizes s') l es.
Proof. intros K. induction 1; constructor; eauto using keeps_realizes. Qed.

Lemma build_children_spec l : Forall builds l -> forall tp i tp' es j, closed tp -> build_children l tp i = inr (tp', es, j) ->
  (forall x, In x es -> is_op x) /\ frontier tp tp' es /\ Forall2 (realizes tp') l es /\ adds_names i j tp tp' /\ j = i + plans_size l.
Proof.
  induction 1 as [|p l Hp Hl IH]; intros tp i tp' es j C; cbn [build_children plans_size].
  - intros [= <- <- <-]. split; [easy|]. split; [apply frontier_nil|]. split; [constructor|]. split; [apply adds_names_refl|lia].
  - destruct (buildOps p tp i) as [e|[[tp1 es1] i1]] eqn:E1; [discriminate|].
    destruct (Hp tp i tp1 es1 i1 C E1) as (e & -> & O & F1 & R1 & N1 & J1). pose proof (frontier_closed _ _ _ F1 C) as C1.
    destruct (build_children l tp1 i1) as [e'|[[tp2 es2] i2]] eqn:E2; [discriminate|]. intros [= <- <- <-].
    destruct (IH tp1 i1 tp2 es2 i2 C1 E2) as (O2 & F2 & R2 & N2 & J2). split; [intros x [<-|H]; auto|].
    pose proof (grows_keeps _ _ (f_grows _ _ _ F2)) as K. pose proof (plans_size_nonneg p).
    pose proof (plans_sizes_nonneg l).
    split; [exact (frontier_app _ _ _ [e] es2 F1 F2)|]. split; [constructor; eauto using keeps_realizes|]. split; [|lia].
    eapply adds_names_trans; [|exact N1|exact N2]. lia.
Qed.

(** One more operator behind a frontier. *)
Lemma add_node_spec k kind tp tp1 es i : closed tp -> frontier tp tp1 es -> separate es ->
  let tp2 := AddOperator es (node_op k (named (i + 1) kind)) tp1 in
  let e := EOp (List.length (t_ops tp1)) in
  frontier tp tp2 [e] /\ keeps tp1 tp2 /\ runs tp2 (List.length (t_ops tp1)) k es /\ adds_names i (i + 1) tp1 tp2.
Proof.
  intros C F Sep. cbv zeta. rewrite <- length_facts. destruct (node_op_facts k (named (i + 1) kind)) as (N1 & N2 & N3 & N4).
  destruct (frontier_operator tp tp1 es _ F (frontier_closed _ _ _ F C) Sep N3 N4) as (F' & K & R).
  rewrite N2 in R. split; [exact F'|]. split; [exact K|]. split; [exact R|].
  destruct (AddOperator_facts es _ tp1 (frontier_open _ _ _ F) N3 N4) as (A & _). rewrite N1 in A.
  eapply adds_names_keys; [exact A|reflexivity].
Qed.

Lemma separate_ops es : (forall x, In x es -> is_op x) -> separate es.
Proof. intros H. right. intros x Hx. apply (H x Hx). Qed.

Lemma builds_source d : builds (DataSourcePlan d).
Proof.
  intros tp i tp' es j C. rewrite buildOps_source. set (src := NewSourceNode _ _ _). intros (-> & -> & ->)%add_node_inv.
  destruct (AddSrc_facts src tp eq_refl) as (A1 & A2 & _).
  destruct (add_node_spec (Unary (source_op d)) (label (DataSourcePlan d)) tp (AddSrc src tp) [ESrc (List.length (src_facts tp))] i C)
    as (F & K & R & N); [now apply frontier_source|left; eauto|].
  eexists. split; [reflexivity|]. split; [eexists; reflexivity|]. split; [exact F|]. split; [|split; [|cbn; lia]].
  - eapply realizes_source; [exact R|]. unfold source_at. destruct (k_srcs _ _ K) as [l ->]. rewrite A2.
    rewrite nth_error_app1 by (rewrite length_app; cbn; lia). now rewrite nth_error_app2, Nat.sub_diag by lia.
  - destruct N as (ps & N & D & B). exists ps. split; [|auto]. rewrite N. f_equal.
Qed.

Lemma builds_node p k l : node_of p = Some (k, l) -> Forall builds l -> builds p.
Proof.
  intros E IH tp i tp' es j C. rewrite (buildOps_node p k l tp i E). unfold after.
  destruct (build_children l tp i) as [e|[[tp1 es1] i1]] eqn:E1; [discriminate|]. intros (-> & -> & ->)%add_node_inv.
  destruct (build_children_spec l IH tp i tp1 es1 i1 C E1) as (O & F & R & N & J).
  destruct (add_node_spec k (label p) tp tp1 es1 i1 C F (separate_ops _ O)) as (F' & K & R' & N').
  eexists. split; [reflexivity|]. split; [eexists; reflexivity|]. split; [exact F'|].
  rewrite plan_size_children, (node_of_children _ _ _ E) in *. split; [|split; [|lia]].
  - eapply realizes_node; [exact E|eapply Forall2_keeps; eauto|exact R'].
  - pose proof (plans_sizes_nonneg l). eapply adds_names_trans; [|exact N|exact N']. lia.
Qed.

Lemma builds_filtered w c l : Forall builds l -> builds (WindowPlan w (Some c) l).
Proof.
  intros IH tp i tp' es j C. rewrite buildOps_filtered. unfold after.
  destruct (build_children l tp i) as [e|[[tp1 es1] i1]] eqn:E1; [discriminate|]. cbv zeta.
  destruct (window_kind (window_config w)) as [e|k] eqn:W; [discriminate|]. intros (-> & -> & ->)%add_node_inv.
  destruct (build_children_spec l IH tp i tp1 es1 i1 C E1) as (O & F & R & N & J).
  destruct (add_node_spec (Unary (FilterOp (Some c))) "windowFilter" tp tp1 es1 i1 C F (separate_ops _ O)) as (F1 & K1 & R1 & N1).
  set (tp2 := AddOperator es1 (node_op (Unary (FilterOp (Some c))) _) tp1) in *.
  destruct (add_node_spec k "window" tp tp2 [EOp (List.length (t_ops tp1))] i1 C F1) as (F2 & K2 & R2 & N2).
  { right. intros x [<-|[]]. eauto. }
  eexists. split; [reflexivity|]. split; [eexists; reflexivity|]. split; [exact F2|].
  rewrite plan_size_children. cbn [children]. pose proof (plans_sizes_nonneg l). split; [|split; [|lia]].
  - eapply realizes_filtered; [|eapply keeps_runs; [exact K2|exact R1]|exact W|exact R2].
    eapply Forall2_keeps; [exact K2|]. eapply Forall2_keeps; eauto.
  - eapply adds_names_trans; [|exact N|]; [lia|]. exists [(i1 + 1, "windowFilter"); (i1 + 1, "window")].
    rewrite (op_names_facts (AddOperator _ _ _)), op_names_facts.
    destruct (node_op_facts (Unary (FilterOp (Some c))) (named (i1 + 1) "windowFilter")) as (A1 & _ & A3 & A4).
    destruct (node_op_facts k (named (i1 + 1) "window")) as (B1 & _ & B3 & B4).
    destruct (AddOperator_facts [EOp (List.length (t_ops tp1))] _ tp2 (frontier_open _ _ _ F1) B3 B4) as (B & _).
    destruct (AddOperator_facts es1 _ tp1 (frontier_open _ _ _ F) A3 A4) as (A & _).
    rewrite B. unfold tp2. rewrite A, !map_app, <- app_assoc. cbn [map fst snd app]. rewrite A1, B1. split; [reflexivity|]. split.
    + repeat constructor; cbn; intuition discriminate.
    + intros p [<-|[<-|[]]]; cbn; lia.
Qed.

Lemma buildOps_builds p : builds p.
Proof.
  induction p as [p IH] using plan_ind. destruct (node_of p) as [[k l]|] eqn:E.
  - apply (builds_node p k l E). now rewrite <- (node_of_children _ _ _ E).
  - destruct p as [d| |w [c|] l| | | | | |]; try discriminate.
    + apply builds_source.
    + now apply builds_filtered.
    + intros tp i tp' es j C H. cbn [node_of] in E. destruct (window_kind (window_config w)) eqn:W; [|discriminate].
      change (buildOps (WindowPlan w None l) tp i) with (after (build_children l tp i) (build_window options streamsFromStmt w None)) in H.
      unfold after in H. destruct (build_children l tp i) as [e|[[tp1 es1] i1]]; [discriminate|]. unfold build_window in H. now rewrite W in H.
Qed.

(** [buildOps] fails for count windows with event time only. *)
Fixpoint has_count_window (p : LogicalPlan) : bool :=
  match p with
  | DataSourcePlan _ => false
  | WindowPlan w _ l => wt_eqb (wtype w) COUNT_WINDOW || existsb has_count_window l
  | FilterPlan _ l | JoinAlignPlan _ l | JoinPlan _ _ l | AggregatePlan _ l | HavingPlan _ l
  | OrderPlan _ l | ProjectPlan _ _ _ l => existsb has_count_window l
  end.

Definition failed {A} (r : value + A) : bool := match r with inl _ => true | inr _ => false end.

Lemma window_kind_failed w : failed (window_kind (window_config w)) = IsEventTime options && wt_eqb (wtype w) COUNT_WINDOW.
Proof.
  unfold Topo.window_kind, window_config, NewWindowOp, NewWatermarkGenerator. cbn [Type_ window Interval].
  destruct (IsEventTime options); [|reflexivity].
  destruct (wtype w); cbn; rewrite ?andb_false_r, ?andb_true_r; try reflexivity. now destruct (winterval w =? 0).
Qed.

Lemma build_children_failed l : Forall (fun p => forall tp i, failed (buildOps p tp i) = IsEventTime options && has_count_window p) l ->
  forall tp i, failed (build_children l tp i) = IsEventTime options && existsb has_count_window l.
Proof.
  induction 1 as [|p l Hp Hl IH]; intros tp i; cbn [build_children existsb failed]; [now rewrite andb_false_r|].
  rewrite andb_orb_distrib_r, <- (Hp tp i). destruct (buildOps p tp i) as [e|[[tp1 es1] i1]]; [reflexivity|].
  rewrite <- (IH tp1 i1). now destruct (build_children l tp1 i1) as [e|[[tp2 es2] i2]].
Qed.

Lemma window_failed w c l tp i :
  failed (buildOps (WindowPlan w c l) tp i) = failed (build_children l tp i) || failed (window_kind (window_config w)).
Proof.
  change (buildOps (WindowPlan w c l) tp i) with (after (build_children l tp i) (build_window options streamsFromStmt w c)).
  unfold after. destruct (build_children l tp i) as [e|[[tp1 es1] i1]]; [reflexivity|]. unfold build_window.
  destruct c; now destruct (window_kind (window_config w)).
Qed.

Lemma plain_failed p tp i : match p with DataSourcePlan _ | WindowPlan _ _ _ => False | _ => True end ->
  failed (buildOps p tp i) = failed (build_children (children p) tp i).
Proof.
  destruct p; try contradiction; intros _; cbn [children];
    match goal with |- failed (Topo.buildOps _ _ ?p _ _) = failed (build_children ?l _ _) =>
      rewrite (buildOps_node p _ l tp i eq_refl); now destruct (build_children l tp i) as [e|[[tp1 es1] i1]] end.
Qed.

(** C16: no plan is refused without need: turning a plan into nodes fails
    exactly if the rule runs in event time and the plan has a count window,
    for which there are no watermarks. *)
Theorem buildOps_failed p : forall tp i, failed (buildOps p tp i) = IsEventTime options && has_count_window p.
Proof.
  induction p as [p IH] using plan_ind. intros tp i. pose proof (build_children_failed (children p) IH tp i) as C.
  destruct p as [d| |w c l| | | | | |]; try (rewrite plain_failed, C by exact I; reflexivity).
  - rewrite buildOps_source. cbn. now rewrite andb_false_r.
  - cbn [children] in C. rewrite window_failed, C, window_kind_failed. cbn [has_count_window].
    rewrite andb_orb_distrib_r. apply orb_comm.
Qed.
End Realizes.

(** ** Sinks *)

Definition sink_facts (s : Topo) : list (string * string * list (string * value) * Z) :=
  map (fun k => (sk_name k, sk_type k, sk_options k, sk_inputCount k)) (t_sinks s).

Section Sinks.
Context {L : FloatLib} {MO : MapOrder}.

(** The sinks that the actions ask for, in the order they are added. *)
Definition action_sink (i : Z) (kv : string * value) : string * string * list (string * value) * Z :=
  ((fst kv ++ "_" ++ itoa i)%string, fst kv, match action_props (snd kv) with Some p => p | None => [] end, 1).

Fixpoint expected_sinks (i : Z) (actions : list (list (string * value))) : list (string * string * list (string * value) * Z) :=
  match actions with [] => [] | m :: ms => map (action_sink i) (map_range _ m) ++ expected_sinks (i + 1) ms end.

Definition sink_names (l : list (string * string * list (string * value) * Z)) : list string := map (fun k => fst (fst (fst k))) l.

(** [s'] is [s] with the sinks [l] behind the operator [root]. *)
Record with_sinks (root : nat) (s s' : Topo) (l : list (string * string * list (string * value) * Z)) : Prop := {
  ws_ops : op_facts s' = op_facts s;
  ws_srcs : src_facts s' = src_facts s;
  ws_conf : conf s' = conf s;
  ws_sinks : sink_facts s' = l;
  ws_names : map fst (outs s' (EOp root)) = sink_names l;
  ws_targets : map snd (outs s' (EOp root)) = map TSink (seq 0 (List.length l));
  ws_outs : forall x, x <> EOp root -> outs s' x = outs s x }.

Lemma AddSink_with_sinks root s s' l name type props : with_sinks root s s' l -> (root < nops s)%nat -> ~ In name (sink_names l) ->
  with_sinks root s (AddSink [EOp root] (NewSinkNode name type props) s') (l ++ [(name, type, props, 1)]).
Proof.
  intros [W1 W2 WC W3 W4 W5 W6] H N. unfold AddSink. cbn [fold_left sk_name NewSinkNode List.length].
  set (out := TSink _). destruct (connect_facts "sink" name out s' (EOp root)) as (F1 & F2 & F3).
  assert (V : valid s' (EOp root)) by (unfold valid; rewrite W1; exact H).
  assert (Hl : List.length (t_sinks s') = List.length l) by (rewrite <- W3; unfold sink_facts; now rewrite length_map).
  assert (A : assoc name (outs s' (EOp root)) = None).
  { apply assoc_None_keys. unfold keys. now rewrite W4. }
  set (s1 := connect _ _ _ _ _) in *.
  assert (O : forall k x, outs (set_sinks k s1) x = outs s1 x) by (intros k [j|j]; reflexivity).
  assert (E : outs s1 (EOp root) = outs s' (EOp root) ++ [(name, out)]).
  { unfold s1. rewrite outs_connect by exact V. destruct (emitter_dec (EOp root) (EOp root)); [|congruence]. unfold AddOutput. now rewrite A. }
  split.
  - change (op_facts s1 = op_facts s). congruence.
  - change (src_facts s1 = src_facts s). congruence.
  - change (conf s1 = conf s). apply (f_equal fst) in F3. unfold rest in F3. cbn [fst] in F3. congruence.
  - unfold sink_facts in *. cbn [t_sinks set_sinks]. apply (f_equal snd) in F3. unfold rest in F3. cbn [snd] in F3. rewrite F3, map_app, W3. reflexivity.
  - rewrite O, E, map_app, W4. unfold sink_names. now rewrite map_app.
  - rewrite O, E, map_app, W5, length_app, seq_app, map_app. unfold out. now rewrite Hl.
  - intros x Hx. rewrite O. unfold s1. rewrite outs_connect by exact V.
    destruct (emitter_dec (EOp root) x); [congruence|]. now apply W6.
Qed.

Lemma sink_names_app l l' : sink_names (l ++ l') = sink_names l ++ sink_names l'.
Proof. apply map_app. Qed.

Lemma add_action_sinks root i s m : forall s' l t, with_sinks root s s' l -> (root < nops s)%nat ->
  NoDup (sink_names (l ++ map (action_sink i) m)) -> add_action [EOp root] i m s' = inr t ->
  with_sinks root s t (l ++ map (action_sink i) m).
Proof.
  induction m as [|[k v] m IH]; intros s' l t W H N; cbn [add_action].
  - intros [= <-]. cbn [map]. now rewrite app_nil_r.
  - change (map (action_sink i) ((k, v) :: m)) with ([action_sink i (k, v)] ++ map (action_sink i) m) in *.
    rewrite app_assoc in N |- *. cbn [add_action]. intros E.
    destruct (action_props v) as [p|] eqn:P; [|discriminate].
    assert (Hp : action_sink i (k, v) = ((k ++ "_" ++ itoa i)%string, k, p, 1)) by (unfold action_sink; cbn [fst snd]; now rewrite P).
    rewrite Hp in *. eapply IH; [|exact H|exact N|exact E]. apply AddSink_with_sinks; auto.
    rewrite !sink_names_app in N. apply NoDup_app_remove_r in N. cbn in N. apply NoDup_remove_2 in N. now rewrite app_nil_r in N.
Qed.

Lemma add_actions_sinks root s actions : forall i s' l t, with_sinks root s s' l -> (root < nops s)%nat ->
  NoDup (sink_names (l ++ expected_sinks i actions)) -> add_actions [EOp root] i actions s' = inr t ->
  with_sinks root s t (l ++ expected_sinks i actions).
Proof.
  induction actions as [|m ms IH]; intros i s' l t W H N; cbn [add_actions expected_sinks] in *.
  - intros [= <-]. now rewrite app_nil_r.
  - destruct (add_action _ _ _ _) as [e|s1] eqn:E; [discriminate|]. rewrite app_assoc in *. apply IH; auto.
    eapply add_action_sinks; eauto. rewrite sink_names_app in N. now apply NoDup_app_remove_r in N.
Qed.

Lemma expected_sinks_count actions : forall i nm ty props n, In (nm, ty, props, n) (expected_sinks i actions) -> n = 1.
Proof.
  induction actions as [|m ms IH]; cbn; [easy|]. intros i nm ty props n H. apply in_app_or in H as [H|H]; [|eauto].
  apply in_map_iff in H as (kv & E & _). now injection E.
Qed.

(** The names of the sinks are distinct. *)
Lemma action_name_inj i j k k' : natural i -> natural j -> (k ++ "_" ++ itoa i)%string = (k' ++ "_" ++ itoa j)%string -> k = k' /\ i = j.
Proof.
  intros Hi Hj E. destruct (itoa_spec i Hi) as (A & B & _). destruct (itoa_spec j Hj) as (C & D & _).
  destruct (digits_end _ _ _ _ A C E) as [-> H]. split; congruence.
Qed.

Lemma expected_names actions : forall i, Forall (fun m => NoDup (map fst m)) actions -> 0 <= i ->
  i + Z.of_nat (List.length actions) <= MaxInt64 -> NoDup (sink_names (expected_sinks i actions))
  /\ forall nm, In nm (sink_names (expected_sinks i actions)) -> exists k j, nm = (k ++ "_" ++ itoa j)%string /\ i <= j < MaxInt64.
Proof.
  induction actions as [|m ms IH]; intros i F Hi Hl; cbn [expected_sinks sink_names map] in *; [split; [constructor|easy]|].
  cbn [List.length] in Hl. inversion F as [|m' ms' Hm Hms]; subst. destruct (IH (i + 1) Hms) as [D B]; [lia|lia|].
  rewrite sink_names_app. unfold sink_names at 1 3. rewrite map_map. cbn [action_sink fst].
  assert (P : Permutation (map fst m) (map fst (map_range _ m))) by apply Permutation_map, map_range_perm.
  assert (A : forall nm, In nm (map (fun x => (fst x ++ "_" ++ itoa i)%string) (map_range value m)) -> exists k, nm = (k ++ "_" ++ itoa i)%string).
  { intros nm H. apply in_map_iff in H as (x & <- & _). eauto. }
  split.
  - apply NoDup_app; [|exact D|].
    + assert (D' : NoDup (map fst (map_range value m))) by now apply (Permutation_NoDup P).
      rewrite <- (map_map fst (fun k => (k ++ "_" ++ itoa i)%string)). apply Finite.Injective_map_NoDup; [|exact D'].
      intros a b E. apply (action_name_inj i i) in E; unfold natural; [tauto|lia|lia].
    + intros nm H H'. apply A in H as [k ->]. apply B in H' as (k' & j & E & Hj).
      apply action_name_inj in E; unfold natural; lia.
  - intros nm H. apply in_app_or in H as [H|H].
    + apply A in H as [k ->]. exists k, i. split; [reflexivity|lia].
    + apply B in H as (k & j & -> & Hj). exists k, j. split; [reflexivity|lia].
Qed.
End Sinks.

(** ** The topology of a rule *)

Section Rule.
Context {L : FloatLib} {MO : MapOrder}.
Variable options : RuleOption.
Variable streamsFromStmt : list string.
Variable id : string.
Variable actions : list (list (string * value)).

(** An action is a Go map. *)
Hypothesis actions_are_maps : Forall (fun m => NoDup (map fst m)) actions.
Hypothesis actions_fit : Z.of_nat (List.length actions) <= MaxInt64.

#[local] Abbreviation start := (NewWithNameAndQos id (Qos options) (CheckpointInterval options)).

Lemma outs_start x : outs start x = [].
Proof. destruct x as [[|j]|[|j]]; reflexivity. Qed.

Lemma with_sinks_keeps root s t l : with_sinks root s t l -> outs s (EOp root) = [] -> keeps s t.
Proof.
  intros [W1 W2 WC W3 W4 W5 W6] O. split; [exists []; now rewrite app_nil_r|exists []; now rewrite app_nil_r|].
  intros x i _. destruct (emitter_dec x (EOp root)) as [->|N]; [|apply feeds_outs; auto].
  unfold feeds. rewrite W5, O. cbn. split; [|easy]. intros H. apply in_map_iff in H as (j & E & _). discriminate.
Qed.

Lemma createTopo_graph lp t : createTopo options streamsFromStmt id actions lp = inr t ->
  exists root s, frontier start s [EOp root] /\ realizes options streamsFromStmt s lp (EOp root)
    /\ adds_names 0 (plan_size lp) start s /\ with_sinks root s t (expected_sinks 0 actions) /\ keeps s t.
Proof.
  unfold createTopo. cbv zeta. destruct (buildOps options streamsFromStmt lp start 0) as [e|[[s es] n]] eqn:E; [discriminate|].
  destruct (buildOps_builds options streamsFromStmt lp start 0 s es n) as (e & -> & [root ->] & F & R & N & J); [|exact E|].
  { intros x k H. unfold feeds in H. rewrite outs_start in H. easy. }
  intros A. exists root, s. subst n. split; [exact F|]. split; [exact R|]. split; [exact N|].
  assert (O : outs s (EOp root) = []) by (apply F; now left).
  assert (W : with_sinks root s t (expected_sinks 0 actions)).
  { apply (add_actions_sinks root s actions 0 s [] t); [|exact (proj1 (f_valid _ _ _ F _ (or_introl eq_refl)))|now apply expected_names|exact A].
    split; auto; try (rewrite O; reflexivity). pose proof (g_sinks _ _ (f_grows _ _ _ F)) as G. apply (f_equal snd) in G. unfold sink_facts. cbn in G. now rewrite G. }
  split; [exact W|eapply with_sinks_keeps; eauto].
Qed.

(** C14: a rule's graph realizes its plan: the operator of every plan node runs
    what the plan says and is fed by exactly the operators of the plan's
    children, a data source by its own source node; the graph has nothing else,
    for every other emitter feeds exactly one operator, which comes later; and
    every action has its sink, fed by the operator of the whole plan only. *)
Theorem topo_realizes_plan lp t : createTopo options streamsFromStmt id actions lp = inr t ->
  exists root, realizes options streamsFromStmt t lp (EOp root)
    /\ (forall x, valid t x -> x <> EOp root -> exists nm k, outs t x = [(nm, TOp k)] /\ forall i, x = EOp i -> (i < k)%nat)
    /\ sink_facts t = expected_sinks 0 actions
    /\ forall x j, feeds t x (TSink j) <-> x = EOp root /\ (j < List.length (t_sinks t))%nat.
Proof.
  intros H. destruct (createTopo_graph lp t H) as (root & s & F & R & _ & W & K). exists root.
  assert (S : forall x, valid t x -> x <> EOp root -> exists nm k, outs t x = [(nm, TOp k)] /\ forall i, x = EOp i -> (i < k)%nat).
  { intros x V N. rewrite (ws_outs _ _ _ _ W) by exact N. apply (valid_facts s t (ws_ops _ _ _ _ W) (ws_srcs _ _ _ _ W)) in V.
    destruct (f_single _ _ _ F x V) as [[E|[]]|E]; [destruct x as [i|i]; unfold valid; cbn; lia|congruence|exact E]. }
  split; [eapply keeps_realizes; eauto|]. split; [exact S|]. split; [apply W|]. intros x j.
  assert (Hl : List.length (t_sinks t) = List.length (expected_sinks 0 actions)).
  { rewrite <- (ws_sinks _ _ _ _ W). unfold sink_facts. now rewrite length_map. }
  destruct (emitter_dec x (EOp root)) as [->|N]; unfold feeds.
  - rewrite (ws_targets _ _ _ _ W), Hl. rewrite in_map_iff. split.
    + intros (k & [= ->] & I). apply in_seq in I. split; [reflexivity|lia].
    + intros [_ I]. exists j. split; [reflexivity|]. apply in_seq. lia.
  - split; [|tauto]. intros I. destruct (valid_dec t x) as [V|V].
    + destruct (S x V N) as (nm & k & E & _). rewrite E in I. now destruct I.
    + now rewrite outs_invalid in I.
Qed.

(** *** Checkpoints of the graph *)

Definition waits_for (h : option BarrierHandler) (n : nat) : Prop :=
  h = Some (if Qos options =? 1 then Tracker (Z.of_nat n) else Aligner (Z.of_nat n)).

Lemma names_of_start s n : 0 <= n <= MaxInt64 -> adds_names 0 n start s -> NoDup (op_names s).
Proof.
  intros Hn (ps & E & D & B). rewrite E. cbn [op_names t_ops NewWithNameAndQos map app]. clear E.
  assert (C : forall p q, In p ps -> In q ps -> named (fst p) (snd p) = named (fst q) (snd q) -> p = q).
  { intros [a x] [b y] Hp Hq E. apply B in Hp, Hq. cbn in *. apply named_inj in E as [-> ->]; unfold natural; auto; lia. }
  clear B. induction ps as [|p ps IH]; cbn; constructor; inversion D; subst.
  - intros I. apply in_map_iff in I as (q & E & Hq). rewrite (C q p) in Hq; [contradiction|now right|now left|exact E].
  - apply IH; auto. intros q r Hq Hr. apply C; now right.
Qed.

Lemma nth_names s i : nth_error (op_names s) i = option_map (fun p => fst (fst (fst p))) (nth_error (op_facts s) i).
Proof. rewrite op_names_facts. apply nth_error_map. Qed.

(** The names of the inputs of an operator differ. *)
Lemma input_names s es i : NoDup (op_names s) -> NoDup es -> separate es -> inputs_are s i es -> NoDup (map (emitter_name s) es).
Proof.
  intros N D [[j ->]|O] I; [repeat constructor; easy|].
  assert (V : forall x, In x es -> exists j, x = EOp j /\ (j < List.length (op_names s))%nat).
  { intros x H. destruct (O x H) as [j ->]. exists j. split; [reflexivity|]. apply I in H.
    destruct (valid_dec s (EOp j)) as [V|V]; [unfold op_names; rewrite length_map, <- length_facts; exact V|].
    unfold feeds in H. now rewrite outs_invalid in H. }
  clear O I. induction es as [|e es IH]; cbn; constructor; inversion D; subst; [|apply IH; auto; intros x H; apply V; now right].
  intros H. apply in_map_iff in H as (x & E & Hx). destruct (V x (or_intror Hx)) as (k & -> & Hk).
  destruct (V e (or_introl eq_refl)) as (j & -> & Hj). cbn in E. rewrite <- !nth_error_map in E. fold (op_names s) in E.
  rewrite NoDup_nth_error in N. apply N in E; [congruence|exact Hk].
Qed.

End Rule.

(** ** Examples *)

Module Sample.
#[export] Instance floats_none : FloatLib :=
  {| parse_float _ _ := None; format_float _ _ := "?"; float_other signed w _ := int_min signed w |}.
#[export] Instance in_order : MapOrder := {| map_range _ m := m; map_range_perm _ m := Permutation_refl m |}.

Definition store (name : string) : option StreamStmt :=
  if String.eqb name "a" then Some (stream_of "a" TypeStream) else if String.eqb name "b" then Some (stream_of "b" TypeTable) else None.

Definition options (qos : Z) : RuleOption := mkRuleOption false 1000 1 1024 false true qos 300000.

Definition rule (sql : string) (qos : Z) : Rule := mkRule false "rule1" sql [[("log", VMap [])]] (Some (options qos)).

Definition planned (sql : string) (qos : Z) : option (plan_failure + Topo) := Plan built_ins no_runtime store (rule sql qos).

Definition join_sql : string :=
  "SELECT a.id FROM a INNER JOIN b ON a.id = b.id WHERE a.id > 1 GROUP BY TUMBLINGWINDOW(ss, 10)".
Definition self_join : string := "SELECT a.id FROM a INNER JOIN a ON a.id = a.id GROUP BY TUMBLINGWINDOW(ss, 10)".

(** The plan of [join_sql] and its graph. *)
Definition join_plan : LogicalPlan :=
  match GetStatementFromSql built_ins no_runtime join_sql with
  | Some (inr stmt) => match plan built_ins store stmt (options 2) with inr lp => lp | inl _ => ProjectPlan [] false false [] end
  | _ => ProjectPlan [] false false []
  end.

Definition join_topo : value + Topo := createTopo (options 2) ["a"; "b"] "rule1" [[("log", VMap [])]] join_plan.

Lemma log_action : Forall (fun m : list (string * value) => NoDup (map fst m)) [[("log", VMap [])]].
Proof. repeat constructor. easy. Qed.
End Sample.

Import Sample.

Lemma topo_realizes_plan_witness : exists t, join_topo = inr t /\ exists root,
  realizes (options 2) ["a"; "b"] t join_plan (EOp root) /\ sink_facts t = [("log_0", "log", [], 1)].
Proof.
  unfold join_topo. destruct (createTopo _ _ _ _ _) as [e|t] eqn:E; [vm_compute in E; discriminate|]. exists t. split; [reflexivity|].
  destruct (topo_realizes_plan (options 2) ["a"; "b"] "rule1" [[("log", VMap [])]] log_action ltac:(vm_compute; discriminate) join_plan t E)
    as (root & R & _ & S & _).
  exists root. split; [exact R|exact S].
Defined.


(** The two sources of a self join have one name, so the coordinator takes the
    acknowledgement of one of them for both. *)
Lemma self_join_acks_once : exists t t' ts, planned self_join 2 = Some (inr t) /\ enableCheckpoint t = (t', Some ts) /\
  tasksToTrigger ts = ["a"; "a"] /\
  isFullyAck (fold_right ack (newPendingCheckpoint (tasksToWait ts)) ("a" :: op_names t' ++ ["log_0"])) = true.
Proof.
  destruct (planned self_join 2) as [[e|t]|] eqn:E; vm_compute in E; [discriminate| |discriminate]. injection E as <-.
  eexists _, _, _. split; [reflexivity|]. split; [reflexivity|]. split; [reflexivity|]. vm_compute. reflexivity.
Qed.
