(* ===== verification/Rules.v ===== *)
(** The processor of rules (src/internal/processor/rule.go).

    A rule is stored under its id as the JSON text it was created from, or as
    the JSON of the rule once its state has changed.  Reading a rule decodes the
    text over the default options and validates it.  The processor is the store
    of the rules; JSON is a parameter with the round trip it promises. *)

From S2P Require Import Prelude Token Ast FuncValidator Parser ParserFacts Value Cast Eval Operators Planner Kv Streams Topo.
From stdpp Require Import base gmap list strings fin_maps.
From Stdlib Require Import ZArith Lia.

#[local] Open Scope string_scope.
#[local] Open Scope Z_scope.

(** JSON texts of rules.  [clean] rules are those that JSON can carry; decoding
    gives clean rules, or a nil pointer for the text null. *)
Definition set_id (n : string) (r : Rule) : Rule := mkRule (r_Triggered r) n (r_Sql r) (r_Actions r) (r_Options r).
Definition set_triggered (b : bool) (r : Rule) : Rule := mkRule b (r_Id r) (r_Sql r) (r_Actions r) (r_Options r).
Definition set_options (o : RuleOption) (r : Rule) : Rule := mkRule (r_Triggered r) (r_Id r) (r_Sql r) (r_Actions r) (Some o).

Class RuleJson (V : Type) : Type := {
  marshal_rule : Rule -> string + V;
  unmarshal_rule : V -> Rule -> string + option Rule;
  clean : Rule -> Prop;
  unmarshal_clean v d r : unmarshal_rule v d = inr (Some r) -> clean r;
  clean_triggered b r : clean r -> clean (set_triggered b r);
  clean_id n r : valid_text n -> clean r -> clean (set_id n r);
  clean_options o r : clean r -> clean (set_options o r);
  unmarshal_rule_marshal r d : clean r -> exists v, marshal_rule r = inr v /\ unmarshal_rule v d = inr (Some r) }.

Inductive rp_error : Type :=
  | RDb (e : db_error)
  | RText (format : string) (args : list string)
  | RSql (e : plan_failure).

Definition zero_options : RuleOption := mkRuleOption false 0 0 0 false false 0 0.

Section Processor.
Context {V : Type} {KV : KeyValue V} {J : RuleJson V}.
Variable ff : FuncFinder.
Variable rt : Runtime.
Variable config : RuleOption.   (* conf.Config.Rule *)

(** The checks of [getRuleByJson] after the id. *)
Definition check_options (o : RuleOption) : option rp_error :=
  if CheckpointInterval o <? 0 then Some (RText "rule option checkpointInterval %d is invalid, require a positive integer" [itoa (CheckpointInterval o)])
  else if Concurrency o <? 0 then Some (RText "rule option concurrency %d is invalid, require a positive integer" [itoa (Concurrency o)])
  else if BufferLength o <? 0 then Some (RText "rule option bufferLength %d is invalid, require a positive integer" [itoa (BufferLength o)])
  else if LateTol o <? 0 then Some (RText "rule option lateTolerance %d is invalid, require a positive integer" [itoa (LateTol o)])
  else None.

Definition check_rule (rule : Rule) : option (rp_error + Rule) :=
  if String.eqb (r_Sql rule) "" then Some (inl (RText "Missing rule SQL." []))
  else
    match GetStatementFromSql ff rt (r_Sql rule) with
    | None => None
    | Some (inl e) => Some (inl (RSql e))
    | Some (inr _) =>
        match r_Actions rule with
        | [] => Some (inl (RText "Missing rule actions." []))
        | _ =>
            let o := default zero_options (r_Options rule) in
            Some (match check_options o with Some e => inl e | None => inr (set_options o rule) end)
        end
    end.

(** [getRuleByJson]; [None] is a panic: the text null makes the rule a nil
    pointer, which is dereferenced. *)
Definition getRuleByJson (name : string) (ruleJson : V) : option (rp_error + Rule) :=
  match unmarshal_rule ruleJson (mkRule false "" "" [] (Some config)) with
  | inl e => Some (inl (RText "Parse rule %s error : %s." [e]))
  | inr None => None
  | inr (Some rule) =>
      if String.eqb (r_Id rule) "" && String.eqb name "" then Some (inl (RText "Missing rule id." []))
      else if negb (String.eqb name "") && negb (String.eqb (r_Id rule) "") && negb (String.eqb name (r_Id rule))
      then Some (inl (RText "Name is not consistent with rule id." []))
      else check_rule (if String.eqb (r_Id rule) "" then set_id name rule else rule)
  end.

(** A write of the checked rule. *)
Definition save_rule (write : string -> V -> kv -> kv * option db_error) (name : string) (ruleJson : V) (p : kv)
    : kv * option (rp_error + Rule) :=
  match getRuleByJson name ruleJson with
  | None => (p, None)
  | Some (inl e) => (p, Some (inl e))
  | Some (inr rule) =>
      let (p1, e) := Open p in
      match e with
      | Some e => (p1, Some (inl (RDb e)))
      | None =>
          let (p2, e2) := write (r_Id rule) ruleJson p1 in
          (p2, Some (match e2 with Some e => inl (RDb e) | None => inr rule end))
      end
  end.

Definition ExecCreate := save_rule Setnx.
Definition ExecUpdate := save_rule Put.

Definition GetRuleByName (name : string) (p : kv) : kv * option (rp_error + Rule) :=
  let (p1, e) := Open p in
  match e with
  | Some e => (p1, Some (inl (RDb e)))
  | None =>
      let (p2, v) := Get name p1 in
      (p2, match v with
           | None => Some (inl (RText "Rule %s is not found." [name]))
           | Some s1 => getRuleByJson name s1
           end)
  end.

Definition ExecReplaceRuleState (name : string) (triggered : bool) (p : kv) : kv * option (option rp_error) :=
  let (p1, r) := GetRuleByName name p in
  match r with
  | None => (p1, None)
  | Some (inl e) => (p1, Some (Some e))
  | Some (inr rule) =>
      match marshal_rule (set_triggered triggered rule) with
      | inl e => (p1, Some (Some (RText "Marshal rule %s error : %s." [name; e])))
      | inr ruleJson =>
          let (p2, e) := Open p1 in
          match e with
          | Some e => (p2, Some (Some (RDb e)))
          | None => let (p3, e3) := Put name ruleJson p2 in (p3, Some (option_map RDb e3))
          end
      end
  end.

(** [ExecDesc]; [indent] is the indentation of JSON texts. *)
Definition ExecDesc (indent : V -> string + string) (name : string) (p : kv) : kv * (rp_error + string) :=
  let (p1, e) := Open p in
  match e with
  | Some e => (p1, inl (RDb e))
  | None =>
      let (p2, v) := Get name p1 in
      (p2, match v with
           | None => inl (RText "Rule %s is not found." [name])
           | Some s1 => match indent s1 with inl e => inl (RText "%s" [e]) | inr t => inr (t ++ nl)%string end
           end)
  end.

Definition GetAllRules (p : kv) : kv * (rp_error + list string) :=
  let (p1, e) := Open p in
  match e with
  | Some e => (p1, inl (RDb e))
  | None => let (p2, r) := Keys p1 in (p2, match r with inl e => inl (RDb e) | inr l => inr l end)
  end.

(** [ExecDrop]; a stored rule that is not valid any more cannot be dropped.
    [cleaned] is the text of the errors of removing the cache and checkpoints. *)
Definition ExecDrop (name : string) (cleaned : string) (p : kv) : kv * option (rp_error + string) :=
  let (p1, e) := Open p in
  match e with
  | Some e => (p1, Some (inl (RDb e)))
  | None =>
      let drop (result : string) (p : kv) :=
        let (p3, e3) := Kv.Delete name p in (p3, Some (match e3 with Some e => inl (RDb e) | None => inr result end)) in
      let dropped := ("Rule " ++ name ++ " is dropped.")%string in
      let (p2, v) := Get name p1 in
      match v with
      | None => drop dropped p2
      | Some ruleJson =>
          match getRuleByJson name ruleJson with
          | None => (p2, None)
          | Some (inl e) => (p2, Some (inl e))
          | Some (inr _) => drop (dropped ++ cleaned)%string p2
          end
      end
  end.
End Processor.

(** ** The sink cache of a rule *)

(** Where a store with a path is: the directory of its file, and its table. *)
Definition store_location : Type := string * string.

Section Cache.
Context {L : FloatLib} {MO : MapOrder}.
Variable dbDir : string.

(** The store and the key of the cache of an instance of a sink ([initStore]). *)
Definition cache_key (ruleId opId : string) (instance : Z) : store_location * string :=
  (((dbDir ++ "/sink")%string, ruleId), (opId ++ itoa instance)%string).

Definition sink_concurrency (props : list (string * value)) (con : Z) : Z :=
  match Prelude.assoc "concurrency" props with
  | Some c => match ToInt c STRICT with inr t => if t >? 0 then t else con | inl _ => con end
  | None => con
  end.

Definition instances (con : Z) : list Z := map Z.of_nat (seq 0 (Z.to_nat con)).

(** What [cleanSinkCache] deletes; the concurrency of an action stays set for
    the next ones of the same map. *)
Fixpoint clean_action (ruleId : string) (d con : Z) (m : list (string * value)) : list (store_location * string) :=
  match m with
  | [] => []
  | (name, action) :: m' =>
      let con := sink_concurrency (match action with VMap props => props | _ => [] end) con in
      (map (fun i => ((dbDir, "sink"), (ruleId ++ name ++ "_" ++ itoa d ++ itoa i)%string)) (instances con)
       ++ clean_action ruleId d con m')%list
  end.

Fixpoint clean_actions (ruleId : string) (d : Z) (actions : list (list (string * value))) : list (store_location * string) :=
  match actions with
  | [] => []
  | m :: ms => (clean_action ruleId d 1 (map_range _ m) ++ clean_actions ruleId (d + 1) ms)%list
  end.

Definition cleanSinkCache (rule : Rule) : list (store_location * string) := clean_actions (r_Id rule) 0 (r_Actions rule).
End Cache.

(** ** What a rule must be *)

Section Valid.
Context {V : Type} {KV : KeyValue V} {J : RuleJson V}.
Variable ff : FuncFinder.
Variable rt : Runtime.
Variable config : RuleOption.

#[local] Abbreviation getRuleByJson := (getRuleByJson ff rt config).
#[local] Abbreviation check_rule := (check_rule ff rt).

Definition natural_options (o : RuleOption) : Prop :=
  0 <= CheckpointInterval o /\ 0 <= Concurrency o /\ 0 <= BufferLength o /\ 0 <= LateTol o.

(** A rule that can be stored and planned: it has an id, a SELECT statement,
    actions, and options that are not negative. *)
Record rule_ok (r : Rule) : Prop := {
  ok_id : r_Id r <> "";
  ok_sql : r_Sql r <> "" /\ exists s, GetStatementFromSql ff rt (r_Sql r) = Some (inr s);
  ok_actions : r_Actions r <> [];
  ok_options : exists o, r_Options r = Some o /\ natural_options o }.

Lemma check_options_spec o : check_options o = None <-> natural_options o.
Proof.
  unfold check_options, natural_options.
  destruct (Z.ltb_spec (CheckpointInterval o) 0), (Z.ltb_spec (Concurrency o) 0), (Z.ltb_spec (BufferLength o) 0), (Z.ltb_spec (LateTol o) 0);
    split; intros; try discriminate; try reflexivity; lia.
Qed.

Lemma GetStatementFromSql_total sql : GetStatementFromSql ff rt sql <> None.
Proof.
  unfold GetStatementFromSql. destruct (Streams.parse_text ff rt sql) as [[e|[s|]]|] eqn:E; try discriminate.
  - now destruct s.
  - now apply parse_text_total in E.
Qed.

Lemma check_rule_total r : check_rule r <> None.
Proof.
  unfold Rules.check_rule. destruct (String.eqb (r_Sql r) ""); [discriminate|].
  destruct (GetStatementFromSql ff rt (r_Sql r)) as [[e|s]|] eqn:E; [discriminate| |now apply GetStatementFromSql_total in E].
  now destruct (r_Actions r).
Qed.

(** The options that are used: those of the rule, or zeros for a null. *)
Definition used_options (r : Rule) : Rule := set_options (default zero_options (r_Options r)) r.

Lemma check_rule_spec r r' : r_Id r <> "" -> check_rule r = Some (inr r') <-> r' = used_options r /\ rule_ok r'.
Proof.
  intros I. unfold Rules.check_rule, used_options. split.
  - destruct (String.eqb_spec (r_Sql r) "") as [|N]; [discriminate|].
    destruct (GetStatementFromSql ff rt (r_Sql r)) as [[e|s]|] eqn:E; try discriminate.
    destruct (r_Actions r) eqn:A; [discriminate|].
    destruct (check_options (default zero_options (r_Options r))) eqn:C; [discriminate|]. intros [= <-]. split; [reflexivity|].
    apply check_options_spec in C. split; cbn; auto; [eauto|congruence|eauto].
  - intros [-> [O1 [O2 [s O3]] O4 (o & E & O5)]]. cbn in *. injection E as <-.
    destruct (String.eqb_spec (r_Sql r) ""); [contradiction|]. rewrite O3. destruct (r_Actions r); [contradiction|].
    now rewrite (proj2 (check_options_spec _) O5).
Qed.

(** The rule that a text stands for under a name. *)
Definition named (name : string) (r : Rule) : Rule := if String.eqb (r_Id r) "" then set_id name r else r.

Lemma named_id name r : r_Id (named name r) = if String.eqb (r_Id r) "" then name else r_Id r.
Proof. unfold named. now destruct (String.eqb (r_Id r) ""). Qed.

Definition agrees (name : string) (r0 : Rule) : Prop := name = "" \/ r_Id r0 = "" \/ name = r_Id r0.

(** The checks of the id come first. *)
Lemma getRuleByJson_checks name v r : getRuleByJson name v = Some (inr r) <->
  exists r0, unmarshal_rule v (mkRule false "" "" [] (Some config)) = inr (Some r0)
    /\ agrees name r0 /\ r_Id (named name r0) <> "" /\ check_rule (named name r0) = Some (inr r).
Proof.
  unfold Rules.getRuleByJson, agrees. setoid_rewrite named_id. destruct (unmarshal_rule v _) as [e|[r0|]];
    [split; [discriminate|now intros (r0 & E & _)]| |split; [discriminate|now intros (r0 & E & _)]].
  unfold named. destruct (String.eqb_spec (r_Id r0) "") as [I|I], (String.eqb_spec name "") as [N|N]; cbn [andb negb].
  - split; [discriminate|]. intros (r1 & [= <-] & _ & O & _). rewrite I in O. now cbn in O.
  - split; [intros C; exists r0; rewrite I; auto|]. intros (r1 & [= <-] & _ & _ & C). rewrite I in C. exact C.
  - apply String.eqb_neq in I as I'. split; [intros C; exists r0; rewrite I'; auto|]. intros (r1 & [= <-] & _ & _ & C). now rewrite I' in C.
  - apply String.eqb_neq in I as I'. destruct (String.eqb_spec name (r_Id r0)) as [M|M]; cbn [negb].
    + split; [intros C; exists r0; rewrite I'; auto|]. intros (r1 & [= <-] & _ & _ & C). now rewrite I' in C.
    + split; [discriminate|]. intros (r1 & [= <-] & [?|[?|?]] & _); contradiction.
Qed.

(** exactly the valid rules are accepted: reading a rule succeeds if and
    only if its text decodes, over the configured options, to a rule whose id
    agrees with the name it is stored under and that has an id, a SELECT
    statement, actions and no negative option; the result is that rule. *)
Theorem getRuleByJson_accepts name v r : getRuleByJson name v = Some (inr r) <->
  exists r0, unmarshal_rule v (mkRule false "" "" [] (Some config)) = inr (Some r0)
    /\ agrees name r0 /\ r = used_options (named name r0) /\ rule_ok r.
Proof.
  rewrite getRuleByJson_checks. split; intros (r0 & E & A & H); exists r0; (split; [exact E|split; [exact A|]]).
  - destruct H as [I C]. now apply check_rule_spec in C.
  - destruct H as [-> O]. assert (I : r_Id (named name r0) <> "") by apply O. split; [exact I|]. now apply check_rule_spec.
Qed.

(** ** The processor keeps a catalogue of rules *)

(** The stored text under [name] stands for the rule [r]. *)
Definition stands_for (name : string) (v : V) (r : Rule) : Prop := getRuleByJson name v = Some (inr r) /\ r_Id r = name /\ clean r.

Record represents_rules (p : kv) (c : gmap string Rule) : Prop := {
  rr_some : forall n r, c !! n = Some r -> plain n /\ exists v, contents p !! n = Some v /\ stands_for n v r;
  rr_none : forall n, c !! n = None -> contents p !! n = None }.

Lemma used_options_id r : r_Id (used_options r) = r_Id r.
Proof. reflexivity. Qed.

Lemma accepted_ok name v r : getRuleByJson name v = Some (inr r) -> rule_ok r.
Proof. intros H. apply getRuleByJson_checks in H as (r0 & _ & _ & I & C). now apply check_rule_spec in C. Qed.

(** What was accepted is accepted again under its id. *)
Lemma accepted_stands_for name v r : getRuleByJson name v = Some (inr r) -> valid_text name -> stands_for (r_Id r) v r.
Proof.
  intros H U. apply getRuleByJson_checks in H as (r0 & E & A & I & C). pose proof C as C'. apply check_rule_spec in C' as [-> O]; [|exact I].
  assert (Hid : r_Id (used_options (named name r0)) = r_Id (named name r0)) by reflexivity.
  assert (N : named (r_Id (named name r0)) r0 = named name r0).
  { unfold named. destruct (String.eqb_spec (r_Id r0) "") as [Z|Z]; [reflexivity|reflexivity]. }
  split; [|split; [reflexivity|]].
  - apply getRuleByJson_checks. exists r0. rewrite Hid, N. repeat split; auto. unfold agrees. rewrite named_id.
    destruct (String.eqb_spec (r_Id r0) ""); auto.
  - apply clean_options. unfold named. apply unmarshal_clean in E. destruct (String.eqb (r_Id r0) ""); [now apply clean_id|exact E].
Qed.

(** The JSON of a rule with another state stands for that rule. *)
Lemma marshal_stands_for name v r b : stands_for name v r ->
  exists v', marshal_rule (set_triggered b r) = inr v' /\ stands_for name v' (set_triggered b r).
Proof.
  intros (H & I & C). apply getRuleByJson_checks in H as (r0 & E & A & N & K). apply check_rule_spec in K as [Hr O]; [|exact N].
  assert (Ok : rule_ok (set_triggered b r)) by (destruct O as [O1 O2 O3 O4]; now split).
  destruct (unmarshal_rule_marshal (set_triggered b r) (mkRule false "" "" [] (Some config)) (clean_triggered b r C)) as (v' & M & U).
  exists v'. split; [exact M|]. split; [|split; [exact I|now apply clean_triggered]].
  apply getRuleByJson_checks. exists (set_triggered b r). split; [exact U|]. split; [right; right; now cbn|].
  assert (S : named name (set_triggered b r) = set_triggered b r).
  { unfold named. destruct (String.eqb_spec (r_Id (set_triggered b r)) "") as [Z|]; [|reflexivity]. destruct Ok as [Z' _ _ _]. contradiction. }
  rewrite S. split; [apply Ok|]. apply check_rule_spec; [apply Ok|]. split; [|exact Ok].
  destruct O as [_ _ _ (o & Eo & _)]. unfold used_options, set_options, set_triggered. cbn. rewrite Eo. cbn. destruct r; cbn in *. congruence.
Qed.

Lemma rr_contents p p' c : represents_rules p c -> contents p' = contents p -> represents_rules p' c.
Proof. intros [A B] E. split; rewrite E; auto. Qed.

Lemma rr_insert p p' c n v r : represents_rules p c -> plain n -> stands_for n v r -> contents p' = <[n := v]> (contents p) ->
  represents_rules p' (<[n := r]> c).
Proof.
  intros [A B] P S E. split; intros k; rewrite E; (destruct (decide (n = k)) as [<-|N];
    [rewrite !lookup_insert_eq|rewrite !lookup_insert_ne by exact N; auto]); [|discriminate].
  intros x [= <-]. eauto.
Qed.

Lemma rr_delete p p' c n : represents_rules p c -> contents p' = delete n (contents p) -> represents_rules p' (delete n c).
Proof.
  intros [A B] E. split; intros k; rewrite E; (destruct (decide (n = k)) as [<-|N];
    [rewrite !lookup_delete_eq|rewrite !lookup_delete_ne by exact N; auto]); [discriminate|reflexivity].
Qed.

Lemma rr_lookup p c n v : represents_rules p c -> contents p !! n = Some v -> exists r, c !! n = Some r /\ plain n /\ stands_for n v r.
Proof.
  intros [A B] E. destruct (c !! n) as [r|] eqn:C; [|rewrite B in E by exact C; discriminate].
  destruct (A n r C) as (P & v' & E' & S). exists r. rewrite E in E'. injection E' as <-. auto.
Qed.

(** Reading: a rule of the catalogue, or an error; without I/O errors it is
    found. *)
Lemma GetRuleByName_spec p c n : represents_rules p c -> plain n ->
  let (p', r) := GetRuleByName ff rt config n p in
  represents_rules p' c /\ (healthy p -> healthy p') /\
  match r with
  | None => False
  | Some (inr r) => c !! n = Some r /\ exists v, stands_for n v r
  | Some (inl _) => healthy p -> c !! n = None
  end.
Proof.
  intros R P. unfold GetRuleByName. pose proof (Open_law p) as O. pose proof (Open_healthy p) as OH. destruct (Open p) as [p1 [e|]]; cbn in O, OH.
  { split; [now apply (rr_contents p)|]. split; [intros H; apply OH, H|]. intros H. now destruct (OH H). }
  destruct (Get_law n p1) as [G1 G2]. pose proof (Get_healthy n p1) as GH. destruct (Get n p1) as [p2 v]. cbn in *.
  split; [apply (rr_contents p); [exact R|congruence]|]. split; [intros H; apply GH, OH, H|]. destruct v as [v|].
  - specialize (G2 P v eq_refl). rewrite O in G2. destruct (rr_lookup p c n v R G2) as (r & E & _ & S). pose proof S as (X & _ & _). rewrite X. eauto.
  - intros H. destruct (GH (proj1 (OH H))) as [_ X]. specialize (X P). rewrite O in X. destruct (c !! n) as [r|] eqn:E; [|reflexivity].
    destruct (rr_some _ _ R n r E) as (_ & v & Ev & _). congruence.
Qed.

Inductive rule_op : Type :=
  | OCreate (name : string) (ruleJson : V)
  | OUpdate (name : string) (ruleJson : V)
  | OSetState (name : string) (triggered : bool)
  | ODrop (name cleaned : string).

(** The store afterwards and the rule that was written or dropped, if any. *)
Definition rule_step (o : rule_op) (p : kv) : kv * option (rp_error + option Rule) :=
  match o with
  | OCreate n j => let (p', r) := ExecCreate ff rt config n j p in (p', option_map (fun r => match r with inl e => inl e | inr x => inr (Some x) end) r)
  | OUpdate n j => let (p', r) := ExecUpdate ff rt config n j p in (p', option_map (fun r => match r with inl e => inl e | inr x => inr (Some x) end) r)
  | OSetState n b => let (p', r) := ExecReplaceRuleState ff rt config n b p in (p', option_map (fun r => match r with Some e => inl e | None => inr None end) r)
  | ODrop n cl => let (p', r) := ExecDrop ff rt config n cl p in (p', option_map (fun r => match r with inl e => inl e | inr _ => inr None end) r)
  end.

(** What a step that succeeds does to the catalogue. *)
Definition rule_effect (o : rule_op) (written : option Rule) (c c' : gmap string Rule) : Prop :=
  match o, written with
  | OCreate n j, Some r => getRuleByJson n j = Some (inr r) /\ c !! r_Id r = None /\ c' = <[r_Id r := r]> c
  | OUpdate n j, Some r => getRuleByJson n j = Some (inr r) /\ c' = <[r_Id r := r]> c
  | OSetState n b, None => exists r, c !! n = Some r /\ c' = <[n := set_triggered b r]> c
  | ODrop n _, None => is_Some (c !! n) /\ c' = delete n c
  | _, _ => False
  end.

Definition op_plain (o : rule_op) : Prop :=
  match o with
  | OCreate n j | OUpdate n j => valid_text n /\ forall r, getRuleByJson n j = Some (inr r) -> plain (r_Id r)
  | OSetState n _ | ODrop n _ => plain n
  end.

(** A write that succeeds inserts, perhaps after a check; one that fails changes
    nothing. *)
Definition writes (check : bool) (write : string -> V -> kv -> kv * option db_error) : Prop := forall k v s,
  match snd (write k v s) with
  | None => (check = true -> contents s !! k = None) /\ contents (fst (write k v s)) = <[k := v]> (contents s)
  | Some _ => contents (fst (write k v s)) = contents s
  end.

Lemma save_rule_spec check write n j p c : writes check write -> represents_rules p c -> valid_text n ->
  (forall r, getRuleByJson n j = Some (inr r) -> plain (r_Id r)) ->
  let (p', r) := save_rule ff rt config write n j p in
  match r with
  | Some (inr r) => getRuleByJson n j = Some (inr r) /\ (check = true -> c !! r_Id r = None) /\ represents_rules p' (<[r_Id r := r]> c)
  | _ => represents_rules p' c
  end.
Proof.
  intros W R U P. unfold save_rule. destruct (getRuleByJson n j) as [[e|r]|] eqn:E; [exact R| |exact R].
  pose proof (Open_law p) as O. destruct (Open p) as [p1 [e|]]; cbn in O; [now apply (rr_contents p)|].
  specialize (W (r_Id r) j p1). destruct (write (r_Id r) j p1) as [p2 [e|]]; cbn in W; [apply (rr_contents p); [exact R|congruence]|].
  rewrite O in W. split; [reflexivity|]. split.
  - intros Hc. destruct (c !! r_Id r) as [x|] eqn:C; [|reflexivity]. destruct (rr_some _ _ R _ _ C) as (_ & v & Ev & _).
    destruct W as [W _]. rewrite W in Ev by exact Hc. discriminate.
  - apply (rr_insert p p2 c (r_Id r) j r R (P r eq_refl)); [|apply W]. now apply (accepted_stands_for n).
Qed.

Lemma Setnx_writes : writes true Setnx.
Proof. intros k v s. pose proof (Setnx_law k v s) as H. destruct (snd (Setnx k v s)); [exact H|tauto]. Qed.

Lemma Put_writes : writes false Put.
Proof. intros k v s. pose proof (Put_law k v s) as H. destruct (snd (Put k v s)); [exact H|]. split; [discriminate|exact H]. Qed.

Lemma ExecReplaceRuleState_spec n b p c : represents_rules p c -> plain n ->
  let (p', r) := ExecReplaceRuleState ff rt config n b p in
  (healthy p -> healthy p') /\
  match r with
  | None => False
  | Some (Some _) => represents_rules p' c /\ (healthy p -> c !! n = None)
  | Some None => exists r, c !! n = Some r /\ represents_rules p' (<[n := set_triggered b r]> c)
  end.
Proof.
  intros R P. unfold ExecReplaceRuleState. pose proof (GetRuleByName_spec p c n R P) as S.
  destruct (GetRuleByName ff rt config n p) as [p1 [[e|r]|]]; destruct S as (R1 & H1 & S); [tauto| |tauto].
  destruct S as [E (v & S)]. destruct (marshal_stands_for n v r b S) as (v' & M & S'). rewrite M.
  pose proof (Open_law p1) as O. pose proof (Open_healthy p1) as OH. destruct (Open p1) as [p2 [e|]]; cbn in O, OH.
  { split; [intros H; now destruct (OH (H1 H))|]. split; [now apply (rr_contents p1)|]. intros H. now destruct (OH (H1 H)). }
  pose proof (Put_law n v' p2) as W. pose proof (Put_healthy n v' p2) as WH. destruct (Put n v' p2) as [p3 [e|]]; cbn in *;
    (split; [intros H; apply WH, OH, H1, H|]).
  - split; [apply (rr_contents p1); [exact R1|congruence]|]. intros H. destruct (WH (proj1 (OH (H1 H)))) as [_ X]. discriminate.
  - exists r. split; [exact E|]. apply (rr_insert p1 p3 c n v' _ R1 P S'). congruence.
Qed.

Lemma ExecDrop_spec n cl p c : represents_rules p c -> plain n ->
  let (p', r) := ExecDrop ff rt config n cl p in
  match r with
  | None => False
  | Some (inl _) => represents_rules p' c
  | Some (inr _) => is_Some (c !! n) /\ represents_rules p' (delete n c)
  end.
Proof.
  intros R P. unfold ExecDrop. pose proof (Open_law p) as O. destruct (Open p) as [p1 [e|]]; cbn in O; [now apply (rr_contents p)|].
  destruct (Get_law n p1) as [G1 G2]. destruct (Get n p1) as [p2 v]. cbn in *.
  assert (R2 : represents_rules p2 c) by (apply (rr_contents p); [exact R|congruence]).
  assert (D : let (p3, e3) := Kv.Delete n p2 in
    match e3 with Some _ => represents_rules p3 c | None => is_Some (c !! n) /\ represents_rules p3 (delete n c) end).
  { pose proof (Delete_law n p2 P) as L. destruct (Kv.Delete n p2) as [p3 [e|]]; cbn in L; [now apply (rr_contents p2)|].
    destruct L as [[x L1] L2]. split; [|now apply (rr_delete p2)]. destruct (rr_lookup p2 c n x R2 L1) as (r & E & _). eauto. }
  destruct v as [v|].
  - specialize (G2 P v eq_refl). rewrite O in G2. destruct (rr_lookup p c n v R G2) as (r & E & _ & X & _). rewrite X.
    destruct (Kv.Delete n p2) as [p3 [e|]]; exact D.
  - destruct (Kv.Delete n p2) as [p3 [e|]]; exact D.
Qed.

(** *** Databases without errors *)

Lemma save_rule_healthy write n j p : (forall k v s, healthy s -> healthy (fst (write k v s))) -> healthy p ->
  healthy (fst (save_rule ff rt config write n j p)).
Proof.
  intros W H. unfold save_rule. destruct (getRuleByJson n j) as [[e|r]|]; [exact H| |exact H].
  pose proof (Open_healthy p H) as [O E]. destruct (Open p) as [p1 [e|]]; [discriminate|]. cbn in O.
  specialize (W (r_Id r) j p1 O). now destruct (write (r_Id r) j p1).
Qed.

Lemma ExecCreate_healthy n j p : healthy p -> healthy (fst (ExecCreate ff rt config n j p)) /\ forall r, getRuleByJson n j = Some (inr r) ->
  snd (ExecCreate ff rt config n j p) = Some (match contents p !! r_Id r with Some _ => inl (RDb (AlreadyExists (r_Id r))) | None => inr r end).
Proof.
  intros H. split; [apply save_rule_healthy; [intros k v s Hs; now apply Setnx_healthy|exact H]|].
  intros r E. unfold ExecCreate, save_rule. rewrite E. pose proof (Open_healthy p H) as [O1 O2]. pose proof (Open_law p) as O3.
  destruct (Open p) as [p1 e]. cbn in *. subst e. destruct (Setnx_healthy (r_Id r) j p1 O1) as [_ S]. rewrite O3 in S.
  destruct (Setnx (r_Id r) j p1) as [p2 e2]. cbn in *. subst e2. now destruct (contents p !! r_Id r).
Qed.

Lemma ExecUpdate_healthy n j p : healthy p -> healthy (fst (ExecUpdate ff rt config n j p)) /\ forall r, getRuleByJson n j = Some (inr r) ->
  snd (ExecUpdate ff rt config n j p) = Some (inr r).
Proof.
  intros H. split; [apply save_rule_healthy; [intros k v s Hs; now apply Put_healthy|exact H]|].
  intros r E. unfold ExecUpdate, save_rule. rewrite E. pose proof (Open_healthy p H) as [O1 O2].
  destruct (Open p) as [p1 e]. cbn in *. subst e. destruct (Put_healthy (r_Id r) j p1 O1) as [_ S].
  destruct (Put (r_Id r) j p1) as [p2 e2]. cbn in *. now subst e2.
Qed.

Lemma ExecDrop_healthy n cl p c : represents_rules p c -> plain n -> healthy p ->
  healthy (fst (ExecDrop ff rt config n cl p)) /\ (is_Some (c !! n) -> exists t, snd (ExecDrop ff rt config n cl p) = Some (inr t)).
Proof.
  intros R P H. unfold ExecDrop. pose proof (Open_healthy p H) as [O1 O2]. pose proof (Open_law p) as O3.
  destruct (Open p) as [p1 e]. cbn in *. subst e. destruct (Get_healthy n p1 O1) as [G1 G2]. destruct (Get_law n p1) as [G3 _].
  specialize (G2 P). destruct (Get n p1) as [p2 v]. cbn in *. destruct (Delete_healthy n p2 G1) as [D1 D2].
  destruct (contents p1 !! n) as [x|] eqn:E; subst v.
  - rewrite O3 in E. destruct (rr_lookup p c n x R E) as (r & _ & _ & X & I & _). rewrite X.
    assert (N : n <> "") by (rewrite <- I; apply (accepted_ok _ _ _ X)).
    rewrite G3, O3 in D2. specialize (D2 P N (ex_intro _ x E)). destruct (Kv.Delete n p2) as [p3 e3]. cbn in *. subst e3. eauto.
  - split; [now destruct (Kv.Delete n p2)|]. intros [r Er]. destruct (rr_some _ _ R n r Er) as (_ & y & Ey & _). congruence.
Qed.

(** A rule that is accepted under a name has that name. *)
Lemma accepted_id name v r : name <> "" -> getRuleByJson name v = Some (inr r) -> r_Id r = name.
Proof.
  intros N H. apply getRuleByJson_checks in H as (r0 & _ & A & I & C). apply check_rule_spec in C as [-> _]; [|exact I].
  rewrite used_options_id, named_id. destruct (String.eqb_spec (r_Id r0) "") as [Z|Z]; [reflexivity|]. now destruct A as [A|[A|A]].
Qed.

(** C25: rules are a catalogue: creating, updating, changing the state and
    dropping either fail and change nothing, whatever fails in the database, or
    do just that to the catalogue of the stored rules, of which every one can be
    read back; storing the state of a rule changes nothing else of it. *)
Theorem rule_step_refines o p c : represents_rules p c -> op_plain o ->
  match snd (rule_step o p) with
  | Some (inr written) => exists c', rule_effect o written c c' /\ represents_rules (fst (rule_step o p)) c'
  | _ => represents_rules (fst (rule_step o p)) c
  end.
Proof.
  intros R P. destruct o as [n j|n j|n b|n cl]; cbn in *.
  - pose proof (save_rule_spec true Setnx n j p c Setnx_writes R (proj1 P) (proj2 P)) as S. unfold ExecCreate.
    destruct (save_rule ff rt config Setnx n j p) as [p' [[e|r]|]]; cbn in *; [exact S| |exact S].
    exists (<[r_Id r := r]> c). destruct S as (S1 & S2 & S3). split; [|exact S3]. split; [exact S1|]. split; [now apply S2|reflexivity].
  - pose proof (save_rule_spec false Put n j p c Put_writes R (proj1 P) (proj2 P)) as S. unfold ExecUpdate.
    destruct (save_rule ff rt config Put n j p) as [p' [[e|r]|]]; cbn in *; [exact S| |exact S].
    exists (<[r_Id r := r]> c). destruct S as (S1 & S2 & S3). split; [|exact S3]. split; [exact S1|reflexivity].
  - pose proof (ExecReplaceRuleState_spec n b p c R P) as S. destruct (ExecReplaceRuleState ff rt config n b p) as [p' [[e|]|]]; cbn in *; [tauto| |tauto].
    destruct S as [_ (r & E & S)]. exists (<[n := set_triggered b r]> c). split; [now exists r|exact S].
  - pose proof (ExecDrop_spec n cl p c R P) as S. destruct (ExecDrop ff rt config n cl p) as [p' [[e|t]|]]; cbn in *; [exact S| |tauto].
    exists (delete n c). split; [split; [apply S|reflexivity]|apply S].
Qed.
End Valid.

(** ** Where it breaks *)

Section CacheFinding.
Context {L : FloatLib} {MO : MapOrder}.
Variable dbDir : string.

Lemma clean_action_location id d m : forall con x, In x (clean_action dbDir id d con m) -> fst x = (dbDir, "sink").
Proof.
  induction m as [|[name action] m IH]; intros con x; cbn [clean_action]; [easy|]. intros H. apply in_app_or in H as [H|H]; [|eauto].
  apply in_map_iff in H as (i & <- & _). reflexivity.
Qed.

Lemma append_longer s t : t <> "" -> (s ++ t)%string <> s.
Proof. intros N. induction s as [|a s IH]; cbn; [exact N|]. intros [= E]. contradiction. Qed.

(** Dropping a rule cleans a table that no cache is in. *)
Lemma dropped_rule_keeps_cache rule opId instance : ~ In (cache_key dbDir (r_Id rule) opId instance) (cleanSinkCache dbDir rule).
Proof.
  unfold cleanSinkCache. generalize 0 as d. generalize (r_Actions rule) as ms. induction ms as [|m ms IH]; intros d; cbn [clean_actions]; [easy|].
  intros H. apply in_app_or in H as [H|H]; [|now apply IH in H]. apply clean_action_location in H. unfold cache_key in H. cbn in H.
  injection H as H _. now apply append_longer in H.
Qed.
End CacheFinding.

Import Streams.Sample.

Module Sample.
(** JSON as the rule itself; the text null is [None]. *)
#[export] Instance rule_json : RuleJson (option Rule).
Proof.
  refine {| marshal_rule r := inr (Some r); unmarshal_rule v _ := inr v; clean _ := True |}; try easy. intros r d _. eexists. split; reflexivity.
Defined.

Definition empty_rules : kv (V := option Rule) := mkSqlite ∅ [].
Definition demo_rule : Rule := mkRule false "" "SELECT * FROM demo" [[("log", VMap [])]] None.
Definition config : RuleOption := mkRuleOption false 1000 1 1024 false true 0 300000.
Definition create : rule_op (V := option Rule) := OCreate "rule1" (Some demo_rule).

Lemma empty_represents_rules : represents_rules built_ins no_runtime config empty_rules ∅.
Proof. split; [intros n r H; now rewrite lookup_empty in H|reflexivity]. Qed.
End Sample.

Import Rules.Sample.

Lemma rule_step_refines_witness : exists r, snd (rule_step built_ins no_runtime config create empty_rules) = Some (inr (Some r))
  /\ r_Id r = "rule1" /\ exists c', rule_effect built_ins no_runtime config create (Some r) ∅ c'
  /\ represents_rules built_ins no_runtime config (fst (rule_step built_ins no_runtime config create empty_rules)) c'.
Proof.
  eexists. split; [vm_compute; reflexivity|]. split; [reflexivity|].
  refine (rule_step_refines built_ins no_runtime config create empty_rules ∅ empty_represents_rules _).
  split; [vm_compute; reflexivity|]. intros r H. vm_compute in H. injection H as <-. reflexivity.
Defined.

(** The text null is a panic. *)
Lemma null_rule_panics name : getRuleByJson built_ins no_runtime config name (None : option Rule) = None.
Proof. reflexivity. Qed.

(** Nothing checks the quality of service: with 3 checkpoints are enabled, and
    no operator gets a barrier handler. *)
Lemma qos_unchecked :
  (exists r, getRuleByJson built_ins no_runtime config "rule1"
     (Some (mkRule false "" "SELECT * FROM demo" [[("log", VMap [])]] (Some (mkRuleOption false 0 1 0 false false 3 0)))) = Some (inr r))
  /\ (3 >=? 1) = true /\ forall n, createBarrierHandler n 3 = None.
Proof. split; [eexists; vm_compute; reflexivity|]. split; reflexivity. Qed.

(** A stored rule that is not valid, say because a function that it calls has
    been removed, cannot be dropped. *)
Lemma invalid_rule_stays : exists e,
  snd (ExecDrop built_ins no_runtime config "r" "" (mkSqlite {["r" := Some (mkRule false "r" "SELECT f(a) FROM demo" [[("log", VMap [])]] None)]} []))
    = Some (inl e).
Proof. eexists. vm_compute. reflexivity. Qed.
