(* ===== verification/Server.v ===== *)
(** Running rules (src/internal/server/ruleManager.go, the rule handlers of
    rest.go, and opening and cancelling of src/internal/topo/topo.go).

    The registry maps the name of a rule to its state, a pointer that goroutines
    keep.  A topology belongs to the state it was made for, so a state carries
    the topology object ([rs_object]) next to the pointer to it ([rs_Topology]),
    which [Stop] clears.  [doStartRule] spawns a goroutine that opens the
    topology later: a spawned goroutine is pending until it runs.

    A panic of a handler leaves the state as it is; a panic of a goroutine ends
    the server ([None]). *)

From S2P Require Import Prelude Token Ast FuncValidator Parser ParserFacts Value Cast Eval Operators Planner Kv Streams Topo Rules.
From stdpp Require Import base gmap list strings fin_maps sorting.
From Stdlib Require Import ZArith Lia.

#[local] Open Scope string_scope.

Inductive topo_status : Type := Fresh | Opened | Cancelled.

Record RuleState : Type := mkRS {
  rs_Name : string;
  rs_Triggered : bool;
  rs_Topology : bool;
  rs_object : option (Topo * topo_status);
  rs_topoGraph : option PrintableTopo }.

(** [Reported]: an error is the text of a reply with status 201. *)
Inductive reply : Type := Panicked | Failed | Reported | Replied (text : string).

Section Server.
Context {V : Type} {KV : KeyValue V} {J : RuleJson V} {L : FloatLib} {MO : MapOrder}.
Variable ff : FuncFinder.
Variable rt : Runtime.
Variable config : RuleOption.
Variable GetDataSource : string -> option StreamStmt.

Record Server : Type := mkServer {
  db : kv;
  registry : gmap string nat;
  states : gmap nat RuleState;
  next_state : nat;
  spawned : list nat;       (* states whose goroutine has not started *)
  watching : list nat }.    (* states whose goroutine waits for its topology to end *)

Definition set_db (p : kv) (s : Server) : Server := mkServer p (registry s) (states s) (next_state s) (spawned s) (watching s).
Definition put_state (id : nat) (rs : RuleState) (s : Server) : Server :=
  mkServer (db s) (registry s) (<[id := rs]> (states s)) (next_state s) (spawned s) (watching s).
Definition set_watching (l : list nat) (s : Server) : Server := mkServer (db s) (registry s) (states s) (next_state s) (spawned s) l.
Definition set_spawned (l : list nat) (s : Server) : Server := mkServer (db s) (registry s) (states s) (next_state s) l (watching s).

Definition untriggered (rs : RuleState) : RuleState := mkRS (rs_Name rs) false (rs_Topology rs) (rs_object rs) (rs_topoGraph rs).

Definition with_status (st : topo_status) (rs : RuleState) : RuleState :=
  mkRS (rs_Name rs) (rs_Triggered rs) (rs_Topology rs) (option_map (fun o => (fst o, st)) (rs_object rs)) (rs_topoGraph rs).

Definition object_status (rs : RuleState) : option topo_status := option_map snd (rs_object rs).

(** One of the goroutines that wait for a topology stops waiting. *)
Fixpoint remove_one (id : nat) (l : list nat) : list nat :=
  match l with [] => [] | x :: l' => if Nat.eqb x id then l' else x :: remove_one id l' end.

(** [Topo.Cancel]: a topology that was never opened has no context, which is a
    nil dereference; a goroutine that waits for the end marks its rule. *)
Definition Cancel (id : nat) (s : Server) : option Server :=
  match states s !! id with
  | Some rs =>
      match object_status rs with
      | Some Fresh | None => None
      | Some _ =>
          let rs' := with_status Cancelled rs in
          Some (if existsb (Nat.eqb id) (watching s)
                then set_watching (remove_one id (watching s)) (put_state id (untriggered rs') s)
                else put_state id rs' s)
      end
  | None => None
  end.

(** [createRuleState]: the state is registered before the rule is planned. *)
Definition createRuleState (rule : Rule) (s : Server) : Server * nat * option (option plan_failure) :=
  let id := next_state s in
  let register rs := mkServer (db s) (<[r_Id rule := id]> (registry s)) (<[id := rs]> (states s)) (S id) (spawned s) (watching s) in
  match Plan ff rt GetDataSource rule with
  | None => (register (mkRS (r_Id rule) false false None None), id, None)
  | Some (inl e) => (register (mkRS (r_Id rule) false false None None), id, Some (Some e))
  | Some (inr tp) => (register (mkRS (r_Id rule) true true (Some (tp, Fresh)) None), id, Some None)
  end.

(** The error of storing the state is not looked at. *)
Definition store_state (name : string) (triggered : bool) (s : Server) : option Server :=
  match ExecReplaceRuleState ff rt config name triggered (db s) with (p, Some _) => Some (set_db p s) | (_, None) => None end.

Definition doStartRule (id : nat) (s : Server) : Server * reply :=
  match states s !! id with
  | None => (s, Panicked)
  | Some rs =>
      match store_state (rs_Name rs) true s with
      | None => (s, Panicked)
      | Some s1 => (set_spawned (spawned s1 ++ [id]) s1, Replied "")
      end
  end.

Definition loaded (name : string) (s : Server) : option (nat * RuleState) :=
  match registry s !! name with
  | Some id => match states s !! id with Some rs => Some (id, rs) | None => None end
  | None => None
  end.

(** The end of creating and of starting a rule. *)
Definition create_and_start (rule : Rule) (s : Server) : Server * reply :=
  match createRuleState rule s with
  | (s1, id, Some None) => doStartRule id s1
  | (s1, _, Some (Some _)) => (s1, Failed)
  | (s1, _, None) => (s1, Panicked)
  end.

Definition startRule (name : string) (s : Server) : Server * reply :=
  let restart :=
    let (p, r) := GetRuleByName ff rt config name (db s) in
    let s1 := set_db p s in
    match r with
    | None => (s1, Panicked)
    | Some (inl _) => (s1, Failed)
    | Some (inr rule) => create_and_start rule s1
    end in
  match loaded name s with
  | Some (id, rs) => if rs_Triggered rs then doStartRule id s else restart
  | None => restart
  end.

(** [Stop]; a nil topology would be dereferenced. *)
Definition Stop (id : nat) (rs : RuleState) (s : Server) : Server * bool :=
  let s1 := put_state id (untriggered rs) s in
  if rs_Topology rs then
    match Cancel id s1 with
    | None => (s1, false)
    | Some s2 =>
        match states s2 !! id with
        | Some rs2 => (put_state id (mkRS (rs_Name rs2) (rs_Triggered rs2) false (rs_object rs2) (option_map (fun o => t_topo (fst o)) (rs_object rs2))) s2, true)
        | None => (s2, true)
        end
    end
  else (s1, false).

Definition stopRule (name : string) (s : Server) : Server * reply :=
  match loaded name s with
  | Some (id, rs) =>
      if rs_Triggered rs then
        match Stop id rs s with
        | (s1, false) => (s1, Panicked)
        | (s1, true) =>
            match store_state name false s1 with
            | None => (s1, Panicked)
            | Some s2 => (s2, Replied ("Rule " ++ name ++ " was stopped."))
            end
        end
      else (s, Replied ("Rule " ++ name ++ " was not found."))
  | None => (s, Replied ("Rule " ++ name ++ " was not found."))
  end.

Definition unregister (name : string) (s : Server) : Server :=
  mkServer (db s) (delete name (registry s)) (states s) (next_state s) (spawned s) (watching s).

Definition deleteRule (name : string) (s : Server) : Server * reply :=
  match loaded name s with
  | Some (id, rs) =>
      let s1 := unregister name s in
      if rs_Triggered rs then
        if rs_Topology rs then
          match Cancel id s1 with
          | Some s2 => (s2, Replied ("Rule " ++ name ++ " was deleted."))
          | None => (s1, Panicked)
          end
        else (s1, Panicked)
      else (s1, Replied ("Rule " ++ name ++ " was deleted."))
  | None => (s, Replied ("Rule " ++ name ++ " was not found."))
  end.

Definition then_do (r : Server * reply) (f : Server -> Server * reply) : Server * reply :=
  match r with (s, Replied _) => f s | _ => r end.

Definition restartRule (name : string) (s : Server) : Server * reply := then_do (stopRule name s) (startRule name).

(** The handlers of rest.go. *)
Definition create_handler (body : V) (s : Server) : Server * reply :=
  let (p, r) := ExecCreate ff rt config "" body (db s) in
  let s1 := set_db p s in
  match r with
  | None => (s1, Panicked)
  | Some (inl _) => (s1, Failed)
  | Some (inr rule) =>
      let (s2, r2) := create_and_start rule s1 in
      (s2, match r2 with
           | Replied _ => Replied ("Rule " ++ r_Id rule ++ " was created successfully.")
           | Failed => Reported
           | r2 => r2
           end)
  end.

Definition delete_handler (name cleaned : string) (s : Server) : Server * reply :=
  then_do (deleteRule name s) (fun s1 =>
    let (p, r) := ExecDrop ff rt config name cleaned (db s1) in
    (set_db p s1, match r with None => Panicked | Some (inl _) => Failed | Some (inr t) => Replied t end)).

Definition update_handler (name : string) (body : V) (s : Server) : Server * reply :=
  let (p, r) := GetRuleByName ff rt config name (db s) in
  let s1 := set_db p s in
  match r with
  | None => (s1, Panicked)
  | Some (inl _) => (s1, Failed)
  | Some (inr _) =>
      let (p2, r2) := ExecUpdate ff rt config name body (db s1) in
      let s2 := set_db p2 s1 in
      match r2 with
      | None => (s2, Panicked)
      | Some (inl _) => (s2, Failed)
      | Some (inr rule) =>
          then_do (restartRule name s2) (fun s3 => (s3, Replied ("Rule " ++ r_Id rule ++ " was updated successfully.")))
      end
  end.

(** [recoverRule] when the server starts. *)
Definition recoverRule (name : string) (s : Server) : Server * reply :=
  let (p, r) := GetRuleByName ff rt config name (db s) in
  let s1 := set_db p s in
  match r with
  | None => (s1, Panicked)
  | Some (inl _) => (s1, Failed)
  | Some (inr rule) =>
      if r_Triggered rule then startRule name s1
      else
        let id := next_state s1 in
        (mkServer (db s1) (<[name := id]> (registry s1)) (<[id := mkRS name false false None None]> (states s1)) (S id) (spawned s1) (watching s1),
         Replied ("Rule " ++ name ++ " was stoped."))
  end.

(** [CreateRule] and [DropRule] of rpc.go. *)
Definition rpc_CreateRule (name : string) (body : V) (s : Server) : Server * reply :=
  let (p, r) := ExecCreate ff rt config name body (db s) in
  let s1 := set_db p s in
  match r with
  | None => (s1, Panicked)
  | Some (inl _) => (s1, Failed)
  | Some (inr rule) =>
      then_do (create_and_start rule s1) (fun s2 =>
        (s2, Replied ("Rule " ++ name ++ " was created successfully, please use 'bin/kuiper getstatus rule " ++ name ++ "' command to get rule status.")))
  end.

Definition rpc_DropRule (name cleaned : string) (s : Server) : Server * reply :=
  then_do (deleteRule name s) (fun s1 =>
    let (p, r) := ExecDrop ff rt config name cleaned (db s1) in
    match r with
    | None => (set_db p s1, Panicked)
    | Some (inl _) => (set_db p s1, Failed)
    | Some (inr t) => then_do (stopRule name (set_db p s1)) (fun s2 => (s2, Replied t))
    end).

(** ** What is told of a rule *)

Definition found_stopped : string := "Stopped: canceled manually or by error.".

(** [doGetRuleState]; a triggered rule without a topology would be a nil
    dereference. *)
Definition doGetRuleState (rs : RuleState) : option string :=
  if rs_Triggered rs then
    if rs_Topology rs then
      Some (match object_status rs with
            | Some Opened => "Running"
            | Some Cancelled => "Stopped: canceled by error."
            | Some Fresh | None => "Stopped: no context found."
            end)
    else None
  else Some found_stopped.

Definition getRuleState (name : string) (s : Server) : option (string + string) :=
  match loaded name s with
  | Some (_, rs) => option_map inr (doGetRuleState rs)
  | None => Some (inl ("Rule " ++ name ++ " is not found in registry"))
  end.

(** The order of [sort.Strings]. *)
Definition string_le (a b : string) : Prop := String.leb a b = true.
#[local] Instance string_le_dec a b : Decision (string_le a b) := bool_eq_dec _ _.

Definition rule_status (s : Server) (name : string) : option (string * string) :=
  match getRuleState name s with
  | None => None
  | Some (inl e) => Some (name, "error: " ++ e)
  | Some (inr t) => Some (name, t)
  end.

Definition getAllRulesWithStatus (s : Server) : Server * option (rp_error + list (string * string)) :=
  let (p, r) := GetAllRules (db s) in
  (set_db p s, match r with
               | inl e => Some (inl e)
               | inr names => option_map inr (mapM (rule_status s) (merge_sort string_le names))
               end).

Definition GetTopoGraph (rs : RuleState) : option PrintableTopo :=
  match rs_topoGraph rs with
  | Some g => Some g
  | None => if rs_Topology rs then option_map (fun o => t_topo (fst o)) (rs_object rs) else None
  end.

Definition getRuleTopo (name : string) (s : Server) : string + PrintableTopo :=
  match loaded name s with
  | Some (_, rs) =>
      match GetTopoGraph rs with
      | None => inl ("Fail to get rule " ++ name ++ "'s topo, make sure the rule has been started before")
      | Some g => inr g
      end
  | None => inl ("Rule " ++ name ++ " is not found")
  end.

(** ** Goroutines *)

(** A spawned goroutine starts: it reads the pointer to the topology and opens
    it.  An open topology stays open. *)
Definition run_goroutine (id : nat) (s : Server) : option Server :=
  match states s !! id with
  | Some rs =>
      if rs_Topology rs then
        Some (set_watching (watching s ++ [id]) (put_state id (with_status Opened rs) s))
      else None
  | None => None
  end.

Fixpoint run_all (l : list nat) (s : Server) : option Server :=
  match l with
  | [] => Some s
  | id :: l' => match run_goroutine id s with Some s' => run_all l' s' | None => None end
  end.

Definition settle (s : Server) : option Server := run_all (spawned s) (set_spawned [] s).

(** A running topology reports an error to a goroutine that waits for it, which
    cancels the topology and marks the rule. *)
Definition topology_fails (id : nat) (s : Server) : option Server :=
  match states s !! id with
  | Some rs =>
      match object_status rs with
      | Some Opened =>
          if existsb (Nat.eqb id) (watching s) then
            match Cancel id (set_watching (remove_one id (watching s)) s) with
            | None => None
            | Some s1 => Some (match states s1 !! id with Some rs1 => put_state id (untriggered rs1) s1 | None => s1 end)
            end
          else Some s
      | _ => Some s
      end
  | None => Some s
  end.

Inductive event : Type :=
  | Create (body : V)
  | Start (name : string)
  | StopIt (name : string)
  | Restart (name : string)
  | Update (name : string) (body : V)
  | Drop (name cleaned : string)
  | TopoFails (id : nat).

Definition handle (e : event) (s : Server) : option (Server * reply) :=
  match e with
  | Create b => Some (create_handler b s)
  | Start n => Some (startRule n s)
  | StopIt n => Some (stopRule n s)
  | Restart n => Some (restartRule n s)
  | Update n b => Some (update_handler n b s)
  | Drop n cl => Some (delete_handler n cl s)
  | TopoFails id => option_map (fun s' => (s', Replied "")) (topology_fails id s)
  end.

(** An event, and the goroutines it spawns start before the next one. *)
Definition prompt (e : event) (s : Server) : option (Server * reply) :=
  match handle e s with
  | Some (s1, r) => option_map (fun s2 => (s2, r)) (settle s1)
  | None => None
  end.

Definition boot (p : kv) : Server := mkServer p ∅ ∅ 0 [] [].

(** [StartUp]: every stored rule is recovered; a panic here ends the server. *)
Fixpoint recover_all (names : list string) (s : Server) : option Server :=
  match names with
  | [] => Some s
  | n :: names' =>
      match recoverRule n s with
      | (_, Panicked) => None
      | (s1, _) => match settle s1 with Some s' => recover_all names' s' | None => None end
      end
  end.

Definition StartUp (p : kv) : option Server :=
  match GetAllRules p with (p', inl _) => Some (boot p') | (p', inr rules) => recover_all rules (boot p') end.

Fixpoint serve (es : list event) (s : Server) : option (Server * list reply) :=
  match es with
  | [] => Some (s, [])
  | e :: es' =>
      match prompt e s with
      | Some (s1, r) => option_map (fun x => (fst x, r :: snd x)) (serve es' s1)
      | None => None
      end
  end.

(** ** What holds between events *)

#[local] Abbreviation represents_rules := (represents_rules ff rt config).
#[local] Abbreviation rule_ok := (rule_ok ff rt).

(** A triggered rule is registered and its topology is open with a goroutine
    that waits for it, or about to be; any other topology is cancelled. *)
Record state_ok (s : Server) (id : nat) (rs : RuleState) : Prop := {
  so_known : (id < next_state s)%nat;
  so_triggered : rs_Triggered rs = true -> rs_Topology rs = true /\ registry s !! rs_Name rs = Some id
    /\ (object_status rs = Some Fresh /\ In id (spawned s) \/ object_status rs = Some Opened /\ In id (watching s));
  so_stopped : rs_Triggered rs = false -> object_status rs = None \/ object_status rs = Some Cancelled }.

Record server_ok (c : gmap string Rule) (s : Server) : Prop := {
  sv_db : represents_rules (db s) c;
  sv_states : forall id rs, states s !! id = Some rs -> state_ok s id rs;
  sv_registry : forall n id, registry s !! n = Some id -> is_Some (c !! n) /\ exists rs, states s !! id = Some rs /\ rs_Name rs = n;
  sv_spawned : forall id, In id (spawned s) -> exists rs, states s !! id = Some rs /\ rs_Triggered rs = true }.

Definition running (s : Server) (n : string) : Prop :=
  exists id rs, registry s !! n = Some id /\ states s !! id = Some rs /\ rs_Triggered rs = true.

Lemma remove_one_other id x l : x <> id -> In x (remove_one id l) <-> In x l.
Proof.
  intros N. induction l as [|y l IH]; cbn; [reflexivity|]. destruct (Nat.eqb_spec y id) as [->|M]; cbn; [|rewrite IH; reflexivity].
  split; [auto|]. intros [E|H]; [congruence|exact H].
Qed.

Lemma existsb_eqb id l : existsb (Nat.eqb id) l = true <-> In id l.
Proof. rewrite existsb_exists. split; [intros (x & H & E); apply Nat.eqb_eq in E; now subst|]. intros H. exists id. split; [exact H|apply Nat.eqb_refl]. Qed.

Lemma server_ok_db c c' s p : server_ok c s -> represents_rules p c' -> (forall n, is_Some (c !! n) -> is_Some (c' !! n)) ->
  server_ok c' (set_db p s).
Proof.
  intros [A B C D] R H. split; cbn; auto.
  - intros id rs E. destruct (B id rs E) as [B1 B2 B3]. now split.
  - intros n id E. destruct (C n id E) as [C1 C2]. auto.
Qed.

(** *** Starting goroutines *)

Lemma run_goroutine_ok c s id l : server_ok c (set_spawned (id :: l) s) ->
  exists s', run_goroutine id (set_spawned l s) = Some s' /\ server_ok c s' /\ spawned s' = l /\ db s' = db s
    /\ (forall n, running s' n <-> running s n).
Proof.
  intros [A B C D]. cbn in *. destruct (D id (or_introl eq_refl)) as (rs & E & T). pose proof (B id rs E) as [B1 B2 _].
  destruct (B2 T) as (P & G & St). unfold run_goroutine. cbn. rewrite E, P. eexists. split; [reflexivity|].
  assert (Ob : object_status (with_status Opened rs) = Some Opened).
  { unfold object_status, with_status in *. cbn. destruct (rs_object rs); cbn in *; [reflexivity|]. destruct St as [[? _]|[? _]]; discriminate. }
  split; [|split; [reflexivity|split; [reflexivity|]]].
  - split; cbn.
    + exact A.
    + intros j x Ej. destruct (decide (id = j)) as [<-|N].
      * rewrite lookup_insert_eq in Ej. injection Ej as <-. split; cbn; [exact B1| |congruence].
        intros _. split; [exact P|]. split; [exact G|]. right. split; [exact Ob|]. apply in_or_app. right. now left.
      * rewrite lookup_insert_ne in Ej by exact N. destruct (B j x Ej) as [X1 X2 X3]. split; cbn; auto. intros Tx.
        destruct (X2 Tx) as (Y1 & Y2 & [[Y3 [Y4|Y4]]|[Y3 Y4]]); [contradiction|split; auto|]. split; [exact Y1|]. split; [exact Y2|]. right. split; [exact Y3|].
        apply in_or_app. now left.
    + intros n j Ej. destruct (C n j Ej) as (Y1 & x & Y2 & Y3). split; [exact Y1|]. destruct (decide (id = j)) as [<-|N].
      * rewrite lookup_insert_eq. eexists. split; [reflexivity|]. cbn. congruence.
      * rewrite lookup_insert_ne by exact N. eauto.
    + intros j H. destruct (D j (or_intror H)) as (x & Y1 & Y2). destruct (decide (id = j)) as [<-|N].
      * rewrite lookup_insert_eq. eexists. split; [reflexivity|]. exact T.
      * rewrite lookup_insert_ne by exact N. eauto.
  - intros n. unfold running. cbn. split; intros (j & x & Y1 & Y2 & Y3); exists j.
    + destruct (decide (id = j)) as [<-|N]; [exists rs; auto|]. rewrite lookup_insert_ne in Y2 by exact N. eauto.
    + destruct (decide (id = j)) as [<-|N]; [|rewrite lookup_insert_ne by exact N; eauto]. rewrite lookup_insert_eq. eexists. eauto.
Qed.

Lemma set_spawned_same s : set_spawned (spawned s) s = s.
Proof. now destruct s. Qed.

Lemma run_all_ok c l : forall s, server_ok c (set_spawned l s) ->
  exists s', run_all l (set_spawned [] s) = Some s' /\ server_ok c s' /\ spawned s' = [] /\ db s' = db s
    /\ (forall n, running s' n <-> running s n).
Proof.
  induction l as [|id l IH]; intros s O; cbn [run_all].
  - eexists. split; [reflexivity|]. split; [exact O|]. split; [reflexivity|]. split; [reflexivity|]. intros n. reflexivity.
  - assert (E : forall l1 l2, run_goroutine id (set_spawned l1 s) = option_map (set_spawned l1) (run_goroutine id (set_spawned l2 s))).
    { intros l1 l2. unfold run_goroutine. cbn. destruct (states s !! id) as [rs|]; [|reflexivity]. now destruct (rs_Topology rs). }
    destruct (run_goroutine_ok c s id l O) as (s1 & R & O1 & S1 & D1 & N1). rewrite (E [] l), R. cbn.
    destruct (IH s1) as (s' & R' & O' & S' & D' & N'); [rewrite <- S1, set_spawned_same; exact O1|].
    exists s'. split; [exact R'|]. split; [exact O'|]. split; [exact S'|]. split; [congruence|]. intros n. now rewrite N', N1.
Qed.

Lemma settle_ok c s : server_ok c s ->
  exists s', settle s = Some s' /\ server_ok c s' /\ spawned s' = [] /\ db s' = db s /\ (forall n, running s' n <-> running s n).
Proof. intros O. apply run_all_ok. now rewrite set_spawned_same. Qed.

(** *** Ending a rule *)

(** The state is replaced by one that is not triggered, and perhaps the rule is
    not registered any more. *)
Lemma end_state_ok c s id rs x reg : server_ok c s -> spawned s = [] -> states s !! id = Some rs -> registry s !! rs_Name rs = Some id ->
  rs_Name x = rs_Name rs -> rs_Triggered x = false -> object_status x = None \/ object_status x = Some Cancelled ->
  (forall n j, reg !! n = Some j -> registry s !! n = Some j) -> (forall n, n <> rs_Name rs -> reg !! n = registry s !! n) ->
  forall w, (forall j, j <> id -> In j (watching s) -> In j w) ->
  let s' := mkServer (db s) reg (<[id := x]> (states s)) (next_state s) [] w in
  server_ok c s' /\ forall n, running s' n <-> running s n /\ n <> rs_Name rs.
Proof.
  intros [A B C D] S0 E Rg Nm T Ob R1 R2 w W. cbv zeta. split.
  - split; cbn; auto; try easy.
    + intros j y Ej. destruct (decide (id = j)) as [<-|N].
      * rewrite lookup_insert_eq in Ej. injection Ej as <-. split; cbn; [apply (B id rs E)|congruence|auto].
      * rewrite lookup_insert_ne in Ej by exact N. destruct (B j y Ej) as [X1 X2 X3]. split; cbn; auto. intros Ty.
        destruct (X2 Ty) as (Y1 & Y2 & [[_ Y4]|[Y3 Y4]]); [rewrite S0 in Y4; easy|]. split; [exact Y1|]. split; [|right; auto].
        rewrite R2; [exact Y2|]. congruence.
    + intros n j Ej. destruct (C n j (R1 n j Ej)) as (Y1 & y & Y2 & Y3). split; [exact Y1|]. destruct (decide (id = j)) as [<-|N].
      * rewrite lookup_insert_eq. eexists. split; [reflexivity|]. congruence.
      * rewrite lookup_insert_ne by exact N. eauto.
  - intros n. unfold running. cbn. split.
    + intros (j & y & Y1 & Y2 & Y3). destruct (decide (id = j)) as [<-|N]; [rewrite lookup_insert_eq in Y2; congruence|].
      rewrite lookup_insert_ne in Y2 by exact N. apply R1 in Y1. split; [now exists j, y|]. congruence.
    + intros [(j & y & Y1 & Y2 & Y3) M]. assert (N : id <> j).
      { intros <-. destruct (C n id Y1) as (_ & y' & Z1 & Z2). congruence. }
      exists j, y. rewrite R2, lookup_insert_ne by assumption. auto.
Qed.

(** *** Registering a new state *)

Lemma register_ok c s r x : server_ok c s -> spawned s = [] -> is_Some (c !! rs_Name x) -> ~ running s (rs_Name x) -> r = rs_Name x ->
  (rs_Triggered x = true -> rs_Topology x = true /\ object_status x = Some Fresh) -> (rs_Triggered x = false -> object_status x = None) ->
  let s' := mkServer (db s) (<[r := next_state s]> (registry s)) (<[next_state s := x]> (states s)) (S (next_state s))
              (if rs_Triggered x then [next_state s] else []) (watching s) in
  server_ok c s' /\ forall n, running s' n <-> running s n \/ (n = r /\ rs_Triggered x = true).
Proof.
  intros [A B C D] S0 Hc Nr -> T F. cbv zeta. set (id := next_state s). set (n0 := rs_Name x) in *.
  assert (Fr : forall j y, states s !! j = Some y -> j <> id) by (intros j y E; pose proof (so_known s j y (B j y E)); lia). split.
  - split; cbn; auto.
    + intros j y Ej. destruct (decide (id = j)) as [<-|N].
      * rewrite lookup_insert_eq in Ej. injection Ej as <-. split; cbn; [lia| |intros T'; left; auto].
        intros T'. destruct (T T') as [T1 T2]. split; [exact T1|]. fold n0. rewrite lookup_insert_eq, T'. split; [reflexivity|]. left. split; [exact T2|now left].
      * rewrite lookup_insert_ne in Ej by exact N. destruct (B j y Ej) as [X1 X2 X3]. split; cbn; [lia| |exact X3]. intros Ty.
        destruct (X2 Ty) as (Y1 & Y2 & [[_ Y4]|[Y3 Y4]]); [rewrite S0 in Y4; easy|]. split; [exact Y1|]. split; [|right; auto].
        rewrite lookup_insert_ne; [exact Y2|]. intros E. apply Nr. exists j, y. rewrite E. auto.
    + intros n j Ej. destruct (decide (n0 = n)) as [<-|N].
      * rewrite lookup_insert_eq in Ej. injection Ej as <-. split; [exact Hc|]. exists x. now rewrite lookup_insert_eq.
      * rewrite lookup_insert_ne in Ej by exact N. destruct (C n j Ej) as (Y1 & y & Y2 & Y3). split; [exact Y1|]. exists y.
        rewrite lookup_insert_ne by (intros <-; now apply (Fr _ _ Y2)). auto.
    + intros j H. destruct (rs_Triggered x) eqn:T'; [|easy]. destruct H as [<-|[]]. exists x. now rewrite lookup_insert_eq.
  - intros n. unfold running. cbn. split.
    + intros (j & y & Y1 & Y2 & Y3). destruct (decide (id = j)) as [<-|N].
      * rewrite lookup_insert_eq in Y2. injection Y2 as <-. right. split; [|exact Y3]. destruct (decide (n0 = n)) as [<-|M]; [reflexivity|].
        rewrite lookup_insert_ne in Y1 by exact M. destruct (C n id Y1) as (_ & y & Z1 & _). now apply Fr in Z1.
      * rewrite lookup_insert_ne in Y2 by exact N. destruct (decide (n0 = n)) as [<-|M]; [rewrite lookup_insert_eq in Y1; congruence|].
        rewrite lookup_insert_ne in Y1 by exact M. left. now exists j, y.
    + intros [(j & y & Y1 & Y2 & Y3)|[-> T']].
      * exists j, y. rewrite lookup_insert_ne by (intros ->; apply Nr; now exists j, y). rewrite lookup_insert_ne by (intros <-; now apply (Fr _ _ Y2)). auto.
      * exists id, x. fold n0. now rewrite !lookup_insert_eq.
Qed.

(** *** The handlers *)

Lemma Cancel_open id s rs : states s !! id = Some rs -> object_status rs = Some Opened -> exists x w,
  Cancel id s = Some (mkServer (db s) (registry s) (<[id := x]> (states s)) (next_state s) (spawned s) w)
  /\ rs_Name x = rs_Name rs /\ object_status x = Some Cancelled /\ (rs_Triggered rs = false \/ In id (watching s) -> rs_Triggered x = false)
  /\ forall j, j <> id -> In j (watching s) -> In j w.
Proof.
  intros E Ob. unfold Cancel. rewrite E, Ob.
  assert (Ox : object_status (with_status Cancelled rs) = Some Cancelled).
  { unfold object_status, with_status in *. cbn. destruct (rs_object rs); [reflexivity|discriminate]. }
  destruct (existsb (Nat.eqb id) (watching s)) eqn:W.
  - exists (untriggered (with_status Cancelled rs)), (remove_one id (watching s)). repeat split; auto.
    intros j N. now apply remove_one_other.
  - exists (with_status Cancelled rs), (watching s). repeat split; auto. intros [H|H]; [exact H|].
    apply existsb_eqb in H. congruence.
Qed.

Lemma plain_rule c p n : represents_rules p c -> is_Some (c !! n) -> plain n.
Proof. intros R [r E]. now destruct (rr_some _ _ _ _ _ R n r E). Qed.

(** Storing a state changes the catalogue or nothing. *)
Definition state_stored (n : string) (b : bool) (c c' : gmap string Rule) : Prop :=
  c' = c \/ exists r, c !! n = Some r /\ c' = <[n := set_triggered b r]> c.

Lemma state_stored_some n b c c' k : state_stored n b c c' -> is_Some (c !! k) -> is_Some (c' !! k).
Proof.
  intros [->|(r & E & ->)] H; [exact H|]. destruct (decide (n = k)) as [<-|N]; [rewrite lookup_insert_eq; eauto|now rewrite lookup_insert_ne].
Qed.

Lemma store_state_ok c s n b : represents_rules (db s) c -> plain n -> exists p c',
  store_state n b s = Some (set_db p s) /\ represents_rules p c' /\ state_stored n b c c'
  /\ (healthy (db s) -> healthy p /\ forall r, c !! n = Some r -> c' = <[n := set_triggered b r]> c).
Proof.
  intros R P. unfold store_state. pose proof (ExecReplaceRuleState_spec ff rt config n b (db s) c R P) as S.
  destruct (ExecReplaceRuleState ff rt config n b (db s)) as [p [[e|]|]]; destruct S as [H S]; [| |easy].
  - destruct S as [S1 S2]. exists p, c. split; [reflexivity|]. split; [exact S1|]. split; [now left|].
    intros Hh. split; [auto|]. intros r E. now rewrite S2 in E.
  - destruct S as (r & E & S). exists p, (<[n := set_triggered b r]> c). split; [reflexivity|]. split; [exact S|]. split; [right; eauto|].
    intros Hh. split; [auto|]. intros r' E'. congruence.
Qed.

(** Spawning the goroutine of a state; the other facts hold for the state with
    the goroutine. *)
Lemma doStartRule_ok c s id rs : server_ok c (set_spawned (spawned s ++ [id]) s) -> states s !! id = Some rs -> rs_Triggered rs = true ->
  exists s' c', doStartRule id s = (s', Replied "") /\ server_ok c' s' /\ state_stored (rs_Name rs) true c c' /\ (forall n, running s' n <-> running s n)
  /\ (healthy (db s) -> healthy (db s') /\ forall r, c !! rs_Name rs = Some r -> c' = <[rs_Name rs := set_triggered true r]> c).
Proof.
  intros O E T. assert (P : plain (rs_Name rs)).
  { destruct (so_triggered _ _ _ (sv_states _ _ O id rs E) T) as (_ & G & _). apply (plain_rule c (db s)); [apply O|]. now apply (sv_registry _ _ O _ id). }
  unfold doStartRule. rewrite E. destruct (store_state_ok c s (rs_Name rs) true (sv_db _ _ O) P) as (p & c' & -> & R & St & Hh).
  eexists _, c'. split; [reflexivity|]. split; [|split; [exact St|split; [reflexivity|exact Hh]]].
  apply (server_ok_db c c' _ p O R). intros k. eapply state_stored_some; eauto.
Qed.

Lemma spawn_ok c s id rs : server_ok c s -> states s !! id = Some rs -> rs_Triggered rs = true -> server_ok c (set_spawned (spawned s ++ [id]) s).
Proof.
  intros [A B C D] E T. split; cbn; auto.
  - intros j x Ej. destruct (B j x Ej) as [X1 X2 X3]. split; cbn; auto. intros Tx. destruct (X2 Tx) as (Y1 & Y2 & [[Y3 Y4]|Y3]); split; auto.
    split; [exact Y2|]. left. split; [exact Y3|]. apply in_or_app. now left.
  - intros j H. apply in_app_or in H as [H|[<-|[]]]; [now apply D|eauto].
Qed.

Lemma Plan_some rule : (exists o, r_Options rule = Some o) -> Plan ff rt GetDataSource rule <> None.
Proof.
  intros [o E]. unfold Plan. rewrite E. destruct (GetStatementFromSql ff rt (r_Sql rule)) as [[e|st]|] eqn:G; [discriminate| |now apply GetStatementFromSql_total in G].
  destruct (SendMetaToSink o && _); [discriminate|]. destruct (Analyzer.plan _ _ _ _); [discriminate|]. now destruct (createTopo _ _ _ _ _).
Qed.

(** Whether a rule can be planned. *)
Definition plannable (rule : Rule) : Prop := exists tp, Plan ff rt GetDataSource rule = Some (inr tp).

Lemma create_and_start_ok c s rule : server_ok c s -> spawned s = [] -> is_Some (c !! r_Id rule) -> ~ running s (r_Id rule) ->
  (exists o, r_Options rule = Some o) -> exists s' r c',
  create_and_start rule s = (s', r) /\ r <> Panicked /\ server_ok c' s' /\ state_stored (r_Id rule) true c c'
  /\ (forall n, running s' n <-> running s n \/ (n = r_Id rule /\ plannable rule))
  /\ (~ plannable rule -> c' = c)
  /\ (healthy (db s) -> healthy (db s') /\
        (plannable rule -> forall x, c !! r_Id rule = Some x -> c' = <[r_Id rule := set_triggered true x]> c)).
Proof.
  intros O S0 I N Op. unfold create_and_start, createRuleState, plannable. destruct (Plan ff rt GetDataSource rule) as [[e|tp]|] eqn:P; [| |now apply Plan_some in P].
  - destruct (register_ok c s (r_Id rule) (mkRS (r_Id rule) false false None None) O S0 I N eq_refl) as [O' R]; [discriminate|reflexivity|].
    cbn in O', R. rewrite S0. eexists _, _, c. split; [reflexivity|]. split; [discriminate|]. split; [exact O'|]. split; [now left|]. split.
    + intros n. rewrite R. split; [intros [H|[_ H]]; [now left|discriminate]|]. intros [H|[_ [t H]]]; [now left|discriminate].
    + split; [reflexivity|]. intros H. split; [exact H|]. intros [t Ht]. congruence.
  - destruct (register_ok c s (r_Id rule) (mkRS (r_Id rule) true true (Some (tp, Fresh)) None) O S0 I N eq_refl) as [O' R]; [auto|discriminate|].
    cbn in O', R. rewrite S0. set (s1 := mkServer _ _ _ _ [] _).
    destruct (doStartRule_ok c s1 (next_state s) (mkRS (r_Id rule) true true (Some (tp, Fresh)) None)) as (s2 & c' & E & O2 & St & R2 & H2);
      [exact O'|apply lookup_insert_eq|reflexivity|].
    rewrite E. exists s2, (Replied ""), c'. split; [reflexivity|]. split; [discriminate|]. split; [exact O2|]. split; [exact St|]. split.
    + intros n. rewrite R2. transitivity (running s n \/ n = r_Id rule /\ true = true); [exact (R n)|].
      split; (intros [H|[H _]]; [now left|right; eauto]).
    + split; [intros H; exfalso; eauto|]. intros H. destruct (H2 H) as [H3 H4]. split; [exact H3|]. intros _. exact H4.
Qed.

Lemma getRule_ok c s n : server_ok c s -> plain n -> exists p r, GetRuleByName ff rt config n (db s) = (p, Some r)
  /\ represents_rules p c /\ (healthy (db s) -> healthy p) /\
  match r with
  | inr r => c !! n = Some r /\ r_Id r = n /\ exists o, r_Options r = Some o
  | inl _ => healthy (db s) -> c !! n = None
  end.
Proof.
  intros O P. pose proof (GetRuleByName_spec ff rt config (db s) c n (sv_db _ _ O) P) as S.
  destruct (GetRuleByName ff rt config n (db s)) as [p [[e|r]|]]; destruct S as (S1 & S2 & S3); [| |easy].
  - exists p, (inl e). auto.
  - exists p, (inr r). destruct S3 as (E & v & G & I & _). split; [reflexivity|]. split; [exact S1|]. split; [exact S2|]. split; [exact E|]. split; [exact I|]. destruct (ok_options _ _ _ (accepted_ok _ _ _ _ _ _ G)) as (o & Eo & _). eauto.
Qed.

(** The rule that is loaded under a name. *)
Lemma loaded_ok c s n : server_ok c s ->
  match loaded n s with
  | Some (id, rs) => registry s !! n = Some id /\ states s !! id = Some rs /\ rs_Name rs = n /\ (running s n <-> rs_Triggered rs = true)
  | None => ~ running s n
  end.
Proof.
  intros O. unfold loaded. destruct (registry s !! n) as [id|] eqn:E.
  - destruct (sv_registry _ _ O n id E) as (_ & rs & Er & Nm). rewrite Er. repeat split; auto.
    + intros (j & x & Y1 & Y2 & Y3). congruence.
    + intros T. now exists id, rs.
  - intros (j & x & Y1 & _). congruence.
Qed.

(** A rule that does not run is read and planned again. *)
Lemma start_stopped c s n : server_ok c s -> spawned s = [] -> plain n -> ~ running s n -> exists s' r c',
  (let (p, r) := GetRuleByName ff rt config n (db s) in
   match r with
   | None => (set_db p s, Panicked)
   | Some (inl _) => (set_db p s, Failed)
   | Some (inr rule) => create_and_start rule (set_db p s)
   end) = (s', r) /\ r <> Panicked /\ server_ok c' s' /\ state_stored n true c c'
  /\ (forall k, k <> n -> running s' k <-> running s k)
  /\ (healthy (db s) -> healthy (db s') /\ forall x, c !! n = Some x ->
        (running s' n <-> running s n \/ plannable x) /\ (running s' n -> c' = <[n := set_triggered true x]> c)
        /\ (~ running s' n -> c' = c)).
Proof.
  intros O S0 P N. destruct (getRule_ok c s n O P) as (p & [e|rule] & -> & R & Hh & G).
  - exists (set_db p s), Failed, c. split; [reflexivity|]. split; [discriminate|]. split; [now apply (server_ok_db c c)|]. split; [now left|].
    split; [reflexivity|]. intros H. split; [now apply Hh|]. intros x E. now rewrite (G H) in E.
  - destruct G as (E & I & Op).
    destruct (create_and_start_ok c (set_db p s) rule) as (s' & r & c' & -> & Np & O' & St & Rn & Un & H); auto.
    + now apply (server_ok_db c c).
    + rewrite I. eauto.
    + rewrite I. exact N.
    + rewrite I in *. exists s', r, c'. split; [reflexivity|]. split; [exact Np|]. split; [exact O'|]. split; [exact St|]. split.
      * intros k Nk. rewrite Rn. split; [intros [A|[A _]]; [exact A|contradiction]|]. now left.
      * intros Hd. destruct (H (Hh Hd)) as [H1 H2]. split; [exact H1|]. intros x Ex. rewrite E in Ex. injection Ex as <-. rewrite Rn. split.
        -- split; [intros [A|[_ A]]; [now left|now right]|]. intros [A|A]; [now left|now right].
        -- split; [intros [A|[_ A]]; [contradiction|]; now apply H2|]. intros A. apply Un. intros B. apply A. now right.
Qed.

(** Starting a rule: no panic, the others are left alone, and in a database
    without errors the rule runs and is stored as triggered if it ran already or
    can be planned. *)
Lemma startRule_ok c s n : server_ok c s -> spawned s = [] -> plain n -> exists s' r c',
  startRule n s = (s', r) /\ r <> Panicked /\ server_ok c' s' /\ state_stored n true c c'
  /\ (forall k, k <> n -> running s' k <-> running s k)
  /\ (healthy (db s) -> healthy (db s') /\ forall x, c !! n = Some x ->
        (running s' n <-> running s n \/ plannable x) /\ (running s' n -> c' = <[n := set_triggered true x]> c)
        /\ (~ running s' n -> c' = c)).
Proof.
  intros O S0 P. unfold startRule. pose proof (loaded_ok c s n O) as Ld. destruct (loaded n s) as [[id rs]|] eqn:El.
  1: destruct Ld as (Rg & Es & Nm & Rn); destruct (rs_Triggered rs) eqn:T.
  - destruct (doStartRule_ok c s id rs) as (s' & c' & E & O' & St & R & H); [now apply (spawn_ok c s id rs)|exact Es|exact T|].
    rewrite Nm in *. exists s', (Replied ""), c'. split; [exact E|]. split; [discriminate|]. split; [exact O'|]. split; [exact St|].
    split; [intros k _; apply R|]. intros Hd. destruct (H Hd) as [H1 H2]. split; [exact H1|]. intros x Ex. rewrite R.
    assert (N : running s n) by now apply Rn. split; [|split; [intros _; now apply H2|now intros []]]. split; [now left|now intros _].
  - apply (start_stopped c); [exact O|exact S0|exact P|]. intros H. apply Rn in H. discriminate.
  - now apply (start_stopped c).
Qed.

(** *** Stopping, dropping, failing *)

Lemma triggered_open c s id rs : server_ok c s -> spawned s = [] -> states s !! id = Some rs -> rs_Triggered rs = true ->
  rs_Topology rs = true /\ object_status rs = Some Opened /\ In id (watching s).
Proof.
  intros O S0 E T. destruct (so_triggered _ _ _ (sv_states _ _ O id rs E) T) as (P & _ & [[_ H]|H]); [now rewrite S0 in H|auto].
Qed.

Lemma Stop_ok c s id rs : server_ok c s -> spawned s = [] -> states s !! id = Some rs -> registry s !! rs_Name rs = Some id -> rs_Triggered rs = true ->
  exists s', Stop id rs s = (s', true) /\ server_ok c s' /\ spawned s' = [] /\ db s' = db s
  /\ forall k, running s' k <-> running s k /\ k <> rs_Name rs.
Proof.
  intros O S0 E Rg T. destruct (triggered_open c s id rs O S0 E T) as (P & Ob & W). unfold Stop. rewrite P.
  destruct (Cancel_open id (put_state id (untriggered rs) s) (untriggered rs)) as (x & w & -> & Nm & Ox & Tx & Hw); [apply lookup_insert_eq|exact Ob|].
  cbn [states put_state]. rewrite lookup_insert_eq. unfold put_state. cbn. rewrite !insert_insert_eq, S0.
  set (y := mkRS (rs_Name x) (rs_Triggered x) false _ _).
  destruct (end_state_ok c s id rs y (registry s) O S0 E Rg Nm (Tx (or_introl eq_refl)) (or_intror Ox) (fun _ _ H => H) (fun _ _ => eq_refl) w Hw) as [O' R].
  eexists. split; [reflexivity|]. split; [exact O'|]. split; [reflexivity|]. split; [reflexivity|exact R].
Qed.

(** Stopping: no panic; the rule does not run any more, and in a database
    without errors this is stored if it ran. *)
Lemma stopRule_ok c s n : server_ok c s -> spawned s = [] -> exists s' t c',
  stopRule n s = (s', Replied t) /\ server_ok c' s' /\ spawned s' = [] /\ state_stored n false c c'
  /\ (forall k, running s' k <-> running s k /\ k <> n) /\ (~ running s n -> s' = s /\ c' = c)
  /\ (healthy (db s) -> healthy (db s') /\ (running s n -> forall x, c !! n = Some x -> c' = <[n := set_triggered false x]> c)).
Proof.
  intros O S0. unfold stopRule. pose proof (loaded_ok c s n O) as Ld.
  assert (Idle : ~ running s n -> exists s' t c', (s, Replied ("Rule " ++ n ++ " was not found.")) = (s', Replied t) /\ server_ok c' s' /\ spawned s' = []
    /\ state_stored n false c c' /\ (forall k, running s' k <-> running s k /\ k <> n) /\ (~ running s n -> s' = s /\ c' = c)
    /\ (healthy (db s) -> healthy (db s') /\ (running s n -> forall x, c !! n = Some x -> c' = <[n := set_triggered false x]> c))).
  { intros N. exists s, ("Rule " ++ n ++ " was not found."), c. do 3 (split; [auto|]). split; [now left|]. split; [|now split].
    intros k. split; [|tauto]. intros H. split; [exact H|]. now intros ->. }
  destruct (loaded n s) as [[id rs]|]; [|now apply Idle]. destruct Ld as (Rg & Es & <- & Rn).
  destruct (rs_Triggered rs) eqn:T; [|apply Idle; intros H; now apply Rn in H].
  destruct (Stop_ok c s id rs O S0 Es Rg T) as (s1 & -> & O1 & S1 & D1 & R1).
  assert (P : plain (rs_Name rs)) by (apply (plain_rule c (db s) _ (sv_db _ _ O)), (sv_registry _ _ O _ _ Rg)).
  destruct (store_state_ok c s1 (rs_Name rs) false (sv_db _ _ O1) P) as (p & c' & -> & R & St & Hh). rewrite D1 in Hh.
  exists (set_db p s1), ("Rule " ++ rs_Name rs ++ " was stopped."), c'. split; [reflexivity|]. split; [|split; [exact S1|split; [exact St|split; [exact R1|split]]]].
  - apply (server_ok_db c c' s1 p O1 R). intros k. eapply state_stored_some; eauto.
  - intros N. exfalso. apply N, Rn. reflexivity.
  - intros H. destruct (Hh H) as [H1 H2]. split; [exact H1|]. intros _. exact H2.
Qed.

Lemma unregister_ok c s n : server_ok c s -> ~ running s n -> server_ok c (unregister n s).
Proof.
  intros [A B C D] N. split; cbn; auto.
  - intros id rs E. destruct (B id rs E) as [X1 X2 X3]. split; cbn; auto. intros T. destruct (X2 T) as (Y1 & Y2 & Y3). split; [exact Y1|]. split; [|exact Y3].
    rewrite lookup_delete_ne; [exact Y2|]. intros ->. apply N. now exists id, rs.
  - intros k id E. apply lookup_delete_Some in E as [_ E]. eauto.
Qed.

Lemma deleteRule_ok c s n : server_ok c s -> spawned s = [] -> exists s' t,
  deleteRule n s = (s', Replied t) /\ server_ok c s' /\ spawned s' = [] /\ db s' = db s /\ registry s' !! n = None
  /\ forall k, running s' k <-> running s k /\ k <> n.
Proof.
  intros O S0. unfold deleteRule. pose proof (loaded_ok c s n O) as Ld. destruct (loaded n s) as [[id rs]|] eqn:El.
  1: destruct Ld as (Rg & Es & <- & Rn); destruct (rs_Triggered rs) eqn:T.
  - destruct (triggered_open c s id rs O S0 Es T) as (P & Ob & W). rewrite P.
    destruct (Cancel_open id (unregister (rs_Name rs) s) rs Es Ob) as (x & w & -> & Nm & Ox & Tx & Hw). cbn. rewrite S0.
    destruct (end_state_ok c s id rs x (delete (rs_Name rs) (registry s)) O S0 Es Rg Nm (Tx (or_intror W)) (or_intror Ox)) with (w := w) as [O' R].
    + intros k j H. now apply lookup_delete_Some in H.
    + intros k N. now rewrite lookup_delete_ne by congruence.
    + exact Hw.
    + eexists _, _. split; [reflexivity|]. split; [exact O'|]. do 2 (split; [reflexivity|]). split; [apply lookup_delete_eq|exact R].
  - assert (N : ~ running s (rs_Name rs)) by (intros H; now apply Rn in H).
    eexists _, _. split; [reflexivity|]. split; [now apply unregister_ok|]. split; [exact S0|]. split; [reflexivity|]. split; [apply lookup_delete_eq|].
    intros k. unfold running. cbn. split.
    + intros (j & y & Y1 & Y2 & Y3). apply lookup_delete_Some in Y1 as [M Y1]. split; [now exists j, y|congruence].
    + intros [(j & y & Y1 & Y2 & Y3) M]. exists j, y. rewrite lookup_delete_ne by congruence. auto.
  - exists s. eexists. split; [reflexivity|]. split; [exact O|]. split; [exact S0|]. split; [reflexivity|]. split.
    + destruct (registry s !! n) as [id|] eqn:E; [|reflexivity]. destruct (sv_registry _ _ O n id E) as (_ & rs & Er & _). unfold loaded in El. now rewrite E, Er in El.
    + intros k. split; [|tauto]. intros H. split; [exact H|]. now intros ->.
Qed.

Lemma topology_fails_ok c s id : server_ok c s -> spawned s = [] ->
  exists s', topology_fails id s = Some s' /\ server_ok c s' /\ spawned s' = [] /\ db s' = db s
  /\ forall k, running s' k <-> running s k /\ ~ exists rs, states s !! id = Some rs /\ rs_Name rs = k /\ object_status rs = Some Opened.
Proof.
  intros O S0. unfold topology_fails.
  assert (Same : (~ exists rs, states s !! id = Some rs /\ object_status rs = Some Opened) -> exists s', Some s = Some s' /\ server_ok c s'
    /\ spawned s' = [] /\ db s' = db s
    /\ forall k, running s' k <-> running s k /\ ~ exists rs, states s !! id = Some rs /\ rs_Name rs = k /\ object_status rs = Some Opened).
  { intros N. exists s. do 4 (split; [auto|]). intros k. split; [|tauto]. intros H. split; [exact H|].
    intros (rs & E & _ & Ob). apply N. eauto. }
  destruct (states s !! id) as [rs|] eqn:E; [|apply Same; now intros (x & X & _)].
  destruct (object_status rs) as [[| |]|] eqn:Ob; try (apply Same; intros (x & X & Y); congruence).
  assert (T : rs_Triggered rs = true).
  { destruct (rs_Triggered rs) eqn:T; [reflexivity|]. destruct (so_stopped _ _ _ (sv_states _ _ O id rs E) T); congruence. }
  destruct (triggered_open c s id rs O S0 E T) as (_ & _ & W). apply existsb_eqb in W as ->.
  destruct (Cancel_open id (set_watching (remove_one id (watching s)) s) rs E Ob) as (x & w & -> & Nm & Ox & _ & Hw).
  cbn [states]. rewrite lookup_insert_eq. unfold put_state. cbn. rewrite insert_insert_eq, S0.
  destruct (so_triggered _ _ _ (sv_states _ _ O id rs E) T) as (_ & Rg & _).
  destruct (end_state_ok c s id rs (untriggered x) (registry s) O S0 E Rg Nm eq_refl (or_intror Ox) (fun _ _ H => H) (fun _ _ => eq_refl) w) as [O' R].
  { intros j N H. apply Hw; [exact N|]. now apply remove_one_other. }
  eexists. split; [reflexivity|]. split; [exact O'|]. split; [reflexivity|]. split; [reflexivity|].
  intros k. split.
  - intros H. apply R in H as [H N]. split; [exact H|]. intros (y & Ey & Ny & _). congruence.
  - intros [H N]. apply R. split; [exact H|]. intros ->. apply N. eauto.
Qed.

(** ** What an event does to the catalogue and to the set of running rules *)

Definition unchanged (c : gmap string Rule) (run : string -> Prop) (c' : gmap string Rule) (run' : string -> Prop) : Prop :=
  c' = c /\ forall k, run' k <-> run k.

(** A rule that runs keeps running, one that does not runs if it can be planned;
    this is stored. *)
Definition started (n : string) (c : gmap string Rule) (run : string -> Prop) (c' : gmap string Rule) (run' : string -> Prop) : Prop :=
  (forall k, k <> n -> run' k <-> run k) /\
  match c !! n with
  | None => c' = c /\ ~ run' n
  | Some x => (run' n <-> run n \/ plannable x) /\ (run' n -> c' = <[n := set_triggered true x]> c) /\ (~ run' n -> c' = c)
  end.

Definition stopped (n : string) (c : gmap string Rule) (run : string -> Prop) (c' : gmap string Rule) (run' : string -> Prop) : Prop :=
  (forall k, run' k <-> run k /\ k <> n) /\
  (run n -> forall x, c !! n = Some x -> c' = <[n := set_triggered false x]> c) /\ (~ run n -> c' = c).

Definition restarted (n : string) (c : gmap string Rule) (run : string -> Prop) (c' : gmap string Rule) (run' : string -> Prop) : Prop :=
  exists c1 run1, stopped n c run c1 run1 /\ started n c1 run1 c' run'.

Definition effect (e : event) (c : gmap string Rule) (run : string -> Prop) (c' : gmap string Rule) (run' : string -> Prop) : Prop :=
  match e with
  | Create b =>
      match getRuleByJson ff rt config "" b with
      | Some (inr r) =>
          match c !! r_Id r with
          | None => started (r_Id r) (<[r_Id r := r]> c) run c' run'
          | Some _ => unchanged c run c' run'
          end
      | _ => unchanged c run c' run'
      end
  | Start n => started n c run c' run'
  | StopIt n => stopped n c run c' run'
  | Restart n => restarted n c run c' run'
  | Update n b =>
      match c !! n, getRuleByJson ff rt config n b with
      | Some _, Some (inr r) => restarted n (<[n := r]> c) run c' run'
      | _, _ => unchanged c run c' run'
      end
  | Drop n _ => c' = delete n c /\ forall k, run' k <-> run k /\ k <> n
  | TopoFails _ => c' = c /\ (forall k, run' k -> run k) /\ exists n, forall k, k <> n -> run' k <-> run k
  end.

(** The names and bodies of requests: no quotes, and a body that is not null. *)
Definition event_ok (e : event) : Prop :=
  match e with
  | Create b => valid_text "" /\ getRuleByJson ff rt config "" b <> None /\ forall r, getRuleByJson ff rt config "" b = Some (inr r) -> plain (r_Id r)
  | Update n b => n <> "" /\ plain n /\ valid_text n /\ getRuleByJson ff rt config n b <> None
  | Start n | StopIt n | Restart n | Drop n _ => plain n
  | TopoFails _ => True
  end.

(** An operation of the server: it does not panic, keeps the invariant, and has
    its effect in a database without errors. *)
Definition does (op : Server * reply) (s : Server) (eff : (gmap string Rule) -> (string -> Prop) -> Prop) : Prop := exists s' r c',
  op = (s', r) /\ r <> Panicked /\ server_ok c' s' /\ (healthy (db s) -> healthy (db s') /\ eff c' (running s')).

Lemma not_stored c s n : server_ok c s -> c !! n = None -> ~ running s n.
Proof. intros O E (id & rs & Rg & _). destruct (sv_registry _ _ O n id Rg) as [[x X] _]. congruence. Qed.

Lemma startRule_does c s n : server_ok c s -> spawned s = [] -> plain n -> does (startRule n s) s (started n c (running s)).
Proof.
  intros O S0 P. destruct (startRule_ok c s n O S0 P) as (s' & r & c' & E & Np & O' & St & Rk & H).
  exists s', r, c'. do 3 (split; [assumption|]). intros Hd. destruct (H Hd) as [H1 H2]. split; [exact H1|]. split; [exact Rk|].
  destruct (c !! n) as [x|] eqn:Ex; [now apply H2|]. assert (c' = c) as -> by (destruct St as [->|(x & X & _)]; [reflexivity|congruence]).
  split; [reflexivity|]. now apply (not_stored c).
Qed.

Lemma stopRule_does c s n : server_ok c s -> spawned s = [] -> exists s' t c', stopRule n s = (s', Replied t) /\ server_ok c' s' /\ spawned s' = []
  /\ (healthy (db s) -> healthy (db s') /\ stopped n c (running s) c' (running s')).
Proof.
  intros O S0. destruct (stopRule_ok c s n O S0) as (s' & t & c' & E & O' & S' & _ & R & N & H). exists s', t, c'. do 3 (split; [assumption|]).
  intros Hd. destruct (H Hd) as [H1 H2]. split; [exact H1|]. split; [exact R|]. split; [exact H2|]. intros Nr. now apply N.
Qed.

Lemma restartRule_does c s n : server_ok c s -> spawned s = [] -> plain n -> does (restartRule n s) s (restarted n c (running s)).
Proof.
  intros O S0 P. unfold restartRule. destruct (stopRule_does c s n O S0) as (s1 & t & c1 & -> & O1 & S1 & H1). cbn.
  destruct (startRule_does c1 s1 n O1 S1 P) as (s' & r & c' & E & Np & O' & H'). exists s', r, c'. do 3 (split; [assumption|]).
  intros Hd. destruct (H1 Hd) as [H2 H3]. destruct (H' H2) as [H4 H5]. split; [exact H4|]. now exists c1, (running s1).
Qed.

Lemma create_does c s b : server_ok c s -> spawned s = [] -> event_ok (Create b) -> does (create_handler b s) s (effect (Create b) c (running s)).
Proof.
  intros O S0 (U & NP & P). unfold create_handler, does. cbn [effect].
  pose proof (save_rule_spec ff rt config true Setnx "" b (db s) c Setnx_writes (sv_db _ _ O) U P) as S.
  pose proof (fun H => proj1 (ExecCreate_healthy ff rt config "" b (db s) H)) as Hh.
  pose proof (fun H => proj2 (ExecCreate_healthy ff rt config "" b (db s) H)) as Hv. change (save_rule ff rt config Setnx) with (ExecCreate ff rt config) in S.
  assert (Nn : snd (ExecCreate ff rt config "" b (db s)) <> None).
  { unfold ExecCreate, save_rule. destruct (getRuleByJson ff rt config "" b) as [[e|x]|]; [discriminate| |contradiction].
    destruct (Open (db s)) as [p1 [e|]]; [discriminate|]. now destruct (Setnx (r_Id x) b p1). }
  destruct (ExecCreate ff rt config "" b (db s)) as [p [[e|rule]|]]; cbn in *; [| |contradiction].
  - exists (set_db p s), Failed, c. split; [reflexivity|]. split; [discriminate|]. split; [now apply (server_ok_db c c)|].
    intros Hd. split; [now apply Hh|]. destruct (getRuleByJson ff rt config "" b) as [[e'|r]|]; [now split| |now split]. specialize (Hv Hd r eq_refl).
    destruct (c !! r_Id r) eqn:Ec; [now split|]. rewrite (rr_none _ _ _ _ _ (sv_db _ _ O) _ Ec) in Hv. discriminate.
  - destruct S as (G & C & R). rewrite G. specialize (C eq_refl). rewrite C. pose proof (not_stored c s (r_Id rule) O C) as Nr.
    destruct (create_and_start_ok (<[r_Id rule := rule]> c) (set_db p s) rule) as (s' & r & c' & -> & Np & O' & _ & Rn & Un & H).
    + apply (server_ok_db c); [exact O|exact R|]. intros n [x X]. destruct (decide (r_Id rule = n)) as [<-|M]; [congruence|]. rewrite lookup_insert_ne by exact M. eauto.
    + exact S0.
    + rewrite lookup_insert_eq. eauto.
    + exact Nr.
    + destruct (ok_options _ _ _ (accepted_ok _ _ _ _ _ _ G)) as (o & Eo & _). eauto.
    + eexists s', _, c'. split; [reflexivity|]. split; [now destruct r|]. split; [exact O'|]. intros Hd. destruct (H (Hh Hd)) as [H1 H2]. split; [exact H1|]. split.
      * intros k M. rewrite Rn. split; [intros [A|[A _]]; [exact A|contradiction]|now left].
      * rewrite lookup_insert_eq. rewrite Rn. split; [|split].
        -- split; [intros [A|[_ A]]; [now left|now right]|]. intros [A|A]; [now left|now right].
        -- intros [A|[_ A]]; [contradiction|]. apply H2; [exact A|apply lookup_insert_eq].
        -- intros A. apply Un. intros B. apply A. now right.
Qed.

Lemma server_ok_insert c s p n r : server_ok c s -> represents_rules p (<[n := r]> c) -> server_ok (<[n := r]> c) (set_db p s).
Proof.
  intros O R. apply (server_ok_db c); [exact O|exact R|]. intros k [x X].
  destruct (decide (n = k)) as [<-|M]; [rewrite lookup_insert_eq|rewrite lookup_insert_ne by exact M]; eauto.
Qed.

Lemma update_does c s n b : server_ok c s -> spawned s = [] -> event_ok (Update n b) ->
  does (update_handler n b s) s (effect (Update n b) c (running s)).
Proof.
  intros O S0 (N & P & U & NP). unfold update_handler, does. cbn [effect].
  destruct (getRule_ok c s n O P) as (p & [e|r0] & -> & R & Hh & G).
  { exists (set_db p s), Failed, c. split; [reflexivity|]. split; [discriminate|]. split; [now apply (server_ok_db c c)|].
    intros Hd. split; [now apply Hh|]. rewrite (G Hd). now split. }
  destruct G as (E & _ & _). rewrite E. cbn [db set_db].
  pose proof (save_rule_spec ff rt config false Put n b p c Put_writes R U (fun r X => eq_ind_r plain P (accepted_id ff rt config n b r N X))) as S.
  pose proof (fun H => proj1 (ExecUpdate_healthy ff rt config n b p H)) as Hh2.
  pose proof (fun H => proj2 (ExecUpdate_healthy ff rt config n b p H)) as Hv. change (save_rule ff rt config Put) with (ExecUpdate ff rt config) in S.
  assert (Nn : snd (ExecUpdate ff rt config n b p) <> None).
  { unfold ExecUpdate, save_rule. destruct (getRuleByJson ff rt config n b) as [[e|x]|]; [discriminate| |contradiction].
    destruct (Open p) as [p1 [e|]]; [discriminate|]. now destruct (Put (r_Id x) b p1). }
  destruct (ExecUpdate ff rt config n b p) as [p2 [[e|rule]|]]; cbn in *; [| |contradiction].
  - exists (set_db p2 s), Failed, c. split; [reflexivity|]. split; [discriminate|]. split; [now apply (server_ok_db c c)|].
    intros Hd. split; [now apply Hh2, Hh|]. destruct (getRuleByJson ff rt config n b) as [[e'|r]|]; [now split| |now split].
    now specialize (Hv (Hh Hd) r eq_refl).
  - destruct S as (G & _ & R2). rewrite G. pose proof (accepted_id ff rt config n b rule N G) as I. rewrite I in R2.
    destruct (restartRule_does (<[n := rule]> c) (set_db p2 s) n) as (s' & r & c' & Er & Np & O' & H);
      [now apply server_ok_insert|exact S0|exact P|].
    change (set_db p2 (set_db p s)) with (set_db p2 s). rewrite Er. exists s', (match r with Replied _ => Replied ("Rule " ++ r_Id rule ++ " was updated successfully.") | r => r end), c'.
    split; [now destruct r|]. split; [now destruct r|]. split; [exact O'|]. intros Hd. apply (H (Hh2 (Hh Hd))).
Qed.

Lemma server_ok_drop c s p n : server_ok c s -> represents_rules p (delete n c) -> registry s !! n = None -> server_ok (delete n c) (set_db p s).
Proof.
  intros [A B C D] R N. split; cbn; auto.
  - intros id rs E. destruct (B id rs E) as [X1 X2 X3]. now split.
  - intros k id E. destruct (C k id E) as [X Y]. split; [|exact Y]. rewrite lookup_delete_ne; [exact X|]. congruence.
Qed.

Lemma delete_does c s n cl : server_ok c s -> spawned s = [] -> plain n -> does (delete_handler n cl s) s (effect (Drop n cl) c (running s)).
Proof.
  intros O S0 P. unfold delete_handler, does. cbn [effect]. destruct (deleteRule_ok c s n O S0) as (s1 & t & -> & O1 & S1 & D1 & Rg & R). cbn.
  pose proof (ExecDrop_spec ff rt config n cl (db s1) c (sv_db _ _ O1) P) as S.
  pose proof (ExecDrop_healthy ff rt config n cl (db s1) c (sv_db _ _ O1) P) as H. rewrite D1 in H.
  rewrite D1 in *. destruct (ExecDrop ff rt config n cl (db s)) as [p [[e|t']|]]; cbn in *; [| |contradiction].
  - exists (set_db p s1), Failed, c. split; [reflexivity|]. split; [discriminate|]. split; [now apply (server_ok_db c c)|].
    intros Hd. destruct (H Hd) as [H1 H2]. split; [exact H1|]. split; [|exact R]. symmetry. apply delete_id.
    destruct (c !! n) as [x|] eqn:E; [|reflexivity]. destruct (H2 (ex_intro _ x eq_refl)) as [t' X]. discriminate.
  - exists (set_db p s1), (Replied t'), (delete n c). split; [reflexivity|]. split; [discriminate|]. split; [now apply server_ok_drop|].
    intros Hd. destruct (H Hd) as [H1 _]. split; [exact H1|]. now split.
Qed.

(** *** Starting the server *)

Lemma GetAllRules_spec p c : represents_rules p c -> represents_rules (fst (GetAllRules p)) c
  /\ (forall l, snd (GetAllRules p) = inr l -> NoDup l /\ forall n, n ∈ l <-> is_Some (c !! n))
  /\ (healthy p -> healthy (fst (GetAllRules p)) /\ exists l, snd (GetAllRules p) = inr l).
Proof.
  intros R. unfold GetAllRules. pose proof (Open_law p) as O. pose proof (Open_healthy p) as OH. destruct (Open p) as [p1 [e|]]; cbn in *.
  { split; [now apply (rr_contents _ _ _ p)|]. split; [discriminate|]. intros H. now destruct (OH H). }
  destruct (Keys_law p1) as [K1 K2]. pose proof (Keys_healthy p1) as KH. destruct (Keys p1) as [p2 [e|l]]; cbn in *;
    (split; [apply (rr_contents _ _ _ p); [exact R|congruence]|]); split; try discriminate.
  - intros H. destruct (KH (proj1 (OH H))) as [_ [l X]]. discriminate.
  - intros l' [= <-]. destruct (K2 l eq_refl) as [N M]. split; [exact N|]. intros n. rewrite M, O. split.
    + intros [v E]. destruct (rr_lookup _ _ _ p c n v R E) as (r & Er & _). eauto.
    + intros [r Er]. destruct (rr_some _ _ _ _ _ R n r Er) as (_ & v & E & _). eauto.
  - intros H. split; [apply KH, OH, H|]. eauto.
Qed.

Lemma recoverRule_ok c s n : server_ok c s -> spawned s = [] -> plain n -> ~ running s n -> exists s' r,
  recoverRule n s = (s', r) /\ r <> Panicked /\ server_ok c s' /\ (forall k, k <> n -> running s' k <-> running s k)
  /\ (healthy (db s) -> healthy (db s') /\ (running s' n <-> exists x, c !! n = Some x /\ r_Triggered x = true /\ plannable x)).
Proof.
  intros O S0 P N. unfold recoverRule. destruct (getRule_ok c s n O P) as (p & [e|rule] & -> & R & Hh & G).
  { exists (set_db p s), Failed. split; [reflexivity|]. split; [discriminate|]. split; [now apply (server_ok_db c c)|]. split; [reflexivity|].
    intros H. split; [now apply Hh|]. rewrite (G H). split; [contradiction|]. intros (x & X & _). discriminate. }
  destruct G as (E & _ & _). assert (O1 : server_ok c (set_db p s)) by now apply (server_ok_db c c).
  destruct (r_Triggered rule) eqn:T.
  - destruct (startRule_ok c (set_db p s) n O1 S0 P) as (s' & r & c' & -> & Np & O' & St & Rk & H).
    assert (c' = c) as ->.
    { destruct St as [St|(x & X & St)]; [exact St|]. rewrite E in X. injection X as <-. rewrite St. apply insert_id. rewrite E. f_equal. unfold set_triggered. now destruct rule; cbn in *; subst. }
    exists s', r. do 3 (split; [auto|]). split; [exact Rk|]. intros Hd. destruct (H (Hh Hd)) as [H1 H2]. split; [exact H1|].
    destruct (H2 rule E) as [H3 _]. rewrite H3. split.
    + intros [A|A]; [contradiction|eauto].
    + intros (x & X & _ & Pl). right. congruence.
  - destruct (register_ok c (set_db p s) n (mkRS n false false None None) O1 S0) as [O2 R2]; [cbn; eauto|exact N|reflexivity|discriminate|reflexivity|].
    eexists _, _. split; [reflexivity|]. split; [discriminate|]. cbn in *. rewrite S0. split; [exact O2|]. split.
    + intros k M. rewrite R2. split; [intros [A|[A _]]; [exact A|contradiction]|now left].
    + intros Hd. split; [now apply Hh|]. rewrite R2. split; [intros [A|[_ A]]; [contradiction|discriminate]|]. intros (x & X & Tx & _). congruence.
Qed.

Lemma recover_all_ok c names : forall s, server_ok c s -> spawned s = [] -> NoDup names -> (forall n, n ∈ names -> plain n /\ ~ running s n) ->
  exists s', recover_all names s = Some s' /\ server_ok c s' /\ spawned s' = []
  /\ (healthy (db s) -> healthy (db s') /\ forall k, running s' k <-> running s k \/ k ∈ names /\ exists x, c !! k = Some x /\ r_Triggered x = true /\ plannable x).
Proof.
  induction names as [|n names IH]; intros s O S0 ND PN; cbn [recover_all].
  { exists s. do 3 (split; [auto|]). intros H. split; [exact H|]. intros k. rewrite elem_of_nil. tauto. }
  apply NoDup_cons in ND as [Nn ND]. destruct (PN n) as [P Nr]; [now left|].
  destruct (recoverRule_ok c s n O S0 P Nr) as (s1 & r & -> & Np & O1 & R1 & H1). destruct (settle_ok c s1 O1) as (s2 & E2 & O2 & S2 & D2 & R2).
  destruct (IH s2 O2 S2 ND) as (s' & E' & O' & S' & H').
  { intros k K. assert (k <> n) by (intros ->; contradiction). rewrite R2, R1 by assumption. apply PN. now right. }
  exists s'. split; [rewrite E2, E'; now destruct r|]. do 2 (split; [assumption|]). intros Hd. destruct (H1 Hd) as [H2 H3]. rewrite D2 in H'.
  destruct (H' H2) as [H4 H5]. split; [exact H4|]. intros k. rewrite H5, R2, elem_of_cons. destruct (decide (k = n)) as [->|M]; [|rewrite R1 by exact M; tauto].
  rewrite H3. split; [intros [A|[A _]]; [right; auto|contradiction]|]. intros [A|[_ A]]; [contradiction|now left].
Qed.

Lemma boot_ok p c : represents_rules p c -> server_ok c (boot p).
Proof. intros R. split; [exact R| | |easy]; intros ? ? E; exact (False_ind _ (lookup_empty_Some _ _ E)). Qed.

Lemma nothing_boots p n : ~ running (boot p) n.
Proof. intros (id & rs & E & _). exact (lookup_empty_Some _ _ E). Qed.

Lemma StartUp_ok p c : represents_rules p c -> exists s, StartUp p = Some s /\ server_ok c s /\ spawned s = []
  /\ (healthy p -> healthy (db s) /\ forall n, running s n <-> exists x, c !! n = Some x /\ r_Triggered x = true /\ plannable x).
Proof.
  intros R. destruct (GetAllRules_spec p c R) as (R1 & K & H). unfold StartUp. destruct (GetAllRules p) as [p' [e|l]]; cbn in *.
  - exists (boot p'). split; [reflexivity|]. split; [now apply boot_ok|]. split; [reflexivity|]. intros Hd. destruct (H Hd) as [_ [l X]]. discriminate.
  - destruct (K l eq_refl) as [ND M]. destruct (recover_all_ok c l (boot p') (boot_ok p' c R1) eq_refl ND) as (s & E & O & S & Hs).
    + intros n Hn. split; [|apply nothing_boots]. apply (plain_rule c p' n R1). now apply M.
    + exists s. do 3 (split; [auto|]). intros Hd. destruct (Hs (proj1 (H Hd))) as [H1 H2]. split; [exact H1|]. intros n. rewrite H2. split.
      * intros [A|[_ A]]; [now apply nothing_boots in A|exact A].
      * intros A. right. split; [|exact A]. apply M. destruct A as (x & X & _). eauto.
Qed.

Lemma TopoFails_does c s id : server_ok c s -> spawned s = [] -> exists s', topology_fails id s = Some s'
  /\ does (s', Replied "") s (effect (TopoFails id) c (running s)).
Proof.
  intros O S0. destruct (topology_fails_ok c s id O S0) as (s' & E & O' & S' & D & R). exists s'. split; [exact E|].
  exists s', (Replied ""), c. split; [reflexivity|]. split; [discriminate|]. split; [exact O'|]. rewrite D. intros Hd. split; [exact Hd|].
  split; [reflexivity|]. split; [intros k H; now apply R in H|].
  exists (match states s !! id with Some rs => rs_Name rs | None => "" end). intros k N. rewrite R. split; [tauto|]. intros H. split; [exact H|].
  intros (rs & Er & <- & _). rewrite Er in N. congruence.
Qed.

Lemma handle_does c s e : server_ok c s -> spawned s = [] -> event_ok e ->
  exists op, handle e s = Some op /\ does op s (effect e c (running s)).
Proof.
  intros O S0 Ev. destruct e as [b|n|n|n|n b|n cl|id]; cbn [handle].
  - eexists. split; [reflexivity|]. now apply create_does.
  - eexists. split; [reflexivity|]. now apply startRule_does.
  - eexists. split; [reflexivity|]. destruct (stopRule_does c s n O S0) as (s' & t & c' & E & O' & _ & H). exists s', (Replied t), c'.
    split; [exact E|]. split; [discriminate|]. split; [exact O'|exact H].
  - eexists. split; [reflexivity|]. now apply restartRule_does.
  - eexists. split; [reflexivity|]. now apply update_does.
  - eexists. split; [reflexivity|]. now apply delete_does.
  - destruct (TopoFails_does c s id O S0) as (s' & -> & H). eauto.
Qed.

Lemma started_ext n c run c' r1 r2 : (forall k, r2 k <-> r1 k) -> started n c run c' r1 -> started n c run c' r2.
Proof. intros E [A B]. split; [intros k N; rewrite E; auto|]. destruct (c !! n); now rewrite E. Qed.

Lemma effect_ext e c run c' r1 r2 : (forall k, r2 k <-> r1 k) -> effect e c run c' r1 -> effect e c run c' r2.
Proof.
  intros E. assert (U : unchanged c run c' r1 -> unchanged c run c' r2) by (intros [A B]; split; [exact A|intros k; now rewrite E]).
  assert (R : forall n c0, restarted n c0 run c' r1 -> restarted n c0 run c' r2).
  { intros n c0 (c1 & run1 & A & B). exists c1, run1. split; [exact A|]. now apply (started_ext _ _ _ _ r1). }
  destruct e as [b|n|n|n|n b|n cl|id]; cbn [effect].
  - destruct (getRuleByJson ff rt config "" b) as [[e|r]|]; [exact U| |exact U]. destruct (c !! r_Id r); [exact U|now apply started_ext].
  - now apply started_ext.
  - intros (A & B). split; [intros k; now rewrite E|exact B].
  - apply R.
  - destruct (c !! n); [|exact U]. destruct (getRuleByJson ff rt config n b) as [[e|x]|]; [exact U|apply R|exact U].
  - intros (A & B). split; [exact A|]. intros k. now rewrite E.
  - intros (A & B & m & C). split; [exact A|]. split; [intros k; rewrite E; auto|]. exists m. intros k N. rewrite E. auto.
Qed.

(** *** What is told of a rule *)

Lemma rule_status_ok c s n : server_ok c s -> spawned s = [] -> exists t, rule_status s n = Some (n, t) /\ (t = "Running" <-> running s n).
Proof.
  intros O S0. unfold rule_status, getRuleState. pose proof (loaded_ok c s n O) as Ld. destruct (loaded n s) as [[id rs]|].
  - destruct Ld as (_ & Es & _ & Rn). unfold doGetRuleState. destruct (rs_Triggered rs) eqn:T.
    + destruct (triggered_open c s id rs O S0 Es T) as (-> & -> & _). eexists. split; [reflexivity|]. split; [intros _; now apply Rn|reflexivity].
    + eexists. split; [reflexivity|]. split; [discriminate|]. intros H. apply Rn in H. discriminate.
  - eexists. split; [reflexivity|]. split; [discriminate|contradiction].
Qed.

#[local] Instance string_le_total : Total string_le.
Proof. intros a b. exact (String.leb_total a b). Qed.

Lemma statuses_ok c s names : server_ok c s -> spawned s = [] -> exists l, mapM (rule_status s) names = Some l /\ l.*1 = names
  /\ forall n t, (n, t) ∈ l -> t = "Running" <-> running s n.
Proof.
  intros O S0. induction names as [|n names (l & El & <- & H)].
  - exists []. split; [reflexivity|]. split; [reflexivity|]. intros n t E. now apply elem_of_nil in E.
  - destruct (rule_status_ok c s n O S0) as (t & E & R). exists ((n, t) :: l). cbn in *. rewrite E, El. split; [reflexivity|]. split; [reflexivity|].
    intros k u X. apply elem_of_cons in X as [[= -> ->]|X]; [exact R|now apply H].
Qed.

(** C27: the list of rules: in a database without errors it has each stored rule
    once, in order of the names, and says Running of just those that run. *)
Theorem statuses_exact c s : server_ok c s -> spawned s = [] -> healthy (db s) -> exists s' l,
  getAllRulesWithStatus s = (s', Some (inr l)) /\ Sorted string_le l.*1 /\ NoDup l.*1 /\ (forall n, n ∈ l.*1 <-> is_Some (c !! n))
  /\ forall n t, (n, t) ∈ l -> t = "Running" <-> running s n.
Proof.
  intros O S0 Hd. unfold getAllRulesWithStatus. destruct (GetAllRules_spec (db s) c (sv_db _ _ O)) as (_ & K & H).
  destruct (H Hd) as [_ [names E]]. destruct (K names E) as [ND M]. destruct (GetAllRules (db s)) as [p r]. cbn in E. subst r.
  destruct (statuses_ok c s (merge_sort string_le names) O S0) as (l & -> & El & R). exists (set_db p s), l. split; [reflexivity|].
  rewrite El. split; [apply Sorted_merge_sort, _|]. split; [now rewrite merge_sort_Permutation|]. split; [|exact R].
  intros n. now rewrite merge_sort_Permutation.
Qed.

Lemma DropRule_is_delete c s n cl : server_ok c s -> spawned s = [] -> plain n -> rpc_DropRule n cl s = delete_handler n cl s.
Proof.
  intros O S0 P. unfold rpc_DropRule, delete_handler. destruct (deleteRule_ok c s n O S0) as (s1 & t & -> & _ & _ & _ & Rg & _). cbn.
  destruct (ExecDrop ff rt config n cl (db s1)) as [p [[e|x]|]]; [reflexivity| |reflexivity].
  unfold stopRule, loaded. cbn. now rewrite Rg.
Qed.


Lemma prompt_ok c s e : server_ok c s -> spawned s = [] -> event_ok e -> exists s' r c',
  prompt e s = Some (s', r) /\ r <> Panicked /\ server_ok c' s' /\ spawned s' = [].
Proof.
  intros O S0 Ev. destruct (handle_does c s e O S0 Ev) as (op & E & s1 & r & c' & -> & Np & O1 & _).
  destruct (settle_ok c' s1 O1) as (s' & Es & O' & S' & _). exists s', r, c'. unfold prompt. now rewrite E, Es.
Qed.


(** C24: recovery: a server that starts on a database without errors runs just
    the rules that are stored as triggered and can be planned, and the stored
    rules are the same afterwards. *)
Theorem recovery_runs_triggered p c : represents_rules p c -> healthy p -> exists s, StartUp p = Some s /\ represents_rules (db s) c
  /\ forall n, running s n <-> exists x, c !! n = Some x /\ r_Triggered x = true /\ plannable x.
Proof.
  intros R H. destruct (StartUp_ok p c R) as (s & E & O & _ & Hs). exists s. split; [exact E|]. split; [apply O|]. now apply Hs.
Qed.
End Server.

Import Streams.Sample Topo.Sample Rules.Sample.

Module Sample.
Definition rule1 (triggered : bool) : Rule := mkRule triggered "rule1" "SELECT * FROM a" [[("log", VMap [])]] (Some config).
Definition stored (triggered : bool) : kv (V := option Rule) := mkSqlite {["rule1" := Some (rule1 triggered)]} [].
Definition catalogue (triggered : bool) : gmap string Rule := {["rule1" := rule1 triggered]}.

Definition start_up (p : kv (V := option Rule)) := StartUp built_ins no_runtime config Topo.Sample.store p.
Definition requests (es : list event) (s : Server) := serve built_ins no_runtime config Topo.Sample.store es s.
Definition request (e : event) (s : Server) := prompt built_ins no_runtime config Topo.Sample.store e s.
(** A request, before the goroutines that it spawned run. *)
Definition quick (e : event) (s : Server) := handle built_ins no_runtime config Topo.Sample.store e s.

Lemma stored_represents b : represents_rules built_ins no_runtime config (stored b) (catalogue b).
Proof.
  split; intros n; change (contents (stored b)) with ({["rule1" := Some (rule1 b)]} : gmap string (option Rule)); unfold catalogue;
    (destruct (decide ("rule1" = n)) as [<-|N]; [rewrite !lookup_singleton_eq|rewrite !lookup_singleton_ne by exact N]); try easy.
  intros r [= <-]. split; [reflexivity|]. eexists. split; [reflexivity|]. split; [destruct b; vm_compute; reflexivity|]. split; [reflexivity|exact I].
Qed.

Definition running_names (s : Server (V := option Rule)) : list string :=
  map fst (List.filter (fun x => match states s !! snd x with Some rs => rs_Triggered rs | None => false end) (map_to_list (registry s))).
End Sample.

Import Server.Sample.


Lemma statuses_exact_witness : exists s s' l, start_up (stored true) = Some s
  /\ getAllRulesWithStatus s = (s', Some (inr l)) /\ l.*1 = ["rule1"] /\ forall n t, (n, t) ∈ l -> t = "Running" <-> running s n.
Proof.
  destruct (StartUp_ok built_ins no_runtime config Topo.Sample.store (stored true) (catalogue true) (stored_represents true)) as (s & E & O & S & H).
  destruct (statuses_exact built_ins no_runtime config (catalogue true) s O S (proj1 (H eq_refl))) as (s' & l & El & _ & ND & M & R).
  exists s, s', l. split; [exact E|]. split; [exact El|]. split; [|exact R].
  assert (K : forall n, n ∈ l.*1 <-> n = "rule1").
  { intros n. rewrite M. unfold catalogue. split; [intros [x X]; apply lookup_singleton_Some in X as [X _]; symmetry; exact X|]. intros ->. rewrite lookup_singleton_eq. eauto. }
  destruct (l.*1) as [|a [|b m]].
  - exfalso. apply (not_elem_of_nil "rule1"), K. reflexivity.
  - f_equal. apply K. now left.
  - apply NoDup_cons in ND as [N _]. exfalso. apply N. assert (a = "rule1") as -> by (apply K; now left).
    assert (b = "rule1") as -> by (apply K; right; now left). now left.
Defined.


Lemma recovery_runs_triggered_witness : exists s, start_up (stored true) = Some s /\ running s "rule1".
Proof.
  destruct (recovery_runs_triggered built_ins no_runtime config Topo.Sample.store (stored true) (catalogue true)) as (s & E & _ & H).
  - apply stored_represents.
  - reflexivity.
  - exists s. split; [exact E|]. apply H. exists (rule1 true). split; [reflexivity|]. split; [reflexivity|]. eexists. vm_compute. reflexivity.
Defined.

(** ** When requests overtake goroutines *)

(** What is seen of a rule: whether it is marked as triggered, and its topology. *)
Definition seen (id : nat) (s : Server (V := option Rule)) : option (bool * option topo_status) :=
  option_map (fun rs => (rs_Triggered rs, object_status rs)) (states s !! id).

Definition and_then {A B} (x : option A) (f : A -> option B) : option B := match x with Some a => f a | None => None end.

(** A rule that is stopped before its topology is opened: the handler panics,
    for the topology has no context to cancel, and then the goroutine opens the
    topology of a rule that is marked as stopped. *)
Lemma stop_before_open :
  and_then (quick (Create (Some (rule1 false))) (boot empty_rules)) (fun x =>
  and_then (quick (StopIt "rule1") (fst x)) (fun y =>
  and_then (settle (fst y)) (fun s =>
  Some (snd x, snd y, seen 0 s))))
  = Some (Replied "Rule rule1 was created successfully.", Panicked, Some (false, Some Opened)).
Proof. vm_compute. reflexivity. Qed.

(** A running rule that is started again and stopped at once: the goroutine
    dereferences the topology that stopping cleared, which ends the server. *)
Lemma start_stop_crashes :
  and_then (start_up (stored true)) (fun s0 =>
  and_then (quick (Start "rule1") s0) (fun x =>
  and_then (quick (StopIt "rule1") (fst x)) (fun y =>
  Some (running_names s0, snd x, snd y, match settle (fst y) with Some _ => true | None => false end))))
  = Some (["rule1"], Replied "", Replied "Rule rule1 was stopped.", false).
Proof. vm_compute. reflexivity. Qed.

(** A rule whose topology failed cannot be stopped for good: it is not found, and
    a restart of the server runs it. *)
Lemma failed_rule_comes_back :
  and_then (start_up (stored true)) (fun s0 =>
  and_then (requests [TopoFails 0; StopIt "rule1"] s0) (fun x =>
  and_then (start_up (db (fst x))) (fun s2 =>
  Some (snd x, running_names (fst x), running_names s2))))
  = Some ([Replied ""; Replied "Rule rule1 was not found."], [], ["rule1"]).
Proof. vm_compute. reflexivity. Qed.

(** Updating a rule that is stopped starts it. *)
Lemma update_starts :
  and_then (start_up (stored false)) (fun s0 =>
  and_then (request (Update "rule1" (Some (rule1 false))) s0) (fun x =>
  Some (running_names s0, snd x, running_names (fst x))))
  = Some ([], Replied "Rule rule1 was updated successfully.", ["rule1"]).
Proof. vm_compute. reflexivity. Qed.
