(* ===== verification/Plugins.v ===== *)
(** The plugin manager (src/internal/plugin/manager.go, IsValidUrl of
    src/internal/pkg/httpx/http.go).

    The registry maps the names of the plugins of each type to their versions and
    the names of functions to their plugins; the functions of a plugin with more
    than one are stored in the database.  The disk, archives, downloads, scripts
    and the opening of shared objects are the class [Disk]; nothing is asked of
    them, so the theorems about the registry hold whatever they do. *)

From S2P Require Import Prelude Lexical Utf8 Strings Kv Streams.
From stdpp Require Import base gmap list strings fin_maps.

#[local] Open Scope string_scope.

Inductive PluginType : Type := SOURCE | SINK | FUNCTION.

#[export] Instance PluginType_eq_dec : EqDecision PluginType.
Proof. solve_decision. Defined.

(** [IOPlugin] and [FuncPlugin]: the functions are those of a [FuncPlugin]. *)
Record Plugin : Type := mkPlugin { p_Name : string; p_File : string; p_ShellParas : list string; p_Functions : list string }.

Definition DELETED : string := "$deleted".

Definition PluginTypes (t : PluginType) : string := match t with SOURCE => "sources" | SINK => "sinks" | FUNCTION => "functions" end.

(** A URL that was parsed. *)
Record url : Type := mkUrl { Scheme : string; Host : string; Path : string }.

Class Disk (Sym : Type) : Type := {
  disk : Type;
  stat : string -> disk -> bool;
  is_dir : string -> disk -> bool;
  read_dir : string -> disk -> string + list string;
  remove_all : string -> disk -> disk * option string;
  remove_file : string -> disk -> disk;
  download_file : string -> string -> disk -> disk * option string;
  zip_entries : string -> disk -> string + list string;
  unzip_to : string -> string -> disk -> disk * option string;
  run_script : list string -> disk -> disk * option string;
  open_plugin : string -> disk -> option string;
  lookup_symbol : string -> string -> disk -> option Sym;
  ParseRequestURI : string -> option url;
  url_Parse : string -> option url;
  regexp_match : string -> string -> option bool;     (* [None]: the pattern does not compile *)
  rune_upper : rune -> rune;
  rune_lower : rune -> rune }.

Inductive pl_error : Type := PlDb (e : db_error) | PlText (format : string) (args : list string).

Definition PlNotFound (format : string) (args : list string) : pl_error := PlText format args.

(** ** Names and paths *)

Section Names.
Context {Sym : Type} {D : Disk Sym}.

(** The rest of the text is taken after the first byte, whatever the length of
    the first rune. *)
Definition ucFirst (s : string) : string :=
  match Utf8.decode s with [] => "" | r :: _ => Lexical.utf8 (rune_upper r) ++ Strings.drop 1 s end.

Definition lcFirst (s : string) : string :=
  match Utf8.decode s with [] => "" | r :: _ => Lexical.utf8 (rune_lower r) ++ Strings.drop 1 s end.

Definition parseName (n : string) : string * string :=
  let result := Split (hd "" (Split n ".so")) "@" in
  let name := lcFirst (hd "" result) in
  match result with _ :: v :: _ => (name, v) | _ => (name, "") end.

(** [path.Clean] and [path.Join]. *)
Definition clean_step (rooted : bool) (stack : list string) (c : string) : list string :=
  if String.eqb c "" || String.eqb c "." then stack
  else if String.eqb c ".." then
    match stack with
    | top :: stack' => if String.eqb top ".." then c :: stack else stack'
    | [] => if rooted then [] else [c]
    end
  else c :: stack.

Definition path_Clean (p : string) : string :=
  let rooted := HasPrefix p "/" in
  let body := String.concat "/" (rev (fold_left (clean_step rooted) (Split p "/") [])) in
  if rooted then "/" ++ body else if String.eqb body "" then "." else body.

Definition path_Join (elems : list string) : string :=
  match List.filter (fun e => negb (String.eqb e "")) elems with [] => "" | l => path_Clean (String.concat "/" l) end.

Definition so_file (soname v : string) : string := if String.eqb v "" then soname ++ ".so" else soname ++ "@" ++ v ++ ".so".

Definition so_pattern (name : string) : string := "^((" ++ name ++ ")|(" ++ ucFirst name ++ "))(@.*)?\.so$".

Definition IsValidUrl (uri : string) : bool :=
  match ParseRequestURI uri with
  | None => false
  | Some pu =>
      if String.eqb (Scheme pu) "http" || String.eqb (Scheme pu) "https" then
        match url_Parse uri with None => false | Some u => negb (String.eqb (Scheme u) "" || String.eqb (Host u) "") end
      else if String.eqb (Scheme pu) "file" then negb (negb (String.eqb (Host pu) "") || String.eqb (Path pu) "")
      else false
  end.
End Names.

(** ** The registry *)

Record Registry : Type := mkRegistry { plugins : PluginType -> gmap string string; symbols : gmap string string }.

Definition Store (t : PluginType) (name version : string) (rr : Registry) : Registry :=
  mkRegistry (fun t' => if decide (t' = t) then <[name := version]> (plugins rr t') else plugins rr t') (symbols rr).

(** The loop of [StoreSymbols] stops at the first function that is known; those
    before it stay. *)
Fixpoint store_symbols (name : string) (l : list string) (m : gmap string string) : gmap string string * option pl_error :=
  match l with
  | [] => (m, None)
  | s :: l' =>
      match m !! s with
      | Some _ => (m, Some (PlText "function name %s already exists" [s]))
      | None => store_symbols name l' (<[s := name]> m)
      end
  end.

Definition StoreSymbols (name : string) (l : list string) (rr : Registry) : Registry * option pl_error :=
  let (m, e) := store_symbols name l (symbols rr) in (mkRegistry (plugins rr) m, e).

Definition RemoveSymbols (l : list string) (rr : Registry) : Registry :=
  mkRegistry (plugins rr) (fold_left (fun m s => delete s m) l (symbols rr)).

Definition reg_Get (t : PluginType) (name : string) (rr : Registry) : option string := plugins rr t !! name.

Definition GetPluginBySymbol (t : PluginType) (s : string) (rr : Registry) : option string :=
  match t with FUNCTION => symbols rr !! s | _ => Some s end.

Definition GetPluginVersionBySymbol (t : PluginType) (s : string) (rr : Registry) : option string :=
  match t with
  | FUNCTION => match symbols rr !! s with Some name => plugins rr t !! name | None => None end
  | _ => reg_Get t s rr
  end.

(** ** The manager *)

Section Manager.
Context {Sym : Type} {D : Disk Sym} {KV : KeyValue (list string)}.

Record Manager : Type := mkManager {
  pluginDir : string;
  etcDir : string;
  registry : Registry;
  m_db : kv;
  m_disk : disk }.

Definition with_registry (rr : Registry) (m : Manager) : Manager := mkManager (pluginDir m) (etcDir m) rr (m_db m) (m_disk m).
Definition with_db (p : kv) (m : Manager) : Manager := mkManager (pluginDir m) (etcDir m) (registry m) p (m_disk m).
Definition with_disk (d : disk) (m : Manager) : Manager := mkManager (pluginDir m) (etcDir m) (registry m) (m_db m) d.

Definition GetSymbols (t : PluginType) (j : Plugin) : list string := match t with FUNCTION => p_Functions j | _ => [] end.

(** *** Finding what is there *)

Definition findAll (t : PluginType) (dir : string) (d : disk) : string + gmap string string :=
  match read_dir (path_Join [dir; PluginTypes t]) d with
  | inl e => inl e
  | inr files => inr (fold_left (fun m f => if HasSuffix f ".so" then let (n, v) := parseName f in <[n := v]> m else m) files ∅)
  end.

(** The loop over the function plugins; the errors of [StoreSymbols] are not
    looked at. *)
Fixpoint load_symbols (names : list string) (rr : Registry) (p : kv) : Registry * kv :=
  match names with
  | [] => (rr, p)
  | pf :: names' =>
      let (p1, l) := Get pf p in
      load_symbols names' (fst (StoreSymbols pf (default [pf] l) rr)) p1
  end.

(** [NewPluginManager]; [order] is the order of a range over a map.  An error of
    opening the database is returned next to the manager. *)
Definition NewPluginManager (order : gmap string string -> list string) (dir etc : string) (p : kv) (d : disk)
    : option Manager * option pl_error :=
  let (p1, e) := Open p in
  let failed e := (None, Some (PlText "fail to find existing plugins: %s" [e])) in
  match findAll SOURCE dir d, findAll SINK dir d, findAll FUNCTION dir d with
  | inl e, _, _ | _, inl e, _ | _, _, inl e => failed e
  | inr sources, inr sinks, inr functions =>
      let found t := match t with SOURCE => sources | SINK => sinks | FUNCTION => functions end in
      let (rr, p2) := load_symbols (order functions) (mkRegistry found ∅) p1 in
      (Some (mkManager dir etc rr p2 d), option_map PlDb e)
  end.

Definition getSoFilePath (m : Manager) (t : PluginType) (name : string) (isSoName : bool) : pl_error + string :=
  match (if isSoName then Some name else GetPluginBySymbol t name (registry m)) with
  | None => inl (PlNotFound "invalid symbol name %s: not exist" [name])
  | Some soname =>
      match reg_Get t soname (registry m) with
      | None => inl (PlNotFound "invalid name %s: not exist" [soname])
      | Some v =>
          let soFile := so_file soname v in
          let p := path_Join [pluginDir m; PluginTypes t; soFile] in
          let p := if stat p (m_disk m) then p else path_Join [pluginDir m; PluginTypes t; ucFirst soFile] in
          if stat p (m_disk m) then inr p else inl (PlNotFound "cannot find .so file for plugin %s" [soname])
      end
  end.

(** *** Installing *)

Record Unzipped : Type := mkUnzipped { u_disk : disk; filenames : list string; revokeFiles : list string; version : string; needInstall : bool }.

(** One entry of the archive. *)
Definition install_entry (m : Manager) (t : PluginType) (name yamlFile fileName : string) (u : Unzipped) : Unzipped * option string :=
  let to dst := unzip_to fileName dst (u_disk u) in
  let etc f := path_Join [etcDir m; PluginTypes t; f] in
  if String.eqb yamlFile fileName then
    let (d, e) := to (etc yamlFile) in
    match e with
    | Some e => (mkUnzipped d (filenames u) (revokeFiles u) (version u) (needInstall u), Some e)
    | None => (mkUnzipped d (filenames u ++ [etc yamlFile]) (revokeFiles u ++ [etc yamlFile]) (version u) (needInstall u), None)
    end
  else if String.eqb fileName (name ++ ".json") then
    let (d, e) := to (etc fileName) in
    (mkUnzipped d (filenames u) (match e with Some _ => revokeFiles u | None => revokeFiles u ++ [etc fileName] end) (version u) (needInstall u), None)
  else if default false (regexp_match (so_pattern name) fileName) then
    let soPath := path_Join [pluginDir m; PluginTypes t; fileName] in
    let (d, e) := to soPath in
    match e with
    | Some e => (mkUnzipped d (filenames u) (revokeFiles u) (version u) (needInstall u), Some e)
    | None => (mkUnzipped d (filenames u ++ [soPath]) (revokeFiles u ++ [soPath]) (snd (parseName fileName)) (needInstall u), None)
    end
  else if HasPrefix fileName "etc/" then
    let (d, e) := to (etc (name ++ Strings.drop 3 fileName)) in
    (mkUnzipped d (filenames u) (revokeFiles u) (version u) (needInstall u), e)
  else
    let (d, e) := to (path_Join [path_Join [pluginDir m; "temp"; PluginTypes t; name]; fileName]) in
    (mkUnzipped d (filenames u) (revokeFiles u) (version u)
       (match e with Some _ => needInstall u | None => needInstall u || String.eqb fileName "install.sh" end), e).

Fixpoint install_entries (m : Manager) (t : PluginType) (name yamlFile : string) (files : list string) (u : Unzipped) : Unzipped * option string :=
  match files with
  | [] => (u, None)
  | f :: files' =>
      match install_entry m t name yamlFile f u with
      | (u1, Some e) => (u1, Some e)
      | (u1, None) => install_entries m t name yamlFile files' u1
      end
  end.

(** The script comes before its parameters. *)
Definition script_args (shellParas : list string) (spath : string) : list string :=
  match shellParas with [] => [spath] | _ => spath :: shellParas end.

Fixpoint revoke (files : list string) (d : disk) : disk :=
  match files with [] => d | f :: files' => revoke files' (fst (remove_all f d)) end.

(** [install]: the files that count, the version and the error; [None] is the
    panic of a name that is no pattern. *)
Definition install (m : Manager) (t : PluginType) (name src : string) (shellParas : list string)
    : disk * option (list string * string * option string) :=
  let tempPath := path_Join [pluginDir m; "temp"; PluginTypes t; name] in
  let cleaned d := fst (remove_all tempPath d) in
  match zip_entries src (m_disk m) with
  | inl e => (cleaned (m_disk m), Some ([], "", Some e))
  | inr files =>
      match regexp_match (so_pattern name) "" with
      | None => (cleaned (m_disk m), None)
      | Some _ =>
          let yamlFile := match t with SOURCE => name ++ ".yaml" | _ => "" end in
          let expFiles := match t with SOURCE => 2%nat | _ => 1%nat end in
          let (u, e) := install_entries m t name yamlFile files (mkUnzipped (m_disk m) [] [] "" false) in
          match e with
          | Some e => (cleaned (u_disk u), Some (filenames u, "", Some e))
          | None =>
              if negb (Nat.eqb (List.length (filenames u)) expFiles)
              then (cleaned (u_disk u), Some (filenames u, version u, Some "invalid zip file: so file or conf file is missing"))
              else if needInstall u then
                let (d, e) := run_script (script_args shellParas (path_Join [tempPath; "install.sh"])) (u_disk u) in
                match e with
                | Some e => (cleaned (revoke (revokeFiles u) d), Some (filenames u, "", Some e))
                | None => (cleaned d, Some (filenames u, version u, None))
                end
              else (cleaned (u_disk u), Some (filenames u, version u, None))
          end
      end
  end.

(** *** Registering and deleting *)

(** The functions of a plugin are entered before it is downloaded. *)
Definition register_symbols (t : PluginType) (name : string) (l : list string) (m : Manager) : Manager * option pl_error :=
  match t with
  | FUNCTION =>
      match l with
      | [] => let (rr, e) := StoreSymbols name [name] (registry m) in (with_registry rr m, e)
      | _ =>
          let (p1, e) := Open (m_db m) in
          match e with
          | Some e => (with_db p1 m, Some (PlDb e))
          | None =>
              let (p2, e2) := Put name l p1 in
              match e2 with
              | Some e => (with_db p2 m, Some (PlDb e))
              | None => let (rr, e) := StoreSymbols name l (registry m) in (with_registry rr (with_db p2 m), e)
              end
          end
      end
  | _ => (m, None)
  end.

(** After the installation they are stored again. *)
Definition store_again (name : string) (l : list string) (m : Manager) : Manager * option pl_error :=
  match l with
  | [] => (m, None)
  | _ =>
      let (p1, e) := Open (m_db m) in
      match e with
      | Some e => (with_db p1 m, Some (PlDb e))
      | None => let (p2, e2) := Put name l p1 in (with_db p2 m, option_map PlDb e2)
      end
  end.

(** [Revert for any errors]. *)
Definition revert (t : PluginType) (name : string) (l unzipFiles : list string) (m : Manager) : Manager :=
  let m1 := match t, unzipFiles with SOURCE, [f] => with_disk (fst (remove_all f (m_disk m))) m | _, _ => m end in
  with_registry (RemoveSymbols (match l with [] => [name] | _ => l end) (registry m1)) m1.

Definition set_version (t : PluginType) (name v : string) (m : Manager) : Manager := with_registry (Store t name v (registry m)) m.

Definition download_install (t : PluginType) (name uri : string) (shellParas l : list string) (m : Manager)
    : Manager * option (option pl_error) :=
  let zipPath := path_Join [pluginDir m; name ++ ".zip"] in
  let removed (m : Manager) := with_disk (remove_file zipPath (m_disk m)) m in
  let (d, e) := download_file zipPath uri (m_disk m) in
  match e with
  | Some e => (removed (with_disk d m), Some (Some (PlText "fail to download file %s: %s" [uri; e])))
  | None =>
      match install (with_disk d m) t name zipPath shellParas with
      | (d2, None) => (removed (with_disk d2 m), None)
      | (d2, Some (unzipFiles, version, e)) =>
          let m2 := with_disk d2 m in
          let (m3, e3) := match e with Some e => (m2, Some (PlText "%s" [e])) | None => store_again name l m2 end in
          match e3 with
          | Some _ => (removed (revert t name l unzipFiles m3), Some (Some (PlText "fail to install plugin: %s" [])))
          | None => (removed (set_version t name version m3), Some None)
          end
      end
  end.

Definition Register (t : PluginType) (j : Plugin) (m : Manager) : Manager * option (option pl_error) :=
  let name := trim (p_Name j) in
  let failed f args := (m, Some (Some (PlText f args))) in
  if String.eqb name "" then failed "invalid name %s: should not be empty" [name]
  else if negb (IsValidUrl (p_File j)) || negb (HasSuffix (p_File j) ".zip") then failed "invalid uri %s" [p_File j]
  else
    match reg_Get t name (registry m) with
    | Some v =>
        if String.eqb v DELETED
        then failed "invalid name %s: the plugin is marked as deleted but Kuiper is not restarted for the change to take effect yet" [name]
        else failed "invalid name %s: duplicate" [name]
    | None =>
        let (m1, e) := register_symbols t name (GetSymbols t j) m in
        match e with
        | Some e => (m1, Some (Some e))
        | None => download_install t name (p_File j) (p_ShellParas j) (GetSymbols t j) m1
        end
    end.

Definition RegisterFuncs (name : string) (functions : list string) (m : Manager) : Manager * option pl_error :=
  match functions with
  | [] => (m, Some (PlText "property 'functions' must not be empty" []))
  | _ =>
      let (p1, e) := Open (m_db m) in
      match e with
      | Some e => (with_db p1 m, Some (PlDb e))
      | None =>
          let (p2, old) := Get name p1 in
          let m1 := with_registry (RemoveSymbols (default [name] old) (registry m)) (with_db p2 m) in
          let (p3, e3) := Put name functions p2 in
          match e3 with
          | Some e => (with_db p3 m1, Some (PlDb e))
          | None => let (rr, e) := StoreSymbols name functions (registry m1) in (with_registry rr (with_db p3 m1), e)
          end
      end
  end.

(** The functions of a plugin that is deleted. *)
Definition drop_symbols (t : PluginType) (name : string) (m : Manager) : Manager * option pl_error :=
  match t with
  | FUNCTION =>
      let (p1, e) := Open (m_db m) in
      match e with
      | Some e => (with_db p1 m, Some (PlDb e))
      | None =>
          let (p2, old) := Get name p1 in
          let m1 := with_registry (RemoveSymbols (default [name] old) (registry m)) (with_db p2 m) in
          match old with
          | None => (m1, None)
          | Some _ => let (p3, e3) := Kv.Delete name p2 in (with_db p3 m1, option_map PlDb e3)
          end
      end
  | _ => (m, None)
  end.

(** Removing files; the errors are collected. *)
Fixpoint remove_paths (paths : list string) (d : disk) : disk * list string :=
  match paths with
  | [] => (d, [])
  | p :: paths' =>
      if stat p d then
        let (d1, e) := remove_all p d in
        let (d2, es) := remove_paths paths' d1 in (d2, match e with Some e => e :: es | None => es end)
      else let (d2, es) := remove_paths paths' d in (d2, ("can't find " ++ p) :: es)
  end.

(** Stopping the server afterwards is left out. *)
Definition Delete (t : PluginType) (name : string) (m : Manager) : Manager * option pl_error :=
  let name := trim name in
  if String.eqb name "" then (m, Some (PlText "invalid name %s: should not be empty" [name]))
  else
    match getSoFilePath m t name true with
    | inl e => (m, Some e)
    | inr soPath =>
        let etcPath := path_Join [etcDir m; PluginTypes t; name] in
        let paths := soPath :: (if stat etcPath (m_disk m) && is_dir etcPath (m_disk m) then [etcPath] else [])
          ++ match t with SOURCE => [path_Join [etcDir m; PluginTypes t; name ++ ".yaml"]] | _ => [] end in
        let (m1, e) := drop_symbols t name m in
        match e with
        | Some e => (m1, Some e)
        | None =>
            let (d, results) := remove_paths paths (m_disk m1) in
            let m2 := with_disk d m1 in
            match results with
            | [] => (set_version t name DELETED m2, None)
            | _ => (m2, Some (PlText (String.concat nl results) []))
            end
        end
    end.

(** [Get]: the version without its v, and the functions. *)
Definition describe (t : PluginType) (name : string) (m : Manager) : Manager * option (string * option (list string)) :=
  match reg_Get t name (registry m) with
  | None => (m, None)
  | Some v =>
      let v := if HasPrefix v "v" then Strings.drop 1 v else v in
      match t with
      | FUNCTION =>
          let (p1, e) := Open (m_db m) in
          match e with
          | Some _ => (with_db p1 m, Some (v, None))
          | None => let (p2, l) := Get name p1 in (with_db p2 m, Some (v, l))
          end
      | _ => (m, Some (v, None))
      end
  end.

Definition HasFunction (name : string) (m : Manager) : bool :=
  match GetPluginBySymbol FUNCTION name (registry m) with Some _ => true | None => false end.

(** [getPlugin]: a symbol that was found once is kept. *)
Definition getPlugin (name : string) (t : PluginType) (m : Manager) (symbolRegistry : gmap string Sym) : gmap string Sym * (pl_error + Sym) :=
  let key := PluginTypes t ++ "/" ++ name in
  match symbolRegistry !! key with
  | Some nf => (symbolRegistry, inr nf)
  | None =>
      match getSoFilePath m t name false with
      | inl _ => (symbolRegistry, inl (PlText "cannot get the plugin file path: %v" []))
      | inr mod_ =>
          match open_plugin mod_ (m_disk m) with
          | Some e => (symbolRegistry, inl (PlText "cannot open %s: %v" [mod_; e]))
          | None =>
              match lookup_symbol mod_ (ucFirst name) (m_disk m) with
              | None => (symbolRegistry, inl (PlText "cannot find symbol %s, please check if it is exported" [name]))
              | Some nf => (<[key := nf]> symbolRegistry, inr nf)
              end
          end
      end
  end.

Inductive op : Type := ORegister (t : PluginType) (j : Plugin) | ORegisterFuncs (name : string) (functions : list string) | ODelete (t : PluginType) (name : string).

(** An operation and whether it succeeded. *)
Definition perform (o : op) (m : Manager) : Manager * bool :=
  match o with
  | ORegister t j => let (m1, e) := Register t j m in (m1, match e with Some None => true | _ => false end)
  | ORegisterFuncs n l => let (m1, e) := RegisterFuncs n l m in (m1, match e with None => true | _ => false end)
  | ODelete t n => let (m1, e) := Delete t n m in (m1, match e with None => true | _ => false end)
  end.
End Manager.

(** ** The registry only grows *)

Section Facts.
Context {Sym : Type} {D : Disk Sym} {KV : KeyValue (list string)}.

Lemma StoreSymbols_plugins n l rr : plugins (fst (StoreSymbols n l rr)) = plugins rr.
Proof. unfold StoreSymbols. now destruct (store_symbols n l (symbols rr)). Qed.

Lemma register_symbols_plugins t n l m : plugins (registry (fst (register_symbols t n l m))) = plugins (registry m).
Proof.
  unfold register_symbols. destruct t; [reflexivity|reflexivity|]. destruct l as [|a l].
  - pose proof (StoreSymbols_plugins n [n] (registry m)) as H. now destruct (StoreSymbols n [n] (registry m)).
  - destruct (Open (m_db m)) as [p1 [e|]]; [reflexivity|]. destruct (Put n (a :: l) p1) as [p2 [e|]]; [reflexivity|].
    pose proof (StoreSymbols_plugins n (a :: l) (registry m)) as H. now destruct (StoreSymbols n (a :: l) (registry m)).
Qed.

Lemma store_again_registry n l m : registry (fst (store_again n l m)) = registry m.
Proof. unfold store_again. destruct l; [reflexivity|]. destruct (Open (m_db m)) as [p1 [e|]]; [reflexivity|]. now destruct (Put n (s :: l) p1). Qed.

Lemma revert_plugins t n l fs m : plugins (registry (revert t n l fs m)) = plugins (registry m).
Proof. unfold revert. now destruct t, fs as [|f [|g fs]]. Qed.

Lemma drop_symbols_plugins t n m : plugins (registry (fst (drop_symbols t n m))) = plugins (registry m).
Proof.
  unfold drop_symbols. destruct t; [reflexivity|reflexivity|]. destruct (Open (m_db m)) as [p1 [e|]]; [reflexivity|].
  destruct (Get n p1) as [p2 [l|]]; [|reflexivity]. now destruct (Kv.Delete n p2).
Qed.

Lemma RegisterFuncs_plugins n l m : plugins (registry (fst (RegisterFuncs n l m))) = plugins (registry m).
Proof.
  unfold RegisterFuncs. destruct l as [|a l]; [reflexivity|]. destruct (Open (m_db m)) as [p1 [e|]]; [reflexivity|]. destruct (Get n p1) as [p2 old].
  destruct (Put n (a :: l) p2) as [p3 [e|]]; [reflexivity|]. cbn [registry with_registry].
  pose proof (StoreSymbols_plugins n (a :: l) (RemoveSymbols (default [n] old) (registry m))) as H.
  now destruct (StoreSymbols n (a :: l) (RemoveSymbols (default [n] old) (registry m))).
Qed.

(** The versions afterwards: the same, or one is set. *)
Definition versions (m m' : Manager) (t : PluginType) (n v : string) : Prop := plugins (registry m') = plugins (Store t n v (registry m)).

Lemma download_install_plugins t n uri sh l m :
  let (m', r) := download_install t n uri sh l m in
  match r with Some None => exists v, versions m m' t n v | _ => plugins (registry m') = plugins (registry m) end.
Proof.
  unfold download_install, versions. destruct (download_file _ uri (m_disk m)) as [d [e|]]; [reflexivity|].
  destruct (install (with_disk d m) t n _ sh) as [d2 [[[fs v] [e|]]|]]; [| |reflexivity].
  - change (plugins (registry (revert t n l fs (with_disk d2 m))) = plugins (registry m)). now rewrite revert_plugins.
  - pose proof (store_again_registry n l (with_disk d2 m)) as H. destruct (store_again n l (with_disk d2 m)) as [m3 [e|]]; cbn [fst] in H.
    + change (plugins (registry (revert t n l fs m3)) = plugins (registry m)). rewrite revert_plugins. now rewrite H.
    + exists v. cbn in *. now rewrite H.
Qed.

Lemma Register_plugins t j m :
  let (m', r) := Register t j m in
  match r with
  | Some None => reg_Get t (trim (p_Name j)) (registry m) = None /\ exists v, versions m m' t (trim (p_Name j)) v
  | _ => plugins (registry m') = plugins (registry m)
  end.
Proof.
  unfold Register. destruct (String.eqb (trim (p_Name j)) ""); [reflexivity|]. destruct (_ || _); [reflexivity|].
  destruct (reg_Get t (trim (p_Name j)) (registry m)) as [v|] eqn:G; [now destruct (String.eqb v DELETED)|].
  pose proof (register_symbols_plugins t (trim (p_Name j)) (GetSymbols t j) m) as H.
  destruct (register_symbols t (trim (p_Name j)) (GetSymbols t j) m) as [m1 [e|]]; [exact H|]. cbn in H.
  pose proof (download_install_plugins t (trim (p_Name j)) (p_File j) (p_ShellParas j) (GetSymbols t j) m1) as I.
  destruct (download_install _ _ _ _ _ m1) as [m' [[e|]|]]; [congruence| |congruence]. split; [reflexivity|].
  destruct I as [v I]. exists v. unfold versions, Store in *. cbn in *. now rewrite I, H.
Qed.

Lemma Delete_plugins t n m :
  let (m', r) := Delete t n m in
  match r with None => versions m m' t (trim n) DELETED | Some _ => plugins (registry m') = plugins (registry m) end.
Proof.
  unfold Delete, versions. destruct (String.eqb (trim n) ""); [reflexivity|]. destruct (getSoFilePath m t (trim n) true) as [e|p]; [reflexivity|].
  pose proof (drop_symbols_plugins t (trim n) m) as H. destruct (drop_symbols t (trim n) m) as [m1 [e|]]; [exact H|]. cbn in H.
  destruct (remove_paths _ (m_disk m1)) as [d [|r rs]]; [|exact H]. cbn. now rewrite H.
Qed.

Lemma perform_grows o m t n v : plugins (registry m) t !! n = Some v ->
  plugins (registry (fst (perform o m))) t !! n = Some v \/ plugins (registry (fst (perform o m))) t !! n = Some DELETED.
Proof.
  intros E. destruct o as [t' j|n' l|t' n']; cbn [perform].
  - pose proof (Register_plugins t' j m) as H. destruct (Register t' j m) as [m' [[e|]|]]; cbn; [rewrite H; auto| |rewrite H; auto].
    destruct H as (G & v' & H). rewrite H. cbn. unfold reg_Get in G. destruct (decide (t = t')) as [->|N]; [|auto].
    rewrite lookup_insert_ne by congruence. auto.
  - pose proof (RegisterFuncs_plugins n' l m) as H. destruct (RegisterFuncs n' l m) as [m' e]. cbn in *. rewrite H. auto.
  - pose proof (Delete_plugins t' n' m) as H. destruct (Delete t' n' m) as [m' [e|]]; cbn; [rewrite H; auto|]. rewrite H. cbn.
    destruct (decide (t = t')) as [->|N]; [|auto]. destruct (decide (trim n' = n)) as [->|M]; [rewrite lookup_insert_eq; auto|].
    rewrite lookup_insert_ne by exact M. auto.
Qed.

Definition performs (os : list op) (m : Manager) : Manager := fold_left (fun m o => fst (perform o m)) os m.

(** the registry is append only: whatever is registered and deleted,
    whatever the disk and the database do, a plugin keeps its version until it is
    marked as deleted, and then it stays marked until the next start. *)
Theorem registry_append_only os m t n v : plugins (registry m) t !! n = Some v ->
  plugins (registry (performs os m)) t !! n = Some v \/ plugins (registry (performs os m)) t !! n = Some DELETED.
Proof.
  unfold performs. revert m. induction os as [|o os IH]; intros m E; [now left|]. cbn [fold_left].
  destruct (perform_grows o m t n v E) as [H|H]; [now apply IH|]. right.
  assert (K : forall os m, plugins (registry m) t !! n = Some DELETED -> plugins (registry (fold_left (fun m o => fst (perform o m)) os m)) t !! n = Some DELETED).
  { clear. induction os as [|o os IH]; intros m E; [exact E|]. cbn. apply IH. now destruct (perform_grows o m t n DELETED E). }
  now apply K.
Qed.
End Facts.

(** ** The registry and the database agree *)

Lemma RemoveSymbols_lookup l rr s : symbols (RemoveSymbols l rr) !! s = if decide (s ∈ l) then None else symbols rr !! s.
Proof.
  unfold RemoveSymbols. cbn. generalize (symbols rr) as m. induction l as [|x l IH]; intros m; cbn [fold_left]; [reflexivity|]. rewrite IH.
  destruct (decide (s ∈ l)) as [I|I], (decide (s ∈ x :: l)) as [J|J]; try reflexivity.
  - exfalso. apply J. now right.
  - apply elem_of_cons in J as [->|J]; [apply lookup_delete_eq|contradiction].
  - apply lookup_delete_ne. intros ->. apply J. now left.
Qed.

(** Functions that are all new are entered, and only those. *)
Lemma store_symbols_ok n l m m' : store_symbols n l m = (m', None) ->
  NoDup l /\ (forall s, s ∈ l -> m !! s = None) /\ forall s, m' !! s = if decide (s ∈ l) then Some n else m !! s.
Proof.
  revert m. induction l as [|x l IH]; intros m E; cbn in E.
  - injection E as <-. split; [constructor|]. split; [now intros s ?%elem_of_nil|]. intros s. destruct (decide (s ∈ [])) as [H|]; [now apply elem_of_nil in H|reflexivity].
  - destruct (m !! x) eqn:X; [discriminate|]. destruct (IH _ E) as (N & F & L). split; [|split].
    + constructor; [|exact N]. intros I. specialize (F x I). rewrite lookup_insert_eq in F. discriminate.
    + intros s I. apply elem_of_cons in I as [->|I]; [exact X|]. specialize (F s I). destruct (decide (x = s)) as [->|M]; [exact X|].
      now rewrite lookup_insert_ne in F.
    + intros s. rewrite L. destruct (decide (s ∈ l)) as [I|I], (decide (s ∈ x :: l)) as [J|J]; try reflexivity.
      * exfalso. apply J. now right.
      * apply elem_of_cons in J as [->|J]; [apply lookup_insert_eq|contradiction].
      * apply lookup_insert_ne. intros ->. apply J. now left.
Qed.

Lemma store_symbols_new n l : forall m, NoDup l -> (forall s, s ∈ l -> m !! s = None) -> exists m', store_symbols n l m = (m', None).
Proof.
  induction l as [|x l IH]; intros m N F; cbn; [eauto|]. apply NoDup_cons in N as [Nx N]. rewrite (F x) by now left. apply IH; [exact N|].
  intros s I. rewrite lookup_insert_ne by (intros ->; contradiction). apply F. now right.
Qed.

Section Sync.
Context {Sym : Type} {D : Disk Sym} {KV : KeyValue (list string)}.

Definition live (m : Manager) (p : string) : Prop := exists v, plugins (registry m) FUNCTION !! p = Some v /\ v <> DELETED.

Definition functions_of (m : Manager) (p : string) : list string := default [p] (contents (m_db m) !! p).

(** The names of functions are those that the database, or the name of the
    plugin, gives to the function plugins that are not deleted. *)
Record in_sync (m : Manager) : Prop := {
  sy_live : forall p, live m p -> plain p /\ p <> "";
  sy_db : forall p, is_Some (contents (m_db m) !! p) -> live m p;
  sy_nodup : forall p, live m p -> NoDup (functions_of m p);
  sy_symbols : forall s p, symbols (registry m) !! s = Some p <-> live m p /\ s ∈ functions_of m p }.

Definition name_of (o : op) : string := match o with ORegister _ j => trim (p_Name j) | ORegisterFuncs n _ => n | ODelete _ n => trim n end.

(** An installed version is not the mark of a deleted plugin, and functions are
    registered for and deleted with a plugin that is there. *)
Definition op_ok (o : op) (m m' : Manager) : Prop :=
  plain (name_of o) /\
  match o with
  | ORegister t j => plugins (registry m') t !! name_of o <> Some DELETED
  | ORegisterFuncs n _ => live m n
  | ODelete FUNCTION _ => live m (name_of o)
  | ODelete _ _ => True
  end.

Lemma in_sync_same m m' : in_sync m -> plugins (registry m') FUNCTION = plugins (registry m) FUNCTION -> symbols (registry m') = symbols (registry m) ->
  contents (m_db m') = contents (m_db m) -> in_sync m'.
Proof.
  intros [A B C E] P S K. assert (L : forall p, live m' p <-> live m p) by (intros p; unfold live; now rewrite P).
  assert (F : forall p, functions_of m' p = functions_of m p) by (intros p; unfold functions_of; now rewrite K).
  split.
  - intros p H. apply A. now apply L.
  - intros p H. apply L, B. now rewrite <- K.
  - intros p H. rewrite F. now apply C, L.
  - intros s p. rewrite S, L, F. apply E.
Qed.

(** A plugin gets functions; it may be new. *)
Lemma in_sync_gains m m' n l : in_sync m -> plain n -> n <> "" -> live m' n -> (forall p, p <> n -> live m' p <-> live m p) ->
  NoDup l -> functions_of m' n = l -> (forall p, p <> n -> contents (m_db m') !! p = contents (m_db m) !! p) ->
  (forall s p, symbols (registry m') !! s = Some p <-> (if decide (p = n) then s ∈ l else symbols (registry m) !! s = Some p)) -> in_sync m'.
Proof.
  intros [A B C E] P N L Lo Nd Fn K S. assert (Fo : forall p, p <> n -> functions_of m' p = functions_of m p).
  { intros p H. unfold functions_of. now rewrite K. }
  split.
  - intros p H. destruct (decide (p = n)) as [->|M]; [now split|]. apply A. now apply Lo.
  - intros p H. destruct (decide (p = n)) as [->|M]; [exact L|]. apply Lo; [exact M|]. apply B. now rewrite <- K.
  - intros p H. destruct (decide (p = n)) as [->|M]; [now rewrite Fn|]. rewrite Fo by exact M. now apply C, Lo.
  - intros s p. rewrite S. destruct (decide (p = n)) as [->|M]; [rewrite Fn; tauto|]. rewrite Fo, Lo by exact M. apply E.
Qed.

(** A plugin goes. *)
Lemma in_sync_loses m m' n : in_sync m -> ~ live m' n -> (forall p, p <> n -> live m' p <-> live m p) ->
  contents (m_db m') = delete n (contents (m_db m)) ->
  (forall s p, symbols (registry m') !! s = Some p <-> p <> n /\ symbols (registry m) !! s = Some p) -> in_sync m'.
Proof.
  intros [A B C E] L Lo K S. assert (Fo : forall p, p <> n -> functions_of m' p = functions_of m p).
  { intros p H. unfold functions_of. rewrite K. now rewrite lookup_delete_ne by congruence. }
  assert (Ne : forall p, live m' p -> p <> n) by (intros p H ->; contradiction).
  split.
  - intros p H. apply A, Lo; [now apply Ne|exact H].
  - intros p [l H]. rewrite K in H. apply lookup_delete_Some in H as [M H]. apply Lo; [congruence|]. apply B. eauto.
  - intros p H. rewrite Fo by now apply Ne. apply C, Lo; [now apply Ne|exact H].
  - intros s p. rewrite S. split.
    + intros [M H]. rewrite Fo, Lo by exact M. now apply E.
    + intros [H I]. pose proof (Ne p H) as M. split; [exact M|]. rewrite Fo, Lo in * by exact M. now apply E.
Qed.

(** Removing the functions of a plugin that is there. *)
Lemma without_functions m n s p : in_sync m -> live m n ->
  symbols (RemoveSymbols (functions_of m n) (registry m)) !! s = Some p <-> p <> n /\ symbols (registry m) !! s = Some p.
Proof.
  intros Y L. rewrite RemoveSymbols_lookup. destruct (decide (s ∈ functions_of m n)) as [I|I].
  - split; [discriminate|]. intros [M H]. exfalso. apply M. assert (X : symbols (registry m) !! s = Some n) by now apply (sy_symbols _ Y). congruence.
  - split; [|tauto]. intros H. split; [|exact H]. intros ->. apply I. now apply (sy_symbols _ Y).
Qed.
End Sync.

(** What is entered over a map from which the functions of the plugin are gone. *)
Lemma entered {Sym} {D : Disk Sym} {KV : KeyValue (list string)} (m : Manager) n l b m' : store_symbols n l b = (m', None) ->
  (forall s p, b !! s = Some p <-> p <> n /\ symbols (registry m) !! s = Some p) ->
  NoDup l /\ forall s p, m' !! s = Some p <-> (if decide (p = n) then s ∈ l else symbols (registry m) !! s = Some p).
Proof.
  intros E B. destruct (store_symbols_ok _ _ _ _ E) as (N & F & L). split; [exact N|]. intros s p. rewrite L.
  destruct (decide (s ∈ l)) as [I|I], (decide (p = n)) as [->|M]; try tauto.
  - split; [congruence|]. intros H. specialize (F s I). assert (b !! s = Some p) by now apply B. congruence.
  - split; [|contradiction]. intros H. now apply B in H as [H _].
  - rewrite B. tauto.
Qed.

Section Preserved.
Context {Sym : Type} {D : Disk Sym} {KV : KeyValue (list string)}.

Lemma Get_known (m : Manager) n p : healthy p -> plain n -> contents p = contents (m_db m) ->
  exists p', Get n p = (p', contents (m_db m) !! n) /\ contents p' = contents (m_db m) /\ healthy p'.
Proof.
  intros H P E. destruct (Get_law n p) as [G1 _]. destruct (Get_healthy n p H) as [G2 G3]. specialize (G3 P).
  destruct (Get n p) as [p' v]. cbn in *. exists p'. rewrite <- E. split; [now rewrite G3|]. split; congruence.
Qed.

Lemma not_live_bare m n : in_sync m -> ~ live m n -> forall s p, symbols (registry m) !! s = Some p <-> p <> n /\ symbols (registry m) !! s = Some p.
Proof. intros Y N s p. split; [|tauto]. intros H. split; [|exact H]. intros ->. apply N. now apply (sy_symbols _ Y) in H. Qed.

Lemma store_again_contents n l m m' : store_again n l m = (m', None) ->
  contents (m_db m') = match l with [] => contents (m_db m) | _ => <[n := l]> (contents (m_db m)) end.
Proof.
  unfold store_again. destruct l as [|a l]; [now intros [= <-]|]. pose proof (Open_law (m_db m)) as O. destruct (Open (m_db m)) as [p1 [e|]]; [discriminate|].
  pose proof (Put_law n (a :: l) p1) as P. destruct (Put n (a :: l) p1) as [p2 [e|]]; [discriminate|]. intros [= <-]. cbn in *. congruence.
Qed.

Lemma download_install_ok t n uri sh l m m' : download_install t n uri sh l m = (m', Some None) ->
  symbols (registry m') = symbols (registry m)
  /\ contents (m_db m') = match l with [] => contents (m_db m) | _ => <[n := l]> (contents (m_db m)) end.
Proof.
  unfold download_install. destruct (download_file _ uri (m_disk m)) as [d [e|]]; [discriminate|].
  destruct (install (with_disk d m) t n _ sh) as [d2 [[[fs v] [e|]]|]]; [discriminate| |discriminate].
  pose proof (store_again_registry n l (with_disk d2 m)) as R. pose proof (store_again_contents n l (with_disk d2 m)) as C.
  destruct (store_again n l (with_disk d2 m)) as [m3 [e|]]; [discriminate|]. intros [= <-]. cbn in *. rewrite R. split; [reflexivity|]. now apply C.
Qed.

Lemma register_symbols_ok n l m m' : register_symbols FUNCTION n l m = (m', None) ->
  store_symbols n (match l with [] => [n] | _ => l end) (symbols (registry m)) = (symbols (registry m'), None)
  /\ contents (m_db m') = match l with [] => contents (m_db m) | _ => <[n := l]> (contents (m_db m)) end.
Proof.
  unfold register_symbols, StoreSymbols. destruct l as [|a l].
  - destruct (store_symbols n [n] _) as [mm e]. intros [= <- ->]. now split.
  - pose proof (Open_law (m_db m)) as O. destruct (Open (m_db m)) as [p1 [e|]]; [discriminate|].
    pose proof (Put_law n (a :: l) p1) as P. destruct (Put n (a :: l) p1) as [p2 [e|]]; [discriminate|].
    destruct (store_symbols n (a :: l) (symbols (registry m))) as [mm e]. intros [= <- ->]. cbn in *. split; [reflexivity|congruence].
Qed.

Lemma Store_same t n v rr : plugins (Store t n v rr) t = <[n := v]> (plugins rr t).
Proof. cbn. now rewrite decide_True. Qed.

Lemma Store_other t t' n v rr : t' <> t -> plugins (Store t n v rr) t' = plugins rr t'.
Proof. intros N. cbn. now rewrite decide_False. Qed.

Lemma live_stored m m' n v : plugins (registry m') = plugins (Store FUNCTION n v (registry m)) ->
  (live m' n <-> v <> DELETED) /\ forall p, p <> n -> live m' p <-> live m p.
Proof.
  intros P. unfold live. rewrite P, Store_same. split.
  - rewrite lookup_insert_eq. split; [intros (x & [= ->] & H); exact H|]. intros H. now exists v.
  - intros p M. now rewrite lookup_insert_ne by congruence.
Qed.

Lemma Register_sync t j m m' : in_sync m -> Register t j m = (m', Some None) -> plain (trim (p_Name j)) ->
  plugins (registry m') t !! trim (p_Name j) <> Some DELETED -> in_sync m'.
Proof.
  intros Y E P V. pose proof (Register_plugins t j m) as W. rewrite E in W. destruct W as (G & v & W).
  unfold Register in E. destruct (String.eqb_spec (trim (p_Name j)) "") as [|N]; [discriminate|]. destruct (_ || _); [discriminate|]. rewrite G in E.
  set (n := trim (p_Name j)) in *. destruct (register_symbols t n (GetSymbols t j) m) as [m1 [e|]] eqn:R; [discriminate|].
  apply download_install_ok in E as [S C]. destruct (decide (t = FUNCTION)) as [->|T].
  - apply register_symbols_ok in R as [R1 R2]. set (l := match GetSymbols FUNCTION j with [] => [n] | _ :: _ => GetSymbols FUNCTION j end) in *.
    assert (Nl : ~ live m n) by (intros (x & X & _); unfold reg_Get in G; congruence).
    destruct (entered m n l _ _ R1 (not_live_bare m n Y Nl)) as [Nd En]. destruct (live_stored m m' n v W) as [L1 L2].
    assert (Cn : contents (m_db m) !! n = None).
    { destruct (contents (m_db m) !! n) eqn:X; [|reflexivity]. exfalso. apply Nl, (sy_db _ Y). rewrite X. eauto. }
    apply (in_sync_gains m m' n l); auto.
    + apply L1. rewrite W, Store_same, lookup_insert_eq in V. congruence.
    + unfold functions_of, l. rewrite C, R2. destruct (GetSymbols FUNCTION j) as [|a x]; [now rewrite Cn|now rewrite lookup_insert_eq].
    + intros p M. rewrite C, R2. destruct (GetSymbols FUNCTION j) as [|a x]; [reflexivity|]. now rewrite !lookup_insert_ne by congruence.
    + intros s p. rewrite S. apply En.
  - assert (M1 : m1 = m /\ GetSymbols t j = []) by (destruct t; [now injection R as <-|now injection R as <-|contradiction]).
    destruct M1 as [-> Gs]. rewrite Gs in C. apply (in_sync_same m m' Y); [|exact S|exact C]. now rewrite W, Store_other by congruence.
Qed.

Lemma RegisterFuncs_sync n l m m' : in_sync m -> healthy (m_db m) -> RegisterFuncs n l m = (m', None) -> live m n -> in_sync m'.
Proof.
  intros Y H E L. destruct (sy_live _ Y n L) as [P N]. pose proof (RegisterFuncs_plugins n l m) as Pl. rewrite E in Pl. cbn in Pl.
  unfold RegisterFuncs in E. destruct l as [|a l]; [discriminate|]. pose proof (Open_law (m_db m)) as O. destruct (Open_healthy (m_db m) H) as [OH _].
  destruct (Open (m_db m)) as [p1 [e|]]; [discriminate|]. cbn in O, OH. destruct (Get_known m n p1 OH P O) as (p2 & G & C2 & H2). rewrite G in E.
  pose proof (Put_law n (a :: l) p2) as W. destruct (Put n (a :: l) p2) as [p3 [e|]]; [discriminate|]. cbn in W.
  unfold StoreSymbols in E. cbn [registry with_registry with_db] in E.
  change (default [n] (contents (m_db m) !! n)) with (functions_of m n) in E.
  destruct (store_symbols n (a :: l) _) as [mm e] eqn:St. injection E as <- ->.
  destruct (entered m n (a :: l) _ _ St (fun s p => without_functions m n s p Y L)) as [Nd En].
  apply (in_sync_gains m _ n (a :: l)); auto.
  - unfold functions_of. cbn. now rewrite W, lookup_insert_eq.
  - intros p M. cbn. now rewrite W, C2, lookup_insert_ne by congruence.
Qed.

Lemma Delete_sync t n m m' : in_sync m -> healthy (m_db m) -> Delete t n m = (m', None) ->
  (t = FUNCTION -> live m (trim n)) -> in_sync m'.
Proof.
  intros Y H E L. pose proof (Delete_plugins t n m) as W. rewrite E in W. unfold versions in W. unfold Delete in E. set (k := trim n) in *.
  destruct (String.eqb k ""); [discriminate|]. destruct (getSoFilePath m t k true) as [e|sp]; [discriminate|].
  destruct (drop_symbols t k m) as [m1 [e|]] eqn:Dr; [discriminate|]. destruct (remove_paths _ (m_disk m1)) as [d [|r rs]]; [|discriminate].
  injection E as <-. destruct (decide (t = FUNCTION)) as [->|T].
  - specialize (L eq_refl). destruct (sy_live _ Y k L) as [P N]. destruct (live_stored m _ k DELETED W) as [L1 L2].
    unfold drop_symbols in Dr. pose proof (Open_law (m_db m)) as O. destruct (Open_healthy (m_db m) H) as [OH _].
    destruct (Open (m_db m)) as [p1 [e|]]; [discriminate|]. cbn in O, OH. destruct (Get_known m k p1 OH P O) as (p2 & G & C2 & H2). rewrite G in Dr.
    change (default [k] (contents (m_db m) !! k)) with (functions_of m k) in Dr. unfold with_registry, with_db in Dr. cbn in Dr.
    assert (C : contents (m_db m1) = delete k (contents (m_db m)) /\ symbols (registry m1) = symbols (RemoveSymbols (functions_of m k) (registry m))).
    { destruct (contents (m_db m) !! k) as [old|] eqn:X.
      - pose proof (Delete_law k p2 P) as Dl. destruct (Kv.Delete k p2) as [p3 [e|]]; [discriminate|]. injection Dr as <-. cbn in *. split; [|reflexivity].
        rewrite <- C2. apply Dl.
      - injection Dr as <-. cbn. split; [|reflexivity]. rewrite C2. symmetry. now apply delete_id. }
    destruct C as [C S]. apply (in_sync_loses m _ k); auto; [tauto|]. intros s p. cbn. rewrite S. now apply without_functions.
  - assert (m1 = m) as -> by (destruct t; [now injection Dr as <-|now injection Dr as <-|contradiction]).
    apply (in_sync_same m _ Y); [|reflexivity|reflexivity]. now rewrite W, Store_other by congruence.
Qed.

End Preserved.

(** ** A restart *)

Section Restart.
Context {Sym : Type} {D : Disk Sym} {KV : KeyValue (list string)}.
Variable order : gmap string string -> list string.
Hypothesis order_perm : forall x, Permutation (order x) (map_to_list x).*1.

Lemma order_keys x : NoDup (order x) /\ forall p, p ∈ order x <-> is_Some (x !! p).
Proof.
  rewrite order_perm. split; [apply NoDup_fst_map_to_list|]. intros p. rewrite order_perm, list_elem_of_fmap. split.
  - intros ((k & v) & -> & H). apply elem_of_map_to_list in H. eauto.
  - intros [v H]. exists (p, v). split; [reflexivity|]. now apply elem_of_map_to_list.
Qed.

Lemma load_symbols_ok (m : Manager) names : forall seen rr p, in_sync m -> healthy p -> contents p = contents (m_db m) ->
  NoDup (seen ++ names)%list -> (forall q, q ∈ names -> live m q) ->
  (forall s q, symbols rr !! s = Some q <-> q ∈ seen /\ symbols (registry m) !! s = Some q) ->
  exists rr' p', load_symbols names rr p = (rr', p') /\ plugins rr' = plugins rr
    /\ forall s q, symbols rr' !! s = Some q <-> q ∈ (seen ++ names)%list /\ symbols (registry m) !! s = Some q.
Proof.
  induction names as [|pf names IH]; intros seen rr p Y H C Nd L S; cbn [load_symbols].
  - exists rr, p. split; [reflexivity|]. split; [reflexivity|]. now rewrite app_nil_r.
  - assert (Lp : live m pf) by (apply L; now left). destruct (sy_live _ Y pf Lp) as [P N]. destruct (Get_known m pf p H P C) as (p1 & -> & C1 & H1).
    change (default [pf] (contents (m_db m) !! pf)) with (functions_of m pf).
    assert (Np : pf ∉ seen) by (intros I; apply NoDup_app in Nd as (_ & Dj & _); apply (Dj pf I); now left).
    destruct (store_symbols_new pf (functions_of m pf) (symbols rr) (sy_nodup _ Y pf Lp)) as [mm E].
    { intros s I. destruct (symbols rr !! s) as [q|] eqn:X; [|reflexivity]. apply S in X as [X1 X2].
      assert (X3 : symbols (registry m) !! s = Some pf) by now apply (sy_symbols _ Y). congruence. }
    unfold StoreSymbols. rewrite E. cbn [fst]. destruct (store_symbols_ok _ _ _ _ E) as (_ & F & K).
    destruct (IH ((seen ++ [pf])%list) (mkRegistry (plugins rr) mm) p1 Y H1 C1) as (rr' & p' & E' & Pl & S').
    + now rewrite <- app_assoc.
    + intros q I. apply L. now right.
    + intros s q. cbn. rewrite K, elem_of_app, list_elem_of_singleton. destruct (decide (s ∈ functions_of m pf)) as [I|I].
      * assert (X : symbols (registry m) !! s = Some pf) by now apply (sy_symbols _ Y). split; [intros [= <-]; auto|]. intros [_ Z]. congruence.
      * rewrite S. split; [tauto|]. intros [[J | -> ] Z]; [now split|]. exfalso. apply I. now apply (sy_symbols _ Y).
    + exists rr', p'. split; [exact E'|]. split; [exact Pl|]. intros s q. rewrite S', <- app_assoc. reflexivity.
Qed.

End Restart.

(** ** Examples *)

Module Sample.
(** A disk is the list of its files; the archive of a plugin holds one shared
    object, and a URL that ends with missing.zip cannot be downloaded. *)
Definition base (p : string) : string := List.last (Split p "/") "".
Definition under (dir p : string) : bool := HasPrefix p (dir ++ "/") && Nat.eqb (List.length (Split p "/")) (S (List.length (Split dir "/"))).

#[export] Instance list_disk : Disk unit := {|
  disk := list string;
  stat p d := existsb (String.eqb p) d;
  is_dir _ _ := false;
  read_dir dir d := inr (map base (List.filter (under dir) d));
  remove_all p d := (List.filter (fun q => negb (String.eqb p q)) d, None);
  remove_file p d := List.filter (fun q => negb (String.eqb p q)) d;
  download_file p uri d := if HasSuffix uri "missing.zip" then (d, Some "not found") else (p :: d, None);
  zip_entries p _ := inr [hd "" (Split (base p) ".zip") ++ "@v1.so"];
  unzip_to _ dst d := (dst :: d, None);
  run_script _ d := (d, None);
  open_plugin _ _ := None;
  lookup_symbol _ _ _ := Some tt;
  ParseRequestURI u := Some (mkUrl "file" "" u);
  url_Parse u := Some (mkUrl "file" "" u);
  regexp_match _ text := Some (HasSuffix text ".so");
  rune_upper r := if (97 <=? r) && (r <=? 122) then r - 32 else if Z.eqb r 233 then 201 else r;
  rune_lower r := if (65 <=? r) && (r <=? 90) then r + 32 else r |}%Z.

Import Streams.Sample.

Definition empty : Manager := mkManager "plugins" "etc" (mkRegistry (fun _ => ∅) ∅) (mkSqlite ∅ []) [].
Definition function_plugin (name file : string) (l : list string) : op := ORegister FUNCTION (mkPlugin name file [] l).
Definition install_math : op := function_plugin "math" "http://host/math.zip" ["sin"; "cos"].
Definition outcomes (os : list op) (m : Manager) : list bool * Manager :=
  fold_left (fun r o => let (m', b) := perform o (snd r) in ((fst r ++ [b])%list, m')) os ([], m).
Definition restarted (m : Manager) : option Manager := fst (NewPluginManager (fun x => (map_to_list x).*1) "plugins" "etc" (m_db m) (m_disk m)).
Definition knows (l : list string) (m : Manager) : list bool := map (fun s => HasFunction s m) l.

Lemma empty_in_sync : in_sync empty.
Proof.
  assert (N : forall p, ~ live empty p) by (intros p (v & E & _); exact (lookup_empty_Some _ _ E)).
  split.
  - intros p H. now apply N in H.
  - intros p [l E]. exfalso. exact (lookup_empty_Some _ _ E).
  - intros p H. now apply N in H.
  - intros s p. split; [intros E; exfalso; exact (lookup_empty_Some _ _ E)|]. intros [H _]. now apply N in H.
Qed.
End Sample.

Import Plugins.Sample Streams.Sample.

Lemma performed t j (m : Manager) : snd (perform (ORegister t j) m) = true -> Register t j m = (fst (perform (ORegister t j) m), Some None).
Proof. cbn. now destruct (Register t j m) as [m' [[e|]|]]. Qed.

Lemma registry_append_only_witness : plugins (registry (fst (perform install_math empty))) FUNCTION !! "math" = Some "v1"
  /\ (plugins (registry (performs [ODelete FUNCTION "math"; install_math] (fst (perform install_math empty)))) FUNCTION !! "math" = Some "v1"
      \/ plugins (registry (performs [ODelete FUNCTION "math"; install_math] (fst (perform install_math empty)))) FUNCTION !! "math" = Some DELETED).
Proof.
  assert (E : plugins (registry (fst (perform install_math empty))) FUNCTION !! "math" = Some "v1") by (vm_compute; reflexivity).
  split; [exact E|]. exact (registry_append_only _ _ _ _ _ E).
Defined.



(** A plugin that cannot be downloaded leaves its functions behind, and cannot be
    registered with them any more. *)
Lemma failed_download_keeps_functions :
  let '(r, m) := outcomes [function_plugin "math" "http://host/missing.zip" ["sin"]; install_math] empty in
  r = [false; false] /\ knows ["sin"] m = [true] /\ plugins (registry m) FUNCTION !! "math" = None.
Proof. vm_compute. auto. Qed.

(** The functions stored for it come back when it is registered without any. *)
Lemma stale_functions_come_back :
  let '(r, m) := outcomes [function_plugin "math" "http://host/missing.zip" ["sin"]; function_plugin "math" "http://host/math.zip" []] empty in
  r = [false; true] /\ knows ["math"] m = [true] /\ option_map (knows ["math"; "sin"]) (restarted m) = Some [false; true].
Proof. vm_compute. auto. Qed.

(** A source that cannot be installed takes the function of its name away. *)
Lemma failed_source_removes_function :
  let '(r, m) := outcomes [function_plugin "echo" "http://host/echo.zip" []; ORegister SOURCE (mkPlugin "echo" "http://host/echo.zip" [] [])] empty in
  r = [true; false] /\ knows ["echo"] m = [false] /\ option_map (knows ["echo"]) (restarted m) = Some [true].
Proof. vm_compute. auto. Qed.

(** A list with a function that is known is refused after a part of it was
    entered; registering functions anew also loses the old ones then. *)
Lemma refused_functions_are_entered :
  let '(r, m) := outcomes [install_math; function_plugin "trig" "http://host/trig.zip" ["tan"; "sin"]] empty in
  r = [true; false] /\ symbols (registry m) !! "tan" = Some "trig" /\ plugins (registry m) FUNCTION !! "trig" = None.
Proof. vm_compute. auto. Qed.

Lemma refused_functions_lose_old_ones :
  let '(r, m) := outcomes [install_math; function_plugin "trig" "http://host/trig.zip" ["tan"]; ORegisterFuncs "trig" ["sin"]] empty in
  r = [true; true; false] /\ knows ["tan"] m = [false].
Proof. vm_compute. auto. Qed.

(** A restart knows a plugin by its name with a small first letter. *)
Lemma capital_name_changes :
  let '(r, m) := outcomes [function_plugin "Echo" "http://host/Echo.zip" []] empty in
  r = [true] /\ knows ["Echo"; "echo"] m = [true; false] /\ option_map (knows ["Echo"; "echo"]) (restarted m) = Some [false; true].
Proof. vm_compute. auto. Qed.

(** The first letter of a name is cut off by one byte. *)
Lemma ucFirst_cuts_bytes : Utf8.decode (ucFirst (Lexical.encode [233; 97]%Z)) = [201; 65533; 97]%Z.
Proof. vm_compute. reflexivity. Qed.
