(* ===== verification/SinkLoop.v ===== *)
(** A running sink (the goroutines of [SinkNode.Open] in
    src/internal/topo/node/sink_node.go with the cache of sink_cache.go): the
    properties of a sink, and the loop in which a worker takes results from the
    cache, sends them and tells the cache.

    The goroutines of one worker and its cache are interleaved step by step.  An
    attempt to send succeeds or not, and the cache, which is told by a send that
    does not wait, hears of a success or not.  While the channel to the worker is
    full, the cache waits to put a result into it and does nothing else.  Saving
    succeeds.  Results are sent one after the other; the property runAsync, with
    which every result has its own goroutine, is not modelled. *)

From S2P Require Import Prelude Value Cast SinkNode.
From stdpp Require Import base gmap list strings sorting.
From Stdlib Require Import ZArith Lia.

#[local] Open Scope Z_scope.

(** ** The properties of a sink *)

Section Options.
Context {L : FloatLib} {Msg : Type}.
(** [template.Parse]: an error or a template. *)
Variable parse_template : string -> string + Template (Msg := Msg).

Record SinkOptions : Type := mkSinkOptions {
  so_concurrency : Z; so_runAsync : bool; so_retryInterval : Z; so_retryCount : Z; so_cacheLength : Z; so_cacheSaveInterval : Z;
  so_omitIfEmpty : bool; so_sendSingle : bool; so_dataTemplate : option (Template (Msg := Msg)) }.

(** A number that is at least [least]; a value that is no such number is only
    warned of. *)
Definition int_option (name : string) (least default_ : Z) (props : list (string * value)) : Z :=
  match Prelude.assoc name props with
  | Some c => match ToInt c STRICT with inr t => if t <? least then default_ else t | inl _ => default_ end
  | None => default_
  end.

Definition bool_option (name : string) (props : list (string * value)) : bool :=
  match Prelude.assoc name props with Some (VBool t) => t | _ => false end.

(** The beginning of [Open]; an invalid template is an error of the rule. *)
Definition sink_options (concurrency : Z) (props : list (string * value)) : string + SinkOptions :=
  let made tp := inr (mkSinkOptions
    (int_option "concurrency" 1 concurrency props) (bool_option "runAsync" props)
    (int_option "retryInterval" 0 1000 props) (int_option "retryCount" 0 3 props) (int_option "cacheLength" 0 1024 props)
    (int_option "cacheSaveInterval" 0 1000 props) (bool_option "omitIfEmpty" props) (bool_option "sendSingle" props) tp) in
  match Prelude.assoc "dataTemplate" props with
  | Some (VString t) => match parse_template t with inl e => inl e | inr tp => made (Some tp) end
  | _ => made None
  end.

Lemma int_option_least name least d props : least <= d -> least <= int_option name least d props.
Proof.
  intros H. unfold int_option. destruct (Prelude.assoc name props) as [c|]; [|exact H]. destruct (ToInt c STRICT) as [e|t]; [exact H|].
  destruct (Z.ltb_spec t least); lia.
Qed.

(** Whatever the properties, a sink has a positive number of workers and natural
    retries, lengths and intervals. *)
Lemma sink_options_natural concurrency props o : 1 <= concurrency -> sink_options concurrency props = inr o ->
  1 <= so_concurrency o /\ 0 <= so_retryInterval o /\ 0 <= so_retryCount o /\ 0 <= so_cacheLength o /\ 0 <= so_cacheSaveInterval o.
Proof.
  intros H E. unfold sink_options in E.
  assert (G : forall tp, inr (mkSinkOptions
    (int_option "concurrency" 1 concurrency props) (bool_option "runAsync" props)
    (int_option "retryInterval" 0 1000 props) (int_option "retryCount" 0 3 props) (int_option "cacheLength" 0 1024 props)
    (int_option "cacheSaveInterval" 0 1000 props) (bool_option "omitIfEmpty" props) (bool_option "sendSingle" props) tp) = @inr string _ o ->
    1 <= so_concurrency o /\ 0 <= so_retryInterval o /\ 0 <= so_retryCount o /\ 0 <= so_cacheLength o /\ 0 <= so_cacheSaveInterval o).
  { intros tp [= <-]. cbn. repeat split; apply int_option_least; lia. }
  destruct (Prelude.assoc "dataTemplate" props) as [[]|]; try (now apply (G None)). destruct (parse_template s) as [e|tp]; [discriminate|]. now apply (G (Some tp)).
Qed.
End Options.

(** ** The loop *)

Section Loop.
Context {Item : Type}.
Variable conf : SinkConf.
Variable outdata : Item -> list string.     (* [getOutData] *)
Variable mayRetry : bool.                   (* the interval of retries is not 0 *)
Variable retryCount : nat.
Variable limit : nat.                       (* cacheLength, the capacity of [Out] *)

(** What the worker is sending: the index of its tuple, the messages that are
    left and the retries. *)
Record Worker : Type := mkWorker { w_index : Z; w_left : list string; w_retries : nat }.

(** [l_out] is the content of the channel [Out] and then what the cache waits to
    put into it; [l_stored] is what was saved last. *)
Record SinkLoop : Type := mkLoop {
  l_cache : Cache (Item := Item);
  l_out : list (CacheTuple (Item := Item));
  l_worker : option Worker;
  l_sent : list string;
  l_stored : option (LinkedQueue (Item := Item)) }.

(** The rule is stopped and started again in [LRestart] and [LStuck]; in the first
    the cache notices and saves, in the second it is waiting for room. *)
Inductive loop_event : Type :=
  | LIn (item : Item)
  | LTick
  | LTake
  | LTry (accepted heard : bool)
  | LRestart
  | LStuck.

Definition outs (es : list (cache_effect (Item := Item))) : list CacheTuple := omap (fun e => match e with Out t => Some t | Save _ => None end) es.
Definition saved (es : list (cache_effect (Item := Item))) (q : option LinkedQueue) : option LinkedQueue :=
  fold_left (fun q e => match e with Save q' => Some q' | Out _ => q end) es q.

Definition of_cache (r : Cache * list cache_effect) (s : SinkLoop) : SinkLoop :=
  mkLoop (fst r) (l_out s ++ outs (snd r)) (l_worker s) (l_sent s) (saved (snd r) (l_stored s)).

Definition idle (s : SinkLoop) : bool := match l_worker s with Some w => match w_left w with [] => true | _ => false end | None => true end.

Definition set_worker (w : option Worker) (s : SinkLoop) : SinkLoop := mkLoop (l_cache s) (l_out s) w (l_sent s) (l_stored s).

(** One attempt of [doCollectCacheTuple]. *)
Definition try_send (accepted heard : bool) (s : SinkLoop) : SinkLoop :=
  match l_worker s with
  | Some (mkWorker k (o :: ms) r) =>
      if accepted then
        let s1 := mkLoop (l_cache s) (l_out s) (Some (mkWorker k ms r)) (l_sent s ++ [o]) (l_stored s) in
        if heard then of_cache (on_complete k (l_cache s)) s1 else s1
      else
        match mayRetry, r with
        | true, S r' => set_worker (Some (mkWorker k (o :: ms) r')) s
        | _, _ => set_worker (Some (mkWorker k ms r)) s
        end
  | _ => s
  end.

Definition waits (s : SinkLoop) : bool := (limit <? length (l_out s))%nat.

Definition reload (q : option LinkedQueue) (s : SinkLoop) : SinkLoop :=
  let r := loadCache q in mkLoop (fst r) (outs (snd r)) None (l_sent s) q.

(** [None]: the event is not possible. *)
Definition loop_step (s : SinkLoop) (e : loop_event) : option SinkLoop :=
  match e with
  | LIn item => if waits s then None else Some (of_cache (on_in item (l_cache s)) s)
  | LTick => if waits s then None else Some (of_cache (on_ticker conf (l_cache s)) s)
  | LTake =>
      match idle s, l_out s with
      | true, t :: rest => Some (mkLoop (l_cache s) rest (Some (mkWorker (index t) (outdata (data t)) retryCount)) (l_sent s) (l_stored s))
      | _, _ => None
      end
  | LTry accepted heard => if heard && waits s then None else Some (try_send accepted heard s)
  | LRestart => if waits s then None else Some (reload (Some (pending (l_cache s))) s)
  | LStuck => if waits s then Some (reload (l_stored s) s) else None
  end.

Fixpoint loop_run (es : list loop_event) (s : SinkLoop) : option SinkLoop :=
  match es with [] => Some s | e :: es' => match loop_step s e with Some s' => loop_run es' s' | None => None end end.

Definition loop_start : SinkLoop := mkLoop cache_start [] None [] None.

(** *** Nothing is lost *)

Definition entry (s : SinkLoop) (k : Z) : option Item := Data (pending (l_cache s)) !! k.

Hypothesis one_message : forall x, (length (outdata x) <= 1)%nat.

(** What waits in the channel or is being sent is an entry of the cache, each at
    most once. *)
Record loop_ok (s : SinkLoop) : Prop := {
  lo_below : forall k x, entry s k = Some x -> k < Tail (pending (l_cache s));
  lo_nodup : NoDup (map index (l_out s));
  lo_out : forall t, t ∈ l_out s -> entry s (index t) = Some (data t);
  lo_worker : forall w, l_worker s = Some w -> w_left w = [] \/
    (w_index w ∉ map index (l_out s) /\ exists x, entry s (w_index w) = Some x /\ w_left w = outdata x) }.

Definition accounted (s : SinkLoop) (x : Item) : Prop := (exists k, entry s k = Some x) \/ forall o, o ∈ outdata x -> o ∈ l_sent s.

Lemma in_ok s item : loop_ok s -> loop_ok (of_cache (on_in item (l_cache s)) s) /\ accounted (of_cache (on_in item (l_cache s)) s) item
  /\ forall x, accounted s x -> accounted (of_cache (on_in item (l_cache s)) s) x.
Proof.
  intros [A B C W]. set (t := Tail (pending (l_cache s))).
  assert (Old : forall k x, entry s k = Some x -> entry (of_cache (on_in item (l_cache s)) s) k = Some x).
  { intros k x E. unfold entry. cbn. fold t. rewrite lookup_insert_ne; [exact E|]. specialize (A k x E). unfold t. lia. }
  assert (New : entry (of_cache (on_in item (l_cache s)) s) t = Some item) by (unfold entry; cbn; apply lookup_insert_eq).
  assert (Fr : t ∉ map index (l_out s)).
  { intros I. apply list_elem_of_fmap in I as (u & Eu & I). specialize (A _ _ (C u I)). unfold t in Eu. lia. }
  split; [|split].
  - split; cbn.
    + intros k x E. unfold entry in E. cbn in E. fold t in E |- *. destruct (decide (t = k)) as [<-|N]; [lia|]. rewrite lookup_insert_ne in E by exact N.
      specialize (A k x E). unfold t in *. lia.
    + fold t. rewrite map_app. cbn. apply NoDup_app. split; [exact B|]. split; [intros k I ->%list_elem_of_singleton; contradiction|apply NoDup_singleton].
    + fold t. intros u I. apply elem_of_app in I as [I|I]; [now apply Old, C|]. apply list_elem_of_singleton in I as ->. exact New.
    + intros w Ew. destruct (W w Ew) as [W1|(W1 & x & W2 & W3)]; [now left|]. right. split; [|exists x; split; [now apply Old|exact W3]].
      fold t. rewrite map_app. cbn. intros I. apply elem_of_app in I as [I|I]; [contradiction|]. apply list_elem_of_singleton in I.
      specialize (A _ _ W2). unfold t in I. lia.
  - left. eauto.
  - intros x [[k E]|H]; [left; eauto|right; exact H].
Qed.

Lemma on_ticker_queue c : pending (fst (on_ticker conf c)) = (if lq_length (pending c) =? 0 then lq_reset (pending c) else pending c)
  /\ outs (snd (on_ticker conf c)) = [].
Proof. unfold on_ticker. destruct (changed c && _ || _)%bool; now split. Qed.

(** A queue without entries starts again at 0. *)
Lemma tick_ok s : loop_ok s -> loop_ok (of_cache (on_ticker conf (l_cache s)) s) /\ forall x, accounted s x -> accounted (of_cache (on_ticker conf (l_cache s)) s) x.
Proof.
  intros [A B C W]. destruct (on_ticker_queue (l_cache s)) as [Q No].
  assert (D : Data (pending (l_cache (of_cache (on_ticker conf (l_cache s)) s))) = Data (pending (l_cache s))).
  { cbn [of_cache l_cache]. rewrite Q. now destruct (lq_length _ =? 0). }
  assert (O : l_out (of_cache (on_ticker conf (l_cache s)) s) = l_out s) by (cbn [of_cache l_out]; rewrite No; apply app_nil_r).
  assert (T : Tail (pending (l_cache (of_cache (on_ticker conf (l_cache s)) s))) = Tail (pending (l_cache s)) \/ forall k, Data (pending (l_cache s)) !! k = None).
  { cbn [of_cache l_cache]. rewrite Q. destruct (Z.eqb_spec (lq_length (pending (l_cache s))) 0) as [Z|Z]; [|now left].
    right. intros k. unfold lq_length in Z. assert (E : Data (pending (l_cache s)) = ∅) by (apply map_size_empty_inv; lia). rewrite E. apply lookup_empty. }
  assert (En : forall k, entry (of_cache (on_ticker conf (l_cache s)) s) k = entry s k) by (intros k; unfold entry; now rewrite D).
  split; [split|].
  - intros k x E. rewrite En in E. destruct T as [->|T]; [now apply (A k x)|]. unfold entry in E. now rewrite T in E.
  - now rewrite O.
  - intros t I. rewrite O in I. rewrite En. now apply C.
  - intros w Ew. rewrite O. setoid_rewrite En. now apply W.
  - intros x [[k E]|H]; [left; exists k; now rewrite En|right; exact H].
Qed.

Lemma take_ok s t rest : loop_ok s -> l_out s = t :: rest ->
  let s' := mkLoop (l_cache s) rest (Some (mkWorker (index t) (outdata (data t)) retryCount)) (l_sent s) (l_stored s) in
  loop_ok s' /\ forall x, accounted s x -> accounted s' x.
Proof.
  intros [A B C W] E. rewrite E in B, C. cbn in B. apply NoDup_cons in B as [B1 B2]. split; [split; cbn|].
  - exact A.
  - exact B2.
  - intros u I. apply C. now right.
  - intros w [= <-]. right. cbn. split; [exact B1|]. exists (data t). split; [|reflexivity]. apply C. now left.
  - intros x [[k H]|H]; [left; exists k; exact H|right; exact H].
Qed.

Lemma worker_ok s w : loop_ok s -> l_worker s = Some w ->
  (w_left w = [] \/ w_index w ∉ map index (l_out s) /\ exists x, entry s (w_index w) = Some x /\ w_left w = outdata x) ->
  forall w', w_left w' = [] \/ (w_index w' = w_index w /\ w_left w' = w_left w) -> loop_ok (set_worker (Some w') s).
Proof.
  intros [A B C W] E H w' K. split; cbn; auto. intros v [= <-]. destruct K as [K|[K1 K2]]; [now left|]. rewrite K1, K2. exact H.
Qed.

Lemma confirm_ok s k : loop_ok s -> k ∉ map index (l_out s) -> (forall w, l_worker s = Some w -> w_left w = []) ->
  loop_ok (of_cache (on_complete k (l_cache s)) s).
Proof.
  intros [A B C W] N I. split; cbn.
  - intros j x E. unfold entry in E. cbn in E. apply lookup_delete_Some in E as [_ E]. now apply (A j x).
  - now rewrite app_nil_r.
  - intros t J. rewrite app_nil_r in J. unfold entry. cbn. rewrite lookup_delete_ne; [now apply C|]. intros ->. apply N. now apply list_elem_of_fmap_2.
  - intros w Ew. left. now apply I.
Qed.

(** A message that was accepted is the only one of its result. *)
Lemma try_ok s a h : loop_ok s -> loop_ok (try_send a h s) /\ forall x, accounted s x -> accounted (try_send a h s) x.
Proof.
  intros O. unfold try_send. destruct (l_worker s) as [[k [|o ms] r]|] eqn:E; [now split| |now split].
  destruct (lo_worker s O _ E) as [W|(N & x & X & Od)]; [discriminate|]. cbn in N, X, Od.
  assert (ms = []) as -> by (pose proof (one_message x) as H; rewrite <- Od in H; destruct ms; [reflexivity|cbn in H; lia]).
  destruct a.
  - set (s1 := mkLoop (l_cache s) (l_out s) (Some (mkWorker k [] r)) (l_sent s ++ [o]) (l_stored s)).
    assert (O1 : loop_ok s1).
    { destruct O as [A B C W]. split; cbn; auto. intros w [= <-]. now left. }
    assert (S1 : forall y, accounted s y -> accounted s1 y).
    { intros y [[j H]|H]; [left; exists j; exact H|]. right. intros p I. cbn. apply elem_of_app. left. auto. }
    destruct h; [|split; [exact O1|exact S1]]. split.
    + apply (confirm_ok s1 k); [exact O1|exact N|]. intros w [= <-]. reflexivity.
    + intros y H. destruct (S1 y H) as [[j J]|J]; [|right; exact J]. destruct (decide (k = j)) as [<-|M].
      * right. assert (y = x) as -> by (unfold entry in *; cbn in J; congruence). intros p I. rewrite <- Od in I. apply list_elem_of_singleton in I as ->.
        cbn. apply elem_of_app. right. now left.
      * left. exists j. unfold entry. cbn. now rewrite lookup_delete_ne.
  - assert (K : forall w', w_left w' = [] \/ (w_index w' = k /\ w_left w' = [o]) -> loop_ok (set_worker (Some w') s)
      /\ forall y, accounted s y -> accounted (set_worker (Some w') s) y).
    { intros w' H. split; [|auto]. apply (worker_ok s (mkWorker k [o] r)); auto. right. cbn. split; [exact N|]. exists x. now split. }
    destruct mayRetry, r as [|r]; apply K; auto.
Qed.

Lemma loadCache_outs (q : LinkedQueue) : NoDup (map index (outs (snd (loadCache (Item := Item) (Some q)))))
  /\ forall t, t ∈ outs (snd (loadCache (Item := Item) (Some q))) -> Data q !! index t = Some (data t).
Proof.
  cbn [loadCache snd]. set (ks := merge_sort Z.le (map_to_list (Data q)).*1).
  assert (Nd : NoDup ks) by (unfold ks; rewrite merge_sort_Permutation; apply NoDup_fst_map_to_list).
  clearbody ks. induction Nd as [|k ks Nk Nd [IH1 IH2]]; cbn; [split; [constructor|now intros t I%elem_of_nil]|].
  destruct (Data q !! k) as [x|] eqn:E; cbn; [|split; [exact IH1|exact IH2]]. split.
  - apply NoDup_cons. split; [|exact IH1]. intros I. apply list_elem_of_fmap in I as (t & -> & I). apply Nk.
    unfold outs in I. apply list_elem_of_omap in I as (e & I & Et). apply list_elem_of_omap in I as (j & I & Ej).
    destruct (Data q !! j); [|discriminate]. injection Ej as <-. injection Et as <-. exact I.
  - intros t I. apply elem_of_cons in I as [->|I]; [exact E|now apply IH2].
Qed.

Lemma restart_ok s : loop_ok s -> loop_ok (reload (Some (pending (l_cache s))) s) /\ forall x, accounted s x -> accounted (reload (Some (pending (l_cache s))) s) x.
Proof.
  intros [A B C W]. destruct (loadCache_outs (pending (l_cache s))) as [L1 L2]. split; [split|].
  - exact A.
  - exact L1.
  - exact L2.
  - discriminate.
  - intros x [[k H]|H]; [left; exists k; exact H|right; exact H].
Qed.

Lemma loop_step_ok s e s' : loop_ok s -> e <> LStuck -> loop_step s e = Some s' ->
  loop_ok s' /\ (forall x, e = LIn x -> accounted s' x) /\ forall x, accounted s x -> accounted s' x.
Proof.
  intros O N E. destruct e as [item| | |a h| |]; cbn [loop_step] in E; [| | | | |contradiction].
  - destruct (waits s); [discriminate|]. injection E as <-. destruct (in_ok s item O) as (H1 & H2 & H3). split; [exact H1|]. split; [|exact H3]. now intros x [= <-].
  - destruct (waits s); [discriminate|]. injection E as <-. destruct (tick_ok s O) as [H1 H2]. split; [exact H1|]. now split.
  - destruct (idle s), (l_out s) as [|t rest] eqn:L; try discriminate. injection E as <-. destruct (take_ok s t rest O L) as [H1 H2]. split; [exact H1|]. now split.
  - destruct (h && waits s)%bool; [discriminate|]. injection E as <-. destruct (try_ok s a h O) as [H1 H2]. split; [exact H1|]. now split.
  - destruct (waits s); [discriminate|]. injection E as <-. destruct (restart_ok s O) as [H1 H2]. split; [exact H1|]. now split.
Qed.

Lemma loop_run_ok es : forall s s', loop_ok s -> LStuck ∉ es -> loop_run es s = Some s' -> loop_ok s' /\ (forall x, LIn x ∈ es -> accounted s' x)
  /\ forall x, accounted s x -> accounted s' x.
Proof.
  induction es as [|e es IH]; intros s s' O N E; cbn in E; [injection E as <-; split; [exact O|]; split; [now intros x I%elem_of_nil|auto]|].
  apply not_elem_of_cons in N as [N1 N2]. destruct (loop_step s e) as [s1|] eqn:S; [|discriminate].
  destruct (loop_step_ok s e s1 O) as (O1 & K1 & K2); [congruence|exact S|]. destruct (IH s1 s' O1 N2 E) as (O2 & M1 & M2). split; [exact O2|]. split; [|auto].
  intros x I. apply elem_of_cons in I as [<-|I]; auto.
Qed.

Lemma loop_start_ok : loop_ok loop_start.
Proof.
  split; [intros k x E; exfalso; exact (lookup_empty_Some _ _ E)|constructor|intros t I; now apply elem_of_nil in I|discriminate].
Qed.
End Loop.


(** ** Examples *)

Module Sample.
(** The records of a text are separated by commas. *)
Fixpoint records (cur s : string) : list string :=
  match s with
  | EmptyString => [cur]
  | String c s' => if Ascii.eqb c (Ascii.ascii_of_nat 44) then cur :: records "" s' else records (cur ++ String c "")%string s'
  end.
Definition Unmarshal (s : string) : option (list string) := Some (records "" s).

Definition run (sendSingle : bool) (limit : nat) (es : list (loop_event (Item := sink_item))) : option SinkLoop :=
  loop_run (mkConf 10 15) (getOutData Unmarshal Some false sendSingle None) true 3 limit es loop_start.
Definition first_sent : list loop_event := [LIn (IBytes "a,b"); LTake; LTry false false; LRestart; LTake; LTry true false; LTick].

(** What the sink accepted, what is in the cache and what is on the way. *)
Definition shown (s : option (SinkLoop (Item := sink_item))) : option (list string * list sink_item * list Z) :=
  option_map (fun s => (l_sent s, map snd (map_to_list (Data (pending (l_cache s)))), map index (l_out s))) s.
End Sample.

Import SinkLoop.Sample.


(** With sendSingle the first record that is accepted confirms all: a restart
    before the second loses it. *)
Lemma single_records_are_lost :
  shown (run true 2 [LIn (IBytes "a,b"); LTake; LTry true true; LRestart]) = Some (["a"%string], [], []).
Proof. vm_compute. reflexivity. Qed.

(** The second record confirms the index again, which by then another result may
    have: that one is lost by a restart without being sent at all. *)
Lemma second_confirmation_takes_another :
  shown (run true 2 [LIn (IBytes "a,b"); LTake; LTry true true; LTick; LIn (IBytes "c"); LTry true true; LRestart]) = Some (["a"; "b"]%string, [], []).
Proof. vm_compute. reflexivity. Qed.

(** A cache that waits for room does not notice that the rule is stopped: what
    it had not saved is lost. *)
Lemma stopped_while_full_loses :
  shown (run false 1 [LIn (IBytes "a"); LTake; LIn (IBytes "b"); LIn (IBytes "c"); LStuck]) = Some ([], [], []).
Proof. vm_compute. reflexivity. Qed.
