(* ===== verification/NodeLoop.v ===== *)
(** Running nodes: the metrics of a node (stats_manager.go), the loop of a unary
    operator ([doOp] of operations.go, with the broadcast of node.go) and a chain
    of such operators, each in its goroutine with its channel, like the part of a
    rule behind its window (src/internal/topo/node).

    Nodes run without checkpoints and with one instance each, the defaults, and
    the result of an operator depends on the item only.  A channel is a queue
    with a capacity. *)

From S2P Require Import Prelude Value Collections Eval Operators Tables.
From Stdlib Require Import ZArith Lia Bool List String.
Import ListNotations.

#[local] Open Scope Z_scope.
#[local] Open Scope list_scope.

(** ** Metrics *)

(** Times are nanoseconds; [None] is the zero time. *)
Record StatManager : Type := mkStats {
  totalRecordsIn : Z;
  totalRecordsOut : Z;
  totalExceptions : Z;
  processLatency : Z;
  lastInvocation : option Z;
  bufferLength : Z;
  processTimeStart : option Z }.

Definition stats_start : StatManager := mkStats 0 0 0 0 None 0 None.

(** The prefix of the metrics of a node, or an error. *)
Definition stat_prefix (opType : string) : string + string :=
  if String.eqb opType "source" then inr "source_"%string
  else if String.eqb opType "op" then inr "op_"%string
  else if String.eqb opType "sink" then inr "sink_"%string
  else inl ("invalid opType " ++ opType ++ ", must be source, sink or op")%string.

Definition IncTotalRecordsIn (s : StatManager) : StatManager :=
  mkStats (int64 (totalRecordsIn s + 1)) (totalRecordsOut s) (totalExceptions s) (processLatency s) (lastInvocation s) (bufferLength s) (processTimeStart s).
Definition IncTotalRecordsOut (s : StatManager) : StatManager :=
  mkStats (totalRecordsIn s) (int64 (totalRecordsOut s + 1)) (totalExceptions s) (processLatency s) (lastInvocation s) (bufferLength s) (processTimeStart s).
Definition IncTotalExceptions (s : StatManager) : StatManager :=
  mkStats (totalRecordsIn s) (totalRecordsOut s) (int64 (totalExceptions s + 1)) (processLatency s) (lastInvocation s) (bufferLength s) None.
Definition ProcessTimeStart (now : Z) (s : StatManager) : StatManager :=
  mkStats (totalRecordsIn s) (totalRecordsOut s) (totalExceptions s) (processLatency s) (Some now) (bufferLength s) (Some now).
Definition ProcessTimeEnd (now : Z) (s : StatManager) : StatManager :=
  match processTimeStart s with
  | Some t => mkStats (totalRecordsIn s) (totalRecordsOut s) (totalExceptions s) (go_div (now - t) 1000) (lastInvocation s) (bufferLength s) (processTimeStart s)
  | None => s
  end.
Definition SetBufferLength (l : Z) (s : StatManager) : StatManager :=
  mkStats (totalRecordsIn s) (totalRecordsOut s) (totalExceptions s) (processLatency s) (lastInvocation s) l (processTimeStart s).

(** ** The loop of a unary operator *)

Section Nodes.

Record UnaryOperator : Type := mkUnary {
  u_Apply : stream_data -> stream_data;
  u_sendError : bool }.

(** One item: the items broadcast and the metrics; [started] and [ended] are the
    times at which the clock is read, [waiting] the items left in the channel. *)
Definition doOp (o : UnaryOperator) (started ended waiting : Z) (item : stream_data) (s : StatManager) : list stream_data * StatManager :=
  let s1 := ProcessTimeStart started (IncTotalRecordsIn s) in
  match u_Apply o item with
  | SNil => ([], s1)
  | SErr e => (Broadcast (u_sendError o) (SErr e), IncTotalExceptions s1)
  | val => (Broadcast (u_sendError o) val, SetBufferLength waiting (IncTotalRecordsOut (ProcessTimeEnd ended s1)))
  end.

Definition op_out (o : UnaryOperator) (item : stream_data) : list stream_data := fst (doOp o 0 0 0 item stats_start).

Lemma op_out_one o item : (List.length (op_out o item) <= 1)%nat.
Proof. unfold op_out, doOp. destruct (u_Apply o item); cbn; try lia. destruct (u_sendError o); cbn; lia. Qed.

(** ** A chain of operators *)

(** The goroutine of a node waits for an item, or for room in the channel of the
    next node for what it is broadcasting. *)
Record Node : Type := mkNode { n_op : UnaryOperator; n_input : list stream_data; n_sending : list stream_data }.

Record Chain : Type := mkChain { source : list stream_data; nodes : list Node; received : list stream_data }.

(** The capacity of the channels, bufferLength. *)
Variable capacity : nat.

Definition room (rest : list Node) : bool := match rest with [] => true | n :: _ => (List.length (n_input n) <? capacity)%nat end.

(** An item goes into the channel of the next node, or to the sink. *)
Definition hand_on (d : stream_data) (rest : list Node) (received : list stream_data) : list Node * list stream_data :=
  match rest with
  | [] => ([], received ++ [d])
  | n :: rest' => (mkNode (n_op n) (n_input n ++ [d]) (n_sending n) :: rest', received)
  end.

(** The [i]-th node goes on: it ends a broadcast or handles the next item. *)
Fixpoint step_node (i : nat) (ns : list Node) (received : list stream_data) : option (list Node * list stream_data) :=
  match ns with
  | [] => None
  | n :: rest =>
      match i with
      | O =>
          match n_sending n, n_input n with
          | d :: out, q =>
              if room rest then
                let (rest', received') := hand_on d rest received in
                Some (mkNode (n_op n) q out :: rest', received')
              else None
          | [], d :: q => Some (mkNode (n_op n) q (op_out (n_op n) d) :: rest, received)
          | [], [] => None
          end
      | S j => option_map (fun r => (n :: fst r, snd r)) (step_node j rest received)
      end
  end.

Inductive chain_step : Chain -> Chain -> Prop :=
  | step_arrive d src ns rec ns' rec' : room ns = true -> hand_on d ns rec = (ns', rec') ->
      chain_step (mkChain (d :: src) ns rec) (mkChain src ns' rec')
  | step_run i src ns rec ns' rec' : step_node i ns rec = Some (ns', rec') ->
      chain_step (mkChain src ns rec) (mkChain src ns' rec').

Inductive chain_run : Chain -> Chain -> Prop :=
  | run_refl c : chain_run c c
  | run_more c1 c2 c3 : chain_step c1 c2 -> chain_run c2 c3 -> chain_run c1 c3.

(** *** What a chain computes *)

Definition apply_all (o : UnaryOperator) (l : list stream_data) : list stream_data := flat_map (op_out o) l.

Fixpoint compose (ops : list UnaryOperator) (l : list stream_data) : list stream_data :=
  match ops with [] => l | o :: ops' => compose ops' (apply_all o l) end.

(** What comes out when the items on the way, and then [l], pass the nodes. *)
Fixpoint drain (ns : list Node) (l : list stream_data) : list stream_data :=
  match ns with [] => l | n :: rest => drain rest (n_sending n ++ apply_all (n_op n) (n_input n ++ l)) end.

Definition future (c : Chain) : list stream_data := received c ++ drain (nodes c) (source c).

Definition start (ops : list UnaryOperator) (inputs : list stream_data) : Chain := mkChain inputs (map (fun o => mkNode o [] []) ops) [].

Lemma drain_start ops l : drain (map (fun o => mkNode o [] []) ops) l = compose ops l.
Proof. revert l. induction ops as [|o ops IH]; intros l; cbn; auto. Qed.

Lemma hand_on_drain d ns rec l : let (ns', rec') := hand_on d ns rec in rec' ++ drain ns' l = rec ++ drain ns (d :: l).
Proof. destruct ns as [|n rest]; cbn; rewrite <- app_assoc; reflexivity. Qed.

Lemma step_node_drain i : forall ns rec ns' rec' l, step_node i ns rec = Some (ns', rec') -> rec' ++ drain ns' l = rec ++ drain ns l.
Proof.
  induction i as [|i IH]; intros [|[o q snd_] rest] rec ns' rec' l E; cbn in E; try discriminate.
  - destruct snd_ as [|d out]; [destruct q as [|d q]; [discriminate|]; now injection E as <- <-|].
    destruct (room rest); [|discriminate]. pose proof (hand_on_drain d rest rec (out ++ apply_all o (q ++ l))) as H.
    destruct (hand_on d rest rec) as [rest' rec1]. injection E as <- <-. cbn. exact H.
  - destruct (step_node i rest rec) as [[rest' rec1]|] eqn:S; [|discriminate]. injection E as <- <-. cbn. now apply IH.
Qed.

Lemma step_future c c' : chain_step c c' -> future c' = future c.
Proof.
  intros [d src ns rec ns' rec' _ E|i src ns rec ns' rec' E]; unfold future; cbn.
  - pose proof (hand_on_drain d ns rec src) as H. rewrite E in H. exact H.
  - now apply (step_node_drain i).
Qed.

(** *** A chain ends *)

(** The steps that an item has before it: handling it and handing it on, at
    every node. *)
Fixpoint work (ns : list Node) : nat :=
  match ns with
  | [] => 0%nat
  | n :: rest => (List.length (n_input n) * (2 * List.length rest + 2) + List.length (n_sending n) * (2 * List.length rest + 1) + work rest)%nat
  end.

Definition chain_work (c : Chain) : nat := (List.length (source c) * (2 * List.length (nodes c) + 1) + work (nodes c))%nat.

Lemma hand_on_work d ns rec : let (ns', _) := hand_on d ns rec in
  work ns' = (work ns + 2 * List.length ns)%nat /\ List.length ns' = List.length ns.
Proof. destruct ns as [|n rest]; cbn; [lia|]. rewrite length_app. cbn. lia. Qed.

Lemma step_node_work i : forall ns rec ns' rec', step_node i ns rec = Some (ns', rec') -> (work ns' < work ns)%nat /\ List.length ns' = List.length ns.
Proof.
  induction i as [|i IH]; intros [|[o q snd_] rest] rec ns' rec' E; cbn in E; try discriminate.
  - destruct snd_ as [|d out].
    + destruct q as [|d q]; [discriminate|]. injection E as <- <-. pose proof (op_out_one o d) as L. cbn [work List.length n_input n_sending]. split; [nia|reflexivity].
    + destruct (room rest); [|discriminate]. pose proof (hand_on_work d rest rec) as H. destruct (hand_on d rest rec) as [rest' rec1].
      injection E as <- <-. destruct H as [H1 H2]. cbn [work List.length n_input n_sending]. rewrite H1, H2. split; [nia|reflexivity].
  - destruct (step_node i rest rec) as [[rest' rec1]|] eqn:S; [|discriminate]. injection E as <- <-. cbn [work List.length fst snd].
    destruct (IH _ _ _ _ S) as [H1 H2]. rewrite H2. split; [lia|reflexivity].
Qed.

Lemma step_work c c' : chain_step c c' -> (chain_work c' < chain_work c)%nat.
Proof.
  intros [d src ns rec ns' rec' _ E|i src ns rec ns' rec' E]; unfold chain_work; cbn [source nodes].
  - pose proof (hand_on_work d ns rec) as H. rewrite E in H. destruct H as [H1 H2]. rewrite H1, H2. cbn [List.length]. lia.
  - destruct (step_node_work i _ _ _ _ E) as [H1 H2]. rewrite H2. lia.
Qed.

Definition at_rest (n : Node) : Prop := n_input n = [] /\ n_sending n = [].
Definition busy (n : Node) : bool := match n_input n, n_sending n with [], [] => false | _, _ => true end.

Lemma busy_spec ns : existsb busy ns = false -> forall n, In n ns -> at_rest n.
Proof.
  intros E n I. destruct (busy n) eqn:B.
  - assert (existsb busy ns = true) by (apply existsb_exists; eauto). congruence.
  - unfold busy in B. unfold at_rest. now destruct (n_input n), (n_sending n).
Qed.

(** The last node with something to do has room behind it. *)
Lemma node_can_step ns rec : (0 < capacity)%nat -> existsb busy ns = true -> exists i r, step_node i ns rec = Some r.
Proof.
  intros Cap. induction ns as [|n rest IH]; intros B; [discriminate|]. cbn in B.
  destruct (existsb busy rest) eqn:E.
  - destruct (IH eq_refl) as (i & r & H). exists (S i). cbn. rewrite H. eexists. reflexivity.
  - rewrite orb_false_r in B. exists 0%nat. cbn.
    assert (R : room rest = true).
    { destruct rest as [|k rest]; [reflexivity|]. cbn. destruct (busy_spec _ E k) as [-> _]; [now left|]. now apply Nat.ltb_lt. }
    unfold busy in B. rewrite R. destruct (n_sending n) as [|d out]; [|destruct (hand_on d rest rec); eexists; reflexivity].
    destruct (n_input n); [discriminate|]. eexists. reflexivity.
Qed.

Definition finished (c : Chain) : Prop := source c = [] /\ forall n, In n (nodes c) -> at_rest n.

Lemma unfinished_steps c : (0 < capacity)%nat -> ~ finished c -> exists c', chain_step c c'.
Proof.
  intros Cap N. destruct c as [src ns rec]. destruct (existsb busy ns) eqn:E.
  - destruct (node_can_step ns rec Cap E) as (i & [ns' rec'] & H). exists (mkChain src ns' rec'). now apply (step_run i).
  - destruct src as [|d src]; [exfalso; apply N; split; [reflexivity|now apply busy_spec]|]. destruct (hand_on d ns rec) as [ns' rec'] eqn:H.
    exists (mkChain src ns' rec'). apply step_arrive; [|exact H]. destruct ns as [|n ns]; [reflexivity|]. cbn.
    destruct (busy_spec _ E n) as [-> _]; [now left|]. now apply Nat.ltb_lt.
Qed.

Lemma drain_empty ns : (forall n, In n ns -> at_rest n) -> drain ns [] = [].
Proof.
  induction ns as [|n ns IH]; intros H; cbn; [reflexivity|]. destruct (H n) as [-> ->]; [now left|]. apply IH. intros m I. apply H. now right.
Qed.

Lemma run_future c c' : chain_run c c' -> future c' = future c.
Proof. induction 1 as [|c1 c2 c3 S _ IH]; [reflexivity|]. rewrite IH. now apply step_future. Qed.

(** C33: the goroutines of a chain of operators compute the composition of the
    operators: however they are scheduled, what the sink has received is always
    a beginning of it, a chain that is not finished can go on although its
    channels are bounded, every step brings the end nearer, and at the end the
    sink has received all of it, in order. *)
Theorem chain_computes_composition ops inputs c : (0 < capacity)%nat -> chain_run (start ops inputs) c ->
  (exists rest, compose ops inputs = received c ++ rest)
  /\ (finished c -> received c = compose ops inputs)
  /\ (~ finished c -> exists c', chain_step c c')
  /\ forall c', chain_step c c' -> (chain_work c' < chain_work c)%nat.
Proof.
  intros Cap R. apply run_future in R. unfold future, start in R. cbn in R. rewrite drain_start in R.
  split; [now exists (drain (nodes c) (source c))|]. split; [|split].
  - intros [S N]. rewrite <- R, S, drain_empty by exact N. symmetry. apply app_nil_r.
  - now apply unfinished_steps.
  - apply step_work.
Qed.
End Nodes.

(** ** An example *)

Module Sample.
Definition mark (s : string) : UnaryOperator := mkUnary (fun d => match d with SBytes t => if String.eqb t "" then SNil else SBytes (t ++ s) | d => d end) false.
Definition texts : list stream_data := [SBytes "a"; SBytes ""; SErr (VError "failed" []); SBytes "b"].
End Sample.

Import NodeLoop.Sample.

Lemma chain_computes_composition_witness : exists c, chain_run 1 (start [mark "x"; mark "y"] texts) c /\ received c = [SBytes "axy"]
  /\ compose [mark "x"; mark "y"] texts = [SBytes "axy"; SBytes "bxy"] /\ exists rest, compose [mark "x"; mark "y"] texts = received c ++ rest.
Proof.
  eexists. match goal with |- ?R /\ _ => assert (H : R) end.
  { eapply run_more; [apply step_arrive; reflexivity|]. do 2 (eapply run_more; [apply (step_run 1 0); reflexivity|]).
    eapply run_more; [apply step_arrive; reflexivity|]. do 2 (eapply run_more; [apply (step_run 1 1); reflexivity|]). apply run_refl. }
  split; [exact H|]. split; [reflexivity|]. split; [reflexivity|].
  exact (proj1 (chain_computes_composition 1 [mark "x"; mark "y"] texts _ ltac:(lia) H)).
Defined.

(** The metrics count what an operator dropped nowhere but as received, and an
    error as an exception. *)
Lemma metrics_of_texts :
  let s := fold_left (fun s d => snd (doOp (mark "x") 5000 9000 0 d s)) texts stats_start in
  (totalRecordsIn s, totalRecordsOut s, totalExceptions s, processLatency s) = (4, 2, 1, 4).
Proof. reflexivity. Qed.
