(* ===== verification/Services.v ===== *)
(** External services (src/internal/service/manager.go, model.go, and of
    executors.go the construction of executors and the connection of the
    msgpack one).

    A service file lists interfaces, each with a schema whose methods become
    functions.  The manager keeps services and functions in two databases, reads
    them through two buffers and has one executor per interface.  The disk is the
    class [Disk]; the JSON of service files, the schemas and the options of REST
    are the class [ServiceFiles].  The descriptions for a user interface are left
    out, and what the remote services answer is not modelled. *)

From S2P Require Import Prelude Value Lexical Utf8 Strings Kv Plugins.
From stdpp Require Import base gmap list strings fin_maps.

#[local] Open Scope string_scope.

Record mapping : Type := mkMapping { mp_Name : string; mp_ServiceName : string }.

(** The null of a JSON file is a nil pointer, [None]. *)
Record binding : Type := mkBinding {
  b_Address : string; b_Protocol : string; b_SchemaType : string; b_SchemaFile : string;
  b_Functions : list (option mapping); b_Options : list (string * value) }.

(** The interfaces are listed in the order of a range over them. *)
Record conf : Type := mkSvcConf { c_Interfaces : list (string * option binding) }.

Record interfaceInfo : Type := mkInterface {
  ii_Addr : string; ii_Protocol : string; ii_SchemaType : string; ii_SchemaFile : string; ii_Functions : list string; ii_Options : list (string * value) }.

Abbreviation serviceInfo := (gmap string interfaceInfo).

Record functionContainer : Type := mkFunction { fc_ServiceName : string; fc_InterfaceName : string; fc_MethodName : string }.

Record restOption : Type := mkRestOption { InsecureSkipVerify : bool; Headers : list (string * string) }.

(** An executor without its connection. *)
Record executor : Type := mkExecutor { ex_protocol : string; ex_addr : url; ex_methods : list string; ex_rest : option restOption }.

Inductive sv_error : Type := SvDb (e : db_error) | SvText (format : string) (args : list string).

Class ServiceFiles (disk : Type) : Type := {
  read_conf : string -> disk -> string + conf;
  read_conf_keys p d c : read_conf p d = inr c -> NoDup (c_Interfaces c).*1;     (* the interfaces are a Go map *)
  ParseFiles : string -> disk -> string + list string;
  rest_options : list (string * value) -> string + restOption }.

Section Services.
Context {Sym : Type} {D : Disk Sym} {SF : ServiceFiles disk} {SKV : KeyValue serviceInfo} {FKV : KeyValue functionContainer}.
Variable etcDir : string.

Record Manager : Type := mkServices {
  executorPool : gmap string executor;
  serviceBuf : gmap string serviceInfo;
  functionBuf : gmap string functionContainer;
  serviceKV : kv (V := serviceInfo);
  functionKV : kv (V := functionContainer);
  s_disk : disk;
  loaded : bool }.

Definition with_pool p (m : Manager) : Manager := mkServices p (serviceBuf m) (functionBuf m) (serviceKV m) (functionKV m) (s_disk m) (loaded m).
Definition with_services b s (m : Manager) : Manager := mkServices (executorPool m) b (functionBuf m) s (functionKV m) (s_disk m) (loaded m).
Definition with_functions b f (m : Manager) : Manager := mkServices (executorPool m) (serviceBuf m) b (serviceKV m) f (s_disk m) (loaded m).
Definition with_files d (m : Manager) : Manager := mkServices (executorPool m) (serviceBuf m) (functionBuf m) (serviceKV m) (functionKV m) d (loaded m).

(** ** Looking up *)

Definition getFunction (name : string) (m : Manager) : Manager * option functionContainer :=
  match functionBuf m !! name with
  | Some r => (m, Some r)
  | None =>
      let (f, r) := Get name (functionKV m) in
      (with_functions (match r with Some r => <[name := r]> (functionBuf m) | None => functionBuf m end) f m, r)
  end.

Definition getService (name : string) (m : Manager) : Manager * option serviceInfo :=
  match serviceBuf m !! name with
  | Some r => (m, Some r)
  | None =>
      let (s, r) := Get name (serviceKV m) in
      (with_services (match r with Some r => <[name := r]> (serviceBuf m) | None => serviceBuf m end) s m, r)
  end.

Definition HasFunction (name : string) (m : Manager) : Manager * bool :=
  let (m1, r) := getFunction name m in (m1, match r with Some _ => true | None => false end).

Definition HasService (name : string) (m : Manager) : Manager * bool :=
  let (m1, r) := getService name m in (m1, match r with Some _ => true | None => false end).

Definition GetFunction (name : string) (m : Manager) : Manager * (sv_error + functionContainer) :=
  let name := trim name in
  if String.eqb name "" then (m, inl (SvText "invalid name %s: should not be empty" [name]))
  else let (m1, r) := getFunction name m in
    (m1, match r with Some f => inr f | None => inl (SvText "can't get the service function %s" [name]) end).

Definition describe (name : string) (m : Manager) : Manager * (sv_error + serviceInfo) :=
  let name := trim name in
  if String.eqb name "" then (m, inl (SvText "invalid name %s: should not be empty" [name]))
  else let (m1, r) := getService name m in
    (m1, match r with Some s => inr s | None => inl (SvText "can't get the service %s" [name]) end).

Definition keys_error {A} (r : db_error + A) : sv_error + A := match r with inl e => inl (SvDb e) | inr l => inr l end.

Definition List_ (m : Manager) : Manager * (sv_error + list string) :=
  let (s, r) := Keys (serviceKV m) in (with_services (serviceBuf m) s m, keys_error r).

Definition ListFunctions (m : Manager) : Manager * (sv_error + list string) :=
  let (f, r) := Keys (functionKV m) in (with_functions (functionBuf m) f m, keys_error r).

(** *** Executors *)

(** The registry of schemas is asked with a new pointer every time, so schemas
    are parsed again. *)
Definition parse (schemaType schemaFile : string) (d : disk) : string + list string :=
  if String.eqb schemaType "protobuf" then ParseFiles schemaFile d else inl ("unsupported schema " ++ schemaType).

Definition NewExecutor (i : interfaceInfo) (d : disk) : sv_error + executor :=
  match parse (ii_SchemaType i) (ii_SchemaFile i) d with
  | inl e => inl (SvText "%v" [e])
  | inr methods =>
      match url_Parse (ii_Addr i) with
      | None => inl (SvText "invalid url %s" [ii_Addr i])
      | Some u =>
          if String.eqb (ii_Protocol i) "grpc" || String.eqb (ii_Protocol i) "msgpack-rpc" then inr (mkExecutor (ii_Protocol i) u methods None)
          else if String.eqb (ii_Protocol i) "rest" then
            match rest_options (ii_Options i) with
            | inl e => inl (SvText "incorrect rest option: %v" [e])
            | inr o => inr (mkExecutor (ii_Protocol i) u methods (Some o))
            end
          else inl (SvText "unsupported protocol %s" [ii_Protocol i])
      end
  end.

Definition getExecutor (name : string) (i : interfaceInfo) (m : Manager) : Manager * (sv_error + executor) :=
  match executorPool m !! name with
  | Some e => (m, inr e)
  | None =>
      match NewExecutor i (s_disk m) with
      | inl e => (m, inl e)
      | inr e => (with_pool (<[name := e]> (executorPool m)) m, inr e)
      end
  end.

(** The executor and the method of a function. *)
Definition Function (name : string) (m : Manager) : Manager * (sv_error + executor * string) :=
  let (m1, f) := getFunction name m in
  match f with
  | None => (m1, inl (SvText "service function %s not found" [name]))
  | Some f =>
      let (m2, s) := getService (fc_ServiceName f) m1 in
      match s with
      | None => (m2, inl (SvText "service function %s's service %s not found" [name; fc_ServiceName f]))
      | Some s =>
          match s !! fc_InterfaceName f with
          | None => (m2, inl (SvText "service function %s's interface %s not found" [name; fc_InterfaceName f]))
          | Some i =>
              let (m3, e) := getExecutor (fc_InterfaceName f) i m2 in
              (m3, match e with inl _ => inl (SvText "fail to initiate the executor for %s: %v" [fc_InterfaceName f]) | inr e => inr (e, fc_MethodName f) end)
          end
      end
  end.

(** ** Reading a service file *)

(** [None]: a nil pointer is dereferenced. *)
Fixpoint alias_map (l : list (option mapping)) (a : gmap string string) : option (gmap string string) :=
  match l with
  | [] => Some a
  | Some f :: l' => alias_map l' (<[mp_ServiceName f := mp_Name f]> a)
  | None :: _ => None
  end.

Definition function_names (a : gmap string string) (methods : list string) : list string := map (fun f => default f (a !! f)) methods.

Definition new_interface (b : binding) (functions : list string) : interfaceInfo :=
  mkInterface (b_Address b) (b_Protocol b) (b_SchemaType b) (b_SchemaFile b) functions (b_Options b).

(** The functions that an interface stores. *)
Definition containers (service interface : string) (functions methods : list string) : list (string * functionContainer) :=
  zip functions (map (mkFunction service interface) methods).

(** The loop over the interfaces, with the way an entry is stored. *)
Fixpoint init_interfaces {K} (set : K -> string * functionContainer -> K) (service : string) (d : disk) (l : list (string * option binding))
    (infos : serviceInfo) (k : K) : K * option (sv_error + serviceInfo) :=
  match l with
  | [] => (k, Some (inr infos))
  | (_, None) :: _ => (k, None)
  | (name, Some b) :: l' =>
      match parse (b_SchemaType b) (b_SchemaFile b) d with
      | inl e => (k, Some (inl (SvText "Fail to parse schema file %s: %v" [b_SchemaFile b; e])))
      | inr methods =>
          match alias_map (b_Functions b) ∅ with
          | None => (k, None)
          | Some a =>
              let functions := function_names a methods in
              init_interfaces set service d l' (<[name := new_interface b functions]> infos)
                (fold_left set (containers service name functions methods) k)
          end
      end
  end.

(** An error of storing a function is only logged. *)
Definition put_function (f : kv (V := functionContainer)) (e : string * functionContainer) : kv := fst (Put (fst e) (snd e) f).

Definition service_of (baseName : string) : string := Strings.take (String.length baseName - 5) baseName.

(** [Some None] is success, [None] a panic. *)
Definition initFile (baseName : string) (m : Manager) : Manager * option (option sv_error) :=
  match read_conf (path_Join [etcDir; baseName]) (s_disk m) with
  | inl e => (m, Some (Some (SvText "parse services file %s failed: %v" [baseName; e])))
  | inr c =>
      let (f, r) := init_interfaces put_function (service_of baseName) (s_disk m) (c_Interfaces c) ∅ (functionKV m) in
      let m1 := with_functions (functionBuf m) f m in
      match r with
      | None => (m1, None)
      | Some (inl e) => (m1, Some (Some e))
      | Some (inr info) =>
          let (s, e) := Put (service_of baseName) info (serviceKV m1) in
          (with_services (serviceBuf m1) s m1, Some (match e with Some _ => Some (SvText "fail to save the parsing result: %v" []) | None => None end))
      end
  end.

(** The errors of the files are logged; [false] is a panic, which ends the
    server. *)
Fixpoint init_files (files : list string) (m : Manager) : Manager * bool :=
  match files with
  | [] => (m, true)
  | f :: files' =>
      if HasSuffix f ".json" then
        match initFile f m with
        | (m1, None) => (m1, false)
        | (m1, Some _) => init_files files' m1
        end
      else init_files files' m
  end.

Definition InitByFiles (m : Manager) : Manager * option (option sv_error) :=
  match read_dir etcDir (s_disk m) with
  | inl e => (m, Some (Some (SvText "%v" [e])))
  | inr files =>
      let (m1, alive) := init_files files m in
      if alive then (mkServices (executorPool m1) (serviceBuf m1) (functionBuf m1) (serviceKV m1) (functionKV m1) (s_disk m1) true, Some None)
      else (m1, None)
  end.

(** The first call of [GetServiceManager]. *)
Definition GetServiceManager (s : kv (V := serviceInfo)) (f : kv (V := functionContainer)) (d : disk) : option Manager * option (option sv_error) :=
  let (s1, e) := Open s in
  match e with
  | Some e => (None, Some (Some (SvText "cannot open service db: %s" [])))
  | None =>
      let (f1, e) := Open f in
      match e with
      | Some e => (None, Some (Some (SvText "cannot open function db: %s" [])))
      | None => let (m, r) := InitByFiles (mkServices ∅ ∅ ∅ s1 f1 d false) in (Some m, r)
      end
  end.

(** ** Creating and deleting *)

Definition deleteFunc (service name : string) (m : Manager) : Manager :=
  let (m1, r) := GetFunction name m in
  match r with
  | inl _ => m1
  | inr f => if String.eqb (fc_ServiceName f) service then with_functions (delete name (functionBuf m1)) (fst (Kv.Delete name (functionKV m1))) m1 else m1
  end.

Definition all_functions (s : serviceInfo) : list string := flat_map (fun i => ii_Functions (snd i)) (map_to_list s).

Definition deleteServiceFuncs (service : string) (m : Manager) : Manager :=
  let (m1, s) := getService service m in
  match s with None => m1 | Some s => fold_left (fun m f => deleteFunc service f m) (all_functions s) m1 end.

Definition Delete (name : string) (m : Manager) : Manager * option sv_error :=
  let name := trim name in
  if String.eqb name "" then (m, Some (SvText "invalid name %s: should not be empty" [name]))
  else
    let m1 := deleteServiceFuncs name m in
    let (s, e) := Kv.Delete name (serviceKV m1) in
    let m2 := with_services (delete name (serviceBuf m1)) s m1 in
    match e with
    | Some e => (m2, Some (SvDb e))
    | None => (with_files (remove_file (path_Join [etcDir; name ++ ".json"]) (s_disk m2)) m2, None)
    end.

Definition ToLower (s : string) : string := String.concat "" (map (fun r => Lexical.utf8 (rune_lower r)) (Utf8.decode s)).

Fixpoint unzip_all (files : list string) (d : disk) : disk * option string :=
  match files with
  | [] => (d, None)
  | f :: files' =>
      let (d1, e) := unzip_to f (path_Join [etcDir; f]) d in
      match e with Some e => (d1, Some e) | None => unzip_all files' d1 end
  end.

Definition unzip (name src : string) (d : disk) : disk * option string :=
  match zip_entries src d with
  | inl e => (d, Some e)
  | inr files =>
      let baseName := ToLower (name ++ ".json") in
      if existsb (fun f => String.eqb (ToLower f) baseName) files then unzip_all files d
      else (d, Some ("cannot find the json descriptor file " ++ baseName ++ " for service"))
  end.

Definition Create (name uri : string) (m : Manager) : Manager * option (option sv_error) :=
  let (s, r) := Get name (serviceKV m) in
  let m := with_services (serviceBuf m) s m in
  match r with
  | Some _ => (m, Some (Some (SvText "service %s exist" [name])))
  | None =>
      if negb (IsValidUrl uri) || negb (HasSuffix uri ".zip") then (m, Some (Some (SvText "invalid file path %s" [uri])))
      else
        let zipPath := path_Join [etcDir; name ++ ".zip"] in
        let removed (m : Manager) := with_files (remove_file zipPath (s_disk m)) m in
        let (d, e) := download_file zipPath uri (s_disk m) in
        match e with
        | Some e => (removed (with_files d m), Some (Some (SvText "fail to download file %s: %s" [uri; e])))
        | None =>
            let (d2, e) := unzip name zipPath d in
            match e with
            | Some e => (removed (with_files d2 m), Some (Some (SvText "%s" [e])))
            | None => let (m3, r) := initFile (name ++ ".json") (with_files d2 m) in (removed m3, r)
            end
        end
  end.

Definition Update (name uri : string) (m : Manager) : Manager * option (option sv_error) :=
  let (m1, e) := Delete name m in
  match e with Some e => (m1, Some (Some e)) | None => Create name uri m1 end.

(** ** What the buffers stand for *)

(** The manager without its buffers. *)
Record Catalogue : Type := mkCatalogue {
  ca_pool : gmap string executor; ca_services : gmap string serviceInfo; ca_functions : gmap string functionContainer; ca_disk : disk }.

Definition catalogue (m : Manager) : Catalogue :=
  mkCatalogue (executorPool m) (contents (serviceKV m)) (contents (functionKV m)) (s_disk m).

Definition good (f : string) : Prop := plain (V := functionContainer) f /\ plain (V := functionContainer) (trim f).

(** No errors in the databases, and the buffers hold what the databases hold. *)
Record mgr_ok (m : Manager) : Prop := {
  mo_s : healthy (serviceKV m);
  mo_f : healthy (functionKV m);
  mo_sbuf : serviceBuf m ⊆ contents (serviceKV m);
  mo_fbuf : functionBuf m ⊆ contents (functionKV m);
  mo_owner : forall f c, contents (functionKV m) !! f = Some c -> plain (V := serviceInfo) (fc_ServiceName c);
  mo_names : forall s i, contents (serviceKV m) !! s = Some i -> Forall good (all_functions i) }.

Lemma buffered {A} (b c : gmap string A) n r : b ⊆ c -> b !! n = Some r -> c !! n = Some r.
Proof. intros H E. eapply lookup_weaken; eauto. Qed.

Lemma getFunction_ok n m : mgr_ok m -> plain (V := functionContainer) n ->
  let (m', r) := getFunction n m in r = contents (functionKV m) !! n /\ mgr_ok m' /\ catalogue m' = catalogue m.
Proof.
  intros O P. unfold getFunction. destruct (functionBuf m !! n) as [r|] eqn:B.
  - split; [symmetry; exact (buffered _ _ _ _ (mo_fbuf m O) B)|]. now split.
  - destruct (Get_law n (functionKV m)) as [C _], (Get_healthy n (functionKV m) (mo_f m O)) as [H R]. specialize (R P).
    destruct (Get n (functionKV m)) as [f r]. cbn in C, H, R. subst r. split; [reflexivity|]. split.
    + destruct O as [A1 A2 A3 A4 A5 A6]. split; cbn; rewrite ?C; auto. destruct (contents (functionKV m) !! n) eqn:E; [|exact A4].
      apply map_subseteq_spec. intros k x L. apply lookup_insert_Some in L as [[<- <-]|[_ L]]; [exact E|]. eapply buffered; eauto.
    + unfold catalogue. cbn. now rewrite C.
Qed.

Lemma getService_ok n m : mgr_ok m -> plain (V := serviceInfo) n ->
  let (m', r) := getService n m in r = contents (serviceKV m) !! n /\ mgr_ok m' /\ catalogue m' = catalogue m.
Proof.
  intros O P. unfold getService. destruct (serviceBuf m !! n) as [r|] eqn:B.
  - split; [symmetry; exact (buffered _ _ _ _ (mo_sbuf m O) B)|]. now split.
  - destruct (Get_law n (serviceKV m)) as [C _], (Get_healthy n (serviceKV m) (mo_s m O)) as [H R]. specialize (R P).
    destruct (Get n (serviceKV m)) as [f r]. cbn in C, H, R. subst r. split; [reflexivity|]. split.
    + destruct O as [A1 A2 A3 A4 A5 A6]. split; cbn; rewrite ?C; auto. destruct (contents (serviceKV m) !! n) eqn:E; [|exact A3].
      apply map_subseteq_spec. intros k x L. apply lookup_insert_Some in L as [[<- <-]|[_ L]]; [exact E|]. eapply buffered; eauto.
    + unfold catalogue. cbn. now rewrite C.
Qed.

(** *** Deleting *)

Definition spec_deleteFunc (service : string) (fm : gmap string functionContainer) (f : string) : gmap string functionContainer :=
  if String.eqb (trim f) "" then fm
  else match fm !! trim f with Some c => if String.eqb (fc_ServiceName c) service then delete f fm else fm | None => fm end.

Definition with_ca_functions fm (c : Catalogue) : Catalogue := mkCatalogue (ca_pool c) (ca_services c) fm (ca_disk c).

Lemma kv_delete_contents {V} {K : KeyValue V} n (s : kv) : healthy s -> plain n -> n <> "" ->
  healthy (fst (Kv.Delete n s)) /\ contents (fst (Kv.Delete n s)) = delete n (contents s).
Proof.
  intros H P N. destruct (Delete_healthy n s H) as [H' S]. split; [exact H'|]. pose proof (Delete_law n s P) as L.
  destruct (contents s !! n) as [v|] eqn:E; [rewrite S in L by eauto; apply L|]. rewrite delete_id by exact E. destruct (snd (Kv.Delete n s)); [exact L|].
  destruct L as [[v L] _]. congruence.
Qed.

Lemma deleteFunc_ok s f m : mgr_ok m -> good f ->
  mgr_ok (deleteFunc s f m) /\ catalogue (deleteFunc s f m) = with_ca_functions (spec_deleteFunc s (contents (functionKV m)) f) (catalogue m).
Proof.
  intros O [P P']. unfold deleteFunc, GetFunction, spec_deleteFunc. destruct (String.eqb_spec (trim f) "") as [E|N]; [now split|].
  pose proof (getFunction_ok (trim f) m O P') as G. destruct (getFunction (trim f) m) as [m1 r]. destruct G as (-> & O1 & C1).
  destruct (contents (functionKV m) !! trim f) as [c|]; [|now split]. destruct (String.eqb (fc_ServiceName c) s); [|now split].
  assert (F : contents (functionKV m1) = contents (functionKV m)) by exact (f_equal ca_functions C1).
  assert (Ne : f <> "") by (intros ->; now apply N).
  destruct (kv_delete_contents f (functionKV m1) (mo_f _ O1) P Ne) as [H2 C2]. split.
  - destruct O1 as [A1 A2 A3 A4 A5 A6]. split; cbn; rewrite ?C2; auto.
    + now apply delete_mono.
    + intros k x [_ L]%lookup_delete_Some. eauto.
  - unfold catalogue. cbn. rewrite C2, F. unfold with_ca_functions. unfold catalogue in C1. injection C1 as -> -> _ ->. reflexivity.
Qed.

Lemma deleteFuncs_ok s fs : forall m, mgr_ok m -> Forall good fs ->
  mgr_ok (fold_left (fun m f => deleteFunc s f m) fs m)
  /\ catalogue (fold_left (fun m f => deleteFunc s f m) fs m) = with_ca_functions (fold_left (spec_deleteFunc s) fs (contents (functionKV m))) (catalogue m).
Proof.
  induction fs as [|f fs IH]; intros m O G; cbn; [now split|]. inversion G as [|? ? Gf Gs]; subst.
  destruct (deleteFunc_ok s f m O Gf) as [O1 C1]. destruct (IH _ O1 Gs) as [O2 C2]. split; [exact O2|]. rewrite C2, C1.
  pose proof (f_equal ca_functions C1) as F. cbn in F. now rewrite F.
Qed.

Definition spec_deleteServiceFuncs (service : string) (c : Catalogue) : Catalogue :=
  match ca_services c !! service with
  | None => c
  | Some s => with_ca_functions (fold_left (spec_deleteFunc service) (all_functions s) (ca_functions c)) c
  end.

Lemma deleteServiceFuncs_ok s m : mgr_ok m -> plain (V := serviceInfo) s ->
  mgr_ok (deleteServiceFuncs s m) /\ catalogue (deleteServiceFuncs s m) = spec_deleteServiceFuncs s (catalogue m).
Proof.
  intros O P. unfold deleteServiceFuncs, spec_deleteServiceFuncs. pose proof (getService_ok s m O P) as G.
  destruct (getService s m) as [m1 r]. destruct G as (-> & O1 & C1). cbn [ca_services catalogue].
  destruct (contents (serviceKV m) !! s) as [i|] eqn:E; [|now split].
  destruct (deleteFuncs_ok s (all_functions i) m1 O1 (mo_names m O s i E)) as [O2 C2]. split; [exact O2|]. rewrite C2, C1.
  now rewrite (f_equal ca_functions C1 : contents (functionKV m1) = _).
Qed.

(** Whether it succeeded. *)
Definition spec_Delete (name : string) (c : Catalogue) : Catalogue * bool :=
  let name := trim name in
  if String.eqb name "" then (c, false)
  else
    let c1 := spec_deleteServiceFuncs name c in
    match ca_services c !! name with
    | None => (c1, false)
    | Some _ => (mkCatalogue (ca_pool c1) (delete name (ca_services c1)) (ca_functions c1) (remove_file (path_Join [etcDir; name ++ ".json"]) (ca_disk c1)), true)
    end.

Definition succeeded {E} (e : option E) : bool := match e with None => true | Some _ => false end.

Lemma Delete_ok n m : mgr_ok m -> plain (V := serviceInfo) (trim n) ->
  let (m', e) := Delete n m in mgr_ok m' /\ spec_Delete n (catalogue m) = (catalogue m', succeeded e).
Proof.
  intros O P. unfold Delete, spec_Delete. set (k := trim n) in *. destruct (String.eqb_spec k "") as [E|N]; [now split|].
  destruct (deleteServiceFuncs_ok k m O P) as [O1 C1]. set (m1 := deleteServiceFuncs k m) in *.
  assert (S : contents (serviceKV m1) = contents (serviceKV m)).
  { change (ca_services (catalogue m1) = ca_services (catalogue m)). rewrite C1. unfold spec_deleteServiceFuncs. now destruct (ca_services (catalogue m) !! k). }
  destruct (kv_delete_contents k (serviceKV m1) (mo_s _ O1) P N) as [H2 C2].
  pose proof (Delete_law k (serviceKV m1) P) as L. pose proof (Delete_healthy k (serviceKV m1) (mo_s _ O1)) as [_ Z]. rewrite S in *.
  destruct (Kv.Delete k (serviceKV m1)) as [s e]. cbn in H2, C2, L, Z.
  assert (O2 : mgr_ok (with_services (delete k (serviceBuf m1)) s m1)).
  { destruct O1 as [A1 A2 A3 A4 A5 A6]. split; cbn; rewrite ?C2; auto.
    - rewrite <- S. now apply delete_mono.
    - intros j x [_ J]%lookup_delete_Some. rewrite <- S in J. eauto. }
  rewrite <- C1. cbn [ca_services catalogue]. destruct (contents (serviceKV m) !! k) as [i|] eqn:E.
  - rewrite Z by eauto. split; [destruct O2; now split|]. unfold catalogue. cbn. now rewrite C2, S.
  - destruct e as [e|]; [|destruct L as [[? L] _]; congruence]. split; [exact O2|]. unfold catalogue. cbn. now rewrite C2, S, delete_id.
Qed.

(** *** Reading a file *)

Definition listed (s : serviceInfo) (f : string) : Prop := exists i ii, s !! i = Some ii /\ f ∈ ii_Functions ii.

Lemma all_functions_listed s f : f ∈ all_functions s <-> listed s f.
Proof.
  unfold all_functions, listed. rewrite list_elem_of_In, in_flat_map. split.
  - intros ([i ii] & I & F). apply list_elem_of_In, elem_of_map_to_list in I. apply list_elem_of_In in F. eauto.
  - intros (i & ii & I & F). exists (i, ii). split; [now apply list_elem_of_In, elem_of_map_to_list|now apply list_elem_of_In].
Qed.

Lemma containers_names service i a methods : (containers service i (function_names a methods) methods).*1 = function_names a methods.
Proof. unfold containers. apply fst_zip. unfold function_names. now rewrite !length_map. Qed.

Lemma containers_service service i fs ms e : e ∈ containers service i fs ms -> fc_ServiceName (snd e) = service.
Proof. destruct e as [f c]. unfold containers. intros H. apply elem_of_zip_r in H. apply list_elem_of_fmap in H as (m & -> & _). reflexivity. Qed.

(** What a file stores does not depend on the store, and the functions that it
    stores are those that the service lists. *)
Lemma init_split service d l : forall infos, exists es r,
  (forall K (set : K -> string * functionContainer -> K) k, init_interfaces set service d l infos k = (fold_left set es k, r))
  /\ (forall e, e ∈ es -> fc_ServiceName (snd e) = service)
  /\ (forall info, r = Some (inr info) ->
        (forall f, listed info f -> listed infos f \/ f ∈ es.*1)
        /\ (NoDup l.*1 -> (forall i, i ∈ l.*1 -> infos !! i = None) -> forall f, listed infos f \/ f ∈ es.*1 -> listed info f)).
Proof.
  induction l as [|[name b] l IH]; intros infos; cbn [init_interfaces].
  - exists [], (Some (inr infos)). split; [reflexivity|]. split; [now intros e I%elem_of_nil|]. intros info [= <-]. split; [auto|].
    intros _ _ f [L|I%elem_of_nil]; [exact L|easy].
  - destruct b as [b|]; [|exists [], None; split; [reflexivity|]; split; [now intros e I%elem_of_nil|discriminate]].
    destruct (parse (b_SchemaType b) (b_SchemaFile b) d) as [e|methods]; [eexists [], _; split; [reflexivity|]; split; [now intros e' I%elem_of_nil|discriminate]|].
    destruct (alias_map (b_Functions b) ∅) as [a|]; [|exists [], None; split; [reflexivity|]; split; [now intros e I%elem_of_nil|discriminate]].
    set (fs := function_names a methods). assert (Cn : (containers service name fs methods).*1 = fs) by apply containers_names. destruct (IH (<[name := new_interface b fs]> infos)) as (es & r & H1 & H2 & H3).
    exists (containers service name fs methods ++ es)%list, r. split; [|split].
    + intros K set k. now rewrite H1, fold_left_app.
    + intros e I. apply elem_of_app in I as [I|I]; [now apply containers_service in I|auto].
    + intros info E. destruct (H3 info E) as [H4 H5]. rewrite fmap_app, Cn. split.
      * intros f L. destruct (H4 f L) as [(i & ii & L1 & L2)|I]; [|right; apply elem_of_app; auto].
        apply lookup_insert_Some in L1 as [[<- <-]|[_ L1]]; [right; apply elem_of_app; left; exact L2|left; exists i, ii; auto].
      * cbn. intros [N1 N2]%NoDup_cons F f I. apply H5; [exact N2| |].
        { intros i Ii. rewrite lookup_insert_ne by (intros ->; contradiction). apply F. now right. }
        destruct I as [(i & ii & L1 & L2)|I].
        { left. exists i, ii. split; [|exact L2]. rewrite lookup_insert_ne; [exact L1|]. intros ->. rewrite F in L1 by now left. discriminate. }
        apply elem_of_app in I as [I|I]; [|now right]. left. exists name, (new_interface b fs). split; [apply lookup_insert_eq|exact I].
Qed.

Definition insert_function (fm : gmap string functionContainer) (e : string * functionContainer) : gmap string functionContainer := <[fst e := snd e]> fm.

Lemma put_functions_ok es : forall f, healthy f ->
  healthy (fold_left put_function es f) /\ contents (fold_left put_function es f) = fold_left insert_function es (contents f).
Proof.
  induction es as [|e es IH]; intros f H; cbn; [now split|]. destruct (Put_healthy (fst e) (snd e) f H) as [H1 E1].
  pose proof (Put_law (fst e) (snd e) f) as L. rewrite E1 in L. destruct (IH _ H1) as [H2 C2]. split; [exact H2|]. etransitivity; [exact C2|]. f_equal. exact L.
Qed.

Lemma insert_functions_lookup es : forall fm f c, fold_left insert_function es fm !! f = Some c -> (f, c) ∈ es \/ (f ∉ es.*1 /\ fm !! f = Some c).
Proof.
  induction es as [|[g x] es IH]; intros fm f c E; cbn in *; [right; split; [apply not_elem_of_nil|exact E]|].
  destruct (IH _ _ _ E) as [I|[N L]]; [left; now right|]. unfold insert_function in L. cbn in L.
  apply lookup_insert_Some in L as [[<- <-]|[M L]]; [left; now left|]. right. split; [apply not_elem_of_cons; auto|exact L].
Qed.

Lemma insert_functions_keep es : forall fm f c, fm !! f = Some c -> (forall x, (f, x) ∈ es -> x = c) -> fold_left insert_function es fm !! f = Some c.
Proof.
  induction es as [|[g x] es IH]; intros fm f c L H; cbn; [exact L|]. apply IH; [|intros y I; apply H; now right]. unfold insert_function. cbn.
  destruct (decide (g = f)) as [->|N]; [rewrite lookup_insert_eq; f_equal; apply H; now left|now rewrite lookup_insert_ne].
Qed.

(** The functions that the file would store, in order. *)
Definition stores (baseName : string) (d : disk) : list (string * functionContainer) :=
  match read_conf (path_Join [etcDir; baseName]) d with
  | inl _ => []
  | inr c => fst (init_interfaces (fun l e => (l ++ [e])%list) (service_of baseName) d (c_Interfaces c) ∅ [])
  end.

(** A file may be read when it takes no function from another service. *)
Definition no_theft (baseName : string) (c : Catalogue) : Prop :=
  plain (V := serviceInfo) (service_of baseName) /\
  forall e, e ∈ stores baseName (ca_disk c) -> good (fst e) /\ (ca_functions c !! fst e = None \/ ca_functions c !! fst e = Some (snd e)).

Definition spec_initFile (baseName : string) (c : Catalogue) : Catalogue * option bool :=
  match read_conf (path_Join [etcDir; baseName]) (ca_disk c) with
  | inl _ => (c, Some false)
  | inr cf =>
      let (fm, r) := init_interfaces insert_function (service_of baseName) (ca_disk c) (c_Interfaces cf) ∅ (ca_functions c) in
      match r with
      | None => (with_ca_functions fm c, None)
      | Some (inl _) => (with_ca_functions fm c, Some false)
      | Some (inr info) => (mkCatalogue (ca_pool c) (<[service_of baseName := info]> (ca_services c)) fm (ca_disk c), Some true)
      end
  end.

Lemma fold_snoc {A} (l : list A) : forall acc, fold_left (fun l e => (l ++ [e])%list) l acc = (acc ++ l)%list.
Proof. induction l as [|x l IH]; intros acc; cbn; [now rewrite app_nil_r|]. now rewrite IH, <- app_assoc. Qed.

(** The service that is initialized is not in the buffer. *)
Lemma initFile_ok b m : mgr_ok m -> no_theft b (catalogue m) -> contents (serviceKV m) !! service_of b = None ->
  let (m', r) := initFile b m in mgr_ok m' /\ spec_initFile b (catalogue m) = (catalogue m', option_map succeeded r).
Proof.
  intros O [P T] Fr. unfold initFile, spec_initFile. unfold stores in T. cbn [ca_disk ca_functions ca_pool ca_services catalogue] in *.
  destruct (read_conf (path_Join [etcDir; b]) (s_disk m)) as [e|cf]; [now split|].
  destruct (init_split (service_of b) (s_disk m) (c_Interfaces cf) ∅) as (es & r & H1 & H2 & H3). rewrite !H1 in *. cbn [fst] in T. rewrite fold_snoc in T. cbn in T.
  destruct (put_functions_ok es (functionKV m) (mo_f m O)) as [Hf Cf]. set (m1 := with_functions (functionBuf m) (fold_left put_function es (functionKV m)) m).
  assert (O1 : mgr_ok m1).
  { destruct O as [A1 A2 A3 A4 A5 A6]. split; cbn; rewrite ?Cf; auto.
    - apply map_subseteq_spec. intros f c L. assert (L' := buffered _ _ _ _ A4 L). apply insert_functions_keep; [exact L'|].
      intros x I. destruct (T _ I) as [_ [K|K]]; cbn in K; congruence.
    - intros f c L. apply insert_functions_lookup in L as [I|[_ L]]; [apply H2 in I; cbn in I; now rewrite I|eauto]. }
  assert (C1 : catalogue m1 = with_ca_functions (fold_left insert_function es (contents (functionKV m))) (catalogue m)) by (unfold catalogue; cbn; now rewrite Cf).
  destruct r as [[e|info]|]; [split; [exact O1|now rewrite C1]| |split; [exact O1|now rewrite C1]].
  destruct (H3 info eq_refl) as [H4 _]. change (serviceKV m1) with (serviceKV m).
  destruct (Put_healthy (service_of b) info (serviceKV m) (mo_s m O)) as [Hs Es]. pose proof (Put_law (service_of b) info (serviceKV m)) as L. rewrite Es in L.
  destruct (Put (service_of b) info (serviceKV m)) as [s e]. cbn in Hs, Es, L. subst e. split; [|unfold catalogue; cbn; now rewrite L, Cf].
  destruct O1 as [A1 A2 A3 A4 A5 A6]. split; cbn; rewrite ?L; auto.
  - apply insert_subseteq_r; [eapply lookup_weaken_None; eauto|exact A3].
  - intros k i K. apply lookup_insert_Some in K as [[<- <-]|[_ K]]; [|eapply A6; exact K].
    apply Forall_forall. intros f I. apply all_functions_listed in I. destruct (H4 f I) as [(? & ? & Z & _)|J]; [now rewrite lookup_empty in Z|].
    apply list_elem_of_fmap in J as (e & -> & J). now apply T.
Qed.

(** *** Creating *)

(** What a download and its archive leave on the disk, and whether they succeed. *)
Definition fetched (name uri : string) (d : disk) : disk * bool :=
  let zipPath := path_Join [etcDir; name ++ ".zip"] in
  let (d1, e) := download_file zipPath uri d in
  match e with Some _ => (d1, false) | None => let (d2, e) := unzip name zipPath d1 in (d2, succeeded e) end.

Definition with_ca_disk d (c : Catalogue) : Catalogue := mkCatalogue (ca_pool c) (ca_services c) (ca_functions c) d.

Definition spec_Create (name uri : string) (c : Catalogue) : Catalogue * option bool :=
  match ca_services c !! name with
  | Some _ => (c, Some false)
  | None =>
      if negb (IsValidUrl uri) || negb (HasSuffix uri ".zip") then (c, Some false)
      else
        let removed (c : Catalogue) := with_ca_disk (remove_file (path_Join [etcDir; name ++ ".zip"]) (ca_disk c)) c in
        let (d, b) := fetched name uri (ca_disk c) in
        if b then let (c1, r) := spec_initFile (name ++ ".json") (with_ca_disk d c) in (removed c1, r)
        else (removed (with_ca_disk d c), Some false)
  end.

Lemma string_length_app a b : String.length (a ++ b) = (String.length a + String.length b)%nat.
Proof. induction a as [|c a IH]; [reflexivity|]. exact (f_equal S IH). Qed.

Lemma service_of_name n : service_of (n ++ ".json") = n.
Proof. unfold service_of. rewrite string_length_app, Nat.add_sub. apply Strings.take_app. Qed.

Lemma with_files_ok d m : mgr_ok m -> mgr_ok (with_files d m).
Proof. intros []. now split. Qed.

Definition create_ok (name uri : string) (c : Catalogue) : Prop :=
  plain (V := serviceInfo) name /\ no_theft (name ++ ".json") (with_ca_disk (fst (fetched name uri (ca_disk c))) c).

Lemma Create_ok n u m : mgr_ok m -> create_ok n u (catalogue m) ->
  let (m', r) := Create n u m in mgr_ok m' /\ spec_Create n u (catalogue m) = (catalogue m', option_map succeeded r).
Proof.
  intros O [P T]. unfold Create, spec_Create. destruct (Get_law n (serviceKV m)) as [C _], (Get_healthy n (serviceKV m) (mo_s m O)) as [H R]. specialize (R P).
  destruct (Get n (serviceKV m)) as [s r]. cbn in C, H, R. subst r. set (m1 := with_services (serviceBuf m) s m).
  assert (O1 : mgr_ok m1) by (destruct O as [A1 A2 A3 A4 A5 A6]; split; cbn; rewrite ?C; auto).
  assert (C1 : catalogue m1 = catalogue m) by (unfold catalogue; cbn; now rewrite C). rewrite <- C1 in *.
  change (ca_services (catalogue m1)) with (contents (serviceKV m1)). change (serviceKV m1) with s. rewrite C.
  destruct (contents (serviceKV m) !! n) as [i|] eqn:Fr; [now split|].
  destruct (negb (IsValidUrl u) || negb (HasSuffix u ".zip")); [now split|].
  change (ca_disk (catalogue m1)) with (s_disk m1) in *. unfold fetched in *.
  destruct (download_file (path_Join [etcDir; n ++ ".zip"]) u (s_disk m1)) as [d1 [e|]]; [split; [now repeat apply with_files_ok|reflexivity]|].
  destruct (unzip n (path_Join [etcDir; n ++ ".zip"]) d1) as [d2 [e|]]; cbn [succeeded fst] in *; [split; [now repeat apply with_files_ok|reflexivity]|].
  pose proof (initFile_ok (n ++ ".json") (with_files d2 m1) (with_files_ok d2 m1 O1) T) as G. rewrite service_of_name in G.
  change (contents (serviceKV (with_files d2 m1))) with (contents s) in G. rewrite C in G. specialize (G Fr).
  destruct (initFile (n ++ ".json") (with_files d2 m1)) as [m3 r]. destruct G as [O3 G].
  change (catalogue (with_files d2 m1)) with (with_ca_disk d2 (catalogue m1)) in G. rewrite G. split; [now apply with_files_ok|reflexivity].
Qed.

Definition spec_Update (name uri : string) (c : Catalogue) : Catalogue * option bool :=
  let (c1, b) := spec_Delete name c in if b then spec_Create name uri c1 else (c1, Some false).

(** *** The functions that the evaluator asks for *)

Definition spec_getExecutor (name : string) (i : interfaceInfo) (c : Catalogue) : Catalogue * (sv_error + executor) :=
  match ca_pool c !! name with
  | Some e => (c, inr e)
  | None =>
      match NewExecutor i (ca_disk c) with
      | inl e => (c, inl e)
      | inr e => (mkCatalogue (<[name := e]> (ca_pool c)) (ca_services c) (ca_functions c) (ca_disk c), inr e)
      end
  end.

(** A function is the method of its interface in its service. *)
Definition spec_Function (name : string) (c : Catalogue) : Catalogue * option (executor * string) :=
  match ca_functions c !! name with
  | None => (c, None)
  | Some f =>
      match ca_services c !! fc_ServiceName f with
      | None => (c, None)
      | Some s =>
          match s !! fc_InterfaceName f with
          | None => (c, None)
          | Some i => let (c1, e) := spec_getExecutor (fc_InterfaceName f) i c in
              (c1, match e with inl _ => None | inr e => Some (e, fc_MethodName f) end)
          end
      end
  end.

Definition right {E A} (r : E + A) : option A := match r with inl _ => None | inr a => Some a end.

Lemma getExecutor_ok n i m : mgr_ok m ->
  let (m', r) := getExecutor n i m in mgr_ok m' /\ spec_getExecutor n i (catalogue m) = (catalogue m', r).
Proof.
  intros O. unfold getExecutor, spec_getExecutor. cbn [ca_pool ca_disk catalogue]. destruct (executorPool m !! n) as [e|]; [now split|].
  destruct (NewExecutor i (s_disk m)) as [e|e]; [now split|]. split; [destruct O; now split|reflexivity].
Qed.

Lemma Function_ok n m : mgr_ok m -> plain (V := functionContainer) n ->
  let (m', r) := Function n m in mgr_ok m' /\ spec_Function n (catalogue m) = (catalogue m', right r).
Proof.
  intros O P. unfold Function, spec_Function. pose proof (getFunction_ok n m O P) as G. destruct (getFunction n m) as [m1 r]. destruct G as (-> & O1 & C1).
  change (ca_functions (catalogue m)) with (contents (functionKV m)). destruct (contents (functionKV m) !! n) as [f|] eqn:E; [|split; [exact O1|now rewrite <- C1]].
  pose proof (getService_ok (fc_ServiceName f) m1 O1 (mo_owner m O n f E)) as G. destruct (getService (fc_ServiceName f) m1) as [m2 r]. destruct G as (-> & O2 & C2).
  rewrite <- C1. change (ca_services (catalogue m1)) with (contents (serviceKV m1)). destruct (contents (serviceKV m1) !! fc_ServiceName f) as [s|]; [|split; [exact O2|now rewrite <- C2]].
  destruct (s !! fc_InterfaceName f) as [i|]; [|split; [exact O2|now rewrite <- C2]].
  pose proof (getExecutor_ok (fc_InterfaceName f) i m2 O2) as G. destruct (getExecutor (fc_InterfaceName f) i m2) as [m3 r]. destruct G as [O3 G].
  rewrite C2 in G. rewrite G. split; [exact O3|]. now destruct r.
Qed.

(** ** Requests *)

Inductive request : Type :=
  | RFunction (name : string) | RHasFunction (name : string) | RHasService (name : string) | RGetFunction (name : string) | RGet (name : string)
  | RCreate (name uri : string) | RDelete (name : string) | RUpdate (name uri : string).

(** Errors are told apart from results only, and panics from both. *)
Inductive reply : Type :=
  | YCall (r : option (executor * string)) | YBool (b : bool) | YFunction (r : option functionContainer) | YService (r : option serviceInfo) | YDone (r : option bool).

Definition serve (r : request) (m : Manager) : Manager * reply :=
  match r with
  | RFunction n => let (m1, x) := Function n m in (m1, YCall (right x))
  | RHasFunction n => let (m1, b) := HasFunction n m in (m1, YBool b)
  | RHasService n => let (m1, b) := HasService n m in (m1, YBool b)
  | RGetFunction n => let (m1, x) := GetFunction n m in (m1, YFunction (right x))
  | RGet n => let (m1, x) := describe n m in (m1, YService (right x))
  | RCreate n u => let (m1, x) := Create n u m in (m1, YDone (option_map succeeded x))
  | RDelete n => let (m1, e) := Delete n m in (m1, YDone (Some (succeeded e)))
  | RUpdate n u => let (m1, x) := Update n u m in (m1, YDone (option_map succeeded x))
  end.

Definition is_some {A} (o : option A) : bool := match o with Some _ => true | None => false end.

Definition named {A} (name : string) (m : gmap string A) : option A := if String.eqb (trim name) "" then None else m !! trim name.

Definition spec_serve (r : request) (c : Catalogue) : Catalogue * reply :=
  match r with
  | RFunction n => let (c1, x) := spec_Function n c in (c1, YCall x)
  | RHasFunction n => (c, YBool (is_some (ca_functions c !! n)))
  | RHasService n => (c, YBool (is_some (ca_services c !! n)))
  | RGetFunction n => (c, YFunction (named n (ca_functions c)))
  | RGet n => (c, YService (named n (ca_services c)))
  | RCreate n u => let (c1, x) := spec_Create n u c in (c1, YDone x)
  | RDelete n => let (c1, b) := spec_Delete n c in (c1, YDone (Some b))
  | RUpdate n u => let (c1, x) := spec_Update n u c in (c1, YDone x)
  end.

Definition request_ok (r : request) (c : Catalogue) : Prop :=
  match r with
  | RFunction n | RHasFunction n => plain (V := functionContainer) n
  | RGetFunction n => plain (V := functionContainer) (trim n)
  | RHasService n => plain (V := serviceInfo) n
  | RGet n | RDelete n => plain (V := serviceInfo) (trim n)
  | RCreate n u => create_ok n u c
  | RUpdate n u => plain (V := serviceInfo) (trim n) /\ create_ok n u (fst (spec_Delete n c))
  end.

Lemma serve_ok r m : mgr_ok m -> request_ok r (catalogue m) ->
  let (m', y) := serve r m in mgr_ok m' /\ spec_serve r (catalogue m) = (catalogue m', y).
Proof.
  intros O P. destruct r as [n|n|n|n|n|n u|n|n u]; cbn [serve spec_serve request_ok] in *.
  - pose proof (Function_ok n m O P) as G. destruct (Function n m). destruct G as [O1 ->]. now split.
  - unfold HasFunction. pose proof (getFunction_ok n m O P) as G. destruct (getFunction n m). destruct G as (-> & O1 & C).
    change (ca_functions (catalogue m)) with (contents (functionKV m)). rewrite <- C. now split.
  - unfold HasService. pose proof (getService_ok n m O P) as G. destruct (getService n m). destruct G as (-> & O1 & C).
    change (ca_services (catalogue m)) with (contents (serviceKV m)). rewrite <- C. now split.
  - unfold GetFunction, named. cbv zeta. destruct (String.eqb (trim n) ""); [now split|].
    pose proof (getFunction_ok (trim n) m O P) as G. destruct (getFunction (trim n) m). destruct G as (-> & O1 & C). split; [exact O1|].
    change (ca_functions (catalogue m)) with (contents (functionKV m)). rewrite C. now destruct (contents (functionKV m) !! trim n).
  - unfold describe, named. cbv zeta. destruct (String.eqb (trim n) ""); [now split|].
    pose proof (getService_ok (trim n) m O P) as G. destruct (getService (trim n) m). destruct G as (-> & O1 & C). split; [exact O1|].
    change (ca_services (catalogue m)) with (contents (serviceKV m)). rewrite C. now destruct (contents (serviceKV m) !! trim n).
  - pose proof (Create_ok n u m O P) as G. destruct (Create n u m). destruct G as [O1 ->]. now split.
  - pose proof (Delete_ok n m O P) as G. destruct (Delete n m). destruct G as [O1 ->]. now split.
  - destruct P as [P1 P2]. unfold Update, spec_Update. pose proof (Delete_ok n m O P1) as G. destruct (Delete n m) as [m1 e]. destruct G as [O1 G]. rewrite G in *.
    cbn [fst] in P2. destruct e as [e|]; cbn [succeeded]; [now split|].
    pose proof (Create_ok n u m1 O1 P2) as G1. destruct (Create n u m1). destruct G1 as [O2 ->]. now split.
Qed.

Fixpoint serve_all (rs : list request) (m : Manager) : Manager * list reply :=
  match rs with [] => (m, []) | r :: rs' => let (m1, y) := serve r m in let (m2, ys) := serve_all rs' m1 in (m2, y :: ys) end.

Fixpoint spec_all (rs : list request) (c : Catalogue) : Catalogue * list reply :=
  match rs with [] => (c, []) | r :: rs' => let (c1, y) := spec_serve r c in let (c2, ys) := spec_all rs' c1 in (c2, y :: ys) end.

Fixpoint requests_ok (rs : list request) (c : Catalogue) : Prop :=
  match rs with [] => True | r :: rs' => request_ok r c /\ requests_ok rs' (fst (spec_serve r c)) end.


(** *** Creating and deleting again *)

Lemma delete_funcs_lookup service fs : forall fm k, Forall (fun f => trim f = f /\ f <> "") fs ->
  fold_left (spec_deleteFunc service) fs fm !! k =
  match fm !! k with Some c => if bool_decide (k ∈ fs) && String.eqb (fc_ServiceName c) service then None else Some c | None => None end.
Proof.
  induction fs as [|f fs IH]; intros fm k G; cbn [fold_left]; [now destruct (fm !! k)|].
  inversion G as [|? ? [T N] Gs]; subst. rewrite IH by exact Gs. unfold spec_deleteFunc. rewrite T. apply String.eqb_neq in N. rewrite N.
  destruct (decide (f = k)) as [<-|M].
  - rewrite (bool_decide_eq_true_2 (f ∈ f :: fs)) by now left. destruct (fm !! f) as [c|] eqn:E; [|now rewrite E].
    destruct (String.eqb (fc_ServiceName c) service) eqn:Q; [now rewrite lookup_delete_eq|]. rewrite E, Q. now rewrite !andb_false_r.
  - assert (K : (match fm !! f with Some c => if String.eqb (fc_ServiceName c) service then delete f fm else fm | None => fm end) !! k = fm !! k).
    { destruct (fm !! f) as [c|]; [|reflexivity]. destruct (String.eqb (fc_ServiceName c) service); [now apply lookup_delete_ne|reflexivity]. }
    rewrite K. destruct (fm !! k); [|reflexivity]. now rewrite (bool_decide_ext (k ∈ f :: fs) (k ∈ fs)) by (rewrite elem_of_cons; naive_solver).
Qed.

Lemma insert_functions_some es : forall fm f, f ∈ es.*1 -> exists c, fold_left insert_function es fm !! f = Some c /\ (f, c) ∈ es.
Proof.
  induction es as [|[g x] es IH]; intros fm f I; cbn in *; [now apply elem_of_nil in I|].
  destruct (decide (f ∈ es.*1)) as [J|J]; [destruct (IH (insert_function fm (g, x)) f J) as (c & H & K); exists c; split; [exact H|now right]|].
  apply elem_of_cons in I as [->|I]; [|contradiction]. exists x. split; [|now left]. apply insert_functions_keep; [apply lookup_insert_eq|].
  intros y K. exfalso. apply J. now apply (list_elem_of_fmap_2 fst) in K.
Qed.

Lemma insert_functions_other es fm f : f ∉ es.*1 -> fold_left insert_function es fm !! f = fm !! f.
Proof.
  intros N. destruct (fm !! f) as [c|] eqn:E.
  - apply insert_functions_keep; [exact E|]. intros x I. exfalso. apply N. now apply (list_elem_of_fmap_2 fst) in I.
  - destruct (fold_left insert_function es fm !! f) as [c|] eqn:L; [|reflexivity]. apply insert_functions_lookup in L as [I|[_ L]]; [|congruence].
    exfalso. apply N. now apply (list_elem_of_fmap_2 fst) in I.
Qed.

(** Names that are kept when they are trimmed, of functions that nobody has. *)
Definition new_functions (baseName : string) (c : Catalogue) : Prop :=
  forall e, e ∈ stores baseName (ca_disk c) -> ca_functions c !! fst e = None /\ trim (fst e) = fst e /\ fst e <> "".

Lemma spec_create_delete n u c c1 :
  trim n = n -> n <> "" -> new_functions (n ++ ".json") (with_ca_disk (fst (fetched n u (ca_disk c))) c) ->
  spec_Create n u c = (c1, Some true) ->
  (forall e, e ∈ stores (n ++ ".json") (fst (fetched n u (ca_disk c))) -> exists f, ca_functions c1 !! fst e = Some f /\ fc_ServiceName f = n)
  /\ exists c2, spec_Delete n c1 = (c2, true) /\ ca_services c2 = ca_services c /\ ca_functions c2 = ca_functions c.
Proof.
  intros T N F E. unfold spec_Create in E. destruct (ca_services c !! n) as [i|] eqn:Fr; [discriminate|].
  destruct (negb (IsValidUrl u) || negb (HasSuffix u ".zip")); [discriminate|]. destruct (fetched n u (ca_disk c)) as [d []]; [|discriminate].
  unfold spec_initFile, new_functions, stores in *. cbn [fst ca_disk ca_functions ca_services ca_pool with_ca_disk] in *.
  destruct (read_conf (path_Join [etcDir; n ++ ".json"]) d) as [x|cf] eqn:RC; [discriminate|].
  destruct (init_split (service_of (n ++ ".json")) d (c_Interfaces cf) ∅) as (es & r & H1 & H2 & H3).
  rewrite !H1 in *. rewrite service_of_name in *. cbn [fst] in *. rewrite fold_snoc in *. cbn [app] in *.
  destruct r as [[x|info]|]; [discriminate| |discriminate]. injection E as <-. cbn.
  destruct (H3 info eq_refl) as [H4 H5]. specialize (H5 (read_conf_keys _ _ _ RC) (fun i _ => lookup_empty i)).
  assert (L : forall f, f ∈ all_functions info <-> f ∈ es.*1).
  { intros f. rewrite all_functions_listed. split; [|intros I; apply H5; now right]. intros I.
    destruct (H4 f I) as [(? & ? & Z & _)|J]; [now rewrite lookup_empty in Z|exact J]. }
  split.
  - intros e I. destruct (insert_functions_some es (ca_functions c) (fst e)) as (f & K & J); [now apply list_elem_of_fmap_2|]. exists f. split; [exact K|]. now apply H2 in J.
  - unfold spec_Delete. rewrite T. apply String.eqb_neq in N. rewrite N. cbn. unfold spec_deleteServiceFuncs. cbn. rewrite lookup_insert_eq.
    eexists. split; [reflexivity|]. cbn. split; [rewrite delete_insert_eq; now apply delete_id|].
    apply map_eq. intros k. rewrite delete_funcs_lookup.
    + destruct (decide (k ∈ es.*1)) as [I|I].
      * destruct (insert_functions_some es (ca_functions c) k I) as (f & -> & J). rewrite bool_decide_eq_true_2 by now apply L.
        rewrite (H2 _ J : fc_ServiceName f = n), String.eqb_refl. cbn. symmetry. now apply (F (k, f)).
      * rewrite insert_functions_other by exact I. destruct (ca_functions c !! k); [|reflexivity]. rewrite bool_decide_eq_false_2; [reflexivity|]. now rewrite L.
    + apply Forall_forall. intros f I%L. apply list_elem_of_fmap in I as (e & -> & I). apply (F e I).
Qed.

End Services.

(** ** The connection of a msgpack executor *)

(** [None] in [msgpack_call]: the goroutine waits for the lock for ever. *)
Record msgpackExecutor : Type := mkMsgpack { mx_connected : bool; mx_locked : bool }.

Inductive call_result : Type := CallOk | CallShutdown | CallError.

Definition msgpack_connect (dials : bool) (x : msgpackExecutor) : option (msgpackExecutor * bool) :=
  if mx_connected x then Some (x, true)
  else if mx_locked x then None
  else if dials then Some (mkMsgpack true false, true) else Some (mkMsgpack false true, false).

(** [converted]: the parameters could be converted; whether there is a result. *)
Definition msgpack_call (dials converted : bool) (r : call_result) (x : msgpackExecutor) : option (msgpackExecutor * bool) :=
  match msgpack_connect dials x with
  | Some (x1, true) =>
      if converted then
        match r with
        | CallOk => Some (x1, true)
        | CallShutdown => Some (mkMsgpack false (mx_locked x1), false)
        | CallError => Some (x1, false)
        end
      else Some (x1, false)
  | other => other
  end.

(** A dial that fails leaves the lock taken. *)
Lemma failed_dial_blocks : exists x, msgpack_call false true CallOk (mkMsgpack false false) = Some (x, false)
  /\ forall dials converted r, msgpack_call dials converted r x = None.
Proof. eexists. split; [reflexivity|]. reflexivity. Qed.

(** ** Examples *)

Module Sample.
(** A disk is the list of its files with their contents; the content of a service
    file is the URL from which its archive was downloaded. *)
#[export] Instance svc_disk : Disk unit := {|
  disk := list (string * string);
  stat p d := existsb (fun f => String.eqb p (fst f)) d;
  is_dir _ _ := false;
  read_dir dir d := inr (map (fun f => Plugins.Sample.base (fst f)) d);
  remove_all p d := (List.filter (fun f => negb (String.eqb p (fst f))) d, None);
  remove_file p d := List.filter (fun f => negb (String.eqb p (fst f))) d;
  download_file p uri d := ((p, uri) :: d, None);
  zip_entries p _ := inr [hd "" (Split (Plugins.Sample.base p) ".zip") ++ ".json"];
  unzip_to _ dst d := ((dst, match d with (_, uri) :: _ => uri | [] => "" end) :: d, None);
  run_script _ d := (d, None);
  open_plugin _ _ := None;
  lookup_symbol _ _ _ := None;
  ParseRequestURI u := Some (mkUrl "file" "" u);
  url_Parse u := Some (mkUrl "http" u "");
  regexp_match _ _ := None;
  rune_upper r := r;
  rune_lower r := r |}%Z.

Definition grpc (address schemaFile : string) : option binding :=
  Some (mkBinding address "grpc" "protobuf" schemaFile [Some (mkMapping "hello" "SayHello")] []).

Definition file_of (uri : string) : conf :=
  mkSvcConf (
    if String.eqb uri "one.zip" then [("tsrpc", grpc "one" "hello.proto")]
    else if String.eqb uri "moved.zip" then [("tsrpc", grpc "moved" "hello.proto")]
    else if String.eqb uri "two.zip" then [("tsrpc", grpc "two" "other.proto")]
    else if String.eqb uri "half.zip" then [("a", grpc "half" "hello.proto"); ("b", grpc "half" "missing.proto")]
    else [("a", None)]).

Definition read_file (p : string) (d : list (string * string)) : string + conf :=
  match Prelude.assoc p d with Some uri => inr (file_of uri) | None => inl "no such file" end.

Lemma read_file_keys p d c : read_file p d = inr c -> NoDup (c_Interfaces c).*1.
Proof.
  unfold read_file. destruct (Prelude.assoc p d) as [uri|]; [|discriminate]. intros [= <-]. unfold file_of. cbn.
  repeat case_match; cbn; repeat (apply NoDup_cons; split; [set_solver|]); apply NoDup_nil; exact I.
Qed.

#[export] Instance table_files : ServiceFiles (list (string * string)) := {|
  read_conf := read_file;
  read_conf_keys := read_file_keys;
  ParseFiles f _ := if String.eqb f "hello.proto" then inr ["SayHello"; "get_feature"] else if String.eqb f "other.proto" then inr ["other"] else inl "no such file";
  rest_options _ := inl "not an object" |}.

Import Streams.Sample.

Definition none : Manager := mkServices ∅ ∅ ∅ (mkSqlite ∅ []) (mkSqlite ∅ []) [] true.
Definition replies (rs : list request) : list reply := snd (serve_all "etc" rs none).

Lemma none_ok : mgr_ok none.
Proof. split; try reflexivity; cbn; try apply map_empty_subseteq; intros ? ? E; exfalso; exact (lookup_empty_Some _ _ E). Qed.

(** The address that a function calls. *)
Definition address (y : reply) : option string := match y with YCall (Some (e, _)) => Some (Host (ex_addr e)) | _ => None end.
End Sample.

Import Services.Sample Streams.Sample.



(** Executors are found by the name of the interface: the functions of another
    service with an interface of that name call the first one. *)
Lemma interfaces_share_executor :
  map address (replies [RCreate "one" "one.zip"; RFunction "hello"; RCreate "two" "two.zip"; RFunction "other"]) = [None; Some "one"; None; Some "one"].
Proof. vm_compute. reflexivity. Qed.

(** A service that is updated goes on calling its old address. *)
Lemma updated_address_unused :
  map address (replies [RCreate "one" "one.zip"; RFunction "hello"; RUpdate "one" "moved.zip"; RFunction "hello"]) = [None; Some "one"; None; Some "one"].
Proof. vm_compute. reflexivity. Qed.

(** A service whose update fails is gone. *)
Lemma failed_update_deletes : replies [RCreate "one" "one.zip"; RUpdate "one" "moved.json"; RHasService "one"] = [YDone (Some true); YDone (Some false); YBool false].
Proof. vm_compute. reflexivity. Qed.

(** A file that fails in the middle leaves functions without a service, which no
    request removes. *)
Lemma half_created_functions_stay :
  replies [RCreate "half" "half.zip"; RHasService "half"; RHasFunction "hello"; RFunction "hello"; RDelete "half"; RHasFunction "hello"]
  = [YDone (Some false); YBool false; YBool true; YCall None; YDone (Some false); YBool true].
Proof. vm_compute. reflexivity. Qed.

(** The buffer hides that another service took a function. *)
Lemma buffer_hides_new_owner :
  let run m := match snd (serve "etc" (RGetFunction "hello") m) with YFunction (Some f) => fc_ServiceName f | _ => "" end in
  let m := fst (serve_all "etc" [RCreate "one" "one.zip"; RHasFunction "hello"; RCreate "thief" "moved.zip"] none) in
  (run m, option_map fc_ServiceName (contents (functionKV m) !! "hello")) = ("one", Some "thief").
Proof. vm_compute. reflexivity. Qed.

(** A name with spaces can be created, not described or deleted. *)
Lemma spaced_name_stays : replies [RCreate " one" "one.zip"; RHasService " one"; RGet " one"; RDelete " one"; RHasService " one"]
  = [YDone (Some true); YBool true; YService None; YDone (Some false); YBool true].
Proof. vm_compute. reflexivity. Qed.

(** An interface that is null is a nil pointer, which at the start of the server
    ends it. *)
Lemma null_interface_panics : replies [RCreate "null" "null.zip"] = [YDone None]
  /\ snd (GetServiceManager "etc" (mkSqlite ∅ []) (mkSqlite ∅ []) [("etc/null.json", "null.zip")]) = None.
Proof. vm_compute. auto. Qed.

(** The names in an archive lead out of the directory. *)
Lemma archive_leaves_directory :
  path_Join ["etc/services"; "../../x"] = "x" /\ path_Join [path_Join ["plugins"; "temp"; "sources"; "p"]; "../../../../x"] = "x".
Proof. vm_compute. auto. Qed.
