(* ===== verification/Rest.v ===== *)
(** The REST interface of streams and tables (the handlers of
    src/internal/server/rest.go over the stream processor, the codes of
    src/pkg/errorx): what a request does to the stored definitions and the status
    of its response.

    The JSON of a body is decoded before: a body is the text of its statement, or
    [None] if it cannot be decoded. *)

From S2P Require Import Prelude Token Ast FuncValidator Parser ParserFacts Kv Streams.
From stdpp Require Import base gmap list strings.
From Stdlib Require Import ZArith.

#[local] Open Scope string_scope.

(** ** Responses *)

Inductive content : Type :=
  | CText (s : string)
  | CNames (l : list string)
  | CStatement (s : option Statement)
  | CError (prefix : string) (e : sp_error)
  | CInvalidBody.

Record response : Type := mkResponse { code : Z; body : content }.

Inductive ErrorCode : Type := GENERAL_ERR | NOT_FOUND.

(** Only errors that are not wrapped have a code of their own. *)
Definition error_code (e : sp_error) : ErrorCode :=
  match e with
  | EDb (NotFound _) => NOT_FOUND
  | EText f _ => if String.eqb f "%s is not found" || String.eqb f "%s %s is not found" then NOT_FOUND else GENERAL_ERR
  | _ => GENERAL_ERR
  end.

Definition handleError (prefix : string) (e : sp_error) : response :=
  mkResponse (match error_code e with NOT_FOUND => 404 | GENERAL_ERR => 400 end) (CError prefix e).

Definition invalid_body : response := mkResponse 400 CInvalidBody.

Definition answer (status : Z) (prefix : string) (r : option (sp_error + string)) : option response :=
  option_map (fun r => match r with inl e => handleError prefix e | inr s => mkResponse status (CText s) end) r.

(** ** The handlers *)

Section Rest.
Context {V : Type} {KV : KeyValue V} {J : InfoJson V}.
Variable ff : FuncFinder.
Variable rt : Runtime.

Inductive request : Type :=
  | GetAll (st : StreamType)
  | Post (st : StreamType) (body : option string)
  | GetOne (st : StreamType) (name : string)
  | DeleteOne (st : StreamType) (name : string)
  | PutOne (st : StreamType) (name : string) (body : option string).

(** The streams or the tables; [None] is a panic. *)
Definition sourcesManageHandler (r : request) (p : kv) : kv * option response :=
  match r with
  | GetAll st =>
      let (p1, c) := ShowStream st p in
      (p1, Some (match c with inl e => handleError (Title st ++ " command error") e | inr l => mkResponse 200 (CNames l) end))
  | Post st None => (p, Some invalid_body)
  | Post st (Some sql) => let (p1, c) := ExecStreamSql ff rt sql p in (p1, answer 201 (Title st ++ " command error") c)
  | _ => (p, None)
  end.

(** One stream or table. *)
Definition sourceManageHandler (r : request) (p : kv) : kv * option response :=
  match r with
  | GetOne st name =>
      let (p1, c) := DescStream ff rt name st p in
      (p1, option_map (fun c => match c with
                                | inl e => handleError ("describe " ++ StreamTypeMap st ++ " error") e
                                | inr s => mkResponse 200 (CStatement s)
                                end) c)
  | DeleteOne st name => let (p1, c) := DropStream name st p in (p1, answer 200 ("delete " ++ StreamTypeMap st ++ " error") (Some c))
  | PutOne st name None => (p, Some invalid_body)
  | PutOne st name (Some sql) => let (p1, c) := ExecReplaceStream ff rt sql st p in (p1, answer 200 (Title st ++ " command error") c)
  | _ => (p, None)
  end.

Definition route (r : request) (p : kv) : kv * option response :=
  match r with GetAll _ | Post _ _ => sourcesManageHandler r p | _ => sourceManageHandler r p end.

(** ** What the interface promises *)

#[local] Abbreviation parse_text := (parse_text ff rt).

(** The statement of a body that creates a definition of the given type. *)
Definition replaces (st : StreamType) (sql : string) : option StreamStmt :=
  match parse_text sql with Some (inr (Some (CreateStmt s))) => if st_eqb (ss_StreamType s) st then Some s else None | _ => None end.

Definition wrong_type (st : StreamType) (sql : string) : bool :=
  match parse_text sql with Some (inr (Some (CreateStmt s))) => negb (st_eqb (ss_StreamType s) st) | _ => false end.

Definition rest_effect (r : request) (c : gmap string StreamInfo) : gmap string StreamInfo :=
  match r with
  | Post _ (Some sql) => effect ff rt sql c
  | DeleteOne _ name => delete name c
  | PutOne st _ (Some sql) => match replaces st sql with Some s => <[ss_Name s := created s sql]> c | None => c end
  | _ => c
  end.

(** Whether a request can be served, and the status if it cannot. *)
Definition rest_accepts (r : request) (c : gmap string StreamInfo) : Prop :=
  match r with
  | GetAll _ => True
  | Post _ (Some sql) => accepts ff rt sql c
  | GetOne st name | DeleteOne st name => has c name st
  | PutOne st _ (Some sql) => replaces st sql <> None
  | _ => False
  end.

Definition success_code (r : request) : Z := match r with Post _ _ => 201 | _ => 200 end.
Definition failure_code (r : request) : Z :=
  match r with DeleteOne _ _ => 404 | PutOne st _ (Some sql) => if wrong_type st sql then 404 else 400 | _ => 400 end.

Definition request_ok (r : request) : Prop :=
  match r with
  | Post _ (Some sql) | PutOne _ _ (Some sql) => valid_text sql /\ plain_names ff rt sql
  | GetOne _ name | DeleteOne _ name => plain_name name
  | _ => True
  end.

(** The errors of a statement are wrapped or have no code. *)
Lemma execShow_code st (p : kv) e : snd (snd (execShow st p)) = Some e -> error_code e = GENERAL_ERR.
Proof. unfold execShow, ShowStream. intros E. repeat (case_match; simplify_eq/=; try reflexivity). Qed.

Lemma ExecStmt_code text p p' e : ExecStmt ff rt text p = (p', Some (inl e)) -> error_code e = GENERAL_ERR.
Proof.
  unfold Streams.ExecStmt, execDescribe, execExplain, execDrop, one_line, DescStream. intros E.
  repeat (case_match; simplify_eq/=; try reflexivity).
  all: match goal with S : execShow ?st ?p = _, R : _ = Some ?e |- _ => apply (execShow_code st p e); now rewrite S end.
Qed.

Lemma ShowStream_code st (p p' : kv) e : ShowStream st p = (p', inl e) -> error_code e = GENERAL_ERR.
Proof. unfold ShowStream. intros E. repeat (case_match; simplify_eq/=; try reflexivity). Qed.

(** A stream that is missing is known as such only when it is dropped. *)
Lemma getStream_missing p c n st p' e : represents ff rt p c -> plain n -> healthy p -> getStream n st p = (p', inl e) -> error_code e = NOT_FOUND.
Proof.
  intros R P H E. unfold getStream, GetDataSourceStatement in E. pose proof (Open_law p) as O. destruct (Open_healthy p H) as [H1 S1].
  destruct (Open p) as [p1 o]. cbn in O, H1, S1. subst o. destruct (Get_healthy n p1 H1) as [_ G]. specialize (G P). destruct (Get n p1) as [p2 v]. cbn in G. subst v.
  rewrite O, (r_contents _ _ _ _ R), lookup_fmap in E. destruct (c !! n) as [i|] eqn:L; cbn in E; [|injection E as _ <-; reflexivity].
  rewrite unmarshal_marshal in E by apply (r_ok _ _ _ _ R n i L). cbn in E. destruct (st_eqb _ st); [discriminate|]. injection E as _ <-. reflexivity.
Qed.

Lemma DescStream_spec p c n st : represents ff rt p c -> plain n ->
  let (p', r) := DescStream ff rt n st p in represents ff rt p' c /\
  match r with
  | None => False
  | Some (inr _) => has c n st
  | Some (inl e) => error_code e = GENERAL_ERR /\ (healthy p -> ~ has c n st)
  end.
Proof.
  intros R P. unfold DescStream. pose proof (getStream_spec ff rt p c n st R P) as S. destruct (getStream n st p) as [p1 r].
  destruct S as (R1 & S2 & S3). split; [exact R1|]. destruct r as [e|t].
  - split; [reflexivity|]. intros H (i & E & T). destruct (S3 H) as [_ X]. discriminate (X i E T).
  - destruct (S2 t eq_refl) as (i & E & T & <-). destruct (r_ok _ _ _ _ R n i E) as (_ & _ & s & D & _). rewrite D. now exists i.
Qed.

Lemma DropStream_code p c n st : represents ff rt p c -> plain_name n -> healthy p ->
  match DropStream n st p with (_, inl e) => error_code e = NOT_FOUND | (_, inr _) => True end.
Proof.
  intros R [P N] H. unfold DropStream. pose proof (getStream_spec ff rt p c n st R P) as S. destruct (getStream n st p) as [p1 [e|t]] eqn:G.
  - now apply (getStream_missing p c n st p1 e).
  - destruct S as (R1 & S2 & S3). destruct (S3 H) as [H1 _]. destruct (Open_healthy p1 H1) as [H2 O2]. pose proof (Open_law p1) as OL. destruct (Open p1) as [p2 o]. cbn in H2, O2, OL. subst o.
    destruct (S2 t eq_refl) as (i & E & _). destruct (Delete_healthy n p2 H2) as [_ D]. destruct (Kv.Delete n p2) as [p3 d]. cbn in D.
    rewrite D; [exact I|exact P|exact N|]. rewrite OL, (r_contents _ _ _ _ R1), lookup_fmap, E. now exists (marshal_info i).
Qed.

(** Of a response: whether it is a success, and its effect. *)
Definition is_success (x : response) : bool := (code x <? 400)%Z.

Definition promised (r : request) (p : kv) (c : gmap string StreamInfo) (p' : kv) (x : response) : Prop :=
  if is_success x then represents ff rt p' (rest_effect r c) /\ rest_accepts r c /\ code x = success_code r
  else represents ff rt p' c /\ (healthy p -> ~ rest_accepts r c /\ code x = failure_code r).

Lemma refused r p c p' prefix e : represents ff rt p' c ->
  (healthy p -> ~ rest_accepts r c /\ match error_code e with NOT_FOUND => 404 | GENERAL_ERR => 400 end%Z = failure_code r) ->
  promised r p c p' (handleError prefix e).
Proof. intros R H. unfold promised, is_success, handleError. cbn. destruct (error_code e); split; auto. Qed.

Lemma served r p c p' b : represents ff rt p' (rest_effect r c) -> rest_accepts r c -> promised r p c p' (mkResponse (success_code r) b).
Proof. intros R A. unfold promised, is_success. cbn. now destruct r. Qed.

Lemma PutOne_keeps p c st n sql : represents ff rt p c -> request_ok (PutOne st n (Some sql)) ->
  match route (PutOne st n (Some sql)) p with (_, None) => False | (p', Some x) => promised (PutOne st n (Some sql)) p c p' x end.
Proof.
  intros R [U P]. cbn [route sourceManageHandler]. unfold ExecReplaceStream.
  assert (Rf : forall prefix e, replaces st sql = None -> (error_code e = if wrong_type st sql then NOT_FOUND else GENERAL_ERR) ->
    promised (PutOne st n (Some sql)) p c p (handleError prefix e)).
  { intros prefix e N C. apply refused; [exact R|]. intros _. rewrite C. split; [intros A; now apply A|]. cbn. now destruct (wrong_type st sql). }
  assert (Sv : forall s p1 b, replaces st sql = Some s -> represents ff rt p1 (<[ss_Name s := created s sql]> c) -> promised (PutOne st n (Some sql)) p c p1 (mkResponse 200 b)).
  { intros s p1 b E R1. apply (served (PutOne st n (Some sql))); cbn; rewrite E; [exact R1|discriminate]. }
  unfold replaces, wrong_type, plain_names in *.
  destruct (parse_text sql) as [[e|[[s|s| | |m|m|m|m|m|m]|]]|] eqn:T; cbn [answer option_map];
    first [now apply Rf | now apply parse_text_total in T | idtac].
  destruct (st_eqb (ss_StreamType s) st); cbn [negb]; [|now apply Rf].
  pose proof (execSave_spec ff rt p c sql s true R U (proj1 P) T) as S. destruct (execSave s sql true p) as [p1 [e|]]; destruct S as [_ S]; cbn [answer option_map].
  - destruct S as [R1 S]. apply refused; [exact R1|]. intros H. destruct (S H) as [X _]. discriminate.
  - destruct S as [_ R1]. now apply (Sv s).
Qed.

End Rest.

(** ** Examples *)

Module Sample.
Import Streams.Sample.

Definition serve (r : request) (p : kv (V := StreamInfo)) := route built_ins no_runtime r p.
Definition create_other : string := ("CREATE STREAM other () WITH (DATASOURCE=" ++ quoted "other" ++ ")")%string.

(** The status of every response. *)
Definition statuses (rs : list request) : list (option Z) :=
  snd (fold_left (fun a r => let (p, x) := serve r (fst a) in (p, (snd a ++ [option_map code x])%list)) rs (empty_store, [])).
End Sample.

Import Rest.Sample Streams.Sample.


(** Describing what is missing is 400, dropping it 404. *)
Lemma missing_stream_statuses : statuses [GetOne TypeStream "demo"; DeleteOne TypeStream "demo"] = [Some 400; Some 404]%Z.
Proof. vm_compute. reflexivity. Qed.

(** The name in the path of a replacement is not looked at. *)
Lemma put_ignores_name : statuses [Post TypeStream (Some create_demo); PutOne TypeStream "demo" (Some create_other); GetOne TypeStream "other"]
  = [Some 201; Some 200; Some 200]%Z.
Proof. vm_compute. reflexivity. Qed.

(** The collection of tables creates streams, and any statement is a creation. *)
Lemma post_runs_any_statement : statuses [Post TypeTable (Some create_demo); GetOne TypeStream "demo"; Post TypeTable (Some "DROP STREAM demo"); GetOne TypeStream "demo"]
  = [Some 201; Some 200; Some 201; Some 400]%Z.
Proof. vm_compute. reflexivity. Qed.
