(* ===== verification/Schema.v ===== *)
(** Calls of external services (src/internal/service/schema.go): the parameters of
    a function become a protobuf message of its method and the message that is
    returned becomes a value.

    The types of a schema are given by their names, so a type may contain itself;
    the conversions have the depth of the value or message as their fuel.  Texts
    of errors are shortened.
    Messages are those of a library, the class [DynamicMessages]: a field that is
    set to a value of its Go type is set and read back, a repeated one as a slice
    of interfaces. *)

From S2P Require Import Prelude Token Value Collections AggFuncs Cast.
From Stdlib Require Import ZArith Lia Bool List String SpecFloat.
Import ListNotations.

#[local] Open Scope string_scope.
#[local] Open Scope list_scope.
#[local] Open Scope Z_scope.

(** ** Schemas *)

Inductive FieldType : Type :=
  | TYPE_DOUBLE | TYPE_FLOAT | TYPE_INT64 | TYPE_UINT64 | TYPE_INT32 | TYPE_FIXED64 | TYPE_FIXED32 | TYPE_BOOL | TYPE_STRING
  | TYPE_GROUP | TYPE_MESSAGE | TYPE_BYTES | TYPE_UINT32 | TYPE_ENUM | TYPE_SFIXED32 | TYPE_SFIXED64 | TYPE_SINT32 | TYPE_SINT64.

(** [fd_Message] is the name of the type of a message field. *)
Record FieldDescriptor : Type := mkField { fd_Name : string; fd_Number : Z; fd_Type : FieldType; fd_Repeated : bool; fd_Message : string }.
Record MessageDescriptor : Type := mkType { md_Name : string; md_Fields : list FieldDescriptor }.
Record MethodDescriptor : Type := mkMethod { mt_Input : string; mt_Output : string }.

(** The cases of the switches. *)
Inductive kind : Type := KDouble | KFloat | KInt32 | KInt64 | KUint32 | KUint64 | KBool | KString | KBytes | KMessage | KOther.

Definition kind_of (t : FieldType) : kind :=
  match t with
  | TYPE_DOUBLE => KDouble
  | TYPE_FLOAT => KFloat
  | TYPE_INT32 | TYPE_SFIXED32 | TYPE_SINT32 => KInt32
  | TYPE_INT64 | TYPE_SFIXED64 | TYPE_SINT64 => KInt64
  | TYPE_FIXED32 | TYPE_UINT32 => KUint32
  | TYPE_FIXED64 | TYPE_UINT64 => KUint64
  | TYPE_BOOL => KBool
  | TYPE_STRING => KString
  | TYPE_BYTES => KBytes
  | TYPE_MESSAGE => KMessage
  | TYPE_GROUP | TYPE_ENUM => KOther
  end.

Definition WRAPPER_TYPES : list string :=
  map (append "google.protobuf.") ["BoolValue"; "BytesValue"; "DoubleValue"; "FloatValue"; "Int32Value"; "Int64Value"; "StringValue"; "UInt32Value"; "UInt64Value"].

Definition wrapperString : string := "google.protobuf.StringValue".
Definition wrapperVoid : string := "google.protobuf.EMPTY".

Definition is_wrapper (t : MessageDescriptor) : bool := existsb (String.eqb (md_Name t)) WRAPPER_TYPES.

Definition field_by_number (t : MessageDescriptor) (n : Z) : option FieldDescriptor := find (fun f => fd_Number f =? n) (md_Fields t).

(** ** Messages *)

(** What is in a field: a value, a message or several. *)
Inductive data (M : Type) : Type := DValue (v : value) | DMessage (m : M) | DMessages (l : list M).
Arguments DValue {M}.
Arguments DMessage {M}.
Arguments DMessages {M}.

Definition in_width (signed : bool) (w z : Z) : bool := (int_min signed w <=? z) && (z <=? int_max signed w).

(** The Go type of a field that is not a message. *)
Definition elem_ok (k : kind) (v : value) : bool :=
  match k, v with
  | KDouble, VFloat64 _ | KFloat, VFloat32 _ | KBool, VBool _ | KString, VString _ | KBytes, VBytes _ => true
  | KInt32, VInt32 z => in_width true 32 z
  | KInt64, VInt64 z => in_width true 64 z
  | KUint32, VUint32 z => in_width false 32 z
  | KUint64, VUint64 z => in_width false 64 z
  | _, _ => false
  end.

Definition go_type (k : kind) : gotype :=
  match k with
  | KDouble => GFloat64 | KFloat => GFloat32 | KInt32 => GInt32 | KInt64 => GInt64 | KUint32 => GUint32 | KUint64 => GUint64
  | KBool => GBool | KString => GString | KBytes => GSlice GUint8 | KMessage | KOther => GIface
  end.

(** A value of the Go type of a field; [mtype] is the type of a message. *)
Definition go_typed {M} (mtype : M -> string) (fd : FieldDescriptor) (d : data M) : bool :=
  let k := kind_of (fd_Type fd) in
  match d with
  | DValue (VTyped t l) => fd_Repeated fd && (if gotype_dec t (go_type k) then true else false) && forallb (elem_ok k) l
  | DValue v => negb (fd_Repeated fd) && elem_ok k v
  | DMessage m => negb (fd_Repeated fd) && (match k with KMessage => true | _ => false end) && String.eqb (mtype m) (fd_Message fd)
  | DMessages _ => false
  end.

Definition read_back {M} (d : data M) : data M := match d with DValue (VTyped _ l) => DValue (VSlice l) | _ => d end.

Class DynamicMessages : Type := {
  message : Type;
  message_type : message -> string;
  new_message : string -> message;
  set_field : FieldDescriptor -> data message -> message -> option message;     (* [None] is a panic *)
  get_field : FieldDescriptor -> message -> data message;
  new_message_type t : message_type (new_message t) = t;
  set_field_type fd d m m' : set_field fd d m = Some m' -> message_type m' = message_type m;
  set_get fd d m : go_typed message_type fd d = true -> exists m', set_field fd d m = Some m'
    /\ get_field fd m' = read_back d /\ forall fd', fd_Number fd' <> fd_Number fd -> get_field fd' m' = get_field fd' m }.

(** What a conversion ends in. *)
Inductive result (A : Type) : Type := Done (a : A) | Failed (e : value) | Panics | OutOfFuel.
Arguments Done {A}.
Arguments Failed {A}.
Arguments Panics {A}.
Arguments OutOfFuel {A}.

Definition bind {A B} (r : result A) (k : A -> result B) : result B :=
  match r with Done a => k a | Failed e => Failed e | Panics => Panics | OutOfFuel => OutOfFuel end.

Definition map_error {A} (f : value -> value) (r : result A) : result A := match r with Failed e => Failed (f e) | _ => r end.

(** The error of a type that no case of a switch has is returned as it is. *)
Definition wrap_error (k : kind) (f : value -> value) (e : value) : value := match k with KOther => e | _ => f e end.

Definition lift {A B} (f : A -> B) (r : value + A) : result B := match r with inl e => Failed e | inr a => Done (f a) end.

Section Schema.
Context {L : FloatLib} {F : GoFmt} {DM : DynamicMessages}.
Variable types : string -> MessageDescriptor.

(** ** Encoding *)

(** [cast.ToStringMap] on a value without maps of any key. *)
Definition string_map (v : value) : value + list (string * value) := match v with VMap m => inr m | _ => inl (cannot v "map") end.

Definition invalid_type (ty name : string) (e : value) : value := VError ("invalid type for " ++ ty ++ " type field '%s': %v") [VString name; e].

(** The elements of a repeated number: one that cannot be converted is the int 0. *)
Definition float_elem (input : value) (sn : Strictness) : value + value :=
  inr (match ToFloat64 input sn with inl _ => VInt 0 | inr r => VFloat32 (f32_of_f64 r) end).
Definition int_elem (input : value) (sn : Strictness) : value + value :=
  inr (match ToInt input sn with inl _ => VInt 0 | inr r => VInt32 (wrapS 32 r) end).
Definition uint_elem (input : value) (sn : Strictness) : value + value :=
  inr (match ToUint64 input sn with inl _ => VInt 0 | inr r => VUint32 (wrapU 32 r) end).

Definition typed_slice (v : value) (conv : value -> Strictness -> value + value) (ty : string) : result (data message) :=
  match ToTypedSlice v conv ty STRICT with None => Panics | Some (inl e) => Failed e | Some (inr r) => Done (DValue r) end.

(** [ToTypedSlice] with elements that become messages. *)
Fixpoint all_messages {X} (conv : X -> result message) (l : list X) : result (list message) :=
  match l with [] => Done [] | x :: l' => bind (conv x) (fun m => bind (all_messages conv l') (fun r => Done (m :: r))) end.

Definition message_slice (v : value) (conv : value -> result message) : result (data message) :=
  if isSliceOrArray v then
    match slice_elems v with [] => Panics | l => bind (all_messages conv l) (fun r => Done (DMessages r)) end
  else Failed (cannot v "map slice)").

Definition slice_data {A} (t : gotype) (f : A -> value) (r : value + list A) : result (data message) := lift (fun l => DValue (VTyped t (map f l))) r.

(** The loop of [encodeMap] over the fields of the type. *)
Fixpoint encode_fields (enc : FieldDescriptor -> value -> result (data message)) (fields : list FieldDescriptor) (m : list (string * value))
    (msg : message) : result message :=
  match fields with
  | [] => Done msg
  | f :: fields' =>
      match assoc (fd_Name f) m with
      | None => Failed (VError "field %s not found" [VString (fd_Name f)])
      | Some v => bind (enc f v) (fun d => match set_field f d msg with None => Panics | Some msg' => encode_fields enc fields' m msg' end)
      end
  end.

Definition encode_map (enc : FieldDescriptor -> value -> result (data message)) (im : string) (m : list (string * value)) : result message :=
  encode_fields enc (md_Fields (types im)) m (new_message im).

Definition encode_single (enc : FieldDescriptor -> value -> result (data message)) (fd : FieldDescriptor) (v : value) : result (data message) :=
  let name := fd_Name fd in
  let number {A} (ty : string) (f : A -> value) r := map_error (invalid_type ty name) (lift (fun a => DValue (f a)) r) in
  match kind_of (fd_Type fd) with
  | KDouble => number "float" VFloat64 (ToFloat64 v STRICT)
  | KFloat => number "float" (fun r => VFloat32 (f32_of_f64 r)) (ToFloat64 v STRICT)
  | KInt32 => number "int" (fun r => VInt32 (wrapS 32 r)) (ToInt v STRICT)
  | KInt64 => number "int" VInt64 (ToInt64 v STRICT)
  | KUint32 => number "uint" (fun r => VUint32 (wrapU 32 r)) (ToUint64 v STRICT)
  | KUint64 => number "uint" VUint64 (ToUint64 v STRICT)
  | KBool => number "bool" VBool (ToBool v STRICT)
  | KString => number "string" VString (ToString v STRICT)
  | KBytes => number "bytes" VBytes (ToBytes v STRICT)
  | KMessage =>
      match string_map v with
      | inr r => bind (encode_map enc (fd_Message fd) r) (fun m => Done (DMessage m))
      | inl e => Failed (invalid_type "map" name e)
      end
  | KOther => Failed (VError "invalid type for field '%s'" [VString name])
  end.

(** The elements of a repeated message are not looked at: every one is made from
    the whole slice. *)
Definition encode_repeated (enc : FieldDescriptor -> value -> result (data message)) (fd : FieldDescriptor) (v : value) : result (data message) :=
  map_error (wrap_error (kind_of (fd_Type fd)) (fun e => VError "failed to encode field '%s':%v" [VString (fd_Name fd); e]))
    match kind_of (fd_Type fd) with
    | KDouble => slice_data GFloat64 VFloat64 (ToFloat64Slice v STRICT)
    | KFloat => typed_slice v float_elem "float"
    | KInt32 => typed_slice v int_elem "int"
    | KInt64 => slice_data GInt64 VInt64 (ToInt64Slice v STRICT)
    | KUint32 => typed_slice v uint_elem "uint"
    | KUint64 => slice_data GUint64 VUint64 (ToUint64Slice v STRICT)
    | KBool => slice_data GBool VBool (ToBoolSlice v STRICT)
    | KString => slice_data GString VString (ToStringSlice v STRICT)
    | KBytes => slice_data (GSlice GUint8) VBytes (ToBytesSlice v STRICT)
    | KMessage => message_slice v (fun _ =>
        match string_map v with
        | inr r => encode_map enc (fd_Message fd) r
        | inl e => Failed (invalid_type "map" (fd_Name fd) e)
        end)
    | KOther => Failed (VError "invalid type for field '%s'" [VString (fd_Name fd)])
    end.

Fixpoint encodeField (n : nat) (fd : FieldDescriptor) (v : value) : result (data message) :=
  match n with
  | O => OutOfFuel
  | S n' => if fd_Repeated fd then encode_repeated (encodeField n') fd v else encode_single (encodeField n') fd v
  end.

Definition encodeMap (n : nat) : string -> list (string * value) -> result message := encode_map (encodeField n).

(** *** Parameters *)

(** Writing at an index; [None] is out of range. *)
Definition put_at {A} (i : Z) (x : A) (l : list A) : option (list A) :=
  if (0 <=? i) && (i <? Z.of_nat (List.length l)) then Some (list_set (Z.to_nat i) x l) else None.

Fixpoint unfold_fields (n : nat) (fields : list FieldDescriptor) (m : Message) (r : list (option (data message))) : result (list (option (data message))) :=
  match fields with
  | [] => Done r
  | f :: fields' =>
      match Message_Value m (fd_Name f) with
      | None => Failed (VError "field %s not found" [VString (fd_Name f)])
      | Some v => bind (encodeField n f v) (fun d => match put_at (fd_Number f - 1) (Some d) r with None => Panics | Some r' => unfold_fields n fields' m r' end)
      end
  end.

Definition unfoldMap (n : nat) (ft : MessageDescriptor) (i : value) : result (list (option (data message))) :=
  match ToMessage i with
  | Some m => unfold_fields n (md_Fields ft) m (repeat None (List.length (md_Fields ft)))
  | None => Failed (VError "not a map" [])
  end.

Fixpoint encode_params (n : nat) (fields : list FieldDescriptor) (params : list value) : result (list (option (data message))) :=
  match fields, params with
  | f :: fields', p :: params' => bind (encodeField n f p) (fun d => bind (encode_params n fields' params') (fun r => Done (Some d :: r)))
  | _, _ => Done []
  end.

Definition number_error (required given : nat) : value := VError "require %d parameters but only got %d" [VInt (Z.of_nat required); VInt (Z.of_nat given)].

(** A single map is unfolded if it can be; an error in it is only logged. *)
Definition convertParams (n : nat) (im : MessageDescriptor) (params : list value) : result (list (option (data message))) :=
  let fields := md_Fields im in
  match params with
  | [] => match fields with [] => Done [] | _ => Failed (VError "require %d parameters but none" [VInt (Z.of_nat (List.length fields))]) end
  | [p] =>
      match unfoldMap n im p with
      | Failed _ => if Nat.eqb (List.length fields) 1 then encode_params n fields params else Failed (number_error (List.length fields) 1)
      | r => r
      end
  | _ =>
      if Nat.eqb (List.length fields) (List.length params) then encode_params n fields params
      else Failed (number_error (List.length fields) (List.length params))
  end.

(** Parameters are set by their position; a position that is the number of no
    field, and a parameter that was not filled in, make the message panic. *)
Fixpoint set_params (t : MessageDescriptor) (i : Z) (l : list (option (data message))) (msg : message) : result message :=
  match l with
  | [] => Done msg
  | d :: l' =>
      match field_by_number t i, d with
      | Some f, Some d => match set_field f d msg with Some msg' => set_params t (i + 1) l' msg' | None => Panics end
      | _, _ => Panics
      end
  end.

Definition no_method (method : string) : value := VError "can't find method %s in proto" [VString method].

Definition ConvertParams (n : nat) (m : option MethodDescriptor) (method : string) (params : list value) : result (list (option (data message))) :=
  match m with None => Failed (no_method method) | Some m => convertParams n (types (mt_Input m)) params end.

Definition ConvertParamsToMessage (n : nat) (m : option MethodDescriptor) (method : string) (params : list value) : result message :=
  match m with
  | None => Failed (no_method method)
  | Some m => bind (convertParams n (types (mt_Input m)) params) (fun l => set_params (types (mt_Input m)) 1 l (new_message (mt_Input m)))
  end.

(** A text is sent as it is where the method takes a text; [MarshalJSON] is the
    printer of messages. *)
Definition ConvertParamsToJson (MarshalJSON : message -> value + string) (n : nat) (m : option MethodDescriptor) (method : string) (params : list value)
    : result string :=
  let whole := bind (ConvertParamsToMessage n m method params) (fun msg => lift (fun s => s) (MarshalJSON msg)) in
  match params with
  | [p] =>
      match m with
      | None => Failed (no_method method)
      | Some t => if String.eqb (md_Name (types (mt_Input t))) wrapperString then lift (fun s => s) (ToString p STRICT) else whole
      end
  | _ => whole
  end.

(** ** Decoding *)

(** [ToTypedSlice] on anything. *)
Fixpoint decode_rest {X} (conv : X -> result value) (t : gotype) (l : list X) : result (list value) :=
  match l with
  | [] => Done []
  | x :: l' =>
      bind (conv x) (fun a =>
        match type_of a with
        | Some t' => if gotype_dec t' t then bind (decode_rest conv t l') (fun r => Done (a :: r)) else Panics
        | None => Panics
        end)
  end.

Definition decode_slice {X} (conv : X -> result value) (l : list X) : result value :=
  match l with
  | [] => Panics
  | x :: l' => bind (conv x) (fun a => match type_of a with Some t => bind (decode_rest conv t l') (fun r => Done (VTyped t (a :: r))) | None => Panics end)
  end.

Section Loops.
(** [decodeField] for the fields of fields. *)
Variable dec : data message -> FieldDescriptor -> Strictness -> result value.

(** The fields of a message; one that cannot be decoded is left out. *)
Fixpoint message_fields (fields : list FieldDescriptor) (msg : message) (r : list (string * value)) : result (list (string * value)) :=
  match fields with
  | [] => Done r
  | f :: fields' =>
      match dec (get_field f msg) f STRICT with
      | Done v => message_fields fields' msg (assoc_set (fd_Name f) v r)
      | Failed _ => message_fields fields' msg r
      | Panics => Panics
      | OutOfFuel => OutOfFuel
      end
  end.

(** The field of a wrapper is a value. *)
Definition decode_message (msg : message) (out : MessageDescriptor) : result value :=
  if is_wrapper out then
    match field_by_number out 1 with
    | Some f => match get_field f msg with DValue v => Done v | _ => Panics end
    | None => Panics
    end
  else if String.eqb wrapperVoid (md_Name out) then Done VNil
  else bind (message_fields (md_Fields out) msg []) (fun r => Done (VMap r)).

Fixpoint map_fields (fields : list FieldDescriptor) (src : list (string * value)) (sn : Strictness) (r : list (string * value)) : result (list (string * value)) :=
  match fields with
  | [] => Done r
  | f :: fields' =>
      match assoc (fd_Name f) src with
      | None => map_fields fields' src sn r
      | Some v => bind (dec (DValue v) f sn) (fun a => map_fields fields' src sn (assoc_set (fd_Name f) a r))
      end
  end.

Definition decode_map (src : list (string * value)) (ft : MessageDescriptor) (sn : Strictness) : result value :=
  bind (map_fields (md_Fields ft) src sn []) (fun r => Done (VMap r)).

Definition decodeSubMessage (input : data message) (ft : MessageDescriptor) (sn : Strictness) : result value :=
  match input with
  | DValue (VMap m) => decode_map m ft sn
  | DMessage m => decode_message m ft
  | DValue v => Failed (VError "cannot decode %[1]T(%[1]v) to map" [v])
  | DMessages _ => Failed (VError "cannot decode %[1]T(%[1]v) to map" [])
  end.

(** A value of a field that is not a message. *)
Definition as_value (src : data message) : value := match src with DValue v => v | _ => VNil end.

Definition decode_scalar {A} (f : A -> value) (src : data message) (conv : value -> Strictness -> value + A) (sn : Strictness) : result value :=
  match src with DValue v => lift f (conv v sn) | _ => Failed (VError "cannot convert %[1]T(%[1]v)" []) end.

Definition decode_one (src : data message) (fd : FieldDescriptor) (sn : Strictness) : result value :=
  let ft := types (fd_Message fd) in
  let name := fd_Name fd in
  map_error (wrap_error (kind_of (fd_Type fd)) (fun e => VError "invalid type of return value for '%s': %v" [VString name; e]))
    match kind_of (fd_Type fd), fd_Repeated fd with
    | (KDouble | KFloat), true => decode_scalar (fun l => VTyped GFloat64 (map VFloat64 l)) src ToFloat64Slice sn
    | (KDouble | KFloat), false => decode_scalar VFloat64 src ToFloat64 sn
    | (KInt32 | KInt64 | KUint32 | KUint64), true => decode_scalar (fun l => VTyped GInt64 (map VInt64 l)) src ToInt64Slice sn
    | (KInt32 | KInt64 | KUint32 | KUint64), false => decode_scalar VInt64 src ToInt64 sn
    | KBool, true => decode_scalar (fun l => VTyped GBool (map VBool l)) src ToBoolSlice sn
    | KBool, false => decode_scalar VBool src ToBool sn
    | KString, true => decode_scalar (fun l => VTyped GString (map VString l)) src ToStringSlice sn
    | KString, false => decode_scalar VString src ToString sn
    | KBytes, true => decode_scalar (fun l => VTyped (GSlice GUint8) (map VBytes l)) src ToBytesSlice sn
    | KBytes, false => decode_scalar VBytes src ToBytes sn
    | KMessage, true =>
        match src with
        | DMessages l => decode_slice (fun m => decodeSubMessage (DMessage m) ft sn) l
        | DValue v =>
            if isSliceOrArray v then decode_slice (fun x => decodeSubMessage (DValue x) ft sn) (slice_elems v) else Failed (cannot v "map slice)")
        | DMessage _ => Failed (VError "cannot convert %[1]T(%[1]v) to %s slice)" [])
        end
    | KMessage, false => decodeSubMessage src ft sn
    | KOther, _ => Failed (VError "unsupported type for %s" [VString name])
    end.
End Loops.

Fixpoint decodeField (n : nat) (src : data message) (fd : FieldDescriptor) (sn : Strictness) : result value :=
  match n with O => OutOfFuel | S n' => decode_one (decodeField n') src fd sn end.

Definition decodeMessage (n : nat) : message -> MessageDescriptor -> result value := decode_message (decodeField n).
Definition decodeMap (n : nat) : list (string * value) -> MessageDescriptor -> Strictness -> result value := decode_map (decodeField n).

(** *** Results; a method that is not there is a nil pointer *)

Definition ConvertReturn (n : nat) (m : option MethodDescriptor) (returnVal : value) : result value :=
  match m with
  | None => Panics
  | Some m =>
      let t := types (mt_Output m) in
      if is_wrapper t then match field_by_number t 1 with Some f => decodeField n (DValue returnVal) f STRICT | None => Panics end
      else match returnVal with
           | VMap r => decodeMap n r t CONVERT_SAMEKIND
           | _ => Failed (VError "fail to convert return val, must be a map but got %v" [returnVal])
           end
  end.

Definition ConvertReturnMessage (n : nat) (m : option MethodDescriptor) (returnVal : message) : result value :=
  match m with None => Panics | Some m => decodeMessage n returnVal (types (mt_Output m)) end.

(** [Unmarshal]: JSON into a map. *)
Definition ConvertReturnJson (Unmarshal : string -> value + list (string * value)) (n : nat) (m : option MethodDescriptor) (returnVal : string) : result value :=
  match Unmarshal returnVal with
  | inl e => Failed e
  | inr r => match m with None => Panics | Some m => decodeMap n r (types (mt_Output m)) CONVERT_SAMEKIND end
  end.

Definition ConvertReturnText (n : nat) (m : option MethodDescriptor) (returnVal : string) : result value :=
  match m with
  | None => Panics
  | Some m =>
      let t := types (mt_Output m) in
      if is_wrapper t then match field_by_number t 1 with Some f => decodeField n (DValue (VString returnVal)) f CONVERT_ALL | None => Panics end
      else Failed (VError "fail to convert return val to text, return type must be primitive type but got %s" [VString (md_Name t)])
  end.

(** ** Encoded fields have their types *)

Lemma in_width_spec signed w z : in_width signed w z = true <-> in_range signed w z.
Proof. unfold in_width, in_range. rewrite andb_true_iff, !Z.leb_le. reflexivity. Qed.

Definition floats_in_range : Prop := forall signed f, in_range signed 64 (float_other signed 64 f).

Lemma lift_done {A B} (f : A -> B) r b : lift f r = Done b -> exists a, r = inr a /\ b = f a.
Proof. destruct r as [e|a]; [discriminate|]. intros [= <-]. eauto. Qed.

Lemma map_error_done {A} f (r : result A) a : map_error f r = Done a -> r = Done a.
Proof. now destruct r. Qed.

Lemma bind_done {A B} (r : result A) (k : A -> result B) b : bind r k = Done b -> exists a, r = Done a /\ k a = Done b.
Proof. destruct r; try discriminate. eauto. Qed.

Lemma go_typed_scalar fd v : fd_Repeated fd = false -> elem_ok (kind_of (fd_Type fd)) v = true -> go_typed message_type fd (DValue v) = true.
Proof. intros R E. unfold go_typed. rewrite R. destruct v; cbn; auto. now destruct (kind_of (fd_Type fd)). Qed.

Lemma encode_fields_type enc m fields : forall msg msg', encode_fields enc fields m msg = Done msg' -> message_type msg' = message_type msg.
Proof.
  induction fields as [|f fields IH]; intros msg msg' E; cbn in E; [now injection E as <-|].
  destruct (assoc (fd_Name f) m) as [v|]; [|discriminate]. apply bind_done in E as (d & _ & E).
  destruct (set_field f d msg) as [m1|] eqn:S; [|discriminate]. rewrite <- (set_field_type f d msg m1 S). now apply IH.
Qed.

(** C37: what is encoded for a field that is not repeated has exactly the Go type
    of the field: a number of its width and sign, a text, bytes or a message of
    the type that the schema names, whatever the value was. *)
Theorem encodeField_typed n fd v d : floats_in_range -> fd_Repeated fd = false ->
  encodeField n fd v = Done d -> go_typed message_type fd d = true.
Proof.
  intros FR R E. destruct n as [|n]; [discriminate|]. cbn [encodeField] in E. rewrite R in E. unfold encode_single in E.
  assert (I : converts_in_range true 64 ToInt64) by (apply to_signed_in_range; [lia|apply FR]).
  assert (U : converts_in_range false 64 ToUint64) by (apply to_unsigned_in_range; [lia|apply FR]).
  destruct (kind_of (fd_Type fd)) eqn:K; try discriminate;
    try (apply map_error_done, lift_done in E as (a & A & ->); apply go_typed_scalar; [exact R|]; rewrite K; cbn; try reflexivity; apply in_width_spec;
         first [eapply I; exact A | eapply U; exact A | apply wrapS_in_range; lia | apply wrapU_in_range; lia]).
  destruct (string_map v) as [e|m]; [discriminate|]. apply bind_done in E as (msg & E & [= <-]). cbn. rewrite R, K. cbn.
  apply encode_fields_type in E. rewrite E, new_message_type. apply String.eqb_refl.
Qed.

(** ** Messages survive *)

(** The depth of maps in a value. *)
Fixpoint vdepth (v : value) : nat := match v with VMap m => S (list_max (map (fun kv => vdepth (snd kv)) m)) | _ => O end.

(** What decoding gives for a field that is not a message. *)
Definition canonical (k : kind) (v : value) : Prop :=
  match k, v with
  | KDouble, VFloat64 _ | KBool, VBool _ | KString, VString _ | KBytes, VBytes _ => True
  | KFloat, VFloat64 f => f32_of_f64 f = f
  | KInt32, VInt64 z => in_range true 32 z
  | KInt64, VInt64 z => in_range true 64 z
  | KUint32, VInt64 z => in_range false 32 z
  | KUint64, VInt64 z => 0 <= z <= MaxInt64
  | _, _ => False
  end.

Definition decoded_type (k : kind) : gotype :=
  match k with
  | KDouble | KFloat => GFloat64
  | KInt32 | KInt64 | KUint32 | KUint64 => GInt64
  | _ => go_type k
  end.

(** Slices of these are made with the type of their first element. *)
Definition needs_element (k : kind) : bool := match k with KFloat | KInt32 | KUint32 => true | _ => false end.

Definition plain_type (t : MessageDescriptor) : Prop :=
  is_wrapper t = false /\ md_Name t <> wrapperVoid /\ NoDup (map fd_Name (md_Fields t)) /\ NoDup (map fd_Number (md_Fields t)).

(** The values of a field, and the maps of a type, that survive. *)
Inductive typed : FieldDescriptor -> value -> Prop :=
  | typed_scalar fd v : fd_Repeated fd = false -> canonical (kind_of (fd_Type fd)) v -> typed fd v
  | typed_repeated fd l : fd_Repeated fd = true -> Forall (canonical (kind_of (fd_Type fd))) l ->
      (needs_element (kind_of (fd_Type fd)) = true -> l <> []) -> (match kind_of (fd_Type fd) with KMessage | KOther => False | _ => True end) ->
      typed fd (VTyped (decoded_type (kind_of (fd_Type fd))) l)
  | typed_message fd m : fd_Repeated fd = false -> kind_of (fd_Type fd) = KMessage -> typed_map (fd_Message fd) m -> typed fd (VMap m)
with typed_map : string -> list (string * value) -> Prop :=
  | typed_fields t m : plain_type (types t) -> typed_list (md_Fields (types t)) m -> typed_map t m
with typed_list : list FieldDescriptor -> list (string * value) -> Prop :=
  | typed_nil : typed_list [] []
  | typed_cons f v fs m : typed f v -> typed_list fs m -> typed_list (f :: fs) ((fd_Name f, v) :: m).

Scheme typed_mind := Minimality for typed Sort Prop
  with typed_map_mind := Minimality for typed_map Sort Prop
  with typed_list_mind := Minimality for typed_list Sort Prop.
Combined Scheme typed_mutind from typed_mind, typed_map_mind, typed_list_mind.

(** *** Values *)

Definition encoded (k : kind) (v : value) : value :=
  match k, v with
  | KFloat, VFloat64 f => VFloat32 f
  | KInt32, VInt64 z => VInt32 z
  | KUint32, VInt64 z => VUint32 z
  | KUint64, VInt64 z => VUint64 z
  | _, _ => v
  end.

Lemma wrapS_id w z : 1 <= w -> in_range true w z -> wrapS w z = z.
Proof.
  unfold in_range, int_min, int_max, wrapS. intros Hw H. assert (2 ^ w = 2 * 2 ^ (w - 1)) by (rewrite <- Z.pow_succ_r by lia; f_equal; lia).
  rewrite Z.mod_small by lia. lia.
Qed.

Lemma wrapU_id w z : in_range false w z -> wrapU w z = z.
Proof. unfold in_range, int_min, int_max, wrapU. intros H. apply Z.mod_small. lia. Qed.

Lemma in_range_wider z : in_range true 32 z -> in_range true 64 z.
Proof. unfold in_range, int_min, int_max. lia. Qed.

Lemma encoded_ok k v : canonical k v -> elem_ok k (encoded k v) = true /\ type_of (encoded k v) = Some (go_type k).
Proof.
  destruct k, v; cbn; try contradiction; intros H; split; auto; apply in_width_spec; auto.
  unfold in_range, int_min, int_max, MaxInt64 in *. lia.
Qed.

Lemma narrow_signed z : in_range true 64 z -> wrapS 64 z = z.
Proof. intros H. apply wrapS_id; [lia|exact H]. Qed.

Lemma of_uint32 z : in_range false 32 z -> in_range true 64 z /\ in_range false 64 z.
Proof. unfold in_range, int_min, int_max. lia. Qed.

Lemma of_uint64 z : 0 <= z <= MaxInt64 -> in_range true 64 z /\ in_range false 64 z.
Proof. unfold in_range, int_min, int_max, MaxInt64. lia. Qed.

Lemma to_unsigned_int z : 0 <= z -> in_range false 64 z -> ToUint64 (VInt64 z) STRICT = inr z.
Proof. intros H R. cbn. destruct (Z.ltb_spec z 0); [lia|]. f_equal. now apply wrapU_id. Qed.

Lemma encode_scalar enc fd v : fd_Repeated fd = false -> canonical (kind_of (fd_Type fd)) v ->
  encode_single enc fd v = Done (DValue (encoded (kind_of (fd_Type fd)) v)).
Proof.
  intros R C. unfold encode_single. destruct (kind_of (fd_Type fd)), v; cbn [canonical] in C; try contradiction; cbn [encoded];
    try reflexivity.
  - cbn. now rewrite C.
  - cbn. rewrite narrow_signed by now apply in_range_wider. now rewrite wrapS_id by (lia || exact C).
  - cbn. now rewrite narrow_signed.
  - destruct (of_uint32 z C) as [_ R2]. rewrite to_unsigned_int; [|unfold in_range, int_min in C; lia|exact R2]. cbn. now rewrite wrapU_id.
  - destruct (of_uint64 z C) as [_ R2]. now rewrite to_unsigned_int by (lia || exact R2).
Qed.

Lemma decode_scalar_back dec fd v : fd_Repeated fd = false -> canonical (kind_of (fd_Type fd)) v ->
  decode_one dec (DValue (encoded (kind_of (fd_Type fd)) v)) fd STRICT = Done v.
Proof.
  intros R C. unfold decode_one. rewrite R. destruct (kind_of (fd_Type fd)), v; cbn [canonical] in C; try contradiction; cbn; try reflexivity.
  - now rewrite narrow_signed by now apply in_range_wider.
  - now rewrite narrow_signed.
  - now rewrite narrow_signed by now apply of_uint32.
  - now rewrite narrow_signed by now apply of_uint64.
Qed.

(** *** Slices *)

Lemma conv_all_map {A} (conv : value -> Strictness -> value + A) sn ee (g : value -> A) l : forall i,
  (forall x, In x l -> conv x sn = inr (g x)) -> conv_all conv sn ee i l = inr (map g l).
Proof.
  induction l as [|x l IH]; intros i H; cbn; [reflexivity|]. rewrite (H x) by now left. rewrite IH; [reflexivity|]. intros y I. apply H. now right.
Qed.

Lemma to_slice_map {A} (conv : value -> Strictness -> value + A) a b (g : value -> A) v sn : isSliceOrArray v = true ->
  (forall x, In x (slice_elems v) -> conv x sn = inr (g x)) -> to_slice conv a b v sn = inr (map g (slice_elems v)).
Proof. intros S H. unfold to_slice. rewrite S. now apply conv_all_map. Qed.

Lemma typed_rest_map conv sn input t (g : value -> value) l : forall i,
  (forall x, In x l -> conv x sn = inr (g x) /\ type_of (g x) = Some t) -> typed_rest conv sn input t i l = Some (inr (map g l)).
Proof.
  induction l as [|x l IH]; intros i H; cbn; [reflexivity|]. destruct (H x) as [-> ->]; [now left|]. destruct (gotype_dec t t); [|contradiction].
  rewrite IH; [reflexivity|]. intros y I. apply H. now right.
Qed.

Lemma ToTypedSlice_map v conv ty sn t (g : value -> value) : isSliceOrArray v = true -> slice_elems v <> [] ->
  (forall x, In x (slice_elems v) -> conv x sn = inr (g x) /\ type_of (g x) = Some t) -> ToTypedSlice v conv ty sn = Some (inr (VTyped t (map g (slice_elems v)))).
Proof.
  intros S N H. unfold ToTypedSlice. rewrite S. destruct (slice_elems v) as [|x l]; [contradiction|]. destruct (H x) as [-> ->]; [now left|].
  rewrite (typed_rest_map conv sn v t g); [reflexivity|]. intros y I. apply H. now right.
Qed.

(** The Go value in an element. *)
Definition num (v : value) : Z := match v with VInt64 z | VUint64 z | VInt32 z | VUint32 z => z | _ => 0 end.
Definition flo (v : value) : float64 := match v with VFloat64 f | VFloat32 f => f | _ => f64_zero end.
Definition boo (v : value) : bool := match v with VBool b => b | _ => false end.
Definition txt (v : value) : string := match v with VString s | VBytes s => s | _ => "" end.

Lemma slice_done {A} t (f : A -> value) conv a b (g : value -> A) enc l : (forall x, In x l -> conv x STRICT = inr (g x) /\ f (g x) = enc x) ->
  slice_data t f (to_slice conv a b (VTyped t l) STRICT) = Done (DValue (VTyped t (map enc l))).
Proof.
  intros H. rewrite (to_slice_map conv a b g); [|reflexivity|intros x I; now apply H]. cbn. rewrite map_map. do 3 f_equal. apply map_ext_in. intros x I. now apply H.
Qed.

Lemma encode_slice enc fd l : Forall (canonical (kind_of (fd_Type fd))) l -> (needs_element (kind_of (fd_Type fd)) = true -> l <> []) ->
  (match kind_of (fd_Type fd) with KMessage | KOther => False | _ => True end) ->
  encode_repeated enc fd (VTyped (decoded_type (kind_of (fd_Type fd))) l)
  = Done (DValue (VTyped (go_type (kind_of (fd_Type fd))) (map (encoded (kind_of (fd_Type fd))) l))).
Proof.
  intros C N M. rewrite Forall_forall in C. unfold encode_repeated, ToFloat64Slice, ToInt64Slice, ToUint64Slice, ToBoolSlice, ToStringSlice, ToBytesSlice. destruct (kind_of (fd_Type fd)) eqn:K; try contradiction; cbn [decoded_type go_type needs_element] in *.
  - rewrite (slice_done GFloat64 VFloat64 ToFloat64 _ _ flo (encoded KDouble)); [reflexivity|]. intros x I. specialize (C x I). destruct x; try contradiction. now split.
  - unfold typed_slice. rewrite (ToTypedSlice_map _ _ _ _ GFloat32 (encoded KFloat)); [reflexivity|reflexivity|now apply N|].
    intros x I. specialize (C x I). destruct x; try contradiction. unfold float_elem. cbn in C |- *. now rewrite C.
  - unfold typed_slice. rewrite (ToTypedSlice_map _ _ _ _ GInt32 (encoded KInt32)); [reflexivity|reflexivity|now apply N|].
    intros x I. specialize (C x I). destruct x; try contradiction. unfold int_elem. cbn in C |- *. rewrite narrow_signed by now apply in_range_wider.
    now rewrite wrapS_id by (lia || exact C).
  - rewrite (slice_done GInt64 VInt64 ToInt64 _ _ num (encoded KInt64)); [reflexivity|]. intros x I. specialize (C x I). destruct x; try contradiction. cbn. now rewrite narrow_signed.
  - unfold typed_slice. rewrite (ToTypedSlice_map _ _ _ _ GUint32 (encoded KUint32)); [reflexivity|reflexivity|now apply N|].
    intros x I. specialize (C x I). destruct x; try contradiction. cbn [canonical] in C. destruct (of_uint32 z C) as [_ R2]. unfold uint_elem.
    rewrite to_unsigned_int; [|unfold in_range, int_min in C; lia|exact R2]. cbn. now rewrite wrapU_id.
  - unfold slice_data. rewrite (to_slice_map ToUint64 _ _ num); [|reflexivity|].
    + cbn. rewrite map_map. do 3 f_equal. apply map_ext_in. intros x I. specialize (C x I). now destruct x.
    + intros x I. specialize (C x I). destruct x; try contradiction. cbn [canonical] in C. apply (to_unsigned_int z); [lia|]. now apply of_uint64.
  - rewrite (slice_done GBool VBool ToBool _ _ boo (encoded KBool)); [reflexivity|]. intros x I. specialize (C x I). destruct x; try contradiction. now split.
  - rewrite (slice_done GString VString ToString _ _ txt (encoded KString)); [reflexivity|]. intros x I. specialize (C x I). destruct x; try contradiction. now split.
  - rewrite (slice_done (GSlice GUint8) VBytes ToBytes _ _ txt (encoded KBytes)); [reflexivity|]. intros x I. specialize (C x I). destruct x; try contradiction. now split.
Qed.

Lemma decoded_done {A} (f : A -> value) t conv a b (g : value -> A) enc l : (forall x, In x l -> conv (enc x) STRICT = inr (g x) /\ f (g x) = x) ->
  decode_scalar (fun l => VTyped t (map f l)) (DValue (VSlice (map enc l))) (to_slice conv a b) STRICT = Done (VTyped t l).
Proof.
  intros H. unfold decode_scalar, to_slice. cbn [isSliceOrArray slice_elems].
  assert (E : forall ee i, conv_all conv STRICT ee i (map enc l) = inr (map g l)).
  { intros ee. induction l as [|x l IH]; intros i; cbn; [reflexivity|]. destruct (H x) as [-> _]; [now left|]. rewrite IH; [reflexivity|]. intros y I. apply H. now right. }
  rewrite E. cbn. rewrite map_map. do 2 f_equal. rewrite <- map_id. apply map_ext_in. intros x I. now apply H.
Qed.

Lemma decode_slice_back dec fd l : fd_Repeated fd = true -> Forall (canonical (kind_of (fd_Type fd))) l ->
  (match kind_of (fd_Type fd) with KMessage | KOther => False | _ => True end) ->
  decode_one dec (DValue (VSlice (map (encoded (kind_of (fd_Type fd))) l))) fd STRICT = Done (VTyped (decoded_type (kind_of (fd_Type fd))) l).
Proof.
  intros R C M. rewrite Forall_forall in C. unfold decode_one, ToFloat64Slice, ToInt64Slice, ToUint64Slice, ToBoolSlice, ToStringSlice, ToBytesSlice. rewrite R.
  destruct (kind_of (fd_Type fd)) eqn:K; try contradiction; cbn [decoded_type go_type].
  - rewrite (decoded_done VFloat64 GFloat64 ToFloat64 _ _ flo); [reflexivity|]. intros x I. specialize (C x I). destruct x; try contradiction. now split.
  - rewrite (decoded_done VFloat64 GFloat64 ToFloat64 _ _ flo); [reflexivity|]. intros x I. specialize (C x I). destruct x; try contradiction. now split.
  - rewrite (decoded_done VInt64 GInt64 ToInt64 _ _ num); [reflexivity|]. intros x I. specialize (C x I). destruct x; try contradiction. cbn. split; [|reflexivity].
    now rewrite narrow_signed by now apply in_range_wider.
  - rewrite (decoded_done VInt64 GInt64 ToInt64 _ _ num); [reflexivity|]. intros x I. specialize (C x I). destruct x; try contradiction. cbn. split; [|reflexivity]. now rewrite narrow_signed.
  - rewrite (decoded_done VInt64 GInt64 ToInt64 _ _ num); [reflexivity|]. intros x I. specialize (C x I). destruct x; try contradiction. cbn. split; [|reflexivity].
    now rewrite narrow_signed by now apply of_uint32.
  - rewrite (decoded_done VInt64 GInt64 ToInt64 _ _ num); [reflexivity|]. intros x I. specialize (C x I). destruct x; try contradiction. cbn. split; [|reflexivity].
    now rewrite narrow_signed by now apply of_uint64.
  - rewrite (decoded_done VBool GBool ToBool _ _ boo); [reflexivity|]. intros x I. specialize (C x I). destruct x; try contradiction. now split.
  - rewrite (decoded_done VString GString ToString _ _ txt); [reflexivity|]. intros x I. specialize (C x I). destruct x; try contradiction. now split.
  - rewrite (decoded_done VBytes (GSlice GUint8) ToBytes _ _ txt); [reflexivity|]. intros x I. specialize (C x I). destruct x; try contradiction. now split.
Qed.

(** *** Fields of messages *)

Lemma elem_ok_encoded k l : Forall (canonical k) l -> forallb (elem_ok k) (map (encoded k) l) = true.
Proof. induction 1 as [|x l C _ IH]; cbn; [reflexivity|]. rewrite IH. now destruct (encoded_ok k x C) as [-> _]. Qed.

Lemma read_back_scalar k v : canonical k v -> read_back (M := message) (DValue (encoded k v)) = DValue (encoded k v).
Proof. destruct k, v; cbn; try contradiction; reflexivity. Qed.

Definition survives (n : nat) (fd : FieldDescriptor) (v : value) : Prop := exists d,
  encodeField n fd v = Done d /\ go_typed message_type fd d = true /\ decodeField n (read_back d) fd STRICT = Done v.

Lemma scalar_survives n fd v : (0 < n)%nat -> fd_Repeated fd = false -> canonical (kind_of (fd_Type fd)) v -> survives n fd v.
Proof.
  intros H R C. destruct n as [|n]; [lia|]. exists (DValue (encoded (kind_of (fd_Type fd)) v)). cbn [encodeField decodeField]. rewrite R.
  split; [now apply encode_scalar|]. split; [apply go_typed_scalar; [exact R|]; now apply encoded_ok|]. rewrite read_back_scalar by exact C. now apply decode_scalar_back.
Qed.

Lemma slice_survives n fd l : (0 < n)%nat -> fd_Repeated fd = true -> Forall (canonical (kind_of (fd_Type fd))) l ->
  (needs_element (kind_of (fd_Type fd)) = true -> l <> []) -> (match kind_of (fd_Type fd) with KMessage | KOther => False | _ => True end) ->
  survives n fd (VTyped (decoded_type (kind_of (fd_Type fd))) l).
Proof.
  intros H R C N M. destruct n as [|n]; [lia|]. eexists. cbn [encodeField decodeField]. rewrite R. split; [now apply encode_slice|]. split.
  - cbn. rewrite R. destruct (gotype_dec _ _); [|contradiction]. now apply elem_ok_encoded.
  - now apply decode_slice_back.
Qed.

Lemma assoc_set_new {V} k (v : V) m : ~ In k (keys m) -> assoc_set k v m = m ++ [(k, v)].
Proof.
  induction m as [|[k' v'] m IH]; cbn; intros H; [reflexivity|]. destruct (String.eqb_spec k' k) as [->|_]; [exfalso; apply H; now left|]. now rewrite IH by tauto.
Qed.

(** The fields of a message are set one after the other and read back together. *)
Definition fields_survive (n : nat) (fs : list FieldDescriptor) (m : list (string * value)) : Prop :=
  forall full msg, (forall k v, In (k, v) m -> assoc k full = Some v) -> NoDup (map fd_Number fs) -> NoDup (map fd_Name fs) ->
  exists msg', encode_fields (encodeField n) fs full msg = Done msg'
    /\ (forall f, ~ In (fd_Number f) (map fd_Number fs) -> get_field f msg' = get_field f msg)
    /\ forall r, (forall k, In k (keys r) -> ~ In k (map fd_Name fs)) -> message_fields (decodeField n) fs msg' r = Done (r ++ m).

Lemma fields_survive_nil n : fields_survive n [] [].
Proof. intros full msg _ _ _. exists msg. split; [reflexivity|]. split; [reflexivity|]. intros r _. cbn. now rewrite app_nil_r. Qed.

Lemma fields_survive_cons n f v fs m : survives n f v -> fields_survive n fs m -> fields_survive n (f :: fs) ((fd_Name f, v) :: m).
Proof.
  intros (d & E & T & D) H full msg A Nn Ns. cbn in Nn, Ns. apply NoDup_cons_iff in Nn as [Nn1 Nn2]. apply NoDup_cons_iff in Ns as [Ns1 Ns2].
  destruct (set_get f d msg T) as (m1 & S & G & O). destruct (H full m1) as (m2 & H1 & H2 & H3); [intros k w I; apply A; now right|exact Nn2|exact Ns2|].
  exists m2. split; [|split].
  - cbn [encode_fields]. rewrite (A (fd_Name f) v) by now left. rewrite E. cbn. now rewrite S.
  - intros g N. cbn in N. rewrite H2 by tauto. apply O. intros X. apply N. now left.
  - intros r R. cbn [message_fields]. rewrite (H2 f Nn1), G, D. rewrite assoc_set_new by (intros I; apply (R _ I); now left).
    rewrite H3; [now rewrite <- app_assoc|]. intros k I J. unfold keys in I. rewrite map_app in I. apply in_app_iff in I as [I|[<-|[]]]; [|contradiction].
    apply (R k I). now right.
Qed.

Lemma typed_list_names fs m : typed_list fs m -> keys m = map fd_Name fs.
Proof. induction 1 as [|f v fs m _ _ IH]; cbn; [reflexivity|]. now rewrite <- IH. Qed.

Definition map_survives (n : nat) (t : string) (m : list (string * value)) : Prop := exists msg,
  encodeMap n t m = Done msg /\ message_type msg = t /\ decodeMessage n msg (types t) = Done (VMap m).

Lemma map_survives_intro n t m : plain_type (types t) -> typed_list (md_Fields (types t)) m -> fields_survive n (md_Fields (types t)) m -> map_survives n t m.
Proof.
  intros (W & V & Ns & Nn) T H. destruct (H m (new_message t)) as (msg & E & _ & D).
  - intros k v I. apply In_assoc; [|exact I]. now rewrite (typed_list_names _ _ T).
  - exact Nn.
  - exact Ns.
  - exists msg. split; [exact E|]. split; [rewrite (encode_fields_type _ _ _ _ _ E); apply new_message_type|].
    unfold decodeMessage, decode_message. rewrite W. destruct (String.eqb_spec wrapperVoid (md_Name (types t))); [congruence|].
    rewrite (D []); [reflexivity|]. intros k [].
Qed.

Lemma message_survives n fd m : fd_Repeated fd = false -> kind_of (fd_Type fd) = KMessage -> map_survives n (fd_Message fd) m -> survives (S n) fd (VMap m).
Proof.
  intros R K (msg & E & T & D). exists (DMessage msg). cbn [encodeField decodeField]. rewrite R. unfold encode_single, decode_one, encodeMap in *. rewrite R, K.
  cbn [string_map]. rewrite E. split; [reflexivity|]. split; [cbn; now rewrite R, K, T, String.eqb_refl|].
  cbn. unfold decodeMessage in D. rewrite D. reflexivity.
Qed.

Lemma depth_of_field m n : (vdepth (VMap m) < n)%nat -> forall k v, In (k, v) m -> (vdepth v < pred n)%nat.
Proof.
  cbn [vdepth]. intros H k v I. enough (vdepth v <= list_max (map (fun kv => vdepth (snd kv)) m))%nat by lia.
  assert (Fa : Forall (fun d => d <= list_max (map (fun kv => vdepth (snd kv)) m))%nat (map (fun kv => vdepth (snd kv)) m)) by now apply list_max_le.
  rewrite Forall_forall in Fa. apply Fa. apply in_map_iff. now exists (k, v).
Qed.

Lemma all_survive :
  (forall fd v, typed fd v -> forall n, (vdepth v < n)%nat -> survives n fd v)
  /\ (forall t m, typed_map t m -> forall n, (vdepth (VMap m) <= n)%nat -> map_survives n t m)
  /\ (forall fs m, typed_list fs m -> forall n, (forall k v, In (k, v) m -> (vdepth v < n)%nat) -> fields_survive n fs m).
Proof.
  apply typed_mutind.
  - intros fd v R C n H. apply scalar_survives; [lia|exact R|exact C].
  - intros fd l R C N M n H. apply slice_survives; [lia|assumption..].
  - intros fd m R K _ IH n H. destruct n as [|n]; [lia|]. apply message_survives; [exact R|exact K|]. apply IH. lia.
  - intros t m P T IH n H. apply map_survives_intro; [exact P|exact T|]. apply IH. intros k v I.
    apply (depth_of_field m (S n)) with (k := k); [lia|exact I].
  - intros n _. apply fields_survive_nil.
  - intros f v fs m _ IHv _ IHm n H. apply fields_survive_cons; [apply IHv, (H (fd_Name f)); now left|]. apply IHm. intros k w I. apply (H k). now right.
Qed.

End Schema.

(** ** Examples *)

Module Sample.
#[export] Instance floats_zero : FloatLib := { parse_float := fun _ _ => None; format_float := fun _ _ => "?"; float_other := fun signed w _ => 0 }.
#[export] Instance fmt_question : GoFmt := { fmt_atom := fun _ => "?" }.

(** A message is its type and its fields; what is not of the type of the field is
    refused. *)
Inductive msg : Type := Msg (ty : string) (fields : list (Z * data msg)).

Definition msg_type (m : msg) : string := match m with Msg t _ => t end.
Fixpoint lookup (n : Z) (l : list (Z * data msg)) : data msg :=
  match l with [] => DValue VNil | (k, d) :: l' => if k =? n then d else lookup n l' end.
Definition msg_get (fd : FieldDescriptor) (m : msg) : data msg := match m with Msg _ l => lookup (fd_Number fd) l end.
Definition msg_set (fd : FieldDescriptor) (d : data msg) (m : msg) : option msg :=
  if go_typed msg_type fd d then match m with Msg t l => Some (Msg t ((fd_Number fd, read_back d) :: l)) end else None.

Lemma msg_set_type fd d m m' : msg_set fd d m = Some m' -> msg_type m' = msg_type m.
Proof. unfold msg_set. destruct (go_typed msg_type fd d); [|discriminate]. destruct m. now intros [= <-]. Qed.

Lemma msg_set_get fd d m : go_typed msg_type fd d = true -> exists m', msg_set fd d m = Some m'
  /\ msg_get fd m' = read_back d /\ forall fd', fd_Number fd' <> fd_Number fd -> msg_get fd' m' = msg_get fd' m.
Proof.
  intros T. unfold msg_set. rewrite T. destruct m as [t l]. eexists. split; [reflexivity|]. cbn. rewrite Z.eqb_refl. split; [reflexivity|].
  intros fd' N. destruct (Z.eqb_spec (fd_Number fd) (fd_Number fd')); congruence.
Qed.

#[export] Instance plain_messages : DynamicMessages :=
  { message := msg; message_type := msg_type; new_message := fun t => Msg t []; set_field := msg_set; get_field := msg_get;
    new_message_type := fun _ => eq_refl; set_field_type := msg_set_type; set_get := msg_set_get }.

(** A point with a name, numbers and another point. *)
Definition field (name : string) (n : Z) (t : FieldType) (repeated : bool) (m : string) : FieldDescriptor := mkField name n t repeated m.
Definition point : MessageDescriptor := mkType "point" [field "x" 1 TYPE_INT32 false ""; field "tags" 2 TYPE_STRING true ""; field "at" 3 TYPE_MESSAGE false "place"].
Definition place : MessageDescriptor := mkType "place" [field "zip" 1 TYPE_UINT64 false ""; field "sizes" 2 TYPE_INT32 true ""].
Definition gap : MessageDescriptor := mkType "gap" [field "x" 3 TYPE_INT32 false ""].
Definition types (t : string) : MessageDescriptor := if String.eqb t "point" then point else if String.eqb t "place" then place else if String.eqb t "gap" then gap else mkType t [].

Definition home : list (string * value) := [("zip", VInt64 7); ("sizes", VTyped GInt64 [VInt64 1; VInt64 2])].
Definition here : list (string * value) := [("x", VInt64 (-5)); ("tags", VTyped GString [VString "a"]); ("at", VMap home)].

Lemma home_typed : typed_map types "place" home.
Proof.
  apply typed_fields.
  - split; [reflexivity|]. split; [discriminate|]. split; repeat (constructor; [cbn; intuition discriminate|]); constructor.
  - apply typed_cons; [apply typed_scalar; [reflexivity|cbn; unfold MaxInt64; lia]|]. apply typed_cons; [|apply typed_nil].
    apply (typed_repeated types (field "sizes" 2 TYPE_INT32 true "")); [reflexivity| |discriminate|exact I].
    repeat constructor; discriminate.
Qed.

Lemma here_typed : typed_map types "point" here.
Proof.
  apply typed_fields.
  - split; [reflexivity|]. split; [discriminate|]. split; repeat (constructor; [cbn; intuition discriminate|]); constructor.
  - apply typed_cons; [apply typed_scalar; [reflexivity|split; discriminate]|]. apply typed_cons.
    + apply (typed_repeated types (field "tags" 2 TYPE_STRING true "")); [reflexivity|repeat constructor|discriminate|exact I].
    + apply typed_cons; [|apply typed_nil]. apply typed_message; [reflexivity|reflexivity|exact home_typed].
Qed.
End Sample.

Import Schema.Sample.

Lemma encodeField_typed_witness : encodeField types 1 (field "x" 1 TYPE_INT32 false "") (VInt 300) = Done (DValue (VInt32 300))
  /\ go_typed message_type (field "x" 1 TYPE_INT32 false "") (DValue (VInt32 300)) = true.
Proof.
  assert (E : encodeField types 1 (field "x" 1 TYPE_INT32 false "") (VInt 300) = Done (DValue (VInt32 300))) by (vm_compute; reflexivity).
  split; [exact E|]. apply (encodeField_typed types 1 _ (VInt 300)); [|reflexivity|exact E]. intros [] f; split; discriminate.
Defined.


(** A repeated message is made from the whole slice, which is no map. *)
Lemma repeated_messages_fail : exists e, encodeField types 2 (field "l" 1 TYPE_MESSAGE true "place") (VSlice [VMap home]) = Failed e.
Proof. eexists. vm_compute. reflexivity. Qed.

(** An empty list panics where the slice is made with the type of its elements:
    as a parameter, and in the answer of a service. *)
Lemma empty_lists_panic : encodeField types 1 (field "l" 1 TYPE_INT32 true "") (VSlice []) = Panics
  /\ decodeField types 2 (DMessages []) (field "l" 1 TYPE_MESSAGE true "place") STRICT = Panics.
Proof. vm_compute. auto. Qed.

(** An element that cannot be converted is an int among int32s. *)
Lemma wrong_element_panics : encodeField types 1 (field "l" 1 TYPE_INT32 true "") (VSlice [VInt 1; VString "x"]) = Panics.
Proof. vm_compute. reflexivity. Qed.

(** Numbers that are too large for a field wrap. *)
Lemma wide_numbers_wrap : encodeField types 1 (field "x" 1 TYPE_INT32 false "") (VInt (2 ^ 32 + 1)) = Done (DValue (VInt32 1))
  /\ decodeField types 1 (DValue (VUint64 (2 ^ 64 - 1))) (field "x" 1 TYPE_UINT64 false "") STRICT = Done (VInt64 (-1)).
Proof. vm_compute. auto. Qed.

(** Fields are found by their position: a type whose numbers have a gap panics. *)
Lemma numbers_with_gap_panic : ConvertParamsToMessage types 1 (Some (mkMethod "gap" "gap")) "f" [VMap [("x", VInt 1)]] = Panics.
Proof. vm_compute. reflexivity. Qed.

(** The empty type is asked for under another name than it has. *)
Lemma empty_type_is_a_map : decodeMessage types 1 (Msg "google.protobuf.Empty" []) (types "google.protobuf.Empty") = Done (VMap []).
Proof. vm_compute. reflexivity. Qed.
